(* ===== verification/_CoqProject ===== *)
-Q . S2P
Prelude.v
Paths.v
Netip.v
Sha256.v
K8s.v
NicConfig.v
Subnet.v
Held.v
Pools.v
Json.v
Annotation.v
Store.v
Prog.v
Dhcp.v
Kernel.v
Attach.v
NetShape.v
AttachLogic.v
NicPrepare.v
Profile.v
Snapshot.v
Cdi.v
Checkpoint.v
State.v
Webhook.v
StoreInv.v
StateProps.v
Vmi.v
Lifecycle.v
Sandbox.v
AttachProps.v
Platform.v
AttachTrace.v
AttachConfig.v
AttachVM.v
AttachSteps.v
AttachRely.v
AttachParallel.v
Node.v
NodeExample.v
ParallelExample.v
Nri.v
Hooks.v
HookSteps.v
HookParallel.v
HookExample.v
System.v
Threads.v
Interleave.v
Driver.v
Serve.v
Command.v
Watch.v
Follow.v
Example.v
RunExample.v
EndToEnd.v
FollowExample.v
VmiExample.v
