(* ===== verification/Prelude.v ===== *)
(** * Verification of the kube-ovn NIC DRA driver

    The driver gives pods secondary NICs on kube-ovn Subnets through Kubernetes' dynamic
    resource allocation, without Multus.  This library models the Go code of the
    repository as Rocq functions, function by function, and proves what makes it correct.

    ** The program

    - A publisher turns Subnets into devices that the scheduler allocates: on every node
      (internal/profiles/nic), or centrally with the free addresses as capacity
      (cmd/kube-ovn-dra-kubeletplugin/publisher.go over internal/publisher).
    - A webhook refuses claims whose opaque configuration the driver would not accept
      (cmd/kube-ovn-dra-webhook).
    - On the node, kubelet asks the plugin to prepare a claim
      (cmd/kube-ovn-dra-kubeletplugin/driver.go, state.go): it waits for the address
      kube-ovn-controller writes to the pod (pkg/nicprepare, pkg/annotation), writes a CDI
      file and a checkpoint, and puts a specification of each NIC into a store
      (pkg/plumbing/store.go).
    - The container runtime reports sandboxes through NRI
      (cmd/kube-ovn-dra-kubeletplugin/nri.go, pkg/plumbing/nri.go): the NICs of the
      store are attached to a sandbox that starts and detached when it stops.
    - Attaching a NIC (pkg/plumbing/plumbing.go, plumbing_linux.go) makes a veth pair,
      moves one end into the sandbox and configures it, and plugs the other one into the
      integration bridge of Open vSwitch.  A VM gets a tap and a bridge in the sandbox
      instead, and its guest learns the address from a DHCP server of the driver
      (pkg/plumbing/dhcp.go).
    - Plugin and publisher watch the cluster and refresh what they publish after a
      change (refresh.go, WatchDevices of internal/profiles/nic).

    ** The files

    - [Prelude]: errors and results, strings and bytes, 64-bit integers, map iteration
      orders, generic lemmas, the hint databases.
    - [Netip], [Sha256], [Json], [Paths]: the parts of Go's standard library the program
      computes with, executable.
    - [K8s]: the API objects, with the third-party packages as classes with laws.
    - [NicConfig]: api/.../nic/v1alpha1.  [Subnet], [Held], [Pools]: internal/publisher.
      [Snapshot]: the publisher of publisher.go.  [Profile]: internal/profiles.
    - [Annotation], [NicPrepare]: pkg/annotation, pkg/nicprepare.
    - [Store], [StoreInv], [Sandbox], [Dhcp]: the store, the sandbox events and the DHCP
      server of pkg/plumbing.
    - [Kernel]: the network of a node as the driver sees it, with the laws of the requests
      it makes.  [Attach]: the OVS datapath of plumbing.go and plumbing_linux.go.
      [NetShape], [AttachLogic]: views of a node, and the rules for reasoning on programs
      of the datapath.  [AttachProps]: the datapath keeps the contract of [Attacher].
      [AttachTrace]: what it never asks for.  [AttachConfig], [AttachVM]: how a NIC is
      wired.  [Node]: an executable network of a node that keeps the laws.
      [Platform]: the datapath over the steps of Linux or over the stubs of other systems.
    - [Prog]: programs of atomic actions.  [AttachSteps]: the datapath split at every call
      of the kernel, of Open vSwitch and of the table of DHCP servers.  [AttachRely]: what
      an attach may do to a node and what it needs others to leave alone, and a logic of
      triples that hold whatever others do in between.  [AttachParallel]: attaches and
      detaches of different NICs side by side.
    - [Cdi], [Checkpoint], [State], [Nri], [System]: cdi.go, checkpoint.go, state.go and
      vmi.go, nri.go, driver.go and refresh.go of the kubelet plugin.
    - [Vmi]: the merge patches of vmi.go on the objects of the cluster.
    - [StateProps], [Lifecycle]: the correctness of prepare and unprepare.
    - [Hooks]: the hooks and the retries of [Nri] as programs over an interface, the calls
      that they make ([Primitives]).  [HookSteps]: over the calls of the kernel.
      [HookParallel]: hooks of different pods side by side.
    - [Threads]: the hooks with an attach as one action, and the operations of [State] as
      programs.  [Interleave]: these programs side by side, as the goroutines of the
      plugin run.
    - [Driver]: flags, the start of the driver, publish modes and the health service
      (main.go, driver.go, health.go).
    - [Watch], [Follow]: the watch and the refresh loop, in the plugin and the publisher.
    - [Webhook], [Serve]: cmd/kube-ovn-dra-webhook, admission and server.
    - [Command]: the three commands, pkg/flags, and the publisher under leader election.
    - [EndToEnd]: the plugin with the OVS datapath, from the claim to the wire.
    - [Example], [RunExample], [NodeExample], [ParallelExample], [HookExample],
      [FollowExample], [VmiExample]: a concrete node, its threads, its network, a changing
      cluster and a VM on which the theorems on the whole plugin apply.

    ** How the code is modelled

    A Go function with an error returns a [result] (or an [option error]); errors keep
    their format and arguments.  State is passed explicitly; a function that changes
    shared state returns it, on its error paths too.  The datapath is written in a monad
    of programs with errors, panics and deferred calls over the state of the node.  What
    the environment answers (the API server, the disk, the CDI directory, the order of a
    Go map) is an argument or a class, so the theorems hold for all answers; a Go map is
    ranged over in an arbitrary order ([GoImpl]).  Counts are 64-bit with wrap-around
    where the code adds them.  A run of the plugin is a sequence of operations with failures
    and restarts ([System.runs]); it keeps the claims that are gone: those whose last
    unprepare failed, so that their NICs may be out of the store and still in the
    checkpoint.  The theorems on runs are about the other claims.  The operations are also programs of atomic actions, the
    ones the locks make atomic, and a run interleaves those of the hooks, the retries, the
    calls of kubelet and the refreshes, with crashes between them
    ([Interleave.conf_step]); there an attach is one action.  In [AttachParallel.fleet_step]
    and [HookParallel.crew_step] an action is one call of the kernel, of Open vSwitch or of a
    table with a lock.  The refresh loop runs beside the operations, with changes of the
    cluster and the delivery of their events as steps of their own ([Watch.loop_step]).

    The classes stand for code outside the repository: [K8s] (validation helpers, limits
    of the API), [Semantic] (comparison of objects), [Poller]
    (wait.PollUntilContextTimeout), [CDI] (the CDI cache), [Codec] and
    [CheckpointManager] (JSON of the checkpoint, kubelet's checkpoint manager),
    [ConfigDecoder], [ReviewCodec] and [BodyDecoder] (decoding of Kubernetes objects),
    [Dhcp4] (packets), [Cli] (urfave/cli), [ApiServer] (merge patches), [Kernel] (netlink, sysctl, iproute2 and
    ovs-vsctl).  A port is known by its name and its bridge, and a lookup of a link may fail
    for other reasons than that the link does not exist.  [Profile] and [Attacher] are interfaces of the program itself.  Every class
    of laws has an instance, used by the witnesses.  The contract of an attacher is over a
    view of the node ([Sandbox.Datapath]): a NIC is placed when it is in its sandbox under
    its name and its host end on the bridge with its identifier, and its name is free for it
    when nothing else has it there; for the OVS datapath that is [AttachProps.inside],
    [AttachProps.bound] and [AttachProps.fits].

    Recursion is structural.  Where it is not in the code, fuel is used with a bound that
    is enough: eight groups for an IPv6 address, since each stores two of its sixteen
    bytes; twice the length of a text for JSON, since every step but one consumes a byte;
    the length of an option for its decoder.  [poll_budget] is the number of reads before
    a deadline.

    ** What is proved

    - The plugin as a whole: after every run the NICs of checkpointed claims that are not
      gone are in the store, the NICs of a pod have distinct names, and a sandbox that
      starts with these names free has the NICs in it under them and on the integration
      bridge; the same in every interleaving of the plugin's threads, and what a sandbox
      that stops during a retry comes to.
    - Parallelism in the datapath: NICs that have no device in common are attached and
      detached side by side as if alone, when their names are free, and so are the sandboxes
      of different pods, call of the kernel by call; run alone, the split programs are the operations.  Two attaches
      of one NIC are not safe: a synchronization beside a retry may lose it.
    - The datapath: it keeps the contract the sandbox events rely on, for every node that
      keeps the laws; a NIC of a pod and of a VM is wired as its specification says;
      detaching leaves nothing, but for a host end whose lookup fails; no default route is ever asked for; names fit the kernel;
      and what happens when a name is taken or a route cannot be encoded.
    - Prepare and unprepare: what kubelet gets, idempotence, the round trip, restarts,
      precedence of configurations; the annotations of a VMI; and what their failures
      leave behind.
    - The store refines finite maps; a sandbox start is all or nothing; a
      synchronization and its retries reach every running sandbox.
    - Resolving: the pod a claim is prepared for is characterized exactly, and what a
      resolved NIC is; waiting returns exactly the first complete allocation.
    - Publishing: the capacities are what the scheduler must see, when no address belongs to
      two claims, and what they are otherwise; both publish modes agree, a device always has
      room, device names are labels and collide only
      on a digest, events are recorded exactly on changes.
    - Following: no change of the cluster is lost by the refresh loop of the plugin, once the
      informers found something, or of the publisher, the loop settles within a bound; and
      what a deletion of everything before that, a failed refresh, a failed publication or
      a device that vanished leave behind.
    - The webhook admits only what the driver applies; readiness agrees with what prepare
      refuses, and what happens before the NRI plugin is there.
    - The commands: they agree on the driver name, the health services of plugins with pod
      UIDs of one length never dial each other's sockets, and the publisher ends with the error of publishing and with no other.
    - DHCP: the route option decodes to the NIC's routes, a server answers its guest
      only; and when encoding panics.

    ** What is not modelled

    The informers, leader election and ResourceSlice controller of client-go are not part
    of the repository: informers appear as the events they deliver, in any order with
    everything else, an election by when it calls back.  TLS, the connections and the
    escaping of a socket's path in a URL are left out, as is generated code.
    The theorems with calls of the kernel as actions are on starts, synchronizations and
    retries of sandboxes of different pods; the stop of a sandbox, with its search for
    ports, and the calls of kubelet are interleaved with attaches as one action
    ([Interleave]).  A thread that switches its namespace has locked its OS thread: the
    switch, the one call it makes there and the way back are one action.  The kernel's own
    rules for the names of interfaces are not modelled.  A process may die at any point of a
    run, interleaved or not, but for the time after a prepare that was begun while a failed unprepare is not made up
    for: the checkpoint may then name an interface of a pod twice. *)

From Stdlib Require Export ZArith Ascii.
From stdpp Require Export base strings gmap list fin_maps sorting pretty.

(** ** Errors and results

    A Go error keeps its format string and its arguments uninterpreted, so two
    errors of the model are equal exactly when the code builds them at the same
    place from the same values.  [Wrapf] is [fmt.Errorf] with [%w], [Joined] is
    [errors.Join].  [NotFound] and [External] are the errors of code outside the
    program: the API server, the kernel, the runtime. *)
Inductive error :=
  | Errorf (format : string) (args : list string)
  | Wrapf (format : string) (args : list string) (err : error)
  | Joined (errs : list error)
  | NotFound (name : string)
  | External (msg : string).

(** A Go function that returns a value and an error. *)
Inductive result (A : Type) :=
  | Ok (a : A)
  | Err (e : error).
Arguments Ok {A} a.
Arguments Err {A} e.

#[export] Instance result_ret : MRet result := fun _ a => Ok a.
#[export] Instance result_bind : MBind result := fun _ _ f m =>
  match m with Ok a => f a | Err e => Err e end.
#[export] Instance result_fmap : FMap result := fun _ _ f m =>
  match m with Ok a => Ok (f a) | Err e => Err e end.
#[export] Instance error_inhabited : Inhabited error := populate (External "").

(** [if err != nil { return ..., fmt.Errorf(format, args..., err) }] *)
Definition wrap_err {A} (format : string) (args : list string) (m : result A) : result A :=
  match m with
  | Ok a => Ok a
  | Err e => Err (Wrapf format args e)
  end.

(** A function that returns only an error gives [None] for nil. *)
Definition check {A} (e : option error) (k : result A) : result A :=
  match e with Some e => Err e | None => k end.

(** [errors.Join]: nil when every argument is nil. *)
Definition errors_join (errs : list (option error)) : option error :=
  match omap id errs with
  | [] => None
  | es => Some (Joined es)
  end.

Definition is_ok {A} (r : result A) : bool :=
  match r with Ok _ => true | Err _ => false end.

Definition err_of {A} (r : result A) : option error :=
  match r with Ok _ => None | Err e => Some e end.

(** [apierrors.IsNotFound], which looks through wrapped errors. *)
Fixpoint IsNotFound (e : error) : bool :=
  match e with
  | NotFound _ => true
  | Wrapf _ _ e => IsNotFound e
  | _ => false
  end.

(** ** 64-bit integers *)
Definition i64_min : Z := (- 2 ^ 63)%Z.
Definition i64_max : Z := (2 ^ 63 - 1)%Z.

(** Two's complement wrap-around of Go's [int64] arithmetic. *)
Definition i64 (z : Z) : Z := ((z + 2 ^ 63) mod 2 ^ 64 - 2 ^ 63)%Z.
Definition add64 (x y : Z) : Z := i64 (x + y).

(** ** float64

    The values JSON numbers decode to: [FFin m e] is [m * 2^e]. *)
Inductive f64 :=
  | FNaN
  | FInf (neg : bool)
  | FFin (m e : Z).

Definition f64_is_nan (f : f64) : bool := match f with FNaN => true | _ => false end.

(** [m * 2^e] compared with the integer [n]. *)
Definition f64_lt (f : f64) (n : Z) : bool :=
  match f with
  | FNaN => false
  | FInf neg => neg
  | FFin m e => if (0 <=? e)%Z then (m * 2 ^ e <? n)%Z else (m <? n * 2 ^ (- e))%Z
  end.

Definition f64_ge (f : f64) (n : Z) : bool :=
  match f with
  | FNaN => false
  | FInf neg => negb neg
  | FFin m e => if (0 <=? e)%Z then (n <=? m * 2 ^ e)%Z else (n * 2 ^ (- e) <=? m)%Z
  end.

(** Truncation toward zero of a finite value. *)
Definition f64_trunc (m e : Z) : Z :=
  if (0 <=? e)%Z then (m * 2 ^ e)%Z else Z.quot m (2 ^ (- e)).

(** ** What Go leaves open

    [map_range site m] is the order in which the range statement [site] visits the
    map [m]: any permutation of its entries, a different one for every statement.
    [f64_out_of_range] is the implementation-specific result of converting a
    float64 to int64 when the value does not fit.  [sscan_f64] is [fmt.Sscan] into
    a float64. *)
Class GoImpl := {
  map_range {K} `{Countable K} {A} (site : nat) (m : gmap K A) : list (K * A);
  map_range_perm {K} `{Countable K} {A} site (m : gmap K A) :
    map_range site m ≡ₚ map_to_list m;
  f64_out_of_range : f64 → Z;
  sscan_f64 : string → result f64;
}.

Definition f64_to_i64 `{GoImpl} (f : f64) : Z :=
  match f with
  | FFin m e =>
      let t := f64_trunc m e in
      if decide (i64_min <= t <= i64_max)%Z then t else f64_out_of_range f
  | _ => f64_out_of_range f
  end.

(** ** Strings: the parts of Go's [strings] package the code uses

    Go strings are byte sequences, as Rocq's are.  Case mapping and white space
    are those of ASCII, which is all that Kubernetes names and kube-ovn's
    annotations contain. *)

Fixpoint str_len (s : string) : nat :=
  match s with EmptyString => 0 | String _ s => S (str_len s) end.

Fixpoint contains_byte (c : ascii) (s : string) : bool :=
  match s with
  | EmptyString => false
  | String d s => bool_decide (c = d) || contains_byte c s
  end.

(** [strings.ContainsAny] *)
Fixpoint contains_any (s chars : string) : bool :=
  match s with
  | EmptyString => false
  | String c s => contains_byte c chars || contains_any s chars
  end.

(** [strings.Cut] at a one-byte separator: what precedes it, what follows it, and
    whether it was found. *)
Fixpoint cut (c : ascii) (s : string) : string * string * bool :=
  match s with
  | EmptyString => (EmptyString, EmptyString, false)
  | String d s' =>
      if decide (c = d) then (EmptyString, s', true)
      else let '(a, b, found) := cut c s' in (String d a, b, found)
  end.

(** [strings.Split] at a one-byte separator. *)
Fixpoint split (c : ascii) (s : string) : list string :=
  match s with
  | EmptyString => [EmptyString]
  | String d s' =>
      if decide (c = d) then EmptyString :: split c s'
      else match split c s' with
           | [] => [String d EmptyString]
           | w :: ws => String d w :: ws
           end
  end.

Fixpoint str_map (f : ascii → ascii) (s : string) : string :=
  match s with EmptyString => EmptyString | String c s => String (f c) (str_map f s) end.

Fixpoint str_forall (p : ascii → bool) (s : string) : bool :=
  match s with EmptyString => true | String c s => p c && str_forall p s end.

Fixpoint str_take (n : nat) (s : string) : string :=
  match n, s with
  | S n, String c s => String c (str_take n s)
  | _, _ => EmptyString
  end.

Fixpoint str_drop (n : nat) (s : string) : string :=
  match n, s with
  | S n, String _ s => str_drop n s
  | _, s => s
  end.

(** [strings.TrimLeft] and [strings.TrimRight] of the bytes [p] accepts. *)
Fixpoint trim_left (p : ascii → bool) (s : string) : string :=
  match s with
  | EmptyString => EmptyString
  | String c s' => if p c then trim_left p s' else s
  end.

Fixpoint trim_right (p : ascii → bool) (s : string) : string :=
  match s with
  | EmptyString => EmptyString
  | String c s' =>
      match trim_right p s' with
      | EmptyString => if p c then EmptyString else String c EmptyString
      | t => String c t
      end
  end.

Definition trim (p : ascii → bool) (s : string) : string := trim_right p (trim_left p s).

(** [strings.TrimPrefix] *)
Fixpoint trim_prefix_opt (prefix s : string) : option string :=
  match prefix, s with
  | EmptyString, s => Some s
  | String c prefix, String d s => if decide (c = d) then trim_prefix_opt prefix s else None
  | _, _ => None
  end.
Definition trim_prefix (s prefix : string) : string := default s (trim_prefix_opt prefix s).

(** [strings.Join] *)
Definition join (sep : string) (l : list string) : string := String.concat sep l.

Definition code (c : ascii) : N := N_of_ascii c.
Definition in_range (lo hi c : ascii) : bool := (code lo <=? code c)%N && (code c <=? code hi)%N.
Definition is_lower (c : ascii) : bool := in_range "a" "z" c.
Definition is_upper (c : ascii) : bool := in_range "A" "Z" c.
Definition is_digit (c : ascii) : bool := in_range "0" "9" c.
Definition is_byte (d c : ascii) : bool := bool_decide (c = d).
Definition is_space (c : ascii) : bool :=
  bool_decide (c = " "%char) || ((9 <=? code c)%N && (code c <=? 13)%N).

Definition to_lower_byte (c : ascii) : ascii :=
  if is_upper c then ascii_of_N (code c + 32) else c.
Definition to_upper_byte (c : ascii) : ascii :=
  if is_lower c then ascii_of_N (code c - 32) else c.
Definition to_lower : string → string := str_map to_lower_byte.
Definition to_upper : string → string := str_map to_upper_byte.
Definition trim_space : string → string := trim is_space.

(** [regexp.ReplaceAllString] of maximal runs of the bytes [p] accepts, i.e. of the
    expression [[...]+]; [prev] says whether the previous byte was in such a run. *)
Fixpoint replace_runs (p : ascii → bool) (repl : ascii) (prev : bool) (s : string) : string :=
  match s with
  | EmptyString => EmptyString
  | String c s =>
      if p c then
        if prev then replace_runs p repl true s
        else String repl (replace_runs p repl true s)
      else String c (replace_runs p repl false s)
  end.

(** The value of a decimal digit. *)
Definition digit_val (c : ascii) : Z := Z.of_N (code c - code "0").

(** [bool] as [fmt]'s [%t] prints it. *)
Definition show_bool (b : bool) : string := if b then "true" else "false".

(** ** Automation *)

Create HintDb dra.
Create Rewrite HintDb dra.

(** Case analysis on every match of the goal or of a hypothesis. *)
Ltac destruct_match :=
  match goal with
  | |- context [match ?x with _ => _ end] => destruct x eqn:?
  | H : context [match ?x with _ => _ end] |- _ => destruct x eqn:?
  end.

(** Cases of an equation between results or options, keeping the live ones. *)
Ltac inv_ok H := simpl in H; repeat (case_match; simplify_eq/=; try discriminate).

(** Finish a goal from the hypotheses, the record projections and the hints. *)
Ltac finish := simplify_eq/=; eauto with dra; try lia; try congruence.

(** ** Lemmas on results *)

Lemma bind_Ok {A B} (m : result A) (f : A → result B) b :
  (m ≫= f) = Ok b ↔ ∃ a, m = Ok a ∧ f a = Ok b.
Proof. destruct m; naive_solver. Qed.

Lemma wrap_err_Ok {A} fmt args (m : result A) a :
  wrap_err fmt args m = Ok a ↔ m = Ok a.
Proof. destruct m; naive_solver. Qed.

Lemma errors_join_None errs :
  errors_join errs = None ↔ Forall (λ e, e = None) errs.
Proof.
  unfold errors_join. induction errs as [|[e|] errs IH]; simpl.
  - split; auto.
  - split; [done|]. intros H. by inversion H.
  - rewrite IH. split; [by constructor|]. by inversion 1.
Qed.

(** ** Lemmas on integers *)

Lemma i64_id z : (i64_min <= z <= i64_max)%Z → i64 z = z.
Proof. unfold i64, i64_min, i64_max. intros. rewrite Z.mod_small; lia. Qed.

Lemma i64_range z : (i64_min <= i64 z <= i64_max)%Z.
Proof.
  unfold i64, i64_min, i64_max.
  pose proof (Z.mod_pos_bound (z + 2 ^ 63) (2 ^ 64) ltac:(lia)). lia.
Qed.

Lemma i64_i64_add_l x y : i64 (i64 x + y) = i64 (x + y).
Proof.
  unfold i64. f_equal.
  replace ((x + 2 ^ 63) mod 2 ^ 64 - 2 ^ 63 + y + 2 ^ 63)%Z
    with ((x + 2 ^ 63) mod 2 ^ 64 + y)%Z by lia.
  rewrite Z.add_mod_idemp_l by lia. f_equal. lia.
Qed.

Lemma add64_id x y : (i64_min <= x + y <= i64_max)%Z → add64 x y = (x + y)%Z.
Proof. apply i64_id. Qed.

(** ** Lemmas on strings *)

(** stdpp blocks the simplification of [+:+]; these two equations replace it. *)
Lemma str_app_cons c s t : String c s +:+ t = String c (s +:+ t).
Proof. done. Qed.

Lemma str_app_nil t : EmptyString +:+ t = t.
Proof. done. Qed.

Ltac str_simpl := repeat (rewrite str_app_cons || rewrite str_app_nil); simpl.

Lemma str_len_app s t : str_len (s +:+ t) = str_len s + str_len t.
Proof. induction s as [|c s IH]; str_simpl; [done|]. by rewrite IH. Qed.

Lemma str_len_0 s : str_len s = 0 ↔ s = EmptyString.
Proof. by destruct s. Qed.

Lemma str_app_assoc s t u : (s +:+ t) +:+ u = s +:+ (t +:+ u).
Proof. induction s as [|c s IH]; str_simpl; [done|]. by rewrite IH. Qed.

Lemma str_app_nil_r s : s +:+ EmptyString = s.
Proof. induction s as [|c s IH]; str_simpl; [done|]. by rewrite IH. Qed.

Lemma str_app_inj_l s t u : s +:+ t = s +:+ u → t = u.
Proof. induction s; str_simpl; [done|]. intros [=]. auto. Qed.

Lemma str_app_inj_len s s' t t' :
  str_len s = str_len s' → s +:+ t = s' +:+ t' → s = s' ∧ t = t'.
Proof.
  revert s'. induction s as [|c s IH]; intros [|c' s']; str_simpl; try done.
  intros [= Hl] [= -> Ht]. by destruct (IH s' Hl Ht) as [-> ->].
Qed.

Lemma str_app_inj_suffix s s' t t' :
  str_len t = str_len t' → s +:+ t = s' +:+ t' → t = t'.
Proof.
  intros Hl E. apply (str_app_inj_len s s' t t'); [|done].
  apply (f_equal str_len) in E. rewrite !str_len_app in E. lia.
Qed.

Lemma str_len_take n s : str_len (str_take n s) = min n (str_len s).
Proof. revert s. induction n as [|n IH]; intros [|c s]; simpl; auto. Qed.

Lemma str_take_drop n s : str_take n s +:+ str_drop n s = s.
Proof.
  revert s. induction n as [|n IH]; intros [|c s]; try done. simpl.
  by rewrite str_app_cons, IH.
Qed.

Lemma str_forall_app p s t : str_forall p (s +:+ t) = str_forall p s && str_forall p t.
Proof. induction s as [|c s IH]; str_simpl; [done|]. rewrite IH. by rewrite andb_assoc. Qed.

Lemma str_forall_take p n s : str_forall p s = true → str_forall p (str_take n s) = true.
Proof.
  revert s. induction n as [|n IH]; intros [|c s]; simpl; auto.
  rewrite !andb_true_iff. naive_solver.
Qed.

Lemma str_forall_impl (p q : ascii → bool) s :
  (∀ c, p c = true → q c = true) → str_forall p s = true → str_forall q s = true.
Proof.
  intros Hpq. induction s as [|c s IH]; simpl; [done|].
  rewrite !andb_true_iff. naive_solver.
Qed.

Lemma str_forall_trim_left p q s : str_forall p s = true → str_forall p (trim_left q s) = true.
Proof.
  induction s as [|c s IH]; simpl; [done|]. destruct (q c); [|done].
  rewrite andb_true_iff. naive_solver.
Qed.

Lemma str_forall_trim_right p q s : str_forall p s = true → str_forall p (trim_right q s) = true.
Proof.
  induction s as [|c s IH]; simpl; [done|]. rewrite andb_true_iff. intros [Hc Hs].
  specialize (IH Hs). destruct (trim_right q s) as [|d t]; [destruct (q c)|]; simpl in *;
    rewrite ?Hc; done.
Qed.

Lemma str_len_trim_right q s : str_len (trim_right q s) ≤ str_len s.
Proof.
  induction s as [|c s IH]; simpl; [done|].
  destruct (trim_right q s) as [|d t]; [destruct (q c)|]; simpl in *; lia.
Qed.

Lemma cut_found c s a b : cut c s = (a, b, true) → s = a +:+ String c b.
Proof.
  revert a b. induction s as [|d s IH]; simpl; intros a b; [done|].
  case_decide; [naive_solver|]. destruct (cut c s) as [[a' b'] f'] eqn:E.
  intros [= <- <- ->]. rewrite str_app_cons. f_equal. eauto.
Qed.

Lemma cut_not_found c s a b : cut c s = (a, b, false) → a = s ∧ b = EmptyString.
Proof.
  revert a b. induction s as [|d s IH]; simpl; intros a b; [naive_solver|].
  case_decide; [done|]. destruct (cut c s) as [[a' b'] f'] eqn:E.
  intros [= <- <- ->]. destruct (IH _ _ eq_refl) as [-> ->]. done.
Qed.

Lemma contains_byte_app c s t : contains_byte c (s +:+ t) = contains_byte c s || contains_byte c t.
Proof. induction s as [|d s IH]; str_simpl; [done|]. by rewrite IH, orb_assoc. Qed.

Lemma cut_before_clean c s a b f : cut c s = (a, b, f) → contains_byte c a = false.
Proof.
  revert a b f. induction s as [|d s IH]; simpl; intros a b f; [by intros [= <- _ _]|].
  case_decide as Hd; [by intros [= <- _ _]|]. destruct (cut c s) as [[a' b'] f'] eqn:E.
  intros [= <- _ _]. simpl. rewrite (IH _ _ _ eq_refl), orb_false_r.
  by apply bool_decide_eq_false.
Qed.

Lemma split_not_nil c s : split c s ≠ [].
Proof. destruct s as [|d s]; simpl; [done|]. case_decide; [done|]. by destruct (split c s). Qed.

Lemma split_join c s : join (String c EmptyString) (split c s) = s.
Proof.
  unfold join. induction s as [|d s IH]; simpl; [done|]. case_decide as Hd.
  - subst d. destruct (split c s) as [|w ws] eqn:E; [by apply split_not_nil in E|].
    simpl in *. by rewrite IH.
  - destruct (split c s) as [|w ws] eqn:E; [by apply split_not_nil in E|].
    simpl in *. destruct ws; simpl in *; by rewrite <- IH.
Qed.

(** ** Lemmas on lists and maps *)

Lemma filter_none {A} (P : A → Prop) `{∀ x, Decision (P x)} (l : list A) :
  (∀ x, x ∈ l → ¬ P x) → filter P l = [].
Proof.
  induction l as [|x l IH]; [done|]. intros HP. rewrite filter_cons.
  rewrite decide_False by (apply HP; set_solver). apply IH. set_solver.
Qed.

Lemma NoDup_fmap_filter {A B} (f : A → B) (P : A → Prop) `{∀ x, Decision (P x)} (l : list A) :
  NoDup (f <$> l) → NoDup (f <$> filter P l).
Proof. intros Hnd. eapply sublist_NoDup; [exact Hnd|]. apply fmap_sublist, sublist_filter. Qed.

Section map_range.
Context `{G : GoImpl} {K : Type} `{Countable K} {A : Type}.

Lemma map_range_elem site (m : gmap K A) k a : (k, a) ∈ map_range site m ↔ m !! k = Some a.
Proof. rewrite map_range_perm. apply elem_of_map_to_list. Qed.

Lemma map_range_NoDup site (m : gmap K A) : NoDup (map_range site m).*1.
Proof.
  assert ((map_range site m).*1 ≡ₚ (map_to_list m).*1) as -> by (by rewrite map_range_perm).
  apply NoDup_fst_map_to_list.
Qed.

(** A range statement visits exactly the map. *)
Lemma map_range_to_map site (m : gmap K A) : list_to_map (map_range site m) = m.
Proof. symmetry. apply list_to_map_flip. by rewrite map_range_perm. Qed.

Lemma map_range_empty site : map_range site (∅ : gmap K A) = [].
Proof. apply Permutation_nil_r. by rewrite map_range_perm, map_to_list_empty. Qed.

End map_range.

#[export] Hint Resolve map_range_NoDup : dra.
#[export] Hint Resolve i64_range split_not_nil : dra.
#[export] Hint Rewrite str_len_app str_len_take str_forall_app : dra.
