(* ===== verification/Paths.v ===== *)
(** * Paths of files (Go's path and path/filepath)

    [Clean] and [Join], which the kubelet plugin builds its directories and sockets with,
    and that joining keeps different names apart. *)

From S2P Require Import Prelude.

Definition slash : ascii := "/".

Definition rooted (p : string) : bool := match p with String c _ => bool_decide (c = slash) | EmptyString => false end.

(** One element; [out] is what was kept so far, the last one first. *)
Definition clean_step (root : bool) (out : list string) (c : string) : list string :=
  if bool_decide (c = EmptyString) || bool_decide (c = ".") then out
  else if bool_decide (c = "..") then
    match out with
    | last :: rest => if bool_decide (last = "..") then ".." :: out else rest
    | [] => if root then [] else [".."]
    end
  else c :: out.

(** The elements of the shortest path that is equivalent. *)
Definition elements_of (p : string) : list string := reverse (foldl (clean_step (rooted p)) [] (split slash p)).

Definition render (root : bool) (l : list string) : string :=
  if root then String slash (join "/" l) else match l with [] => "." | _ => join "/" l end.

Definition Clean (p : string) : string := render (rooted p) (elements_of p).

Fixpoint drop_empty (l : list string) : list string :=
  match l with
  | [] => []
  | s :: l' => if bool_decide (s = EmptyString) then drop_empty l' else l
  end.

Definition Join (l : list string) : string :=
  match drop_empty l with [] => EmptyString | l => Clean (join "/" l) end.

Example clean_examples :
  Clean <$> ["a//b/../c/."; "/../a"; ""; "../../x/.."; "/"; "/var/lib/kubelet/plugins/"] =
  ["a/c"; "/a"; "."; "../.."; "/"; "/var/lib/kubelet/plugins"].
Proof. reflexivity. Qed.

(** ** Lemmas *)

(** A name of one element. *)
Definition plain (n : string) : Prop :=
  contains_byte slash n = false ∧ n ≠ EmptyString ∧ n ≠ "." ∧ n ≠ "..".

Lemma split_app c s t : split c (s +:+ String c t) = split c s ++ split c t.
Proof.
  induction s as [|d s IH]; rewrite ?str_app_cons, ?str_app_nil; cbn [split].
  - by rewrite decide_True.
  - case_decide; rewrite IH; [done|]. destruct (split c s) eqn:E; [by apply split_not_nil in E|done].
Qed.

Lemma split_one c s : contains_byte c s = false → split c s = [s].
Proof.
  induction s as [|d s IH]; cbn [split contains_byte]; [done|]. intros [Hd Hs]%orb_false_iff.
  apply bool_decide_eq_false in Hd. rewrite decide_False by congruence. by rewrite (IH Hs).
Qed.

Lemma join_cons x l : l ≠ [] → join "/" (x :: l) = x +:+ String slash (join "/" l).
Proof. by destruct l. Qed.

Lemma join_snoc l n : l ≠ [] → join "/" (l ++ [n]) = join "/" l +:+ String slash n.
Proof.
  intros Hl. induction l as [|x l IH]; [done|]. destruct (decide (l = [])) as [->|Hne]; [done|].
  rewrite <- app_comm_cons, !join_cons by (try done; by destruct l). rewrite IH by done.
  by rewrite str_app_assoc, str_app_cons.
Qed.

Lemma split_elements l : Forall (λ n, contains_byte slash n = false) l → l ≠ [] → split slash (join "/" l) = l.
Proof.
  induction l as [|x l IH]; [done|]. intros [Hx Hl]%Forall_cons _. destruct (decide (l = [])) as [->|Hne]; [by apply split_one|].
  by rewrite join_cons, split_app, (split_one _ x), IH.
Qed.

(** What [Clean] keeps: leading [..] unless the path is rooted, then names. *)
Inductive normal (root : bool) : list string → Prop :=
  | normal_up k : (root = true → k = 0) → normal root (replicate k "..")
  | normal_down out n : normal root out → plain n → normal root (n :: out).

Lemma clean_step_plain root out n : plain n → clean_step root out n = n :: out.
Proof. intros (_ & H1 & H2 & H3). unfold clean_step. by rewrite !bool_decide_false. Qed.

Lemma clean_step_normal root out c : contains_byte slash c = false → normal root out → normal root (clean_step root out c).
Proof.
  intros Hc Hn. unfold clean_step. destruct (bool_decide (c = EmptyString)) eqn:E1; [done|].
  destruct (bool_decide (c = ".")) eqn:E2; [done|]. simpl. apply bool_decide_eq_false in E1, E2.
  case_bool_decide as E3; [|apply normal_down; [done|by split_and!]].
  destruct Hn as [k Hk|out n Hn (_ & _ & _ & Hp)]; [|by rewrite bool_decide_false].
  destruct k as [|k]; simpl.
  - destruct root; [by apply (normal_up true 0)|by apply (normal_up false 1)].
  - apply (normal_up root (S (S k))). intros H. by apply Hk in H.
Qed.

Lemma contains_byte_split c s : Forall (λ n, contains_byte c n = false) (split c s).
Proof.
  induction s as [|d s IH]; cbn [split]; [by repeat constructor|]. case_decide as Hd; [by constructor|].
  destruct (split c s) as [|w ws] eqn:E; [by apply split_not_nil in E|]. apply Forall_cons in IH as [Hw Hws]. constructor; [|done].
  cbn [contains_byte]. by rewrite bool_decide_false by congruence.
Qed.

Lemma elements_normal p : normal (rooted p) (reverse (elements_of p)).
Proof.
  unfold elements_of. rewrite reverse_involutive. pose proof (contains_byte_split slash p) as HF.
  assert (normal (rooted p) []) as H0 by apply (normal_up _ 0 (λ _, eq_refl)).
  revert H0 HF. generalize (rooted p), (split slash p), (@nil string). intros root l. induction l as [|c l IH]; intros out Ho HF; simpl; [done|].
  apply Forall_cons in HF as [Hc HF]. apply IH; [by apply clean_step_normal|done].
Qed.

Lemma normal_fold root out : normal root out → foldl (clean_step root) [] (reverse out) = out.
Proof.
  induction 1 as [k Hk|out n Hn IH Hp].
  - rewrite reverse_replicate. destruct root; [by rewrite Hk|]. clear Hk.
    assert (∀ j, foldl (clean_step false) (replicate j "..") (replicate k "..") = replicate (k + j) "..") as H; [|specialize (H 0); by rewrite Nat.add_0_r in H].
    induction k as [|k IH]; intros j; [done|].
    replace (S k + j) with (k + S j) by lia. rewrite <- IH. cbn [replicate foldl]. f_equal. by destruct j.
  - by rewrite reverse_cons, foldl_app, IH, <- (clean_step_plain root out n Hp).
Qed.

Lemma normal_names root out : normal root out → Forall (λ n, contains_byte slash n = false ∧ n ≠ EmptyString) out.
Proof. induction 1 as [k Hk|out n Hn IH (Hp & He & _)]; [apply Forall_replicate; by split|by constructor]. Qed.

Lemma rooted_join x l : x ≠ EmptyString → rooted (join "/" (x :: l)) = rooted x.
Proof. destruct x as [|c x]; [done|]. intros _. by destruct l. Qed.

Lemma rooted_clean_name c s : contains_byte slash (String c s) = false → rooted (String c s) = false.
Proof. cbn. intros [H _]%orb_false_iff. apply bool_decide_eq_false in H. apply bool_decide_eq_false. congruence. Qed.

(** Cleaning again changes nothing. *)
Lemma render_elements root l :
  normal root (reverse l) → rooted (render root l) = root ∧ elements_of (render root l) = l.
Proof.
  intros Hn. pose proof (normal_fold _ _ Hn) as Hf. rewrite reverse_involutive in Hf.
  pose proof (normal_names _ _ Hn) as HF. apply Forall_reverse in HF. rewrite reverse_involutive in HF.
  assert (rooted (render root l) = root) as Hr.
  { unfold render. destruct root; [done|]. destruct l as [|x l]; [done|]. apply Forall_cons in HF as [[Hx He] _].
    rewrite rooted_join by done. destruct x; [done|]. by apply rooted_clean_name. }
  split; [done|]. unfold elements_of. rewrite Hr. transitivity (reverse (reverse l)); [f_equal; rewrite <- Hf|apply reverse_involutive].
  destruct (decide (l = [])) as [->|Hl]; [by destruct root|].
  assert (split slash (join "/" l) = l) as Hs by (apply split_elements; [by eapply Forall_impl; [exact HF|intros ? []]|done]).
  unfold render. destruct root; [cbn [split]; rewrite decide_True by done; cbn [foldl]; by rewrite Hs|].
  destruct l; [done|]. by rewrite Hs.
Qed.

Lemma Clean_idempotent p : Clean (Clean p) = Clean p.
Proof.
  unfold Clean at 1 2. destruct (render_elements (rooted p) (elements_of p) (elements_normal p)) as [Hr He].
  unfold Clean in *. by rewrite Hr, He.
Qed.

(** ** Joining a directory and a name *)

Lemma Join_name dir n :
  dir ≠ EmptyString → plain n →
  Join [dir; n] = render (rooted dir) (elements_of dir ++ [n]) ∧
  rooted (Join [dir; n]) = rooted dir ∧ elements_of (Join [dir; n]) = elements_of dir ++ [n].
Proof.
  intros Hd Hn. assert (Join [dir; n] = render (rooted dir) (elements_of dir ++ [n])) as HJ.
  { unfold Join. cbn [drop_empty]. rewrite bool_decide_false by done. unfold Clean. rewrite rooted_join by done. f_equal.
    unfold elements_of. rewrite rooted_join by done. rewrite join_cons by done. cbn [join String.concat].
    rewrite split_app, (split_one _ n) by apply Hn. rewrite foldl_app. cbn [foldl].
    by rewrite (clean_step_plain _ _ _ Hn), reverse_cons. }
  split; [done|]. rewrite HJ. apply render_elements. rewrite reverse_app. apply normal_down; [apply elements_normal|done].
Qed.

(** Different names stay apart. *)
Lemma Join_inj dir dir' n n' :
  dir ≠ EmptyString → dir' ≠ EmptyString → plain n → plain n' → Join [dir; n] = Join [dir'; n'] →
  rooted dir = rooted dir' ∧ elements_of dir = elements_of dir' ∧ n = n'.
Proof.
  intros Hd Hd' Hn Hn' E. destruct (Join_name dir n) as (_ & Hr & He); [done..|].
  destruct (Join_name dir' n') as (_ & Hr' & He'); [done..|]. rewrite E in Hr, He. rewrite He' in He.
  apply app_inj_2 in He as [-> [= ->]]; [|done]. split_and!; congruence.
Qed.

Lemma Join_nonempty dir n : dir ≠ EmptyString → plain n → Join [dir; n] ≠ EmptyString.
Proof.
  intros Hd Hn E. destruct (Join_name dir n) as (_ & _ & He); [done..|]. rewrite E in He. cbn in He.
  by destruct (elements_of dir).
Qed.
