(* ===== verification/Netip.v ===== *)
(** * The address parsing of Go's [net] and [net/netip] packages

    The program reads every address, CIDR and gateway through [net.ParseIP],
    [net.ParseCIDR] and [netip.ParsePrefix].  They are modelled here after the
    standard library, byte by byte: dotted IPv4 without leading zeros, IPv6 with
    [::] and an embedded IPv4 tail, and zones. *)

From S2P Require Import Prelude.

Local Open Scope Z_scope.

(** [netip.Addr]: an IPv4 address, or an IPv6 one with its zone. *)
Inductive Addr :=
  | Addr4 (bytes : list Z)
  | Addr6 (bytes : list Z) (zone : string).

Definition Is4 (a : Addr) : bool := match a with Addr4 _ => true | _ => false end.
Definition BitLen (a : Addr) : Z := if Is4 a then 32 else 128.
Definition Zone (a : Addr) : string := match a with Addr4 _ => EmptyString | Addr6 _ z => z end.

Definition v4InV6Prefix : list Z := [0; 0; 0; 0; 0; 0; 0; 0; 0; 0; 255; 255].
Definition As16 (a : Addr) : list Z :=
  match a with Addr4 b => v4InV6Prefix ++ b | Addr6 b _ => b end.

(** [netip.parseIPv4Fields]: [first] and [prevdot] describe the position before
    [s], [val] and [digLen] the octet read so far, [fields] the octets stored. *)
Fixpoint parseIPv4Fields (s : string) (first prevdot : bool) (val : Z) (digLen : nat)
    (fields : list Z) : option (list Z) :=
  match s with
  | EmptyString =>
      if (length fields <? 3)%nat then None else Some (fields ++ [val])
  | String c s' =>
      if is_digit c then
        if (digLen =? 1)%nat && (val =? 0) then None
        else
          let val := val * 10 + digit_val c in
          if 255 <? val then None
          else parseIPv4Fields s' false false val (S digLen) fields
      else if is_byte "." c then
        if first || bool_decide (s' = EmptyString) || prevdot then None
        else if (length fields =? 3)%nat then None
        else parseIPv4Fields s' false true 0 0 (fields ++ [val])
      else None
  end.

Definition parseIPv4 (s : string) : option (list Z) := parseIPv4Fields s true false 0 0 [].

(** The value of a hexadecimal digit. *)
Definition hex_val (c : ascii) : option Z :=
  if is_digit c then Some (digit_val c)
  else if in_range "a" "f" c then Some (Z.of_N (code c - code "a") + 10)
  else if in_range "A" "F" c then Some (Z.of_N (code c - code "A") + 10)
  else None.

(** The digits of one IPv6 group: how many, their value, and what follows. *)
Fixpoint hex_group (s : string) (off : nat) (acc : Z) : option (nat * Z * string) :=
  match s with
  | EmptyString => Some (off, acc, s)
  | String c s' =>
      match hex_val c with
      | None => Some (off, acc, s)
      | Some v =>
          let acc := acc * 16 + v in
          if (3 <? off)%nat then None
          else if 65535 <? acc then None
          else hex_group s' (S off) acc
      end
  end.

(** The loop of [netip.parseIPv6]: [ip] holds the bytes stored so far, [ellipsis]
    the position of [::].  One iteration stores at least two of the sixteen bytes,
    so eight units of [fuel] reach the loop's own bound. *)
Fixpoint parseIPv6_loop (fuel : nat) (s : string) (ip : list Z) (ellipsis : option nat) :
    option (list Z * option nat * string) :=
  match fuel with
  | O => Some (ip, ellipsis, s)
  | S fuel =>
      match hex_group s 0 0 with
      | None => None
      | Some (off, acc, rest) =>
          if (off =? 0)%nat then None
          else
            let ip' := ip ++ [acc / 256; acc mod 256] in
            match rest with
            | EmptyString => Some (ip', ellipsis, EmptyString)
            | String c rest' =>
                if is_byte "." c then
                  if bool_decide (ellipsis = None) && negb (length ip =? 12)%nat then None
                  else if (16 <? length ip + 4)%nat then None
                  else match parseIPv4 s with
                       | None => None
                       | Some fields => Some (ip ++ fields, ellipsis, EmptyString)
                       end
                else if is_byte ":" c then
                  match rest' with
                  | EmptyString => None
                  | String d rest'' =>
                      if is_byte ":" d then
                        match ellipsis with
                        | Some _ => None
                        | None =>
                            let ellipsis := Some (length ip') in
                            if bool_decide (rest'' = EmptyString)
                            then Some (ip', ellipsis, EmptyString)
                            else parseIPv6_loop fuel rest'' ip' ellipsis
                        end
                      else parseIPv6_loop fuel rest' ip' ellipsis
                  end
                else None
            end
      end
  end.

(** [netip.parseIPv6] of a string without its zone. *)
Definition parseIPv6_nozone (s : string) : option (list Z) :=
  let '(ellipsis, s) :=
    match s with
    | String c (String d s') => if is_byte ":" c && is_byte ":" d then (Some 0%nat, s') else (None, s)
    | _ => (None, s)
    end in
  if bool_decide (ellipsis = Some 0%nat) && bool_decide (s = EmptyString)
  then Some (replicate 16 0)
  else
    match parseIPv6_loop 8 s [] ellipsis with
    | None => None
    | Some (ip, ellipsis, s) =>
        if negb (bool_decide (s = EmptyString)) then None
        else if (length ip <? 16)%nat then
          match ellipsis with
          | None => None
          | Some e => Some (take e ip ++ replicate (16 - length ip) 0 ++ drop e ip)
          end
        else match ellipsis with Some _ => None | None => Some ip end
    end.

Definition parseIPv6 (s : string) : option Addr :=
  let '(s, zone, found) := cut "%" s in
  if found && bool_decide (zone = EmptyString) then None
  else ip ← parseIPv6_nozone s; Some (Addr6 ip zone).

(** [netip.ParseAddr]: the first of [.], [:] and [%] decides. *)
Fixpoint ParseAddr_scan (rest s : string) : option Addr :=
  match rest with
  | EmptyString => None
  | String c rest =>
      if is_byte "." c then Addr4 <$> parseIPv4 s
      else if is_byte ":" c then parseIPv6 s
      else if is_byte "%" c then None
      else ParseAddr_scan rest s
  end.
Definition ParseAddr (s : string) : option Addr := ParseAddr_scan s s.

(** [net.ParseIP]: sixteen bytes, or nil; addresses with a zone are refused. *)
Definition ParseIP (s : string) : option (list Z) :=
  match ParseAddr s with
  | Some a => if bool_decide (Zone a = EmptyString) then Some (As16 a) else None
  | None => None
  end.

(** [net.IP.To4] *)
Definition To4 (ip : list Z) : option (list Z) :=
  if (length ip =? 4)%nat then Some ip
  else if (length ip =? 16)%nat && bool_decide (take 12 ip = v4InV6Prefix)
  then Some (drop 12 ip) else None.

Definition is_v4 (ip : list Z) : bool := match To4 ip with Some _ => true | None => false end.

(** [net.dtoi] of a whole string: decimal, below 0xFFFFFF. *)
Fixpoint dtoi_loop (s : string) (n : Z) : option Z :=
  match s with
  | EmptyString => Some n
  | String c s =>
      if is_digit c then
        let n := n * 10 + digit_val c in
        if 16777215 <=? n then None else dtoi_loop s n
      else None
  end.
Definition dtoi (s : string) : option Z :=
  match s with EmptyString => None | _ => dtoi_loop s 0 end.

(** [net.CIDRMask ones bits], byte by byte. *)
Definition mask_byte (k : Z) : Z :=
  if 8 <=? k then 255 else if k <=? 0 then 0 else 256 - 2 ^ (8 - k).
Definition CIDRMask (ones bits : Z) : list Z :=
  (λ i, mask_byte (ones - 8 * Z.of_nat i)) <$> seq 0 (Z.to_nat (bits / 8)).

(** [net.IP.Mask] for a mask of [net.CIDRMask]: a four-byte mask applies to the
    IPv4 part of an address. *)
Definition Mask_IP (ip mask : list Z) : list Z :=
  let ip := if (length mask =? 4)%nat && (length ip =? 16)%nat
               && bool_decide (take 12 ip = v4InV6Prefix) then drop 12 ip else ip in
  zip_with Z.land ip mask.

(** [net.IPNet]; the mask is always [CIDRMask ones bits], so its [Size] is
    [(ones, bits)]. *)
Record IPNet := { net_IP : list Z; mask_ones : Z; mask_bits : Z }.
Definition net_mask (n : IPNet) : list Z := CIDRMask (mask_ones n) (mask_bits n).

(** [net.ParseCIDR]: the address and its network. *)
Definition ParseCIDR (s : string) : option (list Z * IPNet) :=
  let '(addr, mask, found) := cut "/" s in
  if negb found then None
  else
    match ParseAddr addr with
    | None => None
    | Some a =>
        if negb (bool_decide (Zone a = EmptyString)) then None
        else
          match dtoi mask with
          | None => None
          | Some n =>
              if (n <? 0) || (BitLen a <? n) then None
              else Some (As16 a, {| net_IP := Mask_IP (As16 a) (CIDRMask n (BitLen a));
                                    mask_ones := n; mask_bits := BitLen a |})
          end
    end.

(** The text before and after the last occurrence of a byte. *)
Fixpoint cut_last (c : ascii) (s : string) : option (string * string) :=
  match s with
  | EmptyString => None
  | String d s' =>
      match cut_last c s' with
      | Some (a, b) => Some (String d a, b)
      | None => if decide (c = d) then Some (EmptyString, s') else None
      end
  end.

(** [netip.ParsePrefix]: the address and the prefix length. *)
Definition ParsePrefix (s : string) : option (Addr * Z) :=
  match cut_last "/" s with
  | None => None
  | Some (addr, bits) =>
      match ParseAddr addr with
      | None => None
      | Some a =>
          if negb (bool_decide (Zone a = EmptyString)) then None
          else if match bits with
                  | String c (String _ _) => negb (in_range "1" "9" c)
                  | _ => false
                  end then None
          else match dtoi bits with
               | None => None
               | Some n => if BitLen a <? n then None else Some (a, n)
               end
      end
  end.

(** ** Test vectors *)

Example parse_v4 : ParseIP "172.23.0.5" = Some (v4InV6Prefix ++ [172; 23; 0; 5]).
Proof. reflexivity. Qed.
Example parse_v4_zero : ParseIP "172.023.0.5" = None.
Proof. reflexivity. Qed.
Example parse_v6 :
  ParseIP "fd00:10:16::A" = Some [253; 0; 0; 16; 0; 22; 0; 0; 0; 0; 0; 0; 0; 0; 0; 10].
Proof. reflexivity. Qed.
Example parse_v6_mapped : ParseIP "::ffff:10.0.0.1" = Some (v4InV6Prefix ++ [10; 0; 0; 1]).
Proof. reflexivity. Qed.
Example parse_v6_bad : (ParseIP "fe80::1%eth0", ParseIP "1::2::3", ParseIP ":1") = (None, None, None).
Proof. reflexivity. Qed.
Example parse_cidr :
  ParseCIDR "172.23.0.5/20"
  = Some (v4InV6Prefix ++ [172; 23; 0; 5],
          {| net_IP := [172; 23; 0; 0]; mask_ones := 20; mask_bits := 32 |}).
Proof. reflexivity. Qed.
Example parse_prefix :
  (ParsePrefix "10.0.0.0/8", ParsePrefix "10.0.0.0/08", ParsePrefix "::/0")
  = (Some (Addr4 [10; 0; 0; 0], 8), None, Some (Addr6 (replicate 16 0) EmptyString, 0)).
Proof. reflexivity. Qed.

(** ** Lengths and masks *)

Lemma parseIPv4Fields_length s first prevdot val d fields out :
  (length fields ≤ 3)%nat → parseIPv4Fields s first prevdot val d fields = Some out → length out = 4%nat.
Proof.
  revert first prevdot val d fields. induction s as [|c s IH]; intros first prevdot val d fields Hf; cbn [parseIPv4Fields].
  - destruct (Nat.ltb_spec (length fields) 3); [done|]. intros [= <-]. rewrite length_app. cbn. lia.
  - destruct (is_digit c).
    + destruct (_ && _); [done|]. cbv zeta. destruct (_ <? _); [done|]. by apply IH.
    + destruct (is_byte _ c); [|done]. destruct (_ || _); [done|].
      destruct (Nat.eqb_spec (length fields) 3); [done|]. apply IH. rewrite length_app. cbn. lia.
Qed.

Lemma parseIPv4_length s out : parseIPv4 s = Some out → length out = 4%nat.
Proof. apply parseIPv4Fields_length. cbn. lia. Qed.

Lemma parseIPv6_loop_length fuel s ip e ip' e' s' :
  (length ip + 2 * fuel ≤ 16)%nat → parseIPv6_loop fuel s ip e = Some (ip', e', s') → (length ip' ≤ 16)%nat.
Proof.
  revert s ip e. induction fuel as [|fuel IH]; intros s ip e Hl; cbn [parseIPv6_loop].
  - intros [= <- _ _]. lia.
  - assert (∀ acc : Z, (length (ip ++ [(acc / 256)%Z; (acc mod 256)%Z]) + 2 * fuel ≤ 16)%nat) as Hl'
      by (intros; rewrite length_app; cbn; lia).
    destruct (hex_group s 0 0) as [[[off acc] rest]|]; [|done]. destruct (_ =? 0)%nat; [done|].
    cbv zeta. specialize (Hl' acc). destruct rest as [|c rest]; [intros [= <- _ _]; lia|].
    destruct (is_byte "." c).
    { destruct (_ && _); [done|]. destruct (Nat.ltb_spec 16 (length ip + 4)); [done|].
      destruct (parseIPv4 s) as [f|] eqn:E; [|done]. intros [= <- _ _].
      apply parseIPv4_length in E. rewrite length_app. lia. }
    destruct (is_byte ":" c); [|done]. destruct rest as [|d rest]; [done|].
    destruct (is_byte ":" d); [|by apply IH]. destruct e; [done|].
    case_bool_decide; [intros [= <- _ _]; lia|by apply IH].
Qed.

Lemma parseIPv6_nozone_length s out : parseIPv6_nozone s = Some out → length out = 16%nat.
Proof.
  unfold parseIPv6_nozone. destruct (match s with EmptyString => _ | _ => _ end) as [e s0].
  destruct (_ && _); [by intros [= <-]|].
  destruct (parseIPv6_loop 8 s0 [] e) as [[[ip e'] s1]|] eqn:E; [|done].
  apply parseIPv6_loop_length in E; [|cbn; lia]. destruct (negb _); [done|].
  destruct (Nat.ltb_spec (length ip) 16).
  - destruct e' as [k|]; [|done]. intros [= <-]. rewrite !length_app, length_replicate, length_take, length_drop. lia.
  - destruct e'; [done|]. intros [= <-]. lia.
Qed.

(** An address is four bytes or sixteen. *)
Lemma ParseAddr_length s a :
  ParseAddr s = Some a → match a with Addr4 b => length b = 4%nat | Addr6 b _ => length b = 16%nat end.
Proof.
  unfold ParseAddr. generalize s at 1. intros rest. induction rest as [|c rest IH]; cbn [ParseAddr_scan]; [done|].
  destruct (is_byte "." c).
  { intros (b & E & ->)%fmap_Some. by apply parseIPv4_length in E. }
  destruct (is_byte ":" c).
  { unfold parseIPv6. destruct (cut "%" s) as [[s0 z] f]. destruct (f && _); [done|].
    destruct (parseIPv6_nozone s0) eqn:E; cbn; [|done]. intros [= <-]. by apply parseIPv6_nozone_length in E. }
  destruct (is_byte "%" c); [done|]. apply IH.
Qed.

Lemma As16_length s a : ParseAddr s = Some a → length (As16 a) = 16%nat.
Proof. intros H%ParseAddr_length. destruct a; cbn in *; lia. Qed.

Lemma ParseIP_length s ip : ParseIP s = Some ip → length ip = 16%nat.
Proof.
  unfold ParseIP. destruct (ParseAddr s) as [a|] eqn:E; [|done].
  case_bool_decide; [|done]. intros [= <-]. by eapply As16_length.
Qed.

Lemma To4_length ip b : To4 ip = Some b → length b = 4%nat.
Proof.
  unfold To4. destruct (Nat.eqb_spec (length ip) 4); [by intros [= <-]|].
  destruct (Nat.eqb_spec (length ip) 16); [|done]. cbn. case_bool_decide; [|done].
  intros [= <-]. rewrite length_drop. lia.
Qed.

Lemma length_CIDRMask ones bits : length (CIDRMask ones bits) = Z.to_nat (bits / 8).
Proof. unfold CIDRMask. by rewrite length_fmap, length_seq. Qed.

(** The network of an IPv4 CIDR: four bytes, zero after the prefix; of an IPv6 one:
    sixteen bytes. *)
Lemma ParseCIDR_net s ip n :
  ParseCIDR s = Some (ip, n) →
  (mask_bits n = 32 ∧ 0 ≤ mask_ones n ≤ 32 ∧
   ∃ b, length b = 4%nat ∧ net_IP n = zip_with Z.land b (CIDRMask (mask_ones n) 32)) ∨
  (mask_bits n = 128 ∧ mask_ones n ≤ 128 ∧
   ∃ b, length b = 16%nat ∧ net_IP n = zip_with Z.land b (CIDRMask (mask_ones n) 128)).
Proof.
  unfold ParseCIDR. destruct (cut "/" s) as [[addr m] f]. destruct (negb f); [done|].
  destruct (ParseAddr addr) as [a|] eqn:E; [|done]. destruct (negb _); [done|].
  destruct (dtoi m) as [k|]; [|done].
  destruct (Z.ltb_spec k 0); [done|]. destruct (Z.ltb_spec (BitLen a) k); [done|]. cbn [orb].
  intros [= <- <-]. cbn [net_IP mask_ones mask_bits]. pose proof (ParseAddr_length _ _ E) as Hl.
  destruct a as [b|b z]; cbn [BitLen Is4 As16] in *.
  - left. do 2 (split; [lia|]). exists b. split; [done|]. unfold Mask_IP. rewrite length_CIDRMask, length_app, Hl.
    cbn [Z.to_nat]. by rewrite (bool_decide_eq_true_2 (take 12 (v4InV6Prefix ++ b) = _)) by done.
  - right. do 2 (split; [lia|]). exists b. split; [done|]. unfold Mask_IP. by rewrite length_CIDRMask.
Qed.
