(* ===== verification/Sha256.v ===== *)
(** * Go's [crypto/sha256] and [encoding/hex]

    The program names devices and network interfaces after SHA-256 digests.  The
    digest is modelled executably (FIPS 180-4), so that the names of concrete
    subnets and interfaces can be computed; the theorems on names need only the
    length and the alphabet of the hexadecimal digest. *)

From S2P Require Import Prelude.

Local Open Scope Z_scope.

Definition w32 (z : Z) : Z := z mod 2 ^ 32.
Definition rotr (n x : Z) : Z := Z.lor (Z.shiftr x n) (w32 (Z.shiftl x (32 - n))).

Definition big_sigma0 (x : Z) : Z := Z.lxor (rotr 2 x) (Z.lxor (rotr 13 x) (rotr 22 x)).
Definition big_sigma1 (x : Z) : Z := Z.lxor (rotr 6 x) (Z.lxor (rotr 11 x) (rotr 25 x)).
Definition small_sigma0 (x : Z) : Z := Z.lxor (rotr 7 x) (Z.lxor (rotr 18 x) (Z.shiftr x 3)).
Definition small_sigma1 (x : Z) : Z := Z.lxor (rotr 17 x) (Z.lxor (rotr 19 x) (Z.shiftr x 10)).
Definition choose (x y z : Z) : Z := Z.lxor (Z.land x y) (Z.land (Z.lxor x (2 ^ 32 - 1)) z).
Definition majority (x y z : Z) : Z := Z.lxor (Z.land x y) (Z.lxor (Z.land x z) (Z.land y z)).

(** The constants are fractional parts of roots of primes: 32 bits of the cube roots
    of the first sixty-four for the rounds, of the square roots of the first eight
    for the initial state. *)
Definition is_prime (n : nat) : bool := forallb (λ d, negb (n mod d =? 0)%nat) (seq 2 (n - 2)).
Definition primes : list Z := Z.of_nat <$> List.filter is_prime (seq 2 310).

(** The integer cube root below [2^k], bit by bit. *)
Fixpoint cube_root (k : nat) (acc x : Z) : Z :=
  match k with
  | O => acc
  | S k => let acc' := acc + 2 ^ Z.of_nat k in
           cube_root k (if acc' * acc' * acc' <=? x then acc' else acc) x
  end.

Definition round_constants : list Z :=
  Eval vm_compute in (λ p, w32 (cube_root 36 0 (p * 2 ^ 96))) <$> take 64 primes.

Definition sqrt_constants : list Z :=
  Eval vm_compute in (λ p, w32 (Z.sqrt (p * 2 ^ 64))) <$> take 8 primes.

Record hash_state := HS { ha : Z; hb : Z; hc : Z; hd : Z; he : Z; hf : Z; hg : Z; hh : Z }.

Definition initial_state : hash_state :=
  match sqrt_constants with
  | [a; b; c; d; e; f; g; h] => HS a b c d e f g h
  | _ => HS 0 0 0 0 0 0 0 0
  end.

(** The message schedule, newest word first: sixteen words of the block extended to
    sixty-four. *)
Definition schedule_step (ws : list Z) : list Z :=
  w32 (small_sigma1 (nth 1 ws 0) + nth 6 ws 0 + small_sigma0 (nth 14 ws 0) + nth 15 ws 0) :: ws.
Definition schedule (block : list Z) : list Z := rev (Nat.iter 48 schedule_step (rev block)).

Definition round (s : hash_state) (kw : Z * Z) : hash_state :=
  let t1 := hh s + big_sigma1 (he s) + choose (he s) (hf s) (hg s) + kw.1 + kw.2 in
  let t2 := big_sigma0 (ha s) + majority (ha s) (hb s) (hc s) in
  HS (w32 (t1 + t2)) (ha s) (hb s) (hc s) (w32 (hd s + t1)) (he s) (hf s) (hg s).

Definition add_state (s t : hash_state) : hash_state :=
  HS (w32 (ha s + ha t)) (w32 (hb s + hb t)) (w32 (hc s + hc t)) (w32 (hd s + hd t))
     (w32 (he s + he t)) (w32 (hf s + hf t)) (w32 (hg s + hg t)) (w32 (hh s + hh t)).

Definition compress (s : hash_state) (block : list Z) : hash_state :=
  add_state s (foldl round s (zip round_constants (schedule block))).

(** Big-endian words of a byte list, in blocks of sixteen. *)
Fixpoint words (bytes : list Z) : list Z :=
  match bytes with
  | a :: b :: c :: d :: rest => (a * 2 ^ 24 + b * 2 ^ 16 + c * 2 ^ 8 + d) :: words rest
  | _ => []
  end.

Fixpoint blocks (fuel : nat) (ws : list Z) : list (list Z) :=
  match fuel with
  | O => []
  | S fuel => if (length ws <? 16)%nat then [] else take 16 ws :: blocks fuel (drop 16 ws)
  end.

Definition pad (msg : list Z) : list Z :=
  let bitlen := 8 * Z.of_nat (length msg) in
  msg ++ [128]
    ++ replicate (Z.to_nat ((- (Z.of_nat (length msg) + 9)) mod 64)) 0
    ++ ((λ i, Z.shiftr bitlen (8 * i) mod 256) <$> [7; 6; 5; 4; 3; 2; 1; 0]).

Fixpoint bytes_of (s : string) : list Z :=
  match s with EmptyString => [] | String c s => Z.of_N (code c) :: bytes_of s end.

Definition word_bytes (w : Z) : list Z :=
  [Z.shiftr w 24 mod 256; Z.shiftr w 16 mod 256; Z.shiftr w 8 mod 256; w mod 256].

(** [sha256.Sum256]: thirty-two bytes. *)
Definition Sum256 (s : string) : list Z :=
  let ws := words (pad (bytes_of s)) in
  let h := foldl compress initial_state (blocks (length ws) ws) in
  word_bytes (ha h) ++ word_bytes (hb h) ++ word_bytes (hc h) ++ word_bytes (hd h)
    ++ word_bytes (he h) ++ word_bytes (hf h) ++ word_bytes (hg h) ++ word_bytes (hh h).

(** A lower-case hexadecimal digit. *)
Definition hex_digit (n : Z) : ascii :=
  if n <? 10 then ascii_of_N (48 + Z.to_N n) else ascii_of_N (87 + Z.to_N n).

(** [hex.EncodeToString], and [fmt]'s [%x] of a byte slice. *)
Fixpoint hex_encode (bytes : list Z) : string :=
  match bytes with
  | [] => EmptyString
  | b :: bs => String (hex_digit (b / 16 mod 16)) (String (hex_digit (b mod 16)) (hex_encode bs))
  end.

Definition is_hex (c : ascii) : bool := is_digit c || in_range "a" "f" c.

(** ** The shape of a digest *)

Lemma Sum256_length s : length (Sum256 s) = 32%nat.
Proof. done. Qed.

Lemma hex_encode_len bs : str_len (hex_encode bs) = (2 * length bs)%nat.
Proof. induction bs as [|b bs IH]; simpl; [done|]. rewrite IH. lia. Qed.

Lemma hex_digit_hex z : is_hex (hex_digit (z mod 16)) = true.
Proof.
  pose proof (Z.mod_pos_bound z 16 ltac:(lia)) as H.
  generalize dependent (z mod 16). intros n Hn.
  assert (n = 0 ∨ n = 1 ∨ n = 2 ∨ n = 3 ∨ n = 4 ∨ n = 5 ∨ n = 6 ∨ n = 7 ∨ n = 8 ∨ n = 9
    ∨ n = 10 ∨ n = 11 ∨ n = 12 ∨ n = 13 ∨ n = 14 ∨ n = 15) as Hc by lia.
  destruct_or! Hc; subst n; reflexivity.
Qed.

Lemma hex_encode_hex bs : str_forall is_hex (hex_encode bs) = true.
Proof. induction bs as [|b bs IH]; simpl; [done|]. by rewrite !hex_digit_hex, IH. Qed.

Lemma Sum256_hex_len s : str_len (hex_encode (Sum256 s)) = 64%nat.
Proof. by rewrite hex_encode_len, Sum256_length. Qed.

#[export] Hint Resolve hex_encode_hex : dra.
#[export] Hint Rewrite hex_encode_len Sum256_length Sum256_hex_len : dra.

(** Nothing below needs the digest's bits: only concrete names compute it. *)
#[global] Opaque Sum256.

(** ** Test vectors of FIPS 180-4 *)

Example sha256_abc :
  hex_encode (Sum256 "abc") = "ba7816bf8f01cfea414140de5dae2223b00361a396177a9cb410ff61f20015ad".
Proof. vm_compute. reflexivity. Qed.

Example sha256_two_blocks :
  hex_encode (Sum256 "abcdbcdecdefdefgefghfghighijhijkijkljklmklmnlmnomnopnopq")
  = "248d6a61d20638b8e5c026930c3e6039a33ce45964ff2167f6ecedd419db06c1".
Proof. vm_compute. reflexivity. Qed.
