(* ===== verification/K8s.v ===== *)
(** * Kubernetes objects and the packages the program calls

    The records hold the fields of the API types that the program reads or
    writes.  The functions of third-party packages (apimachinery's validation and
    unstructured helpers, the DRA helper packages) are not part of the repository:
    they are the operations of the class [K8s], and [K8sLaws] states the
    documented behaviour the program relies on. *)

From S2P Require Import Prelude.

(** ** Devices and resource slices (resource.k8s.io/v1) *)

Record DeviceAttribute := { IntValue : option Z; StringValue : option string }.

(** Quantities are their [int64] value. *)
Record CapacityRequestPolicy := { Policy_Default : option Z; Policy_ValidValues : list Z }.
Record DeviceCapacity := { Capacity_Value : Z; Capacity_Policy : option CapacityRequestPolicy }.

Record Device := {
  Device_Name : string;
  Device_Attributes : gmap string DeviceAttribute;
  Device_Capacity : gmap string DeviceCapacity;
  Device_AllowMultipleAllocations : option bool;
}.

(** A [corev1.NodeSelectorRequirement]; every selector of the program has the
    operator [In]. *)
Record NodeSelectorRequirement := { Req_Key : string; Req_Values : list string }.
(** Terms are alternatives, the requirements of a term all have to hold. *)
Definition NodeSelector : Type := list (list NodeSelectorRequirement).

Record Slice := { Slice_Devices : list Device }.
Record Pool := { Pool_Slices : list Slice; Pool_NodeSelector : option NodeSelector }.
Record DriverResources := { Pools_of : gmap string Pool }.

(** ** Resource claims *)

Record AllocationResult := {
  Res_Request : string;
  Res_Driver : string;
  Res_Pool : string;
  Res_Device : string;
  Res_AdminAccess : option bool;
  Res_ConsumedCapacity : gmap string Z;
}.

Inductive ConfigSource := FromClass | FromClaim | OtherSource (name : string).

Record OpaqueConfig := { Opaque_Driver : string; Opaque_Raw : string }.

(** A [DeviceAllocationConfiguration] of an allocated claim. *)
Record AllocationConfig := {
  Config_Source : ConfigSource;
  Config_Requests : list string;
  Config_Opaque : option OpaqueConfig;
}.

Record Allocation := {
  Alloc_Results : list AllocationResult;
  Alloc_Config : list AllocationConfig;
}.

(** A [ResourceClaimConsumerReference] of [status.reservedFor]. *)
Record ConsumerReference := {
  Ref_APIGroup : string;
  Ref_Resource : string;
  Ref_Name : string;
  Ref_UID : string;
}.

Record ResourceClaim := {
  Claim_Namespace : string;
  Claim_Name : string;
  Claim_UID : string;
  Claim_Annotations : gmap string string;
  Claim_Allocation : option Allocation;
  Claim_ReservedFor : list ConsumerReference;
}.

(** ** Pods *)

Inductive PodPhase := PodPending | PodRunning | PodSucceeded | PodFailed | PodUnknown.

Record Pod := {
  Pod_Name : string;
  Pod_UID : string;
  Pod_Labels : gmap string string;
  Pod_Annotations : option (gmap string string);
  Pod_NodeName : string;
  Pod_Phase : PodPhase;
}.

(** ** Unstructured objects: JSON values as the dynamic client decodes them *)

Inductive value :=
  | VNull
  | VBool (b : bool)
  | VInt64 (z : Z)
  | VInt (z : Z)
  | VFloat64 (f : f64)
  | VString (s : string)
  | VList (l : list value)
  | VMap (m : list (string * value)).

Definition objmap : Type := list (string * value).

Record Unstructured := {
  GetName : string;
  GetUID : string;
  GetLabels : gmap string string;
  Object : objmap;
}.

(** [m[key]] *)
Fixpoint obj_get (m : objmap) (key : string) : option value :=
  match m with
  | [] => None
  | (k, v) :: m => if decide (key = k) then Some v else obj_get m key
  end.

(** [m[key].(map[string]any)] with the failed assertion as [None]. *)
Definition as_map (v : option value) : option objmap :=
  match v with Some (VMap m) => Some m | _ => None end.

(** [m[key].(string)] of a possibly nil map, with [""] for a failed assertion. *)
Definition get_string (m : option objmap) (key : string) : string :=
  match m with
  | Some m => match obj_get m key with Some (VString s) => s | _ => EmptyString end
  | None => EmptyString
  end.

(** The value at a path of nested maps. *)
Fixpoint nested (m : objmap) (path : list string) : option value :=
  match path with
  | [] => Some (VMap m)
  | [key] => obj_get m key
  | key :: path => match obj_get m key with Some (VMap m') => nested m' path | _ => None end
  end.

(** A DNS label (RFC 1123): at most 63 lower-case letters, digits and dashes, with a
    letter or digit at both ends. *)
Definition is_alnum (c : ascii) : bool := is_lower c || is_digit c.
Definition is_label_char (c : ascii) : bool := is_alnum c || is_byte "-" c.

Fixpoint last_byte (c : ascii) (s : string) : ascii :=
  match s with EmptyString => c | String d s => last_byte d s end.

Definition dns1123_label (s : string) : bool :=
  match s with
  | EmptyString => false
  | String c s' =>
      is_alnum c && is_alnum (last_byte c s') && str_forall is_label_char s
      && (str_len s <=? 63)
  end.

(** ** The packages the program calls *)
Class K8s := {
  (** validation.IsDNS1123Label: what is wrong with the label *)
  IsDNS1123Label : string → list string;
  (** validation.DNS1123LabelMaxLength *)
  DNS1123LabelMaxLength : nat;
  (** resourceapi.DeviceAttributeMaxValueLength *)
  DeviceAttributeMaxValueLength : nat;
  (** resourceclaim.BaseRequestRef: the request of a request or subrequest name *)
  BaseRequestRef : string → string;
  (** unstructured.NestedFieldNoCopy, NestedMap and the typed accessors; the
      typed ones give the zero value where the field is missing or of another
      type, as the program ignores those errors *)
  NestedFieldNoCopy : objmap → list string → option value;
  NestedMap : objmap → list string → result (option objmap);
  NestedString : objmap → list string → string;
  NestedBool : objmap → list string → bool;
  NestedInt64 : objmap → list string → Z;
  NestedFloat64 : objmap → list string → f64;
  (** equality.Semantic.DeepEqual on published resources *)
  DeepEqual : DriverResources → DriverResources → bool;
}.

Class K8sLaws `{K : K8s} : Prop := {
  label_spec s : IsDNS1123Label s = [] ↔ dns1123_label s = true;
  label_max : DNS1123LabelMaxLength = 63;
  attr_max : DeviceAttributeMaxValueLength = 64;
  base_request r : BaseRequestRef r = (cut "/" r).1.1;
  nested_field m p : NestedFieldNoCopy m p = nested m p;
  nested_map m key :
    NestedMap m [key] = match obj_get m key with
                        | None => Ok None
                        | Some (VMap m') => Ok (Some m')
                        | Some _ => Err (External "not a map")
                        end;
  nested_string m p : NestedString m p = match nested m p with Some (VString s) => s | _ => EmptyString end;
  nested_bool m p : NestedBool m p = match nested m p with Some (VBool b) => b | _ => false end;
  nested_int64 m p : NestedInt64 m p = match nested m p with Some (VInt64 z) => z | _ => 0%Z end;
  nested_float64 m p :
    NestedFloat64 m p = match nested m p with Some (VFloat64 f) => f | _ => FFin 0 0 end;
  deep_equal r r' : DeepEqual r r' = true ↔ r = r';
}.

(** ** Decidable equality *)

#[export] Instance DeviceAttribute_eq_dec : EqDecision DeviceAttribute.
Proof. solve_decision. Defined.
#[export] Instance CapacityRequestPolicy_eq_dec : EqDecision CapacityRequestPolicy.
Proof. solve_decision. Defined.
#[export] Instance DeviceCapacity_eq_dec : EqDecision DeviceCapacity.
Proof. solve_decision. Defined.
#[export] Instance Device_eq_dec : EqDecision Device.
Proof. solve_decision. Defined.
#[export] Instance NodeSelectorRequirement_eq_dec : EqDecision NodeSelectorRequirement.
Proof. solve_decision. Defined.
#[export] Instance Slice_eq_dec : EqDecision Slice.
Proof. solve_decision. Defined.
#[export] Instance Pool_eq_dec : EqDecision Pool.
Proof. solve_decision. Defined.
#[export] Instance DriverResources_eq_dec : EqDecision DriverResources.
Proof. solve_decision. Defined.
#[export] Instance ConfigSource_eq_dec : EqDecision ConfigSource.
Proof. solve_decision. Defined.
#[export] Instance PodPhase_eq_dec : EqDecision PodPhase.
Proof. solve_decision. Defined.

(** ** A concrete instance

    The laws can hold: an executable rendering of each package function. *)
Definition k8s_model : K8s := {|
  IsDNS1123Label s := if dns1123_label s then [] else ["not a DNS label"];
  DNS1123LabelMaxLength := 63;
  DeviceAttributeMaxValueLength := 64;
  BaseRequestRef r := (cut "/" r).1.1;
  NestedFieldNoCopy := nested;
  NestedMap m p := match nested m p with
                   | None => Ok None
                   | Some (VMap m') => Ok (Some m')
                   | Some _ => Err (External "not a map")
                   end;
  NestedString m p := match nested m p with Some (VString s) => s | _ => EmptyString end;
  NestedBool m p := match nested m p with Some (VBool b) => b | _ => false end;
  NestedInt64 m p := match nested m p with Some (VInt64 z) => z | _ => 0%Z end;
  NestedFloat64 m p := match nested m p with Some (VFloat64 f) => f | _ => FFin 0 0 end;
  DeepEqual r r' := bool_decide (r = r');
|}.

Lemma k8s_model_laws : K8sLaws (K := k8s_model).
Proof.
  split; try done.
  - intros s. simpl. by destruct (dns1123_label s).
  - intros r r'. simpl. apply bool_decide_eq_true.
Qed.

(** Go visits a map in the order of [map_to_list]; conversions that overflow give
    the minimal integer; no string scans as a number. *)
Definition go_model : GoImpl.
Proof.
  refine {| map_range K _ _ A site m := map_to_list m;
            f64_out_of_range _ := i64_min;
            sscan_f64 _ := Err (External "expected number") |}.
  done.
Defined.

(** ** Lemmas on labels *)

Lemma last_byte_app c s d t : last_byte c (s +:+ String d t) = last_byte d t.
Proof. revert c. induction s as [|e s IH]; intros c; str_simpl; auto. Qed.

Lemma last_byte_forall (p : ascii → bool) c s :
  p c = true → str_forall p s = true → p (last_byte c s) = true.
Proof.
  revert c. induction s as [|d s IH]; intros c Hc; simpl; [done|].
  rewrite andb_true_iff. intros [Hd Hs]. auto.
Qed.

Lemma is_alnum_label c : is_alnum c = true → is_label_char c = true.
Proof. unfold is_label_char. by intros ->. Qed.
#[export] Hint Resolve is_alnum_label : dra.
