(* ===== verification/NicConfig.v ===== *)
(** * The opaque configuration of a NIC (api/kube-ovn.io/resource/nic/v1alpha1)

    [NicConfig] is what a claim's opaque parameters decode to.  [Normalize] runs
    when a claim is prepared, [Validate] in the admission webhook. *)

From S2P Require Import Prelude.

Record NicConfig := {
  APIVersion : string;
  Kind : string;
  InterfaceName : string;
}.

Definition GroupName : string := "nic.resource.kube-ovn.io".
Definition Version : string := "v1alpha1".
Definition NicConfigKind : string := "NicConfig".

Definition DefaultNicConfig : NicConfig := {|
  APIVersion := GroupName +:+ "/" +:+ Version;
  Kind := NicConfigKind;
  InterfaceName := "net1";
|}.

(** The code normalizes in place; the model returns the new value. *)
Definition Normalize (c : NicConfig) : NicConfig :=
  if decide (InterfaceName c = EmptyString)
  then {| APIVersion := APIVersion c; Kind := Kind c; InterfaceName := "net1" |}
  else c.

Definition maxInterfaceNameLength : nat := 15.

(** The bytes that [strings.ContainsAny] looks for: slash, colon, space, tab and
    newline. *)
Definition forbidden_chars : string :=
  String "/" (String ":" (String " " (String (ascii_of_N 9) (String (ascii_of_N 10) EmptyString)))).

Definition Validate (c : NicConfig) : option error :=
  let name := InterfaceName c in
  if decide (name = EmptyString) then None
  else if (maxInterfaceNameLength <? str_len name)%nat then
    Some (Errorf "interfaceName %q is longer than %d characters" [name; "15"])
  else if bool_decide (name = ".") || bool_decide (name = "..") then
    Some (Errorf "interfaceName %q is not a valid interface name" [name])
  else if contains_any name forbidden_chars then
    Some (Errorf "interfaceName %q must not contain '/', ':' or whitespace" [name])
  else None.

(** What a decoded opaque configuration can be: a [*NicConfig], or an object of
    another kind the scheme knows. *)
Inductive RuntimeObject :=
  | ObjNicConfig (c : NicConfig)
  | ObjOther (kind : string).

#[export] Instance NicConfig_eq_dec : EqDecision NicConfig.
Proof. solve_decision. Defined.

(** One to fifteen bytes, not a directory name, without slash, colon, blank, tab and
    newline. *)
Definition plain_ifname (s : string) : bool :=
  negb (bool_decide (s = EmptyString)) && (str_len s <? 16)%nat
  && negb (bool_decide (s = ".")) && negb (bool_decide (s = ".."))
  && str_forall (λ c, negb (is_byte "/" c || is_byte ":" c || is_byte " " c
                            || is_byte (ascii_of_N 9) c || is_byte (ascii_of_N 10) c)) s.

(** ** Properties *)

Lemma Normalize_idempotent c : Normalize (Normalize c) = Normalize c.
Proof. unfold Normalize. by repeat case_decide. Qed.

Lemma Normalize_named c : InterfaceName (Normalize c) ≠ EmptyString.
Proof. unfold Normalize. by case_decide. Qed.

Lemma contains_any_forall s chars :
  contains_any s chars = negb (str_forall (λ c, negb (contains_byte c chars)) s).
Proof.
  induction s as [|c s IH]; simpl; [done|]. rewrite IH.
  by destruct (contains_byte c chars).
Qed.

Lemma str_forall_ext (p q : ascii → bool) s :
  (∀ c, p c = q c) → str_forall p s = str_forall q s.
Proof. intros E. induction s as [|c s IH]; simpl; [done|]. by rewrite E, IH. Qed.

(** The verdict of [Validate], branch by branch. *)
Lemma Validate_None c :
  Validate c = None ↔
  InterfaceName c = EmptyString ∨
  (str_len (InterfaceName c) ≤ 15 ∧ InterfaceName c ≠ "." ∧ InterfaceName c ≠ ".."
   ∧ contains_any (InterfaceName c) forbidden_chars = false).
Proof.
  unfold Validate, maxInterfaceNameLength. case_decide as He; [naive_solver|].
  destruct (Nat.ltb_spec 15 (str_len (InterfaceName c))); [split; [done|]; intros [?|[? _]]; [done|lia]|].
  rewrite !bool_decide_decide. repeat case_decide; simpl; try naive_solver.
  destruct (contains_any _ _); naive_solver.
Qed.

Lemma forbidden_bytes c :
  contains_byte c forbidden_chars =
  is_byte "/" c || is_byte ":" c || is_byte " " c || is_byte (ascii_of_N 9) c || is_byte (ascii_of_N 10) c.
Proof.
  unfold forbidden_chars, is_byte. cbn [contains_byte]. rewrite orb_false_r.
  repeat case_bool_decide; by simplify_eq/=.
Qed.

(** What [Validate] lets through is an empty name, for which the driver takes its default,
    or a plain one. *)
Lemma Validate_plain c :
  Validate c = None ↔ InterfaceName c = EmptyString ∨ plain_ifname (InterfaceName c) = true.
Proof.
  rewrite Validate_None, contains_any_forall. unfold plain_ifname.
  rewrite (str_forall_ext _ _ _ (λ b, f_equal negb (forbidden_bytes b))).
  rewrite !andb_true_iff, !negb_true_iff, !bool_decide_eq_false, Nat.ltb_lt, negb_false_iff.
  split; [|naive_solver lia]. intros [?|Hv]; [by left|].
  destruct (decide (InterfaceName c = EmptyString)); [by left|right]. naive_solver lia.
Qed.

(** The message promises that white space is refused, but a carriage return passes, and so
    do a no-break space of Latin 1 and the percent sign of a pattern. *)
Example Validate_lets_through :
  let c name := {| APIVersion := EmptyString; Kind := NicConfigKind; InterfaceName := name |} in
  Validate (c (String "n" (String (ascii_of_N 13) EmptyString))) = None ∧
  Validate (c (String "n" (String (ascii_of_N 160) EmptyString))) = None ∧ Validate (c "n%d") = None.
Proof. split_and!; reflexivity. Qed.
