(* ===== verification/Subnet.v ===== *)
(** * Subnets as devices (internal/publisher/subnet.go)

    A kube-ovn [Subnet] is read from its unstructured object, checked for whether
    it can back a DRA NIC, and turned into a device with attributes and, in the
    central publish mode, with its free addresses as consumable capacity. *)

From S2P Require Import Prelude Netip Sha256 K8s.

Definition DeviceNamePrefix : string := "subnet-".
Definition CapacityIPv4 : string := "ipv4".
Definition CapacityIPv6 : string := "ipv6".
Definition AttrSubnetName : string := "subnetName".
Definition AttrSubnetType : string := "subnetType".
Definition AttrVlanID : string := "vlanId".
Definition AttrProvider : string := "provider".
Definition AttrProviderNetwork : string := "providerNetwork".
Definition AttrVPC : string := "vpc".
Definition maxCount : Z := (2 ^ 53)%Z.

(** ** Data *)

(** The state of one address family of a Subnet. *)
Record Family := {
  Enabled : bool;
  Free : Z;
  Held : Z;
  Allocated : Z;
}.

Definition Family_zero : Family := {| Enabled := false; Free := 0; Held := 0; Allocated := 0 |}.

Definition Family_Capacity (f : Family) : Z :=
  Z.min (Z.max (add64 (Free f) (Held f)) 0) maxCount.

Record Subnet := {
  Subnet_Name : string;
  Subnet_UID : string;
  Subnet_Provider : string;
  Subnet_VPC : string;
  Subnet_VlanID : Z;
  Subnet_ProviderNetwork : string;
  Subnet_V4 : Family;
  Subnet_V6 : Family;
}.

Definition Subnet_Type (s : Subnet) : string :=
  if decide (Subnet_VlanID s ≠ 0%Z) then "vlan" else "ovn".

Record VlanInfo := { Vlan_ID : Z; Vlan_Provider : string }.

Section with_packages.
Context `{K : K8s} `{G : GoImpl}.

(** ** Device names *)

Definition deviceNameHashLength : nat := 12.

(** The bytes of the regular expression [[^a-z0-9-]+]. *)
Definition invalid_label_char (c : ascii) : bool := negb (is_label_char c).

Definition device_hash (subnet : string) : string :=
  str_take deviceNameHashLength (hex_encode (Sum256 subnet)).

Definition device_base (subnet : string) : string :=
  let base := trim (is_byte "-") (replace_runs invalid_label_char "-" false (to_lower subnet)) in
  trim_right (is_byte "-")
    (str_take (min (str_len base)
       (DNS1123LabelMaxLength - str_len DeviceNamePrefix - str_len (device_hash subnet) - 1)) base).

Definition DeviceName (subnet : string) : string :=
  let name := DeviceNamePrefix +:+ subnet in
  if decide (IsDNS1123Label name = []) then name
  else
    let hash := device_hash subnet in
    let base := device_base subnet in
    if decide (base = EmptyString) then DeviceNamePrefix +:+ hash
    else DeviceNamePrefix +:+ base +:+ "-" +:+ hash.

(** ** Which Subnets are published *)

Definition isOVNProvider (provider : string) : bool :=
  match split "." provider with
  | [_; _; last] => bool_decide (last = "ovn")
  | _ => false
  end.

Definition Publishable (s : Subnet) : option error :=
  if bool_decide (Subnet_Provider s = EmptyString) || bool_decide (Subnet_Provider s = "ovn") then
    Some (Errorf "subnet %q uses the default provider; a DRA NIC needs a dedicated provider such as %q"
            [Subnet_Name s; Subnet_Name s +:+ ".<namespace>.ovn"])
  else if negb (isOVNProvider (Subnet_Provider s)) then
    Some (Errorf "subnet %q uses the non-OVN provider %q, which the DRA NIC driver does not support"
            [Subnet_Name s; Subnet_Provider s])
  else if negb (Enabled (Subnet_V4 s)) && negb (Enabled (Subnet_V6 s)) then
    Some (Errorf "subnet %q has no IPv4 or IPv6 CIDR; a DRA NIC needs an address" [Subnet_Name s])
  else if (DeviceAttributeMaxValueLength <? str_len (Subnet_Name s))%nat then
    Some (Errorf "subnet %q is longer than the %d bytes of a device attribute"
            [Subnet_Name s; pretty DeviceAttributeMaxValueLength])
  else None.

(** ** Reading kube-ovn objects *)

Definition ParseVlan (obj : Unstructured) : VlanInfo :=
  let spec := as_map (obj_get (Object obj) "spec") in
  {| Vlan_ID := match spec ≫= (λ m, obj_get m "id") with
                | Some (VInt64 id) => id
                | Some (VFloat64 id) => f64_to_i64 id
                | _ => 0%Z
                end;
     Vlan_Provider := get_string spec "provider" |}.

(** An address counter of the Subnet status, saturated to [0, maxCount]. *)
Definition statusCount (obj : Unstructured) (field : string) : Z :=
  match NestedFieldNoCopy (Object obj) ["status"; field] with
  | None => 0%Z
  | Some (VInt64 v) => Z.min (Z.max v 0) maxCount
  | Some (VInt v) => Z.min (Z.max v 0) maxCount
  | Some (VFloat64 v) =>
      if f64_is_nan v || f64_lt v 0 then 0%Z
      else if f64_ge v maxCount then maxCount
      else f64_to_i64 v
  | Some (VString v) =>
      match sscan_f64 v with
      | Err _ => 0%Z
      | Ok n =>
          if f64_lt n 0 then 0%Z
          else Z.min (f64_to_i64 (if f64_ge n maxCount then FFin maxCount 0 else n)) maxCount
      end
  | Some _ => 0%Z
  end.

(** The families a CIDR block enables; parts that are no prefix are skipped. *)
Fixpoint cidr_families (parts : list string) (v4 v6 : bool) : bool * bool :=
  match parts with
  | [] => (v4, v6)
  | part :: parts =>
      match ParsePrefix (trim_space part) with
      | None => cidr_families parts v4 v6
      | Some (a, _) => if Is4 a then cidr_families parts true v6 else cidr_families parts v4 true
      end
  end.

Definition ParseSubnet (obj : Unstructured) (vlans : string → result VlanInfo) : result Subnet :=
  match NestedMap (Object obj) ["spec"] with
  | Err _ | Ok None => Err (Errorf "subnet %q has no spec" [GetName obj])
  | Ok (Some spec) =>
      let vlanName := get_string (Some spec) "vlan" in
      vlan ← (if decide (vlanName = EmptyString) then Ok (0%Z, EmptyString)
              else match vlans vlanName with
                   | Err e => Err (Wrapf "get vlan %q referenced by subnet %q: %w" [vlanName; GetName obj] e)
                   | Ok v => if decide (Vlan_ID v = 0%Z) then Ok (0%Z, EmptyString)
                             else Ok (Vlan_ID v, Vlan_Provider v)
                   end);
      let '(v4, v6) := cidr_families (split "," (get_string (Some spec) "cidrBlock")) false false in
      Ok {| Subnet_Name := GetName obj;
            Subnet_UID := GetUID obj;
            Subnet_Provider := get_string (Some spec) "provider";
            Subnet_VPC := get_string (Some spec) "vpc";
            Subnet_VlanID := vlan.1;
            Subnet_ProviderNetwork := vlan.2;
            Subnet_V4 := {| Enabled := v4; Free := statusCount obj "v4availableIPs";
                            Held := 0; Allocated := 0 |};
            Subnet_V6 := {| Enabled := v6; Free := statusCount obj "v6availableIPs";
                            Held := 0; Allocated := 0 |} |}
  end.

(** ** Devices *)

Definition string_attr (v : string) : DeviceAttribute := {| IntValue := None; StringValue := Some v |}.
Definition int_attr (v : Z) : DeviceAttribute := {| IntValue := Some v; StringValue := None |}.

(** One of the optional string attributes: left out when empty or too long. *)
Definition add_attr (name value : string) (attrs : gmap string DeviceAttribute) :=
  if decide (value = EmptyString) then attrs
  else if (DeviceAttributeMaxValueLength <? str_len value)%nat then attrs
  else <[name := string_attr value]> attrs.

Definition Device_attrs (s : Subnet) : gmap string DeviceAttribute :=
  let attrs := <[AttrSubnetName := string_attr (Subnet_Name s)]>
                 {[AttrSubnetType := string_attr (Subnet_Type s)]} in
  let attrs := if decide (Subnet_VlanID s ≠ 0%Z)
               then <[AttrVlanID := int_attr (Subnet_VlanID s)]> attrs else attrs in
  add_attr AttrProvider (Subnet_Provider s)
    (add_attr AttrProviderNetwork (Subnet_ProviderNetwork s)
       (add_attr AttrVPC (Subnet_VPC s) attrs)).

(** One address of the family per NIC: the request policy admits no other request. *)
Definition family_capacity (f : Family) : DeviceCapacity := {|
  Capacity_Value := Family_Capacity f;
  Capacity_Policy := Some {| Policy_Default := Some 1%Z; Policy_ValidValues := [1%Z] |};
|}.

Definition capacities (s : Subnet) : gmap string DeviceCapacity :=
  let add (name : string) (f : Family) (out : gmap string DeviceCapacity) :=
    if Enabled f then <[name := family_capacity f]> out else out in
  add CapacityIPv4 (Subnet_V4 s) (add CapacityIPv6 (Subnet_V6 s) ∅).

Definition Device_of (s : Subnet) (withCapacity : bool) : Device := {|
  Device_Name := DeviceName (Subnet_Name s);
  Device_Attributes := Device_attrs s;
  Device_Capacity := if withCapacity then capacities s else ∅;
  Device_AllowMultipleAllocations := Some true;
|}.

Definition Exhausted (s : Subnet) : bool :=
  (Enabled (Subnet_V4 s) && (Family_Capacity (Subnet_V4 s) =? 0)%Z)
  || (Enabled (Subnet_V6 s) && (Family_Capacity (Subnet_V6 s) =? 0)%Z).

Definition family_full (f : Family) : bool := Enabled f && (Family_Capacity f <=? Allocated f)%Z.
Definition Full (s : Subnet) : bool := family_full (Subnet_V4 s) || family_full (Subnet_V6 s).

Definition StringAttribute (device : Device) (driver name : string) : string :=
  let get (key : string) := Device_Attributes device !! key ≫= StringValue in
  match get name with
  | Some v => v
  | None => default EmptyString (get (driver +:+ "/" +:+ name))
  end.

End with_packages.

(** ** Device names *)

Section device_names.
Context `{KL : K8sLaws}.

Lemma is_hex_alnum c : is_hex c = true → is_alnum c = true.
Proof.
  unfold is_hex, is_alnum, is_lower, is_digit, in_range.
  rewrite !orb_true_iff, !andb_true_iff, !N.leb_le.
  replace (code "f") with 102%N by done. replace (code "z") with 122%N by done. naive_solver lia.
Qed.

Lemma device_hash_len s : str_len (device_hash s) = 12.
Proof. unfold device_hash, deviceNameHashLength. by rewrite str_len_take, Sum256_hex_len. Qed.

Lemma device_hash_alnum s : str_forall is_alnum (device_hash s) = true.
Proof. apply str_forall_take, (str_forall_impl _ _ _ is_hex_alnum), hex_encode_hex. Qed.

Lemma replace_runs_label b s : str_forall is_label_char (replace_runs invalid_label_char "-" b s) = true.
Proof.
  revert b. induction s as [|c s IH]; intros b; simpl; [done|].
  unfold invalid_label_char at 1. destruct (is_label_char c) eqn:E; simpl; [by rewrite E, IH|].
  destruct b; simpl; by rewrite IH.
Qed.

Lemma device_base_label s : str_forall is_label_char (device_base s) = true.
Proof.
  unfold device_base, trim.
  apply str_forall_trim_right, str_forall_take, str_forall_trim_right, str_forall_trim_left,
    replace_runs_label.
Qed.

Lemma device_base_len s : str_len (device_base s) ≤ 43.
Proof.
  unfold device_base. rewrite label_max, device_hash_len. etrans; [apply str_len_trim_right|].
  rewrite str_len_take. simpl. lia.
Qed.

(** A name that starts with a letter, ends with the digest and holds only label
    bytes is a label. *)
Lemma label_of_parts mid s :
  str_forall is_label_char mid = true → str_len mid ≤ 44 →
  dns1123_label (DeviceNamePrefix +:+ mid +:+ device_hash s) = true.
Proof.
  intros Hm Hl. unfold DeviceNamePrefix, dns1123_label. repeat rewrite str_app_cons.
  pose proof (device_hash_alnum s) as Hh. pose proof (device_hash_len s) as Hn.
  rewrite !andb_true_iff. split_and!.
  - done.
  - simpl. destruct (device_hash s) as [|d t]; [done|].
    simpl in Hh. apply andb_true_iff in Hh as [Hd Ht].
    change (last_byte "-" (EmptyString +:+ mid +:+ String d t)) with (last_byte "-" (mid +:+ String d t)).
    rewrite last_byte_app. by apply last_byte_forall.
  - simpl. rewrite str_app_nil, str_forall_app, Hm. simpl.
    eapply str_forall_impl; [apply is_alnum_label|done].
  - apply Nat.leb_le. simpl. rewrite str_app_nil, str_len_app. lia.
Qed.

(** C38: every device name the publisher computes is a DNS label, whatever the Subnet
    is called. *)
Theorem DeviceName_label subnet : dns1123_label (DeviceName subnet) = true.
Proof.
  unfold DeviceName. case_decide as Hv; [by apply label_spec|]. case_decide as Hb.
  - apply (label_of_parts EmptyString); [done|simpl; lia].
  - rewrite <- (str_app_assoc (device_base subnet)). apply label_of_parts.
    + by rewrite str_forall_app, device_base_label.
    + rewrite str_len_app. simpl. pose proof (device_base_len subnet). lia.
Qed.

(** A device name is the prefixed Subnet name, or it ends with the Subnet's digest. *)
Lemma DeviceName_shape s :
  (IsDNS1123Label (DeviceNamePrefix +:+ s) = [] ∧ DeviceName s = DeviceNamePrefix +:+ s) ∨
  (∃ mid, DeviceName s = DeviceNamePrefix +:+ mid +:+ device_hash s).
Proof.
  unfold DeviceName. case_decide; [by left|]. right. case_decide.
  - by exists EmptyString.
  - exists (device_base s +:+ "-"). by rewrite str_app_assoc.
Qed.

(** Two Subnets get the same device name only if they are the same Subnet, if the
    first twelve digits of their digests agree, or if one of them is itself named
    after the digest of the other. *)
Theorem DeviceName_collision s t :
  DeviceName s = DeviceName t →
  s = t ∨ device_hash s = device_hash t
  ∨ (∃ mid, s = mid +:+ device_hash t) ∨ (∃ mid, t = mid +:+ device_hash s).
Proof.
  intros E. destruct (DeviceName_shape s) as [[_ Hs]|[ms Hs]];
    destruct (DeviceName_shape t) as [[_ Ht]|[mt Ht]]; rewrite Hs, Ht in E;
    apply str_app_inj_l in E; eauto.
  right. left. eapply str_app_inj_suffix; [|exact E]. by rewrite !device_hash_len.
Qed.

End device_names.

Lemma DeviceName_label_witness :
  dns1123_label (DeviceName (K := k8s_model) "Net.V1_test") = true.
Proof. apply (DeviceName_label (KL := k8s_model_laws)). Defined.

(** The last case happens: the Subnet "a.b" and the Subnet that is called after
    its base and digest, both valid Subnet names, share their device name, although
    the comment on [DeviceName] calls it unique. *)
Theorem DeviceName_not_unique :
  let s := "a.b" in
  let t := "a-b-" +:+ device_hash s in
  s ≠ t ∧ DeviceName (K := k8s_model) s = DeviceName (K := k8s_model) t.
Proof. split; [by vm_compute|]. vm_compute. reflexivity. Qed.

Lemma DeviceName_collision_witness :
  let s := "a.b" in
  let t := "a-b-" +:+ device_hash s in
  s = t ∨ device_hash s = device_hash t
  ∨ (∃ mid, s = mid +:+ device_hash t) ∨ (∃ mid, t = mid +:+ device_hash s).
Proof.
  apply (DeviceName_collision (K := k8s_model) "a.b" ("a-b-" +:+ device_hash "a.b")).
  vm_compute. reflexivity.
Defined.

(** ** Capacities *)

Lemma Family_Capacity_range f : (0 <= Family_Capacity f <= maxCount)%Z.
Proof. unfold Family_Capacity, maxCount. lia. Qed.

(** Without overflow the capacity is the sum, saturated. *)
Lemma Family_Capacity_exact f :
  (0 <= Free f <= maxCount)%Z → (0 <= Held f <= 2 ^ 62)%Z →
  Family_Capacity f = Z.min (Free f + Held f) maxCount.
Proof.
  unfold Family_Capacity, maxCount. intros ??.
  rewrite add64_id by (unfold i64_min, i64_max; lia). lia.
Qed.

Section reading.
Context `{K : K8s} `{G : GoImpl}.

Lemma f64_trunc_range m e n :
  f64_lt (FFin m e) 0 = false → f64_ge (FFin m e) n = false → (0 <= f64_trunc m e < n)%Z.
Proof.
  unfold f64_lt, f64_ge, f64_trunc. destruct (Z.leb_spec 0 e).
  - rewrite Z.ltb_ge, Z.leb_gt. lia.
  - rewrite Z.ltb_ge, Z.leb_gt, Z.mul_0_l. intros Hm Hn.
    assert (0 < 2 ^ (- e))%Z by (apply Z.pow_pos_nonneg; lia).
    rewrite Z.quot_div_nonneg by lia. split; [by apply Z.div_pos|].
    apply Z.div_lt_upper_bound; lia.
Qed.

Lemma f64_to_i64_range f n :
  f64_is_nan f = false → f64_lt f 0 = false → f64_ge f n = false → (n <= maxCount)%Z →
  (0 <= f64_to_i64 f < n)%Z.
Proof.
  destruct f as [|[]|m e]; try done. intros _ H1 H2 Hn.
  pose proof (f64_trunc_range m e n H1 H2). unfold f64_to_i64. rewrite decide_True; [done|].
  unfold i64_min, i64_max, maxCount in *. lia.
Qed.

(** The address counters of a Subnet status are saturated to [0, 2^53], for every
    JSON value, unless the status holds a string that scans as NaN. *)
Lemma statusCount_range obj field :
  (∀ v f, NestedFieldNoCopy (Object obj) ["status"; field] = Some (VString v) →
          sscan_f64 v = Ok f → f64_is_nan f = false) →
  (0 <= statusCount obj field <= maxCount)%Z.
Proof.
  intros Hnan. unfold statusCount.
  destruct (NestedFieldNoCopy _ _) as [[| |z|z|f|v| |]|]; try (unfold maxCount; lia).
  - destruct (f64_is_nan f) eqn:E1; [unfold maxCount; simpl; lia|].
    destruct (f64_lt f 0) eqn:E2; [unfold maxCount; simpl; lia|]. simpl.
    destruct (f64_ge f maxCount) eqn:E3; [unfold maxCount; lia|].
    pose proof (f64_to_i64_range f maxCount E1 E2 E3). lia.
  - destruct (sscan_f64 v) as [f|] eqn:Ev; [|unfold maxCount; lia].
    specialize (Hnan _ _ eq_refl Ev).
    destruct (f64_lt f 0) eqn:E2; [unfold maxCount; lia|].
    destruct (f64_ge f maxCount) eqn:E3.
    + unfold f64_to_i64. rewrite decide_True by (vm_compute; split; discriminate).
      unfold maxCount, f64_trunc. simpl. lia.
    + pose proof (f64_to_i64_range f maxCount Hnan E2 E3). lia.
Qed.

(** The families of a CIDR list: those some part of it belongs to. *)
Lemma cidr_families_spec parts v4 v6 :
  cidr_families parts v4 v6 =
  (v4 || existsb (λ p, match ParsePrefix (trim_space p) with Some (a, _) => Is4 a | None => false end) parts,
   v6 || existsb (λ p, match ParsePrefix (trim_space p) with Some (a, _) => negb (Is4 a) | None => false end) parts).
Proof.
  revert v4 v6. induction parts as [|p parts IH]; intros v4 v6; simpl; [by rewrite !orb_false_r|].
  destruct (ParsePrefix (trim_space p)) as [[a n]|]; [destruct (Is4 a)|]; simpl; rewrite IH;
    destruct v4, v6; done.
Qed.

End reading.

Section published.
Context `{K : K8s} `{G : GoImpl}.

(** What every parsed Subnet satisfies: overlay Subnets name no ProviderNetwork and
    hold nothing yet. *)
Definition Subnet_wf (s : Subnet) : Prop :=
  (Subnet_VlanID s = 0%Z → Subnet_ProviderNetwork s = EmptyString)
  ∧ Held (Subnet_V4 s) = 0%Z ∧ Held (Subnet_V6 s) = 0%Z
  ∧ Allocated (Subnet_V4 s) = 0%Z ∧ Allocated (Subnet_V6 s) = 0%Z.

(** A parsed Subnet carries its object's name, enables exactly the families of
    which its CIDR block holds a prefix, names a ProviderNetwork only as a VLAN
    Subnet, and starts with nothing held or allocated. *)
Lemma ParseSubnet_wf obj vlans s :
  ParseSubnet obj vlans = Ok s →
  Subnet_wf s ∧ Subnet_Name s = GetName obj ∧
  ∃ spec, NestedMap (Object obj) ["spec"] = Ok (Some spec) ∧
    (Enabled (Subnet_V4 s) = true ↔
       ∃ part bytes bits, part ∈ split "," (get_string (Some spec) "cidrBlock")
                          ∧ ParsePrefix (trim_space part) = Some (Addr4 bytes, bits)) ∧
    (Enabled (Subnet_V6 s) = true ↔
       ∃ part bytes zone bits, part ∈ split "," (get_string (Some spec) "cidrBlock")
                          ∧ ParsePrefix (trim_space part) = Some (Addr6 bytes zone, bits)).
Proof.
  unfold ParseSubnet. destruct (NestedMap _ _) as [[spec|]|]; try done. intros E.
  apply bind_Ok in E as ([id pn] & Hv & E). rewrite cidr_families_spec in E. simpl in E.
  injection E as <-. unfold Subnet_wf. simpl. split_and!; try done.
  - intros ->. inv_ok Hv; done.
  - exists spec. split; [done|]. split; rewrite existsb_exists.
    + split.
      * intros (p & Hp & Ha). destruct (ParsePrefix _) as [[[b|b z] n]|] eqn:Ep; try done.
        exists p, b, n. by rewrite list_elem_of_In.
      * intros (p & b & n & Hp & Ep). exists p. by rewrite <- list_elem_of_In, Ep.
    + split.
      * intros (p & Hp & Ha). destruct (ParsePrefix _) as [[[b|b z] n]|] eqn:Ep; try done.
        exists p, b, z, n. by rewrite list_elem_of_In.
      * intros (p & b & z & n & Hp & Ep). exists p. by rewrite <- list_elem_of_In, Ep.
Qed.

(** ** Attributes *)

Lemma add_attr_ne name v attrs k : k ≠ name → add_attr name v attrs !! k = attrs !! k.
Proof. intros. unfold add_attr. repeat case_match; [done..|]. by rewrite lookup_insert_ne. Qed.

Lemma add_attr_eq name v attrs :
  v ≠ EmptyString → str_len v ≤ DeviceAttributeMaxValueLength →
  add_attr name v attrs !! name = Some (string_attr v).
Proof.
  intros Hv Hl. unfold add_attr. rewrite decide_False by done.
  destruct (Nat.ltb_spec DeviceAttributeMaxValueLength (str_len v)); [lia|].
  by rewrite lookup_insert_eq.
Qed.

Lemma add_attr_long name v attrs :
  DeviceAttributeMaxValueLength < str_len v → add_attr name v attrs = attrs.
Proof.
  intros Hl. unfold add_attr. case_decide; [done|]. by rewrite (proj2 (Nat.ltb_lt _ _) Hl).
Qed.

Lemma Device_subnetName s cap driver :
  StringAttribute (Device_of s cap) driver AttrSubnetName = Subnet_Name s.
Proof.
  unfold StringAttribute, Device_of, Device_attrs. simpl.
  rewrite !add_attr_ne by done. case_decide; by simplify_map_eq.
Qed.

Lemma Device_provider s cap driver :
  Subnet_Provider s ≠ EmptyString → str_len (Subnet_Provider s) ≤ DeviceAttributeMaxValueLength →
  StringAttribute (Device_of s cap) driver AttrProvider = Subnet_Provider s.
Proof.
  intros Hp Hl. unfold StringAttribute, Device_of, Device_attrs. simpl. by rewrite add_attr_eq.
Qed.

Lemma Publishable_None s :
  Publishable s = None →
  Subnet_Provider s ≠ EmptyString ∧ Subnet_Provider s ≠ "ovn" ∧
  isOVNProvider (Subnet_Provider s) = true ∧
  (Enabled (Subnet_V4 s) = true ∨ Enabled (Subnet_V6 s) = true) ∧
  str_len (Subnet_Name s) ≤ DeviceAttributeMaxValueLength.
Proof.
  unfold Publishable. rewrite !bool_decide_decide. repeat case_decide; try done. simpl.
  destruct (isOVNProvider _); [|done]. simpl.
  destruct (Nat.ltb_spec DeviceAttributeMaxValueLength (str_len (Subnet_Name s)));
    destruct (Enabled (Subnet_V4 s)), (Enabled (Subnet_V6 s)); simpl; try done; auto 10 with lia.
Qed.

(** The capacities of a device: one entry per enabled family, with the family's
    free and held addresses, between 0 and 2^53, to be requested one at a time. *)
Lemma Device_capacities s name c :
  Device_Capacity (Device_of s true) !! name = Some c →
  (∃ f, (name = CapacityIPv4 ∧ f = Subnet_V4 s ∨ name = CapacityIPv6 ∧ f = Subnet_V6 s)
        ∧ Enabled f = true ∧ Capacity_Value c = Family_Capacity f)
  ∧ (0 <= Capacity_Value c <= maxCount)%Z
  ∧ Capacity_Policy c = Some {| Policy_Default := Some 1%Z; Policy_ValidValues := [1%Z] |}.
Proof.
  unfold Device_of, capacities. simpl.
  destruct (Enabled (Subnet_V4 s)) eqn:E4, (Enabled (Subnet_V6 s)) eqn:E6;
    rewrite ?lookup_insert; repeat case_decide; intros; simplify_map_eq;
    (split; [eexists; split; [|split; [|reflexivity]]; eauto|]);
    (split; [apply Family_Capacity_range|done]).
Qed.

End published.
