(* ===== verification/Held.v ===== *)
(** * Addresses held by claims (internal/publisher/held.go)

    The scheduler subtracts the consumption of every allocated claim from a
    device's capacity, so the publisher adds back the addresses that claims already
    hold.  [ApplyHeld] computes, per Subnet and family, what the allocated claims
    consume and how much of it kube-ovn has already taken from the free count. *)

From S2P Require Import Prelude K8s Subnet.

(** An ip object of kube-ovn: the address of a pod or VM NIC. *)
Record IPRef := {
  IPRef_Namespace : string;
  IPRef_Name : string;
  IPRef_Subnet : string;
}.

(** The names an ip object of a pod's NIC can carry. *)
Definition OwnersOf : Type := string → string → list string.

Definition set_counts (f : Family) (held allocated : Z) : Family :=
  {| Enabled := Enabled f; Free := Free f; Held := held; Allocated := allocated |}.

Definition set_families (s : Subnet) (v4 v6 : Family) : Subnet := {|
  Subnet_Name := Subnet_Name s; Subnet_UID := Subnet_UID s;
  Subnet_Provider := Subnet_Provider s; Subnet_VPC := Subnet_VPC s;
  Subnet_VlanID := Subnet_VlanID s; Subnet_ProviderNetwork := Subnet_ProviderNetwork s;
  Subnet_V4 := v4; Subnet_V6 := v6;
|}.

Definition reset (s : Subnet) : Subnet :=
  set_families s (set_counts (Subnet_V4 s) 0 0) (set_counts (Subnet_V6 s) 0 0).

Section with_packages.
Context `{K : K8s} `{G : GoImpl}.

Definition ParseIPObject (obj : Unstructured) : IPRef * bool :=
  let spec := match NestedMap (Object obj) ["spec"] with Ok m => m | Err _ => None end in
  let ref := {| IPRef_Namespace := get_string spec "namespace";
                IPRef_Name := get_string spec "podName";
                IPRef_Subnet := get_string spec "subnet" |} in
  (ref, negb (bool_decide (IPRef_Name ref = EmptyString))
        && negb (bool_decide (IPRef_Subnet ref = EmptyString))).

(** The addresses of each family that an allocation result takes. *)
Definition consumed (result : AllocationResult) (s : Subnet) : Z * Z :=
  if decide (Res_ConsumedCapacity result = ∅) then
    ((if Enabled (Subnet_V4 s) then 1 else 0)%Z, (if Enabled (Subnet_V6 s) then 1 else 0)%Z)
  else
    (default 0%Z (Res_ConsumedCapacity result !! CapacityIPv4),
     default 0%Z (Res_ConsumedCapacity result !! CapacityIPv6)).

(** [byName]: the index of the Subnet of a name, the last one of several. *)
Fixpoint index_names (i : nat) (subnets : list Subnet) (m : gmap string nat) : gmap string nat :=
  match subnets with
  | [] => m
  | s :: subnets => index_names (S i) subnets (<[Subnet_Name s := i]> m)
  end.

(** Addresses by namespace, owner and Subnet. *)
Definition address_key : Type := string * string * string.
Definition count_address (m : gmap address_key Z) (ip : IPRef) : gmap address_key Z :=
  let k : address_key := (IPRef_Namespace ip, IPRef_Name ip, IPRef_Subnet ip) in
  <[k := add64 (default 0%Z (m !! k)) 1]> m.
Definition count_addresses (ips : list IPRef) : gmap address_key Z := foldl count_address ∅ ips.

(** The use one allocation result adds to a claim's [perSubnet]. *)
Definition add_result (driver : string) (byName : gmap string nat) (subnets : list Subnet)
    (perSubnet : gmap string (Z * Z)) (result : AllocationResult) : gmap string (Z * Z) :=
  if negb (bool_decide (Res_Driver result = driver)) then perSubnet
  else match byName !! Res_Pool result ≫= (λ i, subnets !! i) with
       | None => perSubnet
       | Some s =>
           if negb (bool_decide (Res_Device result = DeviceName (Subnet_Name s))) then perSubnet
           else
             let u := default (0, 0)%Z (perSubnet !! Subnet_Name s) in
             let '(v4, v6) := consumed result s in
             <[Subnet_Name s := (add64 u.1 v4, add64 u.2 v6)]> perSubnet
       end.

(** The owners of the addresses of the pods a claim is reserved for. *)
Definition claim_owners (owners : OwnersOf) (claim : ResourceClaim) : list string :=
  refs ← Claim_ReservedFor claim;
  if decide (Ref_Resource refs = "pods") then owners (Claim_Namespace claim) (Ref_Name refs) else [].

(** The addresses of the distinct owners in one Subnet, added to [have]. *)
Fixpoint have_addresses (addresses : gmap address_key Z) (ns subnet : string)
    (names : list string) (seen : gset string) (have : Z) : Z :=
  match names with
  | [] => have
  | name :: names =>
      if decide (name ∈ seen) then have_addresses addresses ns subnet names seen have
      else have_addresses addresses ns subnet names ({[name]} ∪ seen)
             (add64 have (default 0%Z (addresses !! ((ns, name, subnet) : address_key))))
  end.

(** What a claim adds to the counters of a family. *)
Definition add_use (u have : Z) (f : Family) : Family :=
  set_counts f (add64 (Held f) (Z.min u have)) (add64 (Allocated f) u).

Definition apply_use (byName : gmap string nat) (have : string → Z)
    (subnets : list Subnet) (use : string * (Z * Z)) : list Subnet :=
  match byName !! use.1 with
  | None => subnets
  | Some i =>
      alter (λ s, set_families s (add_use use.2.1 (have use.1) (Subnet_V4 s))
                                 (add_use use.2.2 (have use.1) (Subnet_V6 s))) i subnets
  end.

(** The body of the loop over claims. *)
Definition apply_claim (driver : string) (byName : gmap string nat)
    (addresses : gmap address_key Z) (owners : OwnersOf)
    (subnets : list Subnet) (claim : ResourceClaim) : list Subnet :=
  match Claim_Allocation claim with
  | None => subnets
  | Some alloc =>
      let perSubnet := foldl (add_result driver byName subnets) ∅ (Alloc_Results alloc) in
      let names := claim_owners owners claim in
      let have subnet := have_addresses addresses (Claim_Namespace claim) subnet names ∅ 0 in
      if decide (perSubnet = ∅) then subnets
      else foldl (apply_use byName have) subnets (map_range 0 perSubnet)
  end.

Definition ApplyHeld (subnets : list Subnet) (driver : string) (claims : list ResourceClaim)
    (ips : list IPRef) (owners : OwnersOf) : list Subnet :=
  let subnets := reset <$> subnets in
  foldl (apply_claim driver (index_names 0 subnets ∅) (count_addresses ips) owners) subnets claims.

(** ** Specification

    The consumption of a claim and the addresses it has, as plain sums over the
    claim's results, its owners and the ip objects. *)

Definition sumZ (l : list Z) : Z := foldr Z.add 0%Z l.

(** The results of a claim that are allocations from the Subnet's device. *)
Definition results_for (driver : string) (s : Subnet) (claim : ResourceClaim) : list AllocationResult :=
  filter (λ r, Res_Driver r = driver ∧ Res_Pool r = Subnet_Name s
               ∧ Res_Device r = DeviceName (Subnet_Name s))
    (match Claim_Allocation claim with Some a => Alloc_Results a | None => [] end).

Definition claim_use (driver : string) (fam : Z * Z → Z) (s : Subnet) (claim : ResourceClaim) : Z :=
  sumZ ((λ r, fam (consumed r s)) <$> results_for driver s claim).

(** The ip objects of the claim's owners in the Subnet. *)
Definition claim_have (ips : list IPRef) (owners : OwnersOf) (s : Subnet) (claim : ResourceClaim) : Z :=
  Z.of_nat (length (filter (λ ip, IPRef_Namespace ip = Claim_Namespace claim
                                  ∧ IPRef_Name ip ∈ claim_owners owners claim
                                  ∧ IPRef_Subnet ip = Subnet_Name s) ips)).

(** The claims that count for a Subnet: those with an allocation from its device. *)
Definition spec_allocated (driver : string) (fam : Z * Z → Z) (s : Subnet) (claims : list ResourceClaim) : Z :=
  sumZ (claim_use driver fam s <$> claims).
Definition spec_held (driver : string) (fam : Z * Z → Z) (ips : list IPRef) (owners : OwnersOf)
    (s : Subnet) (claims : list ResourceClaim) : Z :=
  sumZ ((λ c, match results_for driver s c with
              | [] => 0%Z
              | _ => Z.min (i64 (claim_use driver fam s c)) (i64 (claim_have ips owners s c))
              end) <$> claims).

Definition spec_family (driver : string) (fam : Z * Z → Z) (ips : list IPRef) (owners : OwnersOf)
    (s : Subnet) (claims : list ResourceClaim) (f : Family) : Family :=
  set_counts f (i64 (spec_held driver fam ips owners s claims))
               (i64 (spec_allocated driver fam s claims)).

Definition spec_subnet (driver : string) (claims : list ResourceClaim) (ips : list IPRef)
    (owners : OwnersOf) (s : Subnet) : Subnet :=
  set_families s (spec_family driver fst ips owners s claims (Subnet_V4 s))
                 (spec_family driver snd ips owners s claims (Subnet_V6 s)).

End with_packages.

(** ** Lemmas *)

Section lemmas.
Context `{K : K8s} `{G : GoImpl}.

Lemma index_names_ne k ss m n :
  n ∉ Subnet_Name <$> ss → index_names k ss m !! n = m !! n.
Proof.
  revert k m. induction ss as [|s ss IH]; intros k m; simpl; [done|].
  rewrite not_elem_of_cons. intros [Hn Hss]. by rewrite IH, lookup_insert_ne.
Qed.

Lemma index_names_eq k ss m i s :
  NoDup (Subnet_Name <$> ss) → ss !! i = Some s →
  index_names k ss m !! Subnet_Name s = Some (k + i).
Proof.
  revert k m i. induction ss as [|s' ss IH]; intros k m i; simpl; [done|].
  rewrite NoDup_cons. intros [Hn Hnd] Hi. destruct i as [|i]; simpl in Hi.
  - simplify_eq. rewrite index_names_ne by done. rewrite lookup_insert_eq. f_equal. lia.
  - rewrite (IH (S k) _ i Hnd Hi). f_equal. lia.
Qed.

Lemma index_names_inv ss n i :
  NoDup (Subnet_Name <$> ss) → index_names 0 ss ∅ !! n = Some i →
  ∃ s, ss !! i = Some s ∧ Subnet_Name s = n.
Proof.
  intros Hnd Hi. destruct (decide (n ∈ Subnet_Name <$> ss)) as [Hin|Hn].
  - apply list_elem_of_fmap in Hin as (s & -> & [j Hj]%list_elem_of_lookup).
    rewrite (index_names_eq 0 ss ∅ j s Hnd Hj) in Hi. simplify_eq. eauto.
  - by rewrite index_names_ne, lookup_empty in Hi.
Qed.

Lemma index_names_names k ss ss' m :
  Subnet_Name <$> ss = Subnet_Name <$> ss' → index_names k ss m = index_names k ss' m.
Proof.
  revert k m ss'. induction ss as [|s ss IH]; intros k m [|s' ss']; simpl; try done.
  intros [= -> E]. auto.
Qed.

(** Counting ip objects. *)
Definition ip_key (ip : IPRef) : address_key := (IPRef_Namespace ip, IPRef_Name ip, IPRef_Subnet ip).

Lemma count_addresses_gen m ips k :
  default 0%Z (foldl count_address m ips !! k)
  = match filter (λ ip, ip_key ip = k) ips with
    | [] => default 0%Z (m !! k)
    | l => i64 (default 0%Z (m !! k) + Z.of_nat (length l))
    end.
Proof.
  revert m. induction ips as [|ip ips IH]; intros m; simpl; [done|].
  rewrite IH. unfold count_address. fold (ip_key ip). rewrite filter_cons.
  destruct (decide (ip_key ip = k)) as [->|Hne].
  - rewrite lookup_insert_eq. simpl. unfold add64.
    destruct (filter _ ips) as [|x l]; [done|]. rewrite i64_i64_add_l. f_equal. simpl length. lia.
  - by rewrite lookup_insert_ne.
Qed.

Lemma i64_0 : i64 0 = 0%Z.
Proof. done. Qed.

Lemma count_addresses_lookup ips k :
  default 0%Z (count_addresses ips !! k) = i64 (Z.of_nat (length (filter (λ ip, ip_key ip = k) ips))).
Proof.
  unfold count_addresses. rewrite count_addresses_gen, lookup_empty.
  by destruct (filter _ ips).
Qed.

Lemma i64_add_r x y : i64 (x + i64 y) = i64 (x + y).
Proof. rewrite !(Z.add_comm x). apply i64_i64_add_l. Qed.

(** Adding the addresses of one more owner. *)
Lemma count_owner_step (ips : list IPRef) ns sub n names (seen : gset string) :
  n ∉ seen →
  length (filter (λ ip, IPRef_Namespace ip = ns ∧ (IPRef_Name ip ∈ n :: names ∧ IPRef_Name ip ∉ seen)
                        ∧ IPRef_Subnet ip = sub) ips)
  = length (filter (λ ip, ip_key ip = (ns, n, sub)) ips)
    + length (filter (λ ip, IPRef_Namespace ip = ns ∧ (IPRef_Name ip ∈ names ∧ IPRef_Name ip ∉ {[n]} ∪ seen)
                        ∧ IPRef_Subnet ip = sub) ips).
Proof.
  intros Hn. induction ips as [|ip ips IH]; [done|]. rewrite !filter_cons.
  assert (ip_key ip = (ns, n, sub) ↔
          IPRef_Namespace ip = ns ∧ IPRef_Name ip = n ∧ IPRef_Subnet ip = sub) as Hk
    by (unfold ip_key; naive_solver).
  repeat case_decide; simpl; try lia; exfalso; set_solver.
Qed.

Lemma count_owner_skip (ips : list IPRef) ns sub n names (seen : gset string) :
  n ∈ seen →
  filter (λ ip, IPRef_Namespace ip = ns ∧ (IPRef_Name ip ∈ n :: names ∧ IPRef_Name ip ∉ seen)
                        ∧ IPRef_Subnet ip = sub) ips
  = filter (λ ip, IPRef_Namespace ip = ns ∧ (IPRef_Name ip ∈ names ∧ IPRef_Name ip ∉ seen)
                        ∧ IPRef_Subnet ip = sub) ips.
Proof. intros Hn. apply list_filter_iff. intros ip. set_solver. Qed.

Lemma have_addresses_gen ips ns sub names seen have :
  i64 (have_addresses (count_addresses ips) ns sub names seen have)
  = i64 (have + Z.of_nat (length (filter (λ ip,
       IPRef_Namespace ip = ns ∧ (IPRef_Name ip ∈ names ∧ IPRef_Name ip ∉ seen)
       ∧ IPRef_Subnet ip = sub) ips))).
Proof.
  revert seen have. induction names as [|n names IH]; intros seen have; simpl.
  - rewrite filter_none by set_solver. f_equal. simpl. lia.
  - case_decide as Hn; [by rewrite IH, count_owner_skip|].
    rewrite IH, count_addresses_lookup, count_owner_step by done. unfold add64.
    rewrite i64_i64_add_l, Nat2Z.inj_add.
    match goal with |- i64 (_ + i64 ?a + ?b) = _ =>
      replace (have + i64 a + b)%Z with (have + b + i64 a)%Z by lia end.
    rewrite i64_add_r. f_equal. lia.
Qed.

Lemma i64_idemp x : i64 (i64 x) = i64 x.
Proof. apply i64_id, i64_range. Qed.

Lemma have_addresses_wrapped addresses ns sub names seen have :
  i64 have = have →
  i64 (have_addresses addresses ns sub names seen have) = have_addresses addresses ns sub names seen have.
Proof.
  revert seen have. induction names as [|n names IH]; intros seen have Hh; simpl; [done|].
  case_decide; apply IH; [done|]. apply i64_idemp.
Qed.

Lemma have_addresses_spec ips owners sub claim s :
  Subnet_Name s = sub →
  have_addresses (count_addresses ips) (Claim_Namespace claim) sub
         (claim_owners owners claim) ∅ 0 = i64 (claim_have ips owners s claim).
Proof.
  intros <-. rewrite <- have_addresses_wrapped, have_addresses_gen, Z.add_0_l by done.
  unfold claim_have. do 3 f_equal. apply list_filter_iff. set_solver.
Qed.

(** Per-Subnet use of one claim. *)
Lemma add_result_step driver ss i s m r :
  NoDup (Subnet_Name <$> ss) → ss !! i = Some s →
  add_result driver (index_names 0 ss ∅) ss m r !! Subnet_Name s
  = if decide (Res_Driver r = driver ∧ Res_Pool r = Subnet_Name s
               ∧ Res_Device r = DeviceName (Subnet_Name s))
    then let u := default (0, 0)%Z (m !! Subnet_Name s) in
         Some (i64 (u.1 + (consumed r s).1), i64 (u.2 + (consumed r s).2))
    else m !! Subnet_Name s.
Proof.
  intros Hnd Hi. unfold add_result. rewrite (bool_decide_decide (Res_Driver r = driver)).
  case_decide as Hd; simpl; [|by rewrite decide_False by naive_solver].
  destruct (decide (Res_Pool r = Subnet_Name s)) as [Hp|Hp].
  - rewrite Hp, (index_names_eq 0 ss ∅ i s Hnd Hi). simpl. rewrite Hi, bool_decide_decide.
    case_decide as Hdev; simpl; [|by rewrite decide_False by naive_solver].
    destruct (consumed r s) as [v4 v6] eqn:Ec. rewrite lookup_insert_eq, decide_True by done. done.
  - rewrite (decide_False (P := _ ∧ _)) by naive_solver.
    destruct (index_names 0 ss ∅ !! Res_Pool r) as [j|] eqn:Ej; simpl; [|done].
    apply index_names_inv in Ej as (s' & Hj & Hn); [|done]. rewrite Hj. simpl.
    case_match; [done|]. destruct (consumed r s'). rewrite lookup_insert_ne by congruence. done.
Qed.

Lemma add_result_gen driver ss i s rs m :
  NoDup (Subnet_Name <$> ss) → ss !! i = Some s →
  let u := default (0, 0)%Z (m !! Subnet_Name s) in
  let rs' := filter (λ r, Res_Driver r = driver ∧ Res_Pool r = Subnet_Name s
                          ∧ Res_Device r = DeviceName (Subnet_Name s)) rs in
  foldl (add_result driver (index_names 0 ss ∅) ss) m rs !! Subnet_Name s
  = match rs' with
    | [] => m !! Subnet_Name s
    | _ => Some (i64 (u.1 + sumZ ((λ r, (consumed r s).1) <$> rs')),
                 i64 (u.2 + sumZ ((λ r, (consumed r s).2) <$> rs')))
    end.
Proof.
  intros Hnd Hi. revert m. induction rs as [|r rs IH]; intros m; simpl; [done|].
  rewrite IH, (add_result_step _ _ i s _ _ Hnd Hi), filter_cons. clear IH.
  case_decide; [|done]. simpl.
  destruct (filter _ rs) as [|x l]; simpl; rewrite ?i64_i64_add_l; do 2 f_equal; f_equal; lia.
Qed.

(** The update loop changes every Subnet by its own entry, in any order. *)
Definition upd (have : string → Z) (s : Subnet) (u : Z * Z) : Subnet :=
  set_families s (add_use u.1 (have (Subnet_Name s)) (Subnet_V4 s))
                 (add_use u.2 (have (Subnet_Name s)) (Subnet_V6 s)).

Lemma apply_use_names have ss l byName :
  Subnet_Name <$> foldl (apply_use byName have) ss l = Subnet_Name <$> ss.
Proof.
  revert ss. induction l as [|[n u] l IH]; intros ss; simpl; [done|]. rewrite IH.
  unfold apply_use. simpl. destruct (byName !! n) as [i|]; [|done].
  apply list_eq. intros j. rewrite !list_lookup_fmap, list_lookup_alter. case_decide; [subst|done].
  by destruct (ss !! j).
Qed.

Lemma apply_uses have ss l i s :
  NoDup (Subnet_Name <$> ss) → NoDup l.*1 → ss !! i = Some s →
  foldl (apply_use (index_names 0 ss ∅) have) ss l !! i
  = Some (match (list_to_map l : gmap string (Z * Z)) !! Subnet_Name s with
          | Some u => upd have s u
          | None => s
          end).
Proof.
  intros Hnd. remember (index_names 0 ss ∅) as byName eqn:Hb. revert ss Hnd Hb s.
  induction l as [|[n u] l IH]; intros ss Hnd Hb s Hl Hi; simpl; [by rewrite Hi|].
  simpl in Hl. apply NoDup_cons in Hl as [Hn Hl].
  pose proof (apply_use_names have ss [(n, u)] byName) as Hnames. simpl in Hnames.
  assert (apply_use byName have ss (n, u) !! i
          = Some (if decide (n = Subnet_Name s) then upd have s u else s)) as Hstep.
  { unfold apply_use. simpl. destruct (byName !! n) as [j|] eqn:Ej.
    - subst byName. apply index_names_inv in Ej as (s' & Hj & Hn'); [|done].
      rewrite list_lookup_alter. case_decide as Hij.
      + subst j. rewrite Hi. simplify_eq. simpl. by rewrite decide_True.
      + rewrite decide_False, Hi; [done|]. intros ->. apply Hij.
        eapply (NoDup_lookup _ j i (Subnet_Name s') Hnd); rewrite list_lookup_fmap.
        * by rewrite Hj. * rewrite Hi. simpl. congruence.
    - rewrite decide_False; [done|]. intros ->. subst byName.
      by rewrite (index_names_eq 0 ss ∅ i s Hnd Hi) in Ej. }
  assert (byName = index_names 0 (apply_use byName have ss (n, u)) ∅) as Hb'
    by (rewrite Hb at 1; by apply index_names_names).
  assert (NoDup (Subnet_Name <$> apply_use byName have ss (n, u))) as Hnd' by (by rewrite Hnames).
  rewrite (IH _ Hnd' Hb' _ Hl Hstep).
  f_equal. rewrite lookup_insert. case_decide as Hns; [|done].
  subst n. simpl. by rewrite (not_elem_of_list_to_map_1 l _ Hn).
Qed.

(** ** One claim *)

Lemma sumZ_cons x l : sumZ (x :: l) = (x + sumZ l)%Z.
Proof. done. Qed.

Lemma sumZ_app l k : sumZ (l ++ k) = (sumZ l + sumZ k)%Z.
Proof. induction l as [|x l IH]; simpl; [done|]. unfold sumZ in *. simpl. lia. Qed.

Lemma spec_subnet_name driver claims ips owners s :
  Subnet_Name (spec_subnet driver claims ips owners s) = Subnet_Name s.
Proof. done. Qed.

Lemma consumed_spec driver claims ips owners r s :
  consumed r (spec_subnet driver claims ips owners s) = consumed r s.
Proof. done. Qed.

(** A claim that has no allocation from a Subnet leaves it as it is; another one adds
    its use, and what it holds of it. *)
Lemma spec_family_snoc driver fam ips owners s claims c f :
  spec_family driver fam ips owners s (claims ++ [c]) f
  = match results_for driver s c with
    | [] => spec_family driver fam ips owners s claims f
    | _ => add_use (i64 (claim_use driver fam s c)) (i64 (claim_have ips owners s c))
             (spec_family driver fam ips owners s claims f)
    end.
Proof.
  unfold spec_family, spec_held, spec_allocated. rewrite !fmap_app, !sumZ_app. simpl.
  destruct (results_for driver s c) eqn:E.
  - unfold claim_use. rewrite E. simpl. by rewrite !Z.add_0_r.
  - unfold add_use, add64. simpl. rewrite !Z.add_0_r, !i64_i64_add_l, i64_add_r. done.
Qed.

Lemma apply_claim_spec driver subnets claims ips owners c :
  NoDup (Subnet_Name <$> subnets) →
  apply_claim driver (index_names 0 subnets ∅) (count_addresses ips) owners
    (spec_subnet driver claims ips owners <$> subnets) c
  = spec_subnet driver (claims ++ [c]) ips owners <$> subnets.
Proof.
  intros Hnd. set (ss := spec_subnet driver claims ips owners <$> subnets).
  assert (Subnet_Name <$> ss = Subnet_Name <$> subnets) as Hn.
  { unfold ss. rewrite <- list_fmap_compose. by apply list_fmap_ext. }
  rewrite <- (index_names_names 0 ss subnets ∅ Hn). rewrite <- Hn in Hnd.
  apply list_eq. intros i. rewrite list_lookup_fmap.
  destruct (subnets !! i) as [s|] eqn:Hi; simpl.
  2:{ apply lookup_ge_None. apply lookup_ge_None in Hi.
      transitivity (length subnets); [|done]. apply Nat.eq_le_incl.
      unfold apply_claim. destruct (Claim_Allocation c); [|by unfold ss; rewrite length_fmap].
      case_decide; [by unfold ss; rewrite length_fmap|].
      rewrite <- (length_fmap Subnet_Name), apply_use_names, Hn. by rewrite length_fmap. }
  assert (ss !! i = Some (spec_subnet driver claims ips owners s)) as Hss
    by (unfold ss; by rewrite list_lookup_fmap, Hi).
  change (spec_subnet driver (claims ++ [c]) ips owners s)
    with (set_families s (spec_family driver fst ips owners s (claims ++ [c]) (Subnet_V4 s))
                         (spec_family driver snd ips owners s (claims ++ [c]) (Subnet_V6 s))).
  rewrite !spec_family_snoc. unfold apply_claim, results_for.
  destruct (Claim_Allocation c) as [alloc|] eqn:Ea; [|done].
  pose proof (add_result_gen driver ss i _ (Alloc_Results alloc) ∅ Hnd Hss) as Hu.
  rewrite spec_subnet_name, lookup_empty in Hu. simpl in Hu.
  case_decide as He; [rewrite He, lookup_empty in Hu; rewrite Hss; by destruct (filter _ _)|].
  rewrite (apply_uses _ ss _ i _ Hnd (map_range_NoDup _ _) Hss), map_range_to_map.
  rewrite spec_subnet_name, Hu. f_equal. destruct (filter _ _) as [|r rs] eqn:Ef; [done|].
  unfold upd. rewrite spec_subnet_name, (have_addresses_spec _ _ _ _ s) by done.
  unfold claim_use, results_for. rewrite Ea, Ef. done.
Qed.

(** ** The whole computation *)

Lemma ApplyHeld_spec subnets driver claims ips owners :
  NoDup (Subnet_Name <$> subnets) →
  ApplyHeld subnets driver claims ips owners = spec_subnet driver claims ips owners <$> subnets.
Proof.
  intros Hnd. unfold ApplyHeld.
  rewrite (index_names_names 0 (reset <$> subnets) subnets ∅)
    by (rewrite <- list_fmap_compose; by apply list_fmap_ext).
  induction claims as [|c claims IH] using rev_ind.
  - simpl. by apply list_fmap_ext.
  - by rewrite foldl_app, IH, <- apply_claim_spec.
Qed.

(** C16: [ApplyHeld] implements its specification: in every Subnet, whatever the order
    in which the maps are visited, the allocated counter is the sum of what the
    claims consume from the Subnet's device, and the held counter the sum over the claims
    of the lesser of what the claim consumes and the number of addresses in the Subnet that
    the owners of its pods have, both wrapped to 64 bits.  An address counts once for every
    claim of its owner: see [address_held_twice]. *)
Theorem ApplyHeld_refines subnets driver claims ips owners :
  NoDup (Subnet_Name <$> subnets) →
  ApplyHeld subnets driver claims ips owners = spec_subnet driver claims ips owners <$> subnets.
Proof. apply ApplyHeld_spec. Qed.

(** The addresses allocated claims still wait for. *)
Definition pending (driver : string) (fam : Z * Z → Z) (ips : list IPRef) (owners : OwnersOf)
    (s : Subnet) (claims : list ResourceClaim) : Z :=
  sumZ ((λ c, claim_use driver fam s c
              - Z.min (claim_use driver fam s c) (claim_have ips owners s c))%Z <$> claims).

(** Consumption is never negative, as the API server ensures. *)
Definition nonneg_use (driver : string) (fam : Z * Z → Z) (s : Subnet) (claims : list ResourceClaim) : Prop :=
  ∀ c r, c ∈ claims → r ∈ results_for driver s c → (0 <= fam (consumed r s))%Z.

Lemma sumZ_nonneg l : (∀ x, x ∈ l → (0 <= x)%Z) → (0 <= sumZ l)%Z.
Proof.
  induction l as [|x l IH]; simpl; [done|]. unfold sumZ in *. simpl. intros Hl.
  pose proof (Hl x ltac:(set_solver)). pose proof (IH ltac:(set_solver)). lia.
Qed.

Lemma claim_use_nonneg driver fam s claims c :
  nonneg_use driver fam s claims → c ∈ claims → (0 <= claim_use driver fam s c)%Z.
Proof.
  intros Hn Hc. apply sumZ_nonneg. intros x (r & -> & Hr)%list_elem_of_fmap. eauto.
Qed.

Lemma claim_have_range ips owners s c :
  (0 <= claim_have ips owners s c <= Z.of_nat (length ips))%Z.
Proof.
  unfold claim_have. split; [lia|]. apply Nat2Z.inj_le, length_filter.
Qed.

Lemma claim_use_empty driver fam s c : results_for driver s c = [] → claim_use driver fam s c = 0%Z.
Proof. unfold claim_use. by intros ->. Qed.

(** Within the bounds of an [int64], held and pending add up to the allocation. *)
Lemma held_pending driver fam ips owners s claims :
  nonneg_use driver fam s claims → (spec_allocated driver fam s claims <= i64_max)%Z →
  (Z.of_nat (length ips) <= i64_max)%Z →
  (spec_held driver fam ips owners s claims + pending driver fam ips owners s claims
   = spec_allocated driver fam s claims)%Z
  ∧ (0 <= spec_held driver fam ips owners s claims)%Z
  ∧ (0 <= pending driver fam ips owners s claims)%Z.
Proof.
  unfold spec_held, pending, spec_allocated, i64_max. intros Hn Hs Hi.
  induction claims as [|c claims IH]; [done|]. rewrite !fmap_cons, !sumZ_cons in *.
  pose proof (claim_use_nonneg driver fam s (c :: claims) c Hn ltac:(set_solver)) as Hc.
  assert (nonneg_use driver fam s claims) as Hn' by (intros c' r Hc'; apply Hn; set_solver).
  assert (0 <= sumZ (claim_use driver fam s <$> claims))%Z as Hrest.
  { apply sumZ_nonneg. intros x (c' & -> & Hc')%list_elem_of_fmap.
    by apply (claim_use_nonneg driver fam s claims). }
  pose proof (claim_have_range ips owners s c) as Hh.
  specialize (IH Hn' ltac:(lia)).
  rewrite !i64_id by (unfold i64_min, i64_max; lia).
  destruct (results_for driver s c) eqn:E; [|lia].
  rewrite claim_use_empty in * by done. lia.
Qed.

Lemma spec_family_view driver fam ips owners s claims f :
  nonneg_use driver fam s claims → (0 <= Free f)%Z →
  (Free f + spec_allocated driver fam s claims <= maxCount)%Z →
  (Z.of_nat (length ips) <= i64_max)%Z →
  let f' := spec_family driver fam ips owners s claims f in
  (Family_Capacity f' - Allocated f' = Free f - pending driver fam ips owners s claims)%Z
  ∧ (0 <= Held f' <= Allocated f')%Z.
Proof.
  intros Hn Hf Hm Hi.
  destruct (held_pending driver fam ips owners s claims Hn) as (Hsum & Hh & Hp);
    [unfold maxCount, i64_max in *; lia|done|].
  unfold spec_family, set_counts. simpl.
  rewrite (i64_id (spec_held _ _ _ _ _ _)) by (unfold maxCount, i64_min, i64_max in *; lia).
  rewrite (i64_id (spec_allocated _ _ _ _)) by (unfold maxCount, i64_min, i64_max in *; lia).
  rewrite Family_Capacity_exact by (unfold maxCount in *; simpl; lia). simpl. lia.
Qed.

(** The scheduler sees the free addresses less those the claims wait for, claim by claim. *)
Lemma scheduler_sees_pending subnets driver claims ips owners i s fam get :
  NoDup (Subnet_Name <$> subnets) → subnets !! i = Some s →
  (fam = fst ∧ get = Subnet_V4 ∨ fam = snd ∧ get = Subnet_V6) →
  nonneg_use driver fam s claims → (0 <= Free (get s))%Z →
  (Free (get s) + spec_allocated driver fam s claims <= maxCount)%Z →
  (Z.of_nat (length ips) <= i64_max)%Z →
  ∃ s', ApplyHeld subnets driver claims ips owners !! i = Some s' ∧
    (Family_Capacity (get s') - Allocated (get s')
     = Free (get s) - pending driver fam ips owners s claims)%Z ∧
    (0 <= Held (get s') <= Allocated (get s'))%Z.
Proof.
  intros Hnd Hi Hg Hn Hf Hm Hl. rewrite ApplyHeld_spec, list_lookup_fmap, Hi by done.
  eexists. split; [done|]. destruct Hg as [[-> ->]|[-> ->]]; by apply spec_family_view.
Qed.

(** ** The addresses in use *)

(** The ip object is an address in the Subnet of a pod the claim is reserved for. *)
Definition owned_by (owners : OwnersOf) (s : Subnet) (c : ResourceClaim) (ip : IPRef) : Prop :=
  IPRef_Namespace ip = Claim_Namespace c ∧ IPRef_Name ip ∈ claim_owners owners c ∧ IPRef_Subnet ip = Subnet_Name s.

#[export] Instance owned_by_dec owners s c ip : Decision (owned_by owners s c ip).
Proof. unfold owned_by. apply _. Defined.

(** The claim has an allocation from the Subnet, and the address belongs to it. *)
Definition uses (driver : string) (owners : OwnersOf) (s : Subnet) (ip : IPRef) (c : ResourceClaim) : Prop :=
  results_for driver s c ≠ [] ∧ owned_by owners s c ip.

#[export] Instance uses_dec driver owners s ip c : Decision (uses driver owners s ip c).
Proof. unfold uses. destruct (results_for driver s c); [right; naive_solver|apply _]. Defined.

(** The addresses of the Subnet that kube-ovn has given to the pods of claims allocated
    from its device, each counted once. *)
Definition addresses_in_use (driver : string) (ips : list IPRef) (owners : OwnersOf) (s : Subnet)
    (claims : list ResourceClaim) : Z :=
  Z.of_nat (length (filter (λ ip, Exists (uses driver owners s ip) claims) ips)).

(** No address belongs to two of the claims. *)
Definition sole_owners (driver : string) (ips : list IPRef) (owners : OwnersOf) (s : Subnet)
    (claims : list ResourceClaim) : Prop :=
  ∀ i j c c' ip, claims !! i = Some c → claims !! j = Some c' → ip ∈ ips →
    uses driver owners s ip c → uses driver owners s ip c' → i = j.

(** The pods of a claim have no addresses in the Subnet but those the claim takes. *)
Definition addresses_fit (driver : string) (fam : Z * Z → Z) (ips : list IPRef) (owners : OwnersOf) (s : Subnet)
    (claims : list ResourceClaim) : Prop :=
  ∀ c, c ∈ claims → results_for driver s c ≠ [] → (claim_have ips owners s c <= claim_use driver fam s c)%Z.

Lemma length_filter_disjoint {A} (P Q R : A → Prop) `{∀ x, Decision (P x), ∀ x, Decision (Q x), ∀ x, Decision (R x)} l :
  (∀ x, x ∈ l → R x ↔ P x ∨ Q x) → (∀ x, x ∈ l → P x → Q x → False) →
  length (filter R l) = (length (filter P l) + length (filter Q l))%nat.
Proof.
  induction l as [|x l IH]; intros Hr Hd; [done|].
  assert (R x ↔ P x ∨ Q x) as Hx by (apply Hr; left). assert (P x → Q x → False) as Hdx by (apply Hd; left).
  specialize (IH (λ y Hy, Hr y (list_elem_of_further _ _ _ Hy)) (λ y Hy, Hd y (list_elem_of_further _ _ _ Hy))).
  rewrite !filter_cons. repeat case_decide; simpl; try lia; naive_solver.
Qed.

Lemma uses_count driver ips owners s c :
  Z.of_nat (length (filter (λ ip, uses driver owners s ip c) ips)) =
  match results_for driver s c with [] => 0%Z | _ => claim_have ips owners s c end.
Proof.
  assert (results_for driver s c = [] ∨ results_for driver s c ≠ []) as [E|E]
    by (destruct (results_for driver s c); [by left|by right]).
  - rewrite E, filter_none; [done|]. by intros ip _ [? _].
  - transitivity (claim_have ips owners s c); [|by destruct (results_for driver s c)].
    unfold claim_have. do 2 f_equal. apply list_filter_iff. intros ip. unfold uses, owned_by. tauto.
Qed.

Lemma addresses_in_use_cons driver ips owners s c claims :
  sole_owners driver ips owners s (c :: claims) →
  addresses_in_use driver ips owners s (c :: claims) =
    (match results_for driver s c with [] => 0 | _ => claim_have ips owners s c end +
     addresses_in_use driver ips owners s claims)%Z.
Proof.
  intros Ho. unfold addresses_in_use.
  etransitivity; [apply f_equal, (length_filter_disjoint (λ ip, uses driver owners s ip c)
                                    (λ ip, Exists (uses driver owners s ip) claims))|].
  3: by rewrite Nat2Z.inj_add, uses_count.
  - intros ip _. apply Exists_cons.
  - intros ip Hip Hu (c' & [j Hj]%list_elem_of_lookup & Hu')%Exists_exists.
    pose proof (Ho 0%nat (S j) c c' ip eq_refl Hj Hip Hu Hu'). lia.
Qed.

Lemma held_in_use driver fam ips owners s claims :
  nonneg_use driver fam s claims → (spec_allocated driver fam s claims <= i64_max)%Z →
  (Z.of_nat (length ips) <= i64_max)%Z → sole_owners driver ips owners s claims →
  addresses_fit driver fam ips owners s claims →
  spec_held driver fam ips owners s claims = addresses_in_use driver ips owners s claims.
Proof.
  unfold spec_held, spec_allocated, i64_max. intros Hn Hs Hi. induction claims as [|c claims IH]; intros Ho Hfit.
  { unfold addresses_in_use. rewrite filter_none by (intros ip _ H; by inversion H). done. }
  rewrite addresses_in_use_cons, fmap_cons, sumZ_cons by done. rewrite fmap_cons, sumZ_cons in Hs.
  pose proof (claim_use_nonneg driver fam s (c :: claims) c Hn ltac:(set_solver)) as Hc.
  assert (nonneg_use driver fam s claims) as Hn' by (intros c' r Hc'; apply Hn; set_solver).
  assert (0 <= sumZ (claim_use driver fam s <$> claims))%Z as Hrest.
  { apply sumZ_nonneg. intros x (c' & -> & Hc')%list_elem_of_fmap. by apply (claim_use_nonneg driver fam s claims). }
  pose proof (claim_have_range ips owners s c) as Hh. rewrite IH; [|done|lia| |].
  - f_equal. specialize (Hfit c ltac:(left)). destruct (results_for driver s c) eqn:E; [done|].
    rewrite !i64_id by (unfold i64_min, i64_max; lia). specialize (Hfit ltac:(done)). lia.
  - intros i j c1 c2 ip Hi1 Hj1 Hip Hu1 Hu2. pose proof (Ho (S i) (S j) c1 c2 ip Hi1 Hj1 Hip Hu1 Hu2). lia.
  - intros c' Hc'. apply Hfit. by right.
Qed.

(** C15: the scheduler sees the addresses that are still free, as docs/nic-driver.md says,
    when no address belongs to two claims and the pods of a claim have no more addresses in
    the Subnet than it takes: for a family whose free addresses and allocations together do
    not exceed the count the capacity saturates at, the published capacity less the
    consumption of the allocated claims, which the scheduler subtracts, is the Subnet's free
    count less the addresses that allocated claims have not got yet: what they consume, less
    the addresses of their pods, each counted once.  Never more is held than is allocated. *)
Theorem scheduler_sees_free subnets driver claims ips owners i s fam get :
  NoDup (Subnet_Name <$> subnets) → subnets !! i = Some s →
  (fam = fst ∧ get = Subnet_V4 ∨ fam = snd ∧ get = Subnet_V6) →
  nonneg_use driver fam s claims → (0 <= Free (get s))%Z →
  (Free (get s) + spec_allocated driver fam s claims <= maxCount)%Z →
  (Z.of_nat (length ips) <= i64_max)%Z →
  sole_owners driver ips owners s claims → addresses_fit driver fam ips owners s claims →
  ∃ s', ApplyHeld subnets driver claims ips owners !! i = Some s' ∧
    (Family_Capacity (get s') - Allocated (get s')
     = Free (get s) - (spec_allocated driver fam s claims - addresses_in_use driver ips owners s claims))%Z ∧
    (0 <= Held (get s') <= Allocated (get s'))%Z.
Proof.
  intros Hnd Hi Hg Hn Hf Hm Hl Ho Hfit.
  destruct (scheduler_sees_pending subnets driver claims ips owners i s fam get) as (s' & H1 & H2 & H3); [done..|].
  assert (spec_allocated driver fam s claims <= i64_max)%Z as Hmax by (unfold maxCount, i64_max in *; lia).
  exists s'. split_and!; [done| |lia..]. rewrite H2.
  destruct (held_pending driver fam ips owners s claims Hn Hmax Hl) as [Hp _].
  rewrite (held_in_use driver fam) in Hp by done. lia.
Qed.

(** One address counts for every claim of its pod: two claims that take an address of the
    Subnet each, of a pod that has one, hold two, and the scheduler sees the address that one
    of them waits for as free. *)
Theorem address_held_twice driver ips owners s c c' :
  claim_use driver fst s c = 1%Z → claim_use driver fst s c' = 1%Z →
  Claim_Namespace c = Claim_Namespace c' → claim_owners owners c = claim_owners owners c' →
  claim_have ips owners s c = 1%Z → (0 <= Free (Subnet_V4 s) <= maxCount - 2)%Z →
  addresses_in_use driver ips owners s [c; c'] = 1%Z ∧
  ∃ s', ApplyHeld [s] driver [c; c'] ips owners = [s'] ∧ Held (Subnet_V4 s') = 2%Z ∧
    (Family_Capacity (Subnet_V4 s') - Allocated (Subnet_V4 s') = Free (Subnet_V4 s))%Z.
Proof.
  intros Hu Hu' Hns Hown Hh Hf. assert (claim_have ips owners s c' = 1%Z) as Hh'.
  { rewrite <- Hh. unfold claim_have. by rewrite Hns, Hown. }
  assert (results_for driver s c ≠ []) as Hr by (intros E%(claim_use_empty driver fst); congruence).
  assert (results_for driver s c' ≠ []) as Hr' by (intros E%(claim_use_empty driver fst); congruence).
  split.
  - rewrite <- Hh. unfold addresses_in_use, claim_have. do 2 f_equal. apply list_filter_iff. intros ip.
    rewrite Exists_cons, Exists_cons, Exists_nil. unfold uses, owned_by. rewrite <- Hns, <- Hown. naive_solver.
  - assert (spec_family driver fst ips owners s [c; c'] (Subnet_V4 s) = set_counts (Subnet_V4 s) 2 2) as Hfam.
    { unfold spec_family, spec_held, spec_allocated. cbn [fmap list_fmap sumZ foldr]. rewrite Hu, Hu', Hh, Hh'.
      destruct (results_for driver s c); [done|]. by destruct (results_for driver s c'). }
    rewrite ApplyHeld_spec by apply NoDup_singleton. eexists. split; [done|]. unfold spec_subnet.
    cbn [set_families Subnet_V4]. rewrite Hfam. split; [done|].
    rewrite Family_Capacity_exact by (unfold maxCount in *; simpl; lia). unfold maxCount in *. simpl. lia.
Qed.

End lemmas.

(** ** A concrete cluster

    One IPv4 Subnet with nine free addresses; two claims take one address each, the
    first pod's address is already allocated, the second pod still waits for its own. *)
Module example.

Definition subnet : Subnet := {|
  Subnet_Name := "net"; Subnet_UID := "u1"; Subnet_Provider := "net.default.ovn";
  Subnet_VPC := "ovn-cluster"; Subnet_VlanID := 0; Subnet_ProviderNetwork := "";
  Subnet_V4 := {| Enabled := true; Free := 9; Held := 0; Allocated := 0 |};
  Subnet_V6 := Family_zero;
|}.

Definition claim (name pod : string) : ResourceClaim := {|
  Claim_Namespace := "default"; Claim_Name := name; Claim_UID := name; Claim_Annotations := ∅;
  Claim_Allocation := Some {|
    Alloc_Results := [{| Res_Request := "nic"; Res_Driver := "nic.kubeovn.io"; Res_Pool := "net";
                         Res_Device := "subnet-net"; Res_AdminAccess := None;
                         Res_ConsumedCapacity := ∅ |}];
    Alloc_Config := [] |};
  Claim_ReservedFor := [{| Ref_APIGroup := ""; Ref_Resource := "pods"; Ref_Name := pod; Ref_UID := pod |}];
|}.

Definition claims : list ResourceClaim := [claim "c1" "p1"; claim "c2" "p2"].
Definition ips : list IPRef :=
  [{| IPRef_Namespace := "default"; IPRef_Name := "p1"; IPRef_Subnet := "net" |}].
Definition owners : OwnersOf := λ _ pod, [pod].

Lemma names_unique : NoDup (Subnet_Name <$> [subnet]).
Proof. apply NoDup_singleton. Qed.

End example.

Lemma ApplyHeld_refines_witness :
  ApplyHeld (K := k8s_model) (G := go_model) [example.subnet] "nic.kubeovn.io" example.claims
    example.ips example.owners
  = spec_subnet (K := k8s_model) "nic.kubeovn.io" example.claims example.ips example.owners
      <$> [example.subnet].
Proof.
  apply (ApplyHeld_refines (K := k8s_model) (G := go_model)). exact example.names_unique.
Defined.

(** Nine addresses free, two allocated, one of them held: the scheduler sees eight. *)
Lemma scheduler_sees_free_witness :
  ∃ s', ApplyHeld (K := k8s_model) (G := go_model) [example.subnet] "nic.kubeovn.io" example.claims
          example.ips example.owners !! 0 = Some s' ∧
    (Family_Capacity (Subnet_V4 s') - Allocated (Subnet_V4 s') = 8)%Z ∧
    (0 <= Held (Subnet_V4 s') <= Allocated (Subnet_V4 s'))%Z.
Proof.
  destruct (scheduler_sees_free (K := k8s_model) (G := go_model) [example.subnet] "nic.kubeovn.io"
    example.claims example.ips example.owners 0 example.subnet fst Subnet_V4)
    as (s' & H1 & H2 & H3).
  - exact example.names_unique.
  - reflexivity.
  - by left.
  - intros c r Hc Hr. unfold example.claims in Hc.
    apply elem_of_cons in Hc as [->|Hc%list_elem_of_singleton]; [|subst c];
      vm_compute in Hr; apply list_elem_of_singleton in Hr as ->; by vm_compute.
  - by vm_compute.
  - by vm_compute.
  - by vm_compute.
  - intros [|[|i]] [|[|j]] c c' ip Hi Hj Hip [_ Hu] [_ Hu']; try done; exfalso; simpl in Hi, Hj; simplify_eq;
      apply list_elem_of_singleton in Hip as ->; destruct Hu as (_ & Hu & _), Hu' as (_ & Hu' & _);
      vm_compute in Hu, Hu'; apply list_elem_of_singleton in Hu, Hu'; done.
  - intros c Hc _. apply (Forall_forall (λ c, claim_have example.ips example.owners example.subnet c <=
      claim_use "nic.kubeovn.io" fst example.subnet c)%Z example.claims); [|exact Hc].
    repeat constructor; vm_compute; discriminate.
  - exists s'. split; [exact H1|]. split; [rewrite H2; vm_compute; reflexivity|exact H3].
Defined.

Lemma address_held_twice_witness :
  ∃ s', ApplyHeld (K := k8s_model) (G := go_model) [example.subnet] "nic.kubeovn.io"
    [example.claim "c1" "p1"; example.claim "c2" "p1"] example.ips example.owners = [s'] ∧ Held (Subnet_V4 s') = 2%Z.
Proof.
  destruct (address_held_twice (K := k8s_model) (G := go_model) "nic.kubeovn.io" example.ips example.owners
    example.subnet (example.claim "c1" "p1") (example.claim "c2" "p1")) as [_ (s' & H1 & H2 & _)];
    [vm_compute; reflexivity..|vm_compute; split; discriminate|].
  exists s'. exact (conj H1 H2).
Defined.
