(* ===== verification/Pools.v ===== *)
(** * Pools of Subnets (internal/publisher/pools.go)

    Every Subnet is a pool of its own, named after the Subnet, with one slice.  The
    pool of a VLAN Subnet is limited to the nodes where its ProviderNetwork is
    ready. *)

From S2P Require Import Prelude K8s Subnet.

Definition ReadyLabel (providerNetwork : string) : string :=
  providerNetwork +:+ ".provider-network.kubernetes.io/ready".

Definition ReadyNodeSelector (providerNetwork : string) : NodeSelector :=
  [[{| Req_Key := ReadyLabel providerNetwork; Req_Values := ["true"] |}]].

Section with_packages.
Context `{K : K8s}.

Definition Pool_for (s : Subnet) (withCapacity : bool) : Pool := {|
  Pool_Slices := [{| Slice_Devices :=
    if negb withCapacity || negb (Exhausted s) then [Device_of s withCapacity] else [] |}];
  Pool_NodeSelector :=
    if decide (Subnet_ProviderNetwork s = EmptyString) then None
    else Some (ReadyNodeSelector (Subnet_ProviderNetwork s));
|}.

Definition Pools (subnets : list Subnet) (withCapacity : bool) : gmap string Pool :=
  foldl (λ pools s, <[Subnet_Name s := Pool_for s withCapacity]> pools) ∅ subnets.

(** The devices of a pool. *)
Definition pool_devices (p : Pool) : list Device := Pool_Slices p ≫= Slice_Devices.

(** Kubernetes' reading of a node selector with the operator [In]: some term all of
    whose requirements hold. *)
Definition req_matches (labels : gmap string string) (r : NodeSelectorRequirement) : bool :=
  match labels !! Req_Key r with Some v => bool_decide (v ∈ Req_Values r) | None => false end.
Definition available_on (p : Pool) (labels : gmap string string) : bool :=
  match Pool_NodeSelector p with
  | None => true
  | Some terms => existsb (forallb (req_matches labels)) terms
  end.

(** ** Properties *)

Lemma Pools_ne subnets cap (pools : gmap string Pool) n :
  n ∉ Subnet_Name <$> subnets →
  foldl (λ pools s, <[Subnet_Name s := Pool_for s cap]> pools) pools subnets !! n = pools !! n.
Proof.
  revert pools. induction subnets as [|s ss IH]; intros pools; simpl; [done|].
  rewrite not_elem_of_cons. intros [Hn Hss]. by rewrite IH, lookup_insert_ne.
Qed.

Lemma Pools_gen subnets cap (pools : gmap string Pool) s :
  NoDup (Subnet_Name <$> subnets) → s ∈ subnets →
  foldl (λ pools s, <[Subnet_Name s := Pool_for s cap]> pools) pools subnets !! Subnet_Name s
  = Some (Pool_for s cap).
Proof.
  revert pools. induction subnets as [|s' ss IH]; intros pools; simpl; [set_solver|].
  rewrite NoDup_cons, elem_of_cons. intros [Hn Hnd] [->|Hs]; [|auto].
  by rewrite Pools_ne, lookup_insert_eq.
Qed.

Lemma Pools_lookup subnets cap n p :
  NoDup (Subnet_Name <$> subnets) →
  Pools subnets cap !! n = Some p ↔ ∃ s, s ∈ subnets ∧ Subnet_Name s = n ∧ p = Pool_for s cap.
Proof.
  intros Hnd. split.
  - intros Hp. destruct (decide (n ∈ Subnet_Name <$> subnets)) as [Hin|Hn].
    + apply list_elem_of_fmap in Hin as (s & -> & Hs). exists s. split_and!; [done..|].
      unfold Pools in Hp. rewrite Pools_gen in Hp by done. congruence.
    + unfold Pools in Hp. by rewrite Pools_ne, lookup_empty in Hp.
  - intros (s & Hs & <- & ->). by apply Pools_gen.
Qed.

Lemma available_ReadyNodeSelector p pn labels :
  Pool_NodeSelector p = Some (ReadyNodeSelector pn) →
  available_on p labels = bool_decide (labels !! ReadyLabel pn = Some "true").
Proof.
  intros E. unfold available_on, ReadyNodeSelector in *. rewrite E. simpl.
  unfold req_matches. simpl. rewrite andb_true_r, orb_false_r.
  destruct (labels !! ReadyLabel pn) as [v|]; [|done].
  apply bool_decide_ext. rewrite list_elem_of_singleton. naive_solver.
Qed.

Lemma Pool_for_available s cap labels :
  available_on (Pool_for s cap) labels
  = bool_decide (Subnet_ProviderNetwork s = EmptyString
                 ∨ labels !! ReadyLabel (Subnet_ProviderNetwork s) = Some "true").
Proof.
  destruct (decide (Subnet_ProviderNetwork s = EmptyString)) as [E|E].
  - rewrite bool_decide_true by auto. unfold available_on, Pool_for. simpl. by rewrite decide_True.
  - rewrite (available_ReadyNodeSelector _ (Subnet_ProviderNetwork s))
      by (unfold Pool_for; simpl; by rewrite decide_False).
    apply bool_decide_ext. naive_solver.
Qed.

(** With capacities, every published device has room: in the pools of the
    publisher, each capacity of each device is at least one address, and a Subnet one
    of whose enabled families is exhausted has a pool without a device. *)
Theorem Pools_have_room subnets s p :
  NoDup (Subnet_Name <$> subnets) → s ∈ subnets →
  Pools subnets true !! Subnet_Name s = Some p →
  (Exhausted s = true → pool_devices p = []) ∧
  (∀ d name c, d ∈ pool_devices p → Device_Capacity d !! name = Some c →
               (1 <= Capacity_Value c <= maxCount)%Z).
Proof.
  intros Hnd Hs Hp. unfold Pools in Hp. rewrite Pools_gen in Hp by done. simplify_eq.
  unfold pool_devices, Pool_for. simpl. rewrite app_nil_r.
  destruct (Exhausted s) eqn:E; simpl; [set_solver|]. split; [done|].
  intros d name c Hd Hc. apply list_elem_of_singleton in Hd as ->.
  unfold Exhausted in E. apply orb_false_iff in E as [E4 E6].
  pose proof (Family_Capacity_range (Subnet_V4 s)).
  pose proof (Family_Capacity_range (Subnet_V6 s)).
  unfold Device_of, capacities in Hc. simpl in Hc.
  destruct (Enabled (Subnet_V4 s)), (Enabled (Subnet_V6 s)); simpl in E4, E6;
    rewrite ?Z.eqb_neq in E4, E6; rewrite ?lookup_insert in Hc; repeat case_decide;
    simplify_map_eq; lia.
Qed.

End with_packages.

Lemma Pools_have_room_witness :
  let s := {| Subnet_Name := "net"; Subnet_UID := "u"; Subnet_Provider := "net.default.ovn";
              Subnet_VPC := ""; Subnet_VlanID := 0; Subnet_ProviderNetwork := "";
              Subnet_V4 := {| Enabled := true; Free := 0; Held := 0; Allocated := 0 |};
              Subnet_V6 := Family_zero |} in
  pool_devices (Pool_for (K := k8s_model) s true) = [].
Proof.
  intros s.
  refine (proj1 (Pools_have_room (K := k8s_model) [s] s (Pool_for (K := k8s_model) s true) _ _ _) _).
  - apply NoDup_singleton.
  - apply list_elem_of_singleton. reflexivity.
  - vm_compute. reflexivity.
  - reflexivity.
Defined.
