(* ===== verification/Json.v ===== *)
(** * JSON: the part of Go's encoding/json the driver decodes with

    A syntax check and parse of the whole text into a [json] value, followed by the
    decoding of objects into structs with string fields: field names match exactly
    or up to case, unknown fields are ignored, null leaves a field alone, a later
    duplicate wins, and a value of another type is an error.  Strings are taken to
    be valid UTF-8, as the API server stores them. *)

From S2P Require Import Prelude.
From Stdlib Require Import NArith.

Inductive json :=
  | JNull
  | JBool (b : bool)
  | JNum (text : string)
  | JStr (s : string)
  | JArr (l : list json)
  | JObj (fields : list (string * json)).

Definition is_json_space (c : ascii) : bool :=
  bool_decide (c = " "%char) || (code c =? 9)%N || (code c =? 10)%N || (code c =? 13)%N.
Definition skip_space : string → string := trim_left is_json_space.

(** ** Strings *)

Definition hex4_digit (c : ascii) : option N :=
  if is_digit c then Some (code c - 48)%N
  else if in_range "a" "f" c then Some (code c - 87)%N
  else if in_range "A" "F" c then Some (code c - 55)%N
  else None.

(** The code unit of [\uXXXX], the [\u] already consumed. *)
Definition hex4 (s : string) : option (N * string) :=
  match s with
  | String a (String b (String c (String d s))) =>
      a ← hex4_digit a; b ← hex4_digit b; c ← hex4_digit c; d ← hex4_digit d;
      Some (((a * 16 + b) * 16 + c) * 16 + d, s)%N
  | _ => None
  end.

Definition utf8 (r : N) : string :=
  let byte n := ascii_of_N n in
  (if r <? 128 then String (byte r) EmptyString
   else if r <? 2048 then
     String (byte (192 + r / 64)) (String (byte (128 + r mod 64)) EmptyString)
   else if r <? 65536 then
     String (byte (224 + r / 4096)) (String (byte (128 + r / 64 mod 64))
       (String (byte (128 + r mod 64)) EmptyString))
   else
     String (byte (240 + r / 262144)) (String (byte (128 + r / 4096 mod 64))
       (String (byte (128 + r / 64 mod 64)) (String (byte (128 + r mod 64)) EmptyString))))%N.

Definition is_high (u : N) : bool := (55296 <=? u)%N && (u <? 56320)%N.
Definition is_low (u : N) : bool := (56320 <=? u)%N && (u <? 57344)%N.
Definition replacement : string := utf8 65533.

(** The rest of a string literal, after its opening quote.  [high] is the pending high
    half of a surrogate pair. *)
Fixpoint parse_string (fuel : nat) (high : option N) (s : string) : option (string * string) :=
  match fuel with
  | O => None
  | S fuel =>
      let pending := match high with Some _ => replacement | None => EmptyString end in
      let emit (w : string) (rest : string) :=
        '(t, rest) ← parse_string fuel None rest; Some (pending +:+ w +:+ t, rest) in
      match s with
      | EmptyString => None
      | String c s =>
          if (code c =? 34)%N then Some (pending, s)
          else if (code c =? 92)%N then
            match s with
            | EmptyString => None
            | String e s =>
                if (code e =? 34)%N || (code e =? 92)%N || (code e =? 47)%N
                then emit (String e EmptyString) s
                else if is_byte "b" e then emit (utf8 8) s
                else if is_byte "f" e then emit (utf8 12) s
                else if is_byte "n" e then emit (utf8 10) s
                else if is_byte "r" e then emit (utf8 13) s
                else if is_byte "t" e then emit (utf8 9) s
                else if is_byte "u" e then
                  '(u, s) ← hex4 s;
                  match high with
                  | Some h =>
                      if is_low u then
                        '(t, rest) ← parse_string fuel None s;
                        Some (utf8 (65536 + (h - 55296) * 1024 + (u - 56320)) +:+ t, rest)
                      else if is_high u then
                        '(t, rest) ← parse_string fuel (Some u) s; Some (replacement +:+ t, rest)
                      else emit (utf8 u) s
                  | None =>
                      if is_high u then parse_string fuel (Some u) s
                      else if is_low u then emit replacement s
                      else emit (utf8 u) s
                  end
                else None
            end
          else if (code c <? 32)%N then None
          else emit (String c EmptyString) s
      end
  end.

(** ** Numbers: the text, once it has the form of one *)

Fixpoint span (p : ascii → bool) (s : string) : string * string :=
  match s with
  | EmptyString => (EmptyString, EmptyString)
  | String c s' => if p c then let '(a, b) := span p s' in (String c a, b) else (EmptyString, s)
  end.

Definition digits1 (s : string) : option (string * string) :=
  let '(d, s) := span is_digit s in
  if bool_decide (d = EmptyString) then None else Some (d, s).

Definition parse_int (s : string) : option (string * string) :=
  match s with
  | String c s' => if is_byte "0" c then Some ("0", s') else digits1 s
  | EmptyString => None
  end.

Definition parse_frac (s : string) : option (string * string) :=
  match s with
  | String c s' =>
      if is_byte "." c then '(d, s) ← digits1 s'; Some ("." +:+ d, s) else Some (EmptyString, s)
  | EmptyString => Some (EmptyString, EmptyString)
  end.

Definition parse_exp (s : string) : option (string * string) :=
  match s with
  | String c s' =>
      if is_byte "e" c || is_byte "E" c then
        let '(sign, s') := match s' with
                           | String d s'' => if is_byte "+" d || is_byte "-" d
                                             then (String d EmptyString, s'') else (EmptyString, s')
                           | EmptyString => (EmptyString, s')
                           end in
        '(d, s) ← digits1 s'; Some (String c (sign +:+ d), s)
      else Some (EmptyString, s)
  | EmptyString => Some (EmptyString, EmptyString)
  end.

Definition parse_number (s : string) : option (string * string) :=
  let '(sign, s) := match s with
                    | String c s' => if is_byte "-" c then ("-", s') else (EmptyString, s)
                    | EmptyString => (EmptyString, s)
                    end in
  '(i, s) ← parse_int s; '(f, s) ← parse_frac s; '(e, s) ← parse_exp s;
  Some (sign +:+ i +:+ f +:+ e, s).

(** ** Values *)

(** [fuel] bounds the number of values, elements and fields, each of which takes at
    least one byte of the text. *)
Fixpoint parse_value (fuel : nat) (s : string) : option (json * string) :=
  match fuel with
  | O => None
  | S fuel =>
      let s := skip_space s in
      match s with
      | EmptyString => None
      | String c s' =>
          if (code c =? 34)%N then '(t, r) ← parse_string (S (str_len s')) None s'; Some (JStr t, r)
          else if is_byte "[" c then
            match skip_space s' with
            | String "]" r => Some (JArr [], r)
            | _ => '(l, r) ← parse_elements fuel s'; Some (JArr l, r)
            end
          else if is_byte "{" c then
            match skip_space s' with
            | String "}" r => Some (JObj [], r)
            | _ => '(l, r) ← parse_fields fuel s'; Some (JObj l, r)
            end
          else
            match trim_prefix_opt "null" s, trim_prefix_opt "true" s, trim_prefix_opt "false" s with
            | Some r, _, _ => Some (JNull, r)
            | _, Some r, _ => Some (JBool true, r)
            | _, _, Some r => Some (JBool false, r)
            | _, _, _ => '(t, r) ← parse_number s; Some (JNum t, r)
            end
      end
  end
with parse_elements (fuel : nat) (s : string) : option (list json * string) :=
  match fuel with
  | O => None
  | S fuel =>
      '(v, r) ← parse_value fuel s;
      match skip_space r with
      | String "]" r => Some ([v], r)
      | String "," r => '(l, r) ← parse_elements fuel r; Some (v :: l, r)
      | _ => None
      end
  end
with parse_fields (fuel : nat) (s : string) : option (list (string * json) * string) :=
  match fuel with
  | O => None
  | S fuel =>
      match skip_space s with
      | String c s' =>
          if negb (code c =? 34)%N then None
          else
            '(k, r) ← parse_string (S (str_len s')) None s';
            match skip_space r with
            | String ":" r =>
                '(v, r) ← parse_value fuel r;
                match skip_space r with
                | String "}" r => Some ([(k, v)], r)
                | String "," r => '(l, r) ← parse_fields fuel r; Some ((k, v) :: l, r)
                | _ => None
                end
            | _ => None
            end
      | EmptyString => None
      end
  end.

Definition parse_json (s : string) : option json :=
  '(v, r) ← parse_value (2 * str_len s + 2) s;
  if bool_decide (skip_space r = EmptyString) then Some v else None.

(** ** Decoding structs of strings *)

(** Two field names are equal up to case; U+017F folds to [S]. *)
Fixpoint fold_name (s : string) : string :=
  match s with
  | EmptyString => EmptyString
  | String c s' =>
      match s' with
      | String d s'' =>
          if (code c =? 197)%N && (code d =? 191)%N then String "S" (fold_name s'')
          else String (to_upper_byte c) (fold_name s')
      | EmptyString => String (to_upper_byte c) (fold_name s')
      end
  end.

(** The field of the struct a key sets: an exact match wins over a folded one. *)
Definition match_field (names : list string) (key : string) : option string :=
  if bool_decide (key ∈ names) then Some key
  else list_find (λ n, fold_name n = fold_name key) names ≫= λ p, Some p.2.

(** The fields of an object, in order, into the struct's string fields. *)
Fixpoint decode_strings (names : list string) (fields : list (string * json))
    (acc : gmap string string) : option (gmap string string) :=
  match fields with
  | [] => Some acc
  | (k, v) :: fields =>
      match match_field names k with
      | None => decode_strings names fields acc
      | Some n =>
          match v with
          | JStr s => decode_strings names fields (<[n := s]> acc)
          | JNull => decode_strings names fields acc
          | _ => None
          end
      end
  end.

Definition decode_struct (names : list string) (v : json) : option (gmap string string) :=
  match v with
  | JObj fields => decode_strings names fields ∅
  | JNull => Some ∅
  | _ => None
  end.

Definition str_field (m : gmap string string) (n : string) : string := default EmptyString (m !! n).

(** The text of a Go string literal with its double quotes written as single ones. *)
Definition q (s : string) : string :=
  str_map (λ c, if is_byte "'" c then ascii_of_N 34 else c) s.

Example parse_object :
  parse_json (q " {'a' : [1, -2.5e+3, true,null], 'b\u0041\ud83d\ude00' : {}} ") =
  Some (JObj [("a", JArr [JNum "1"; JNum "-2.5e+3"; JBool true; JNull]);
              ("bA" +:+ utf8 128512, JObj [])]).
Proof. vm_compute. reflexivity. Qed.

Example parse_errors :
  Forall (λ s, parse_json (q s) = None)
    [""; "{'a':1,}"; "[1 2]"; "01"; "'\x'"; "{a:1}"; "[1]]"; "nul"; "-"; "1."; "'ab"].
Proof. repeat constructor. Qed.

Example decode_folded :
  decode_struct ["subnet"; "provider"]
    (JObj [("SUBNET", JStr "a"); ("Provider", JNull); ("x", JNum "1"); ("subnet", JStr "b")]) =
  Some {["subnet" := "b"]}.
Proof. vm_compute. reflexivity. Qed.
