(* ===== verification/Annotation.v ===== *)
(** * kube-ovn's answer in the pod annotations (pkg/annotation/annotation.go)

    kube-ovn-controller writes the address of a NIC to annotations keyed by the
    NIC's provider, and [allocated="true"] last.  The driver polls the pod until one
    of the provider keys is complete. *)

From S2P Require Import Prelude K8s.

(** The annotation templates, [%s] being the provider key. *)
Definition tmpl (field provider : string) : string := provider +:+ ".kubernetes.io/" +:+ field.
Definition tmplLogicalSwitch : string → string := tmpl "logical_switch".
Definition tmplIPAddress : string → string := tmpl "ip_address".
Definition tmplMACAddress : string → string := tmpl "mac_address".
Definition tmplCIDR : string → string := tmpl "cidr".
Definition tmplGateway : string → string := tmpl "gateway".
Definition tmplAllocated : string → string := tmpl "allocated".
Definition tmplVM : string → string := tmpl "virtualmachine".
Definition tmplRoutes : string → string := tmpl "routes".

Record AllocatedNIC := {
  NIC_IP : string;
  NIC_MAC : string;
  NIC_CIDR : string;
  NIC_Gateway : string;
  NIC_SubnetName : string;
  NIC_VMName : string;
  NIC_Provider : string;
  NIC_Routes : string;
}.

(** [ann[key]], with [""] for a missing key. *)
Definition annotation (ann : gmap string string) (key : string) : string := default EmptyString (ann !! key).

Definition extractAllocation (pod : Pod) (provider : string) : option AllocatedNIC :=
  match Pod_Annotations pod with
  | None => None
  | Some ann =>
      if negb (bool_decide (annotation ann (tmplAllocated provider) = "true")) then None
      else
        let ip := annotation ann (tmplIPAddress provider) in
        let mac := annotation ann (tmplMACAddress provider) in
        if bool_decide (ip = EmptyString) || bool_decide (mac = EmptyString) then None
        else Some {|
          NIC_IP := ip;
          NIC_MAC := mac;
          NIC_CIDR := annotation ann (tmplCIDR provider);
          NIC_Gateway := annotation ann (tmplGateway provider);
          NIC_SubnetName := annotation ann (tmplLogicalSwitch provider);
          NIC_VMName := annotation ann (tmplVM provider);
          NIC_Provider := provider;
          NIC_Routes := annotation ann (tmplRoutes provider);
        |}
  end.

(** The first provider whose allocation is complete. *)
Fixpoint first_allocation (pod : Pod) (providers : list string) : option AllocatedNIC :=
  match providers with
  | [] => None
  | provider :: providers =>
      match extractAllocation pod provider with
      | Some nic => Some nic
      | None => first_allocation pod providers
      end
  end.

(** ** Polling

    [wait.PollUntilContextTimeout] evaluates a condition, at once and then after
    every interval, until it reports a result, fails, or the context ends.
    [poll_budget] is the number of evaluations before the context ends; [cond i] is
    what the [i]-th one yields. *)
Class Poller := {
  poll_budget : nat;
  PollUntilContextTimeout : (nat → result (option AllocatedNIC)) → result AllocatedNIC;
}.

Class PollerLaws `{P : Poller} : Prop := {
  poll_done cond j a :
    j < poll_budget → (∀ i, i < j → cond i = Ok None) → cond j = Ok (Some a) →
    PollUntilContextTimeout cond = Ok a;
  poll_error cond j e :
    j < poll_budget → (∀ i, i < j → cond i = Ok None) → cond j = Err e →
    PollUntilContextTimeout cond = Err e;
  poll_timeout cond :
    (∀ i, i < poll_budget → cond i = Ok None) → ∃ e, PollUntilContextTimeout cond = Err e;
}.

Section with_poller.
Context `{P : Poller}.

(** [get i] is what the API server answers to the [i]-th read of the pod. *)
Definition WaitForAllocation (get : nat → result Pod) (namespace podName : string)
    (providers : list string) : result AllocatedNIC :=
  wrap_err "waiting for kube-ovn IPAM allocation for providers %q on pod %s/%s: %w"
    (providers ++ [namespace; podName])
    (PollUntilContextTimeout (λ i,
       match get i with
       | Err e => Err e
       | Ok pod => Ok (first_allocation pod providers)
       end)).

End with_poller.

(** A poller: the loop, cut off after [n] evaluations. *)
Fixpoint poll_loop (n i : nat) (cond : nat → result (option AllocatedNIC)) : result AllocatedNIC :=
  match n with
  | O => Err (External "context deadline exceeded")
  | S n =>
      match cond i with
      | Err e => Err e
      | Ok (Some a) => Ok a
      | Ok None => poll_loop n (S i) cond
      end
  end.

Definition poller_model (n : nat) : Poller :=
  {| poll_budget := n; PollUntilContextTimeout := poll_loop n 0 |}.

Lemma poll_loop_skip n i j cond :
  j ≤ n → (∀ k, i ≤ k < i + j → cond k = Ok None) →
  poll_loop n i cond = poll_loop (n - j) (i + j) cond.
Proof.
  revert i j. induction n as [|n IH]; intros i j Hj Hc.
  - assert (j = 0) as -> by lia. by rewrite Nat.add_0_r.
  - destruct j as [|j]; [by rewrite Nat.sub_0_r, Nat.add_0_r|]. simpl.
    rewrite (Hc i) by lia. rewrite (IH (S i) j) by (try lia; intros k Hk; apply Hc; lia).
    f_equal; lia.
Qed.

Lemma poller_model_laws n : PollerLaws (P := poller_model n).
Proof.
  split; simpl.
  - intros cond j a Hj Hi Ha. rewrite (poll_loop_skip n 0 j) by (try lia; intros k Hk; apply Hi; lia).
    destruct (n - j) eqn:E; [lia|]. simpl. by rewrite Ha.
  - intros cond j e Hj Hi He. rewrite (poll_loop_skip n 0 j) by (try lia; intros k Hk; apply Hi; lia).
    destruct (n - j) eqn:E; [lia|]. simpl. by rewrite He.
  - intros cond Hi. rewrite (poll_loop_skip n 0 n) by (try lia; intros k Hk; apply Hi; lia).
    rewrite Nat.sub_diag. simpl. eauto.
Qed.

(** ** Properties *)

Lemma extractAllocation_Some pod provider nic :
  extractAllocation pod provider = Some nic →
  ∃ ann, Pod_Annotations pod = Some ann ∧ annotation ann (tmplAllocated provider) = "true" ∧
    NIC_Provider nic = provider ∧
    NIC_IP nic = annotation ann (tmplIPAddress provider) ∧ NIC_IP nic ≠ EmptyString ∧
    NIC_MAC nic = annotation ann (tmplMACAddress provider) ∧ NIC_MAC nic ≠ EmptyString.
Proof.
  unfold extractAllocation. destruct (Pod_Annotations pod) as [ann|]; [|done].
  rewrite !bool_decide_decide. repeat case_decide; try done. simpl. intros [= <-].
  exists ann. naive_solver.
Qed.

Lemma first_allocation_Some pod providers nic :
  first_allocation pod providers = Some nic →
  NIC_Provider nic ∈ providers ∧ extractAllocation pod (NIC_Provider nic) = Some nic.
Proof.
  induction providers as [|p ps IH]; simpl; [done|].
  destruct (extractAllocation pod p) as [n|] eqn:E; [|set_solver].
  intros [= ->]. pose proof (extractAllocation_Some _ _ _ E) as (ann & _ & _ & Hp & _).
  rewrite Hp. set_solver.
Qed.

Section properties.
Context `{PL : PollerLaws}.

(** A least read decides, if any does before the deadline. *)
Lemma first_decisive (cond : nat → result (option AllocatedNIC)) n :
  (∀ i, i < n → cond i = Ok None) ∨
  ∃ j, j < n ∧ (∀ i, i < j → cond i = Ok None) ∧ cond j ≠ Ok None.
Proof.
  induction n as [|n [IH|(j & Hj & Hi & Hc)]]; [left; lia| |
    right; exists j; split_and!; [lia|done|done]].
  destruct (cond n) as [[a|]|e] eqn:E.
  - right. exists n. rewrite E. split_and!; [lia|done|done].
  - left. intros i Hi. destruct (decide (i = n)) as [->|]; [done|]. apply IH. lia.
  - right. exists n. rewrite E. split_and!; [lia|done|done].
Qed.

Lemma WaitForAllocation_Ok get ns pod providers nic :
  WaitForAllocation get ns pod providers = Ok nic →
  ∃ j p, j < poll_budget ∧ get j = Ok p ∧ first_allocation p providers = Some nic ∧
    ∀ i, i < j → ∃ p', get i = Ok p' ∧ first_allocation p' providers = None.
Proof.
  unfold WaitForAllocation. rewrite wrap_err_Ok.
  set (cond := λ i, match get i with Err e => Err e | Ok p => Ok (first_allocation p providers) end).
  intros E. destruct (first_decisive cond poll_budget) as [Hall|(j & Hj & Hi & Hc)].
  { apply poll_timeout in Hall as [e He]. congruence. }
  destruct (cond j) as [[a|]|e] eqn:Ej; [|done|rewrite (poll_error cond j e) in E by done; done].
  rewrite (poll_done cond j a) in E by done. simplify_eq. unfold cond in Ej, Hi.
  destruct (get j) as [p|] eqn:Eg; [|done]. exists j, p. split_and!; try done; [congruence|].
  intros i Hlt. specialize (Hi i Hlt). destruct (get i); naive_solver.
Qed.

(** C20: waiting for an allocation returns a NIC exactly when some read before the
    deadline finds a complete allocation, no earlier read found one or failed, and
    the NIC is the one of the first provider that has it. *)
Theorem WaitForAllocation_iff get ns pod providers nic :
  WaitForAllocation get ns pod providers = Ok nic ↔
  ∃ j p, j < poll_budget ∧ get j = Ok p ∧ first_allocation p providers = Some nic ∧
    ∀ i, i < j → ∃ p', get i = Ok p' ∧ first_allocation p' providers = None.
Proof.
  split; [apply WaitForAllocation_Ok|]. intros (j & p & Hj & Eg & Ef & Hi).
  apply wrap_err_Ok, (poll_done _ j); [done| |by rewrite Eg, Ef].
  intros i Hlt. by destruct (Hi i Hlt) as (p' & -> & ->).
Qed.

(** A NIC that is returned is complete: its annotations say allocated, and its
    address and MAC are not empty. *)
Lemma WaitForAllocation_complete get ns pod providers nic :
  WaitForAllocation get ns pod providers = Ok nic →
  NIC_IP nic ≠ EmptyString ∧ NIC_MAC nic ≠ EmptyString ∧ NIC_Provider nic ∈ providers.
Proof.
  intros (j & p & _ & _ & Ef & _)%WaitForAllocation_Ok.
  apply first_allocation_Some in Ef as [Hin Hex].
  apply extractAllocation_Some in Hex as (ann & _ & _ & _ & _ & Hip & _ & Hmac). done.
Qed.

End properties.

(** ** An example: the controller answers at the third read *)
Module example.

Definition pod_with (ann : gmap string string) : Pod := {|
  Pod_Name := "web"; Pod_UID := "u1"; Pod_Labels := ∅; Pod_Annotations := Some ann;
  Pod_NodeName := "node1"; Pod_Phase := PodPending |}.

Definition reads (i : nat) : result Pod :=
  Ok (pod_with (if (i <? 2)%nat then {[ "net1.ovn.kubernetes.io/ip_address" := "10.0.0.5" ]}
      else list_to_map [("net1.ovn.kubernetes.io/allocated", "true");
                        ("net1.ovn.kubernetes.io/ip_address", "10.0.0.5");
                        ("net1.ovn.kubernetes.io/mac_address", "00:00:00:00:00:05")])).

Definition nic : AllocatedNIC := {|
  NIC_IP := "10.0.0.5"; NIC_MAC := "00:00:00:00:00:05"; NIC_CIDR := ""; NIC_Gateway := "";
  NIC_SubnetName := ""; NIC_VMName := ""; NIC_Provider := "net1.ovn"; NIC_Routes := "" |}.

End example.

Lemma WaitForAllocation_iff_witness :
  WaitForAllocation (P := poller_model 5) example.reads "ns" "web" ["net1.ovn"] = Ok example.nic.
Proof.
  apply (WaitForAllocation_iff (PL := poller_model_laws 5)).
  exists 2, (example.pod_with (list_to_map
    [("net1.ovn.kubernetes.io/allocated", "true");
     ("net1.ovn.kubernetes.io/ip_address", "10.0.0.5");
     ("net1.ovn.kubernetes.io/mac_address", "00:00:00:00:00:05")])).
  split; [vm_compute; lia|]. split; [reflexivity|]. split; [reflexivity|].
  intros [|[|i]] Hi; [| |lia]; eexists; split; reflexivity.
Defined.
