(* ===== verification/Store.v ===== *)
(** * Attach specifications and the NIC store (pkg/plumbing/plumbing.go, store.go)

    A [Spec] is what the attach step needs for one NIC.  The store bridges the two
    phases of the attach lifecycle: Prepare adds the specs of a claim, the sandbox
    hook reads those of a pod, Unprepare removes those of a claim.  Its mutex makes
    every operation atomic; the slices it hands out are copies or no longer its
    own, so its operations are functions on its value. *)

From S2P Require Import Prelude Netip.

(** An entry of kube-ovn's routes annotation. *)
Record Route := { Destination : string; Route_Gateway : string }.

Record Spec := {
  PodUID : string;
  PodName : string;
  PodNamespace : string;
  ClaimUID : string;
  NetnsPath : string;
  IfaceName : string;
  IP : string;
  ExtraIPs : list string;
  MAC : string;
  Gateway : string;
  Routes : list Route;
  MTU : Z;
  ContainerID : string;
  Provider : string;
  IfaceID : string;
  KubeVirtVMI : bool;
  OVNDHCP : bool;
}.

#[export] Instance Route_eq_dec : EqDecision Route.
Proof. solve_decision. Defined.
#[export] Instance Spec_eq_dec : EqDecision Spec.
Proof. solve_decision. Defined.

(** ** Routes *)

(** The destination network and the gateway, [None] for an on-link route. *)
Definition Route_parse (r : Route) (defaultGateway : string) : result (IPNet * option (list Z)) :=
  match ParseCIDR (Destination r) with
  | None => Err (Errorf "parse route destination %q: %w" [Destination r])
  | Some (_, dst) =>
      if (mask_ones dst =? 0)%Z
      then Err (Errorf "refusing to install default route %q on a secondary NIC" [Destination r])
      else
        let gateway := if bool_decide (Route_Gateway r = EmptyString) then defaultGateway
                       else Route_Gateway r in
        if bool_decide (gateway = EmptyString) then Ok (dst, None)
        else
          match ParseIP gateway with
          | None => Err (Errorf "parse gateway %q of route %q" [gateway; Destination r])
          | Some gw =>
              if negb (eqb (is_v4 gw) (is_v4 (net_IP dst))) then
                if negb (bool_decide (Route_Gateway r = EmptyString))
                then Err (Errorf "gateway %q of route %q is of another IP family"
                            [Route_Gateway r; Destination r])
                else Ok (dst, None)
              else Ok (dst, Some gw)
          end
  end.

(** [Spec.Validate] *)
Definition Validate (s : Spec) : option error :=
  if bool_decide (NetnsPath s = EmptyString)
  then Some (Errorf "plumbing: Spec.NetnsPath is empty (sandbox not resolved yet)" [])
  else if bool_decide (IfaceName s = EmptyString)
  then Some (Errorf "plumbing: Spec.IfaceName is empty" [])
  else if bool_decide (IP s = EmptyString)
  then Some (Errorf "plumbing: Spec.IP is empty" [])
  else if bool_decide (ContainerID s = EmptyString)
  then Some (Errorf "plumbing: Spec.ContainerID is empty (cannot derive veth names)" [])
  else if bool_decide (IfaceID s = EmptyString)
  then Some (Errorf "plumbing: Spec.IfaceID is empty, OVN would not bind the port" [])
  else None.

(** ** The store *)

Record NICStore := {
  byPod : gmap string (list Spec);
  attached : gmap string (list Spec);
}.

Definition NewNICStore : NICStore := {| byPod := ∅; attached := ∅ |}.

(** Replace the first spec that [same] accepts, or append. *)
Fixpoint upsert (same : Spec → bool) (spec : Spec) (specs : list Spec) : list Spec :=
  match specs with
  | [] => [spec]
  | s :: specs => if same s then spec :: specs else s :: upsert same spec specs
  end.

Definition same_nic (spec s : Spec) : bool :=
  bool_decide (ClaimUID s = ClaimUID spec) && bool_decide (IfaceName s = IfaceName spec).

Definition same_iface (spec s : Spec) : bool := bool_decide (IfaceName s = IfaceName spec).

(** [m[key]], nil for a missing key. *)
Definition specs_at (m : gmap string (list Spec)) (key : string) : list Spec := default [] (m !! key).

Definition Add (st : NICStore) (spec : Spec) : NICStore := {|
  byPod := <[PodUID spec := upsert (same_nic spec) spec (specs_at (byPod st) (PodUID spec))]> (byPod st);
  attached := attached st;
|}.

Definition Specs (st : NICStore) (podUID : string) : list Spec := specs_at (byPod st) podUID.

(** What the loop body of [RemoveClaim] does to one pod. *)
Definition remove_from (claimUID : string) (m : gmap string (list Spec))
    (entry : string * list Spec) : gmap string (list Spec) :=
  let kept := filter (λ s, ClaimUID s ≠ claimUID) entry.2 in
  if decide (kept = []) then delete entry.1 m else <[entry.1 := kept]> m.

Definition RemoveClaim `{GoImpl} (st : NICStore) (claimUID : string) : NICStore := {|
  byPod := foldl (remove_from claimUID) (byPod st) (map_range 20 (byPod st));
  attached := attached st;
|}.

Definition MarkAttached (st : NICStore) (podUID : string) (spec : Spec) : NICStore := {|
  byPod := byPod st;
  attached := <[podUID := upsert (same_iface spec) spec (specs_at (attached st) podUID)]> (attached st);
|}.

Definition TakeAttached (st : NICStore) (podUID : string) : list Spec * NICStore :=
  (specs_at (attached st) podUID,
   {| byPod := byPod st; attached := delete podUID (attached st) |}).

(** ** Specification: two finite maps

    The NICs by pod, claim and interface name, and the attached ones by pod and
    interface name. *)
Record AbsStore := {
  abs_nics : gmap (string * string * string) Spec;
  abs_attached : gmap (string * string) Spec;
}.

Inductive store_op :=
  | OpAdd (spec : Spec)
  | OpRemoveClaim (claimUID : string)
  | OpMarkAttached (podUID : string) (spec : Spec)
  | OpTakeAttached (podUID : string).

Definition abs_step (a : AbsStore) (op : store_op) : AbsStore :=
  match op with
  | OpAdd s => {| abs_nics := <[(PodUID s, ClaimUID s, IfaceName s) := s]> (abs_nics a);
                  abs_attached := abs_attached a |}
  | OpRemoveClaim c => {| abs_nics := filter (λ kv, kv.1.1.2 ≠ c) (abs_nics a);
                          abs_attached := abs_attached a |}
  | OpMarkAttached pod s => {| abs_nics := abs_nics a;
                               abs_attached := <[(pod, IfaceName s) := s]> (abs_attached a) |}
  | OpTakeAttached pod => {| abs_nics := abs_nics a;
                             abs_attached := filter (λ kv, kv.1.1 ≠ pod) (abs_attached a) |}
  end.

Definition store_step `{GoImpl} (st : NICStore) (op : store_op) : NICStore :=
  match op with
  | OpAdd s => Add st s
  | OpRemoveClaim c => RemoveClaim st c
  | OpMarkAttached pod s => MarkAttached st pod s
  | OpTakeAttached pod => (TakeAttached st pod).2
  end.

(** A list of specs holds exactly the entries of a map, once each. *)
Definition holds {K} `{Countable K} (key : Spec → K) (specs : list Spec) (m : K → option Spec) : Prop :=
  NoDup (key <$> specs) ∧ ∀ k s, m k = Some s ↔ s ∈ specs ∧ key s = k.

(** The store represents the maps: per pod, the list of its NICs and the list of its
    attached NICs hold the entries of that pod. *)
Definition represents (st : NICStore) (a : AbsStore) : Prop :=
  (∀ pod, holds (λ s, (ClaimUID s, IfaceName s)) (Specs st pod)
            (λ k, abs_nics a !! (pod, k.1, k.2))) ∧
  (∀ pod s, s ∈ Specs st pod → PodUID s = pod) ∧
  (∀ pod, holds IfaceName (specs_at (attached st) pod) (λ k, abs_attached a !! (pod, k))).

(** ** Lemmas *)

Lemma upsert_elem same spec specs s :
  s ∈ upsert same spec specs → s = spec ∨ s ∈ specs.
Proof.
  induction specs as [|t specs IH]; simpl; [set_solver|]. destruct (same t); set_solver.
Qed.

Lemma upsert_has same spec specs : spec ∈ upsert same spec specs.
Proof. induction specs as [|t specs IH]; simpl; [set_solver|]. destruct (same t); set_solver. Qed.

Section upsert.
Context {K : Type} `{Countable K} (key : Spec → K).
Context (same : Spec → Spec → bool) (same_key : ∀ spec s, same spec s = true ↔ key s = key spec).

Lemma upsert_iff spec specs s :
  NoDup (key <$> specs) →
  s ∈ upsert (same spec) spec specs ↔ s = spec ∨ (s ∈ specs ∧ key s ≠ key spec).
Proof.
  induction specs as [|t specs IH]; intros Hnd; simpl; [set_solver|].
  rewrite fmap_cons, NoDup_cons in Hnd. destruct Hnd as [Ht Hnd].
  destruct (same spec t) eqn:E.
  - apply same_key in E. rewrite !elem_of_cons. split; [|naive_solver].
    intros [->|Hs]; [by left|]. right. split; [by right|]. intros Hk. apply Ht.
    rewrite E, <- Hk. by apply list_elem_of_fmap_2.
  - assert (key t ≠ key spec) by (rewrite <- same_key; congruence).
    rewrite !elem_of_cons, IH by done. naive_solver.
Qed.

Lemma upsert_keys spec specs :
  NoDup (key <$> specs) → NoDup (key <$> upsert (same spec) spec specs).
Proof.
  induction specs as [|t specs IH]; intros Hnd; simpl; [repeat constructor; set_solver|].
  rewrite fmap_cons, NoDup_cons in Hnd. destruct Hnd as [Ht Hnd].
  destruct (same spec t) eqn:E; rewrite fmap_cons, NoDup_cons.
  - apply same_key in E. by rewrite <- E.
  - split; [|auto]. intros (s & Hk & Hs)%list_elem_of_fmap. apply upsert_iff in Hs; [|done].
    destruct Hs as [->|[Hs _]].
    + symmetry in Hk. rewrite (proj2 (same_key spec t)) in E; [done|congruence].
    + apply Ht. rewrite Hk. by apply list_elem_of_fmap_2.
Qed.

Lemma holds_upsert spec specs m m' :
  holds key specs m → (∀ k, m' k = if decide (k = key spec) then Some spec else m k) →
  holds key (upsert (same spec) spec specs) m'.
Proof.
  intros [Hnd Hm] Hm'. split; [by apply upsert_keys|]. intros k s.
  rewrite Hm', upsert_iff by done. case_decide as Hk; [naive_solver|].
  rewrite Hm. naive_solver.
Qed.

End upsert.

Lemma holds_filter {K} `{Countable K} (key : Spec → K) (P : Spec → Prop) `{∀ s, Decision (P s)} specs m m' :
  holds key specs m → (∀ k s, m' k = Some s ↔ P s ∧ m k = Some s) →
  holds key (filter P specs) m'.
Proof.
  intros [Hnd Hm] Hm'. split.
  - by apply NoDup_fmap_filter.
  - intros k s. rewrite Hm', Hm, list_elem_of_filter. naive_solver.
Qed.

Lemma same_nic_key spec s :
  same_nic spec s = true ↔ (ClaimUID s, IfaceName s) = (ClaimUID spec, IfaceName spec).
Proof. unfold same_nic. rewrite andb_true_iff, !bool_decide_eq_true. split; [by intros [-> ->]|by intros [= -> ->]]. Qed.

Lemma same_iface_key spec s : same_iface spec s = true ↔ IfaceName s = IfaceName spec.
Proof. apply bool_decide_eq_true. Qed.

Lemma specs_at_insert m k l k' : specs_at (<[k:=l]> m) k' = if decide (k' = k) then l else specs_at m k'.
Proof.
  unfold specs_at. case_decide; subst; [by rewrite lookup_insert_eq|by rewrite lookup_insert_ne].
Qed.

Lemma specs_at_delete m k k' : specs_at (delete k m) k' = if decide (k' = k) then [] else specs_at m k'.
Proof.
  unfold specs_at. case_decide; subst; [by rewrite lookup_delete_eq|by rewrite lookup_delete_ne].
Qed.

Lemma Specs_Add st s pod :
  Specs (Add st s) pod = if decide (pod = PodUID s) then upsert (same_nic s) s (Specs st pod)
                         else Specs st pod.
Proof. unfold Specs, Add. simpl. rewrite specs_at_insert. by case_decide; subst. Qed.

Lemma remove_from_at c m e pod :
  specs_at (remove_from c m e) pod =
  if decide (pod = e.1) then filter (λ s, ClaimUID s ≠ c) e.2 else specs_at m pod.
Proof.
  unfold remove_from. destruct (decide (filter _ e.2 = [])) as [E|E].
  - rewrite specs_at_delete. case_decide; [|done]. by rewrite E.
  - by rewrite specs_at_insert.
Qed.

Lemma remove_all_at c entries m pod :
  NoDup entries.*1 →
  specs_at (foldl (remove_from c) m entries) pod =
  match list_to_map (M := gmap string (list Spec)) entries !! pod with
  | Some specs => filter (λ s, ClaimUID s ≠ c) specs
  | None => specs_at m pod
  end.
Proof.
  revert m. induction entries as [|[k specs] entries IH]; intros m; simpl; [done|].
  rewrite NoDup_cons. intros [Hk Hnd]. rewrite IH by done.
  destruct (decide (pod = k)) as [->|Hne].
  - rewrite lookup_insert_eq, (not_elem_of_list_to_map_1 _ _ Hk), remove_from_at.
    simpl. by rewrite decide_True.
  - rewrite lookup_insert_ne by done. rewrite remove_from_at. simpl. by rewrite decide_False.
Qed.

Section store.
Context `{G : GoImpl}.

(** Removing a claim filters the specs of every pod, whatever the iteration order. *)
Lemma Specs_RemoveClaim st c pod :
  Specs (RemoveClaim st c) pod = filter (λ s, ClaimUID s ≠ c) (Specs st pod).
Proof.
  unfold Specs, RemoveClaim. simpl. rewrite remove_all_at by apply map_range_NoDup.
  rewrite map_range_to_map. unfold specs_at at 2. by destruct (byPod st !! pod) eqn:E;
    [|unfold specs_at; rewrite E].
Qed.

Lemma represents_empty : represents NewNICStore {| abs_nics := ∅; abs_attached := ∅ |}.
Proof.
  unfold represents, holds, Specs, NewNICStore, specs_at. simpl. split_and!.
  - intros pod. rewrite lookup_empty. simpl. split; [constructor|]. intros k s. rewrite lookup_empty. set_solver.
  - intros pod s. rewrite lookup_empty. set_solver.
  - intros pod. rewrite lookup_empty. simpl. split; [constructor|]. intros k s. rewrite lookup_empty. set_solver.
Qed.

Lemma represents_Add st a s : represents st a → represents (Add st s) (abs_step a (OpAdd s)).
Proof.
  intros (Hn & Hp & Ha). split_and!; [| |done].
  - intros pod. rewrite Specs_Add. simpl. case_decide as Hpod.
    + eapply (holds_upsert _ same_nic same_nic_key); [apply Hn|]. intros [c i]. subst pod. simpl.
      case_decide; simplify_eq; [by rewrite lookup_insert_eq|by rewrite lookup_insert_ne by congruence].
    + destruct (Hn pod) as [Hnd Hm]. split; [done|]. intros k t. rewrite <- Hm.
      by rewrite lookup_insert_ne by congruence.
  - intros pod t. rewrite Specs_Add. case_decide; [|apply Hp].
    intros [->|Ht]%upsert_elem; [done|]. by apply Hp.
Qed.

Lemma represents_RemoveClaim st a c :
  represents st a → represents (RemoveClaim st c) (abs_step a (OpRemoveClaim c)).
Proof.
  intros (Hn & Hp & Ha). split_and!; [| |done].
  - intros pod. rewrite Specs_RemoveClaim.
    eapply holds_filter; [apply Hn|]. intros k s. simpl. rewrite map_lookup_filter_Some.
    rewrite (proj2 (Hn pod) k s). simpl. naive_solver.
  - intros pod t. rewrite Specs_RemoveClaim. intros [_ Ht]%list_elem_of_filter. by apply Hp.
Qed.

Lemma represents_MarkAttached st a pod s :
  represents st a → represents (MarkAttached st pod s) (abs_step a (OpMarkAttached pod s)).
Proof.
  intros (Hn & Hp & Ha). split_and!; [done|done|]. intros pod'. simpl. rewrite specs_at_insert.
  case_decide as Hpod; [subst pod'|].
  - eapply (holds_upsert _ same_iface same_iface_key); [apply Ha|]. intros i. simpl.
    case_decide; [subst i; by rewrite lookup_insert_eq|by rewrite lookup_insert_ne by congruence].
  - destruct (Ha pod') as [Hnd Hm]. split; [done|]. intros k t. rewrite <- Hm.
    by rewrite lookup_insert_ne by congruence.
Qed.

Lemma represents_TakeAttached st a pod :
  represents st a → represents (TakeAttached st pod).2 (abs_step a (OpTakeAttached pod)).
Proof.
  intros (Hn & Hp & Ha). split_and!; [done|done|]. intros pod'. simpl. rewrite specs_at_delete.
  destruct (Ha pod') as [Hnd Hm]. case_decide as Hpod; split; [constructor| |done|].
  - intros k s. rewrite map_lookup_filter_Some. simpl. set_solver.
  - intros k s. rewrite map_lookup_filter_Some, Hm. simpl. naive_solver.
Qed.

(** C17: whatever sequence of operations runs on a new store, in whatever order the
    map is visited, the store holds what two finite maps hold after the same
    operations: one NIC per pod, claim and interface, and one attached NIC per pod
    and interface; adding replaces, removing a claim removes exactly its NICs. *)
Theorem NICStore_refines ops :
  represents (foldl store_step NewNICStore ops)
             (foldl abs_step {| abs_nics := ∅; abs_attached := ∅ |} ops).
Proof.
  induction ops as [|op ops IH] using rev_ind; simpl; [apply represents_empty|].
  rewrite !foldl_app. simpl. destruct op; [apply represents_Add|apply represents_RemoveClaim|
    apply represents_MarkAttached|apply represents_TakeAttached]; exact IH.
Qed.

End store.

(** ** Routes never touch the default route *)

(** What a parsed route says: its network, and a gateway of the destination's family. *)
Lemma Route_parse_inv r default_gw dst gw :
  Route_parse r default_gw = Ok (dst, gw) →
  (mask_ones dst ≠ 0)%Z ∧ (∃ ip, ParseCIDR (Destination r) = Some (ip, dst)) ∧
  (∀ g, gw = Some g → is_v4 g = is_v4 (net_IP dst) ∧
     ParseIP (if decide (Route_Gateway r = EmptyString) then default_gw else Route_Gateway r) = Some g) ∧
  (gw = None → Route_Gateway r = EmptyString).
Proof.
  unfold Route_parse. destruct (ParseCIDR (Destination r)) as [[ip n]|]; [|done].
  destruct (Z.eqb_spec (mask_ones n) 0); [done|]. rewrite !bool_decide_decide.
  destruct (decide (Route_Gateway r = EmptyString)) as [Hr|Hr].
  - case_decide; [intros [= <- <-]; naive_solver|]. destruct (ParseIP default_gw) as [g|]; [|done].
    destruct (eqb _ _) eqn:E; simpl; intros [= <- <-]; [|naive_solver].
    apply eqb_prop in E. naive_solver.
  - rewrite decide_False by done. destruct (ParseIP (Route_Gateway r)) as [g|]; [|done].
    destruct (eqb _ _) eqn:E; simpl; [|done]. intros [= <- <-]. apply eqb_prop in E. naive_solver.
Qed.

(** A parsed route never is a default route, and its gateway is of the family of
    its destination; a route without any gateway is on-link. *)
Theorem Route_parse_safe r default_gw dst gw :
  Route_parse r default_gw = Ok (dst, gw) →
  (mask_ones dst ≠ 0)%Z ∧ (∃ ip, ParseCIDR (Destination r) = Some (ip, dst)) ∧
  (∀ g, gw = Some g → is_v4 g = is_v4 (net_IP dst) ∧
     ParseIP (if decide (Route_Gateway r = EmptyString) then default_gw else Route_Gateway r) = Some g) ∧
  (gw = None → Route_Gateway r = EmptyString).
Proof. apply Route_parse_inv. Qed.

Lemma Route_parse_safe_witness :
  ∃ dst gw, Route_parse {| Destination := "10.1.0.0/16"; Route_Gateway := "" |} "172.23.0.1" = Ok (dst, gw)
            ∧ (mask_ones dst ≠ 0)%Z.
Proof.
  eexists _, _. split; [vm_compute; reflexivity|].
  apply (Route_parse_safe {| Destination := "10.1.0.0/16"; Route_Gateway := "" |} "172.23.0.1" _
           (Some (v4InV6Prefix ++ [172; 23; 0; 1]%Z))). vm_compute. reflexivity.
Defined.
