(* ===== verification/Prog.v ===== *)
(** * Programs of atomic actions

    What several threads run on shared state: a program is a tree of actions, and between
    two of its actions others may act.  [Threads] splits the operations of the plugin into
    such programs, [AttachSteps] those of the datapath. *)

From S2P Require Import Prelude Store.

(** ** Programs *)

(** What an action is, for the runs and the statements on them: an attach, something else, or
    something that takes the lock of the device state for itself. *)
Inductive action := Attaching (s : Spec) | Acting | Locking.

(** An action changes the state and decides on the rest of the program by what it read. *)
Inductive prog (S A : Type) :=
  | Ret (a : A)
  | Act (l : action) (change : S → S) (next : S → prog S A).
Arguments Ret {S A}. Arguments Act {S A}.

Fixpoint bind {S A B} (p : prog S A) (k : A → prog S B) : prog S B :=
  match p with
  | Ret a => k a
  | Act l f next => Act l f (λ s, bind (next s) k)
  end.

#[export] Instance prog_ret S : MRet (prog S) := λ _, Ret.
#[export] Instance prog_bind S : MBind (prog S) := λ _ _ k p, bind p k.

Section programs.
Context {S : Type}.

Definition act {A} (l : action) (g : S → A * S) : prog S A := Act l (λ s, (g s).2) (λ s, Ret (g s).1).

(** The program without interruption. *)
Fixpoint alone {A} (p : prog S A) (s : S) : A * S :=
  match p with
  | Ret a => (a, s)
  | Act l f next => alone (next s) (f s)
  end.

Lemma alone_bind {A B} (p : prog S A) (k : A → prog S B) s :
  alone (p ≫= k) s = alone (k (alone p s).1) (alone p s).2.
Proof. revert s. induction p as [a|l f next IH]; intros s; simpl; [done|]. apply IH. Qed.

Lemma alone_ret {A} (a : A) (s : S) : alone (mret a) s = (a, s).
Proof. done. Qed.

Lemma alone_act {A} l (g : S → A * S) s : alone (act l g) s = g s.
Proof. simpl. by destruct (g s). Qed.

End programs.
