(* ===== verification/Dhcp.v ===== *)
(** * The DHCP server of a VM's NIC (pkg/plumbing/dhcp.go, plumbing_linux.go)

    A VM learns its address from a DHCP server with one client and one lease that the
    driver runs on the NIC's bridge.  The packets are the dhcp4 package's: the class
    [Dhcp4].  A Go function that can panic on a slice bound gives [None] then. *)

From S2P Require Import Prelude Netip Store.
Local Open Scope Z_scope.

Abbreviation bytes := (list Z).

(** [x[:n]] of a slice whose capacity is its length. *)
Definition slice_to (n : Z) (x : bytes) : option bytes :=
  if (0 <=? n) && (n <=? Z.of_nat (length x)) then Some (take (Z.to_nat n) x) else None.

(** [binary.BigEndian.AppendUint16] *)
Definition be16 (n : Z) : bytes := [n / 256; n mod 256].

(** The number of destination octets option 121 carries for a prefix length. *)
Definition octets (width : Z) : Z := Z.quot (width - 1) 8 + 1.

Fixpoint classlessStaticRoutes (routes : list Route) (gateway : string) (out : bytes) :
    option (result bytes) :=
  match routes with
  | [] => Some (Ok out)
  | r :: routes =>
      match Route_parse r gateway with
      | Err e => Some (Err (Wrapf "plumbing: route for DHCP options: %w" [] e))
      | Ok (dst, gw) =>
          match To4 (net_IP dst) with
          | None => classlessStaticRoutes routes gateway out
          | Some ip4 =>
              let width := mask_ones dst in
              ip ← slice_to (octets width) ip4;
              classlessStaticRoutes routes gateway
                (out ++ [width mod 256] ++ ip ++ default [0; 0; 0; 0] (gw ≫= To4))
          end
      end
  end.

(** The codes of the options, from the package. *)
Class Dhcp4 := {
  OptionSubnetMask : Z;
  OptionRouter : Z;
  OptionInterfaceMTU : Z;
  OptionClasslessRouteFormat : Z;
  Packet : Type;
  CHAddr : Packet → bytes;
  (** a reply to a request: its kind, server, client, lease and options *)
  ReplyPacket : Packet → bool → bytes → bytes → Z → gmap Z bytes → Packet;
}.

Definition dhcpInfiniteLease : Z := 999 * 24 * 3600 * 1000000000.
Definition fakeDHCPServerIP : bytes := [169; 254; 75; 1].

Section dhcp.
Context `{DH : Dhcp4}.

Definition vmiDHCPOptions (spec : Spec) (mask : bytes) : option (result (gmap Z bytes)) :=
  let opts := if decide (mask = []) then ∅ else {[OptionSubnetMask := mask]} : gmap Z bytes in
  let gw := if decide (Gateway spec = EmptyString) then Ok opts
            else match ParseIP (Gateway spec) with
                 | None => Err (Errorf "plumbing: parse Spec.Gateway %q for DHCP options" [Gateway spec])
                 | Some gw => Ok (<[OptionRouter := default [] (To4 gw)]> opts)
                 end in
  match gw with
  | Err e => Some (Err e)
  | Ok opts =>
      let opts := if (0 <? MTU spec) && (MTU spec <=? 65535)
                  then <[OptionInterfaceMTU := be16 (MTU spec)]> opts else opts in
      r ← classlessStaticRoutes (Routes spec) (Gateway spec) [];
      Some (routes ← r; Ok (if decide (routes = []) then opts else <[OptionClasslessRouteFormat := routes]> opts))
  end.

Record singleClientDHCPHandler := {
  serverIP : bytes;
  clientIP : bytes;
  clientMAC : bytes;
  options : gmap Z bytes;
}.

Inductive MessageType := Discover | Request | OtherMessage (code : Z).

(** The answer, if the handler gives one. *)
Definition ServeDHCP (h : singleClientDHCPHandler) (p : Packet) (msgType : MessageType) : option Packet :=
  if negb (bool_decide (clientMAC h = [])) && negb (bool_decide (CHAddr p = clientMAC h)) then None
  else match msgType with
       | Discover => Some (ReplyPacket p false (serverIP h) (clientIP h) dhcpInfiniteLease (options h))
       | Request => Some (ReplyPacket p true (serverIP h) (clientIP h) dhcpInfiniteLease (options h))
       | OtherMessage _ => None
       end.

End dhcp.

(** ** net.ParseMAC *)

Definition hex2 (s : string) : option Z :=
  match s with
  | String a (String b _) => x ← hex_val a; y ← hex_val b; Some (x * 16 + y)
  | _ => None
  end.

(** The byte at [s], which the separator or the end of the text follows. *)
Definition xtoi2 (s : string) (sep : ascii) : option Z :=
  match s with
  | String _ (String _ (String c _)) => if bool_decide (c = sep) then hex2 s else None
  | _ => hex2 s
  end.

Fixpoint mac_bytes (n : nat) (s : string) (sep : ascii) : option bytes :=
  match n with
  | O => Some []
  | S n => b ← xtoi2 s sep; rest ← mac_bytes n (str_drop 3 s) sep; Some (b :: rest)
  end.

Fixpoint mac_words (n : nat) (s : string) : option bytes :=
  match n with
  | O => Some []
  | S n => a ← hex2 s; b ← xtoi2 (str_drop 2 s) "."; rest ← mac_words n (str_drop 5 s); Some (a :: b :: rest)
  end.

Definition mac_len (n : nat) : bool := bool_decide (n ∈ [6; 8; 20])%nat.

Definition ParseMAC (s : string) : option bytes :=
  let len := str_len s in
  if (len <? 14)%nat then None
  else match s with
       | String _ (String _ (String c rest)) =>
           if is_byte ":" c || is_byte "-" c then
             if negb ((len + 1) mod 3 =? 0)%nat || negb (mac_len ((len + 1) / 3)) then None
             else mac_bytes ((len + 1) / 3) s c
           else match rest with
                | String _ (String d _) =>
                    if is_byte "." d then
                      if negb ((len + 1) mod 5 =? 0)%nat || negb (mac_len (2 * ((len + 1) / 5))) then None
                      else mac_words ((len + 1) / 5) s
                    else None
                | _ => None
                end
       | _ => None
       end.

Example ParseMAC_forms :
  ParseMAC "00:00:5e:00:53:01" = Some [0; 0; 94; 0; 83; 1] ∧
  ParseMAC "00-00-5E-00-53-01" = Some [0; 0; 94; 0; 83; 1] ∧
  ParseMAC "0000.5e00.5301" = Some [0; 0; 94; 0; 83; 1] ∧
  ParseMAC "00:00:5e:00:53" = None ∧ ParseMAC "00:00:5e-00:53:01" = None.
Proof. vm_compute. auto 10. Qed.

(** ** The servers of the node

    A server is its handler, by network namespace and bridge.  [listen] opens the listener
    in the namespace and [close] closes it; they work on the state [S] of the node. *)
Section servers.
Context `{DH : Dhcp4} {S : Type}.

Abbreviation servers := (gmap (string * string) singleClientDHCPHandler).

Definition ensureVMIDHCPServer (listen : S → option error * S) (m : servers) (spec : Spec) (bridgeName : string)
    (s : S) : option (option error * servers * S) :=
  let key := (NetnsPath spec, bridgeName) in
  if OVNDHCP spec then Some (None, m, s)
  else match m !! key with
  | Some _ => Some (None, m, s)
  | None =>
      match ParseCIDR (IP spec) with
      | None => Some (Some (Errorf "parse Spec.IP %q for DHCP server: %w" [IP spec]), m, s)
      | Some (ip, ipNet) =>
          match To4 ip with
          | None => Some (None, m, s)
          | Some ip4 =>
              match ParseMAC (MAC spec) with
              | None => Some (Some (Errorf "parse Spec.MAC %q for DHCP server: %w" [MAC spec]), m, s)
              | Some mac =>
                  o ← vmiDHCPOptions spec (net_mask ipNet);
                  match o with
                  | Err e => Some (Some e, m, s)
                  | Ok opts =>
                      match listen s with
                      | (Some e, s) => Some (Some (Wrapf "start DHCP listener on %s: %w" [bridgeName] e), m, s)
                      | (None, s) =>
                          Some (None, <[key := {| serverIP := fakeDHCPServerIP; clientIP := ip4;
                                                  clientMAC := mac; options := opts |}]> m, s)
                      end
                  end
              end
          end
      end
  end.

Definition stopVMIDHCPServer (close : S → option error * S) (m : servers) (netnsPath bridge : string) (s : S) :
    option error * servers * S :=
  let m' := delete (netnsPath, bridge) m in
  match m !! (netnsPath, bridge) with
  | None => (None, m', s)
  | Some _ => let '(e, s) := close s in (e, m', s)
  end.

End servers.

(** ** Option 121, the way a client reads it (RFC 3442)

    A descriptor is the prefix length, the significant octets of the destination and the
    router; the octets left out are zero. *)
Record ClientRoute := { cr_width : Z; cr_dest : bytes; cr_router : bytes }.

Definition significant (width : Z) : nat := Z.to_nat ((width + 7) / 8).

Definition decode_one (b : bytes) : option (ClientRoute * bytes) :=
  match b with
  | [] => None
  | w :: b =>
      let n := significant w in
      if (0 <=? w) && (w <=? 32) && (n + 4 <=? length b)%nat
      then Some ({| cr_width := w; cr_dest := take n b ++ replicate (4 - n) 0; cr_router := take 4 (drop n b) |},
                 drop (n + 4) b)
      else None
  end.

Fixpoint decode_loop (fuel : nat) (b : bytes) : option (list ClientRoute) :=
  match fuel with
  | O => None
  | S fuel =>
      match b with
      | [] => Some []
      | _ => '(r, rest) ← decode_one b; rs ← decode_loop fuel rest; Some (r :: rs)
      end
  end.

(** A descriptor has at least five octets, so the length is enough fuel. *)
Definition decode121 (b : bytes) : option (list ClientRoute) := decode_loop (S (length b)) b.

(** What a route of the Spec means to an IPv4 client: nothing for an IPv6 destination. *)
Definition client_route (gateway : string) (r : Route) : option ClientRoute :=
  match Route_parse r gateway with
  | Ok (dst, gw) =>
      if mask_bits dst =? 32
      then Some {| cr_width := mask_ones dst; cr_dest := net_IP dst;
                   cr_router := default [0; 0; 0; 0] (gw ≫= To4) |}
      else None
  | Err _ => None
  end.

(** An IPv6 destination that lies in the IPv4-mapped block. *)
Definition mapped_route (gateway : string) (r : Route) : bool :=
  match Route_parse r gateway with
  | Ok (dst, _) => (mask_bits dst =? 128) && is_v4 (net_IP dst)
  | Err _ => false
  end.

Definition route_parses (gateway : string) (r : Route) : bool := is_ok (Route_parse r gateway).

(** The octets of a descriptor. *)
Definition encode_one (r : ClientRoute) : bytes :=
  cr_width r :: take (significant (cr_width r)) (cr_dest r) ++ cr_router r.

Lemma octets_significant w : 0 < w → octets w = Z.of_nat (significant w).
Proof. intros. unfold octets, significant. rewrite Z2Nat.id by (apply Z.div_pos; lia). rewrite Z.quot_div_nonneg by lia.
  replace (w + 7) with (w - 1 + 1 * 8) by lia. by rewrite Z.div_add by lia. Qed.

(** The octets after the prefix are zero. *)
Lemma masked_tail w (b : bytes) :
  0 ≤ w ≤ 32 → length b = 4%nat →
  let ip := zip_with Z.land b (CIDRMask w 32) in
  length ip = 4%nat ∧ (significant w ≤ 4)%nat ∧
  take (significant w) ip ++ replicate (4 - significant w) 0 = ip.
Proof.
  intros Hw Hb. destruct b as [|b0 [|b1 [|b2 [|b3 [|]]]]]; try done. cbv zeta.
  replace w with (Z.of_nat (Z.to_nat w)) by lia. assert (Z.to_nat w < 33)%nat as Hn by lia. revert Hn.
  generalize (Z.to_nat w). intros n Hn. do 33 (destruct n as [|n]; [cbv -[Z.land]; rewrite ?Z.land_0_r; repeat split; (done || lia)|]). lia.
Qed.

(** A masked IPv6 network in the mapped block has its whole prefix: 96 bits or more. *)
Lemma masked_mapped w (b : bytes) :
  length b = 16%nat → is_v4 (zip_with Z.land b (CIDRMask w 128)) = true → 96 ≤ w.
Proof.
  intros Hb. unfold is_v4, To4.
  rewrite length_zip_with, length_CIDRMask, Hb. cbn -[CIDRMask zip_with take drop].
  case_bool_decide as H; [|done]. intros _. destruct (decide (96 ≤ w)); [done|exfalso].
  assert (zip_with Z.land b (CIDRMask w 128) !! 11%nat = Some 255) as H11.
  { rewrite <- (lookup_take_lt _ 12) by lia. by rewrite H. }
  apply lookup_zip_with_Some in H11 as (x & y & Hx & _ & Hy).
  unfold CIDRMask in Hy. rewrite list_lookup_fmap in Hy. cbn in Hy. injection Hy as <-.
  apply (f_equal (λ z, Z.testbit z 0)) in Hx. rewrite Z.land_spec in Hx.
  assert (Z.testbit (mask_byte (w - 88)) 0 = false) as Hm.
  { unfold mask_byte. destruct (Z.leb_spec 8 (w - 88)); [lia|]. destruct (Z.leb_spec (w - 88) 0); [done|].
    assert (∃ k, 2 ^ (8 - (w - 88)) = 2 * k) as [k ->].
    { exists (2 ^ (8 - (w - 88) - 1)). rewrite <- Z.pow_succ_r by lia. f_equal. lia. }
    replace (256 - 2 * k) with (2 * (128 - k)) by lia. apply Z.testbit_even_0. }
  change (w - 8 * Z.of_nat 11) with (w - 88) in Hx. rewrite Hm, andb_false_r in Hx. done.
Qed.

(** The shape of a route an IPv4 client gets. *)
Definition client_route_ok (c : ClientRoute) : Prop :=
  0 < cr_width c ≤ 32 ∧ length (cr_dest c) = 4%nat ∧ length (cr_router c) = 4%nat ∧
  (significant (cr_width c) ≤ 4)%nat ∧
  take (significant (cr_width c)) (cr_dest c) ++ replicate (4 - significant (cr_width c)) 0 = cr_dest c.

Lemma client_route_valid gateway r c : client_route gateway r = Some c → client_route_ok c.
Proof.
  unfold client_route. destruct (Route_parse r gateway) as [[dst gw]|] eqn:E; [|done].
  destruct (Z.eqb_spec (mask_bits dst) 32) as [Hb|]; [|done]. intros [= <-].
  apply Route_parse_inv in E as (H0 & [ip Hp] & Hg & _).
  apply ParseCIDR_net in Hp as [(_ & Hw & b & Hl & Hip)|(? & _)]; [|congruence].
  destruct (masked_tail (mask_ones dst) b Hw Hl) as (H1 & H2 & H3). rewrite <- Hip in *.
  split_and!; cbn; try done; [lia|lia|].
  destruct gw as [g|]; [|done]. cbn. destruct (To4 g) eqn:Ht; [|done]. by apply To4_length in Ht.
Qed.

(** One route: refused, a panic, skipped or encoded. *)
Lemma classlessStaticRoutes_cons r routes gateway out :
  classlessStaticRoutes (r :: routes) gateway out =
  match Route_parse r gateway with
  | Err e => Some (Err (Wrapf "plumbing: route for DHCP options: %w" [] e))
  | Ok _ => if mapped_route gateway r then None
            else classlessStaticRoutes routes gateway (out ++ from_option encode_one [] (client_route gateway r))
  end.
Proof.
  unfold mapped_route, client_route. cbn [classlessStaticRoutes].
  destruct (Route_parse r gateway) as [[dst gw]|e] eqn:E; [|done].
  apply Route_parse_inv in E as (H0 & [ip Hp] & _).
  apply ParseCIDR_net in Hp as [(Hb & Hw & b & Hl & Hip)|(Hb & Hw & b & Hl & Hip)]; rewrite Hb; cbn -[octets To4].
  - destruct (masked_tail (mask_ones dst) b Hw Hl) as (H1 & H2 & _). rewrite <- Hip in *.
    replace (To4 (net_IP dst)) with (Some (net_IP dst)) by (unfold To4; by rewrite H1).
    rewrite octets_significant by lia. unfold slice_to. rewrite H1, Nat2Z.id.
    destruct (Z.leb_spec 0 (Z.of_nat (significant (mask_ones dst)))); [|lia].
    destruct (Z.leb_spec (Z.of_nat (significant (mask_ones dst))) (Z.of_nat 4)); [|lia].
    cbn. unfold encode_one. cbn. rewrite Z.mod_small by lia. done.
  - destruct (To4 (net_IP dst)) as [ip4|] eqn:Ht; unfold is_v4; rewrite Ht; [|by rewrite app_nil_r].
    assert (96 ≤ mask_ones dst) as H96.
    { eapply masked_mapped; [exact Hl|]. rewrite <- Hip. unfold is_v4. by rewrite Ht. }
    unfold slice_to. rewrite (To4_length _ _ Ht).
    assert (4 < octets (mask_ones dst)) as Ho.
    { unfold octets. rewrite Z.quot_div_nonneg by lia. assert (95 / 8 ≤ (mask_ones dst - 1) / 8) as Hd by (apply Z.div_le_mono; lia).
      change (95 / 8) with 11 in Hd. lia. }
    destruct (Z.leb_spec (octets (mask_ones dst)) (Z.of_nat 4)); [lia|]. by rewrite andb_false_r.
Qed.

Lemma classlessStaticRoutes_encodes routes gateway out res :
  classlessStaticRoutes routes gateway out = Some (Ok res) →
  res = out ++ concat (encode_one <$> omap (client_route gateway) routes).
Proof.
  revert out. induction routes as [|r routes IH]; intros out.
  - intros [= <-]. cbn. by rewrite app_nil_r.
  - rewrite classlessStaticRoutes_cons. destruct (Route_parse r gateway) as [d|]; [|done].
    destruct (mapped_route gateway r); [done|]. intros ->%IH.
    change (omap (client_route gateway) (r :: routes))
      with (from_option (λ c, c :: omap (client_route gateway) routes) (omap (client_route gateway) routes)
              (client_route gateway r)).
    destruct (client_route gateway r); cbn [from_option]; [|by rewrite app_nil_r].
    rewrite fmap_cons. cbn [concat]. by rewrite (assoc_L (++)).
Qed.

Lemma decode_one_encode c rest : client_route_ok c → decode_one (encode_one c ++ rest) = Some (c, rest).
Proof.
  intros (Hw & Hd & Hr & Hs & Ht). unfold decode_one, encode_one. cbn -[take drop significant].
  destruct (Z.leb_spec 0 (cr_width c)); [|lia]. destruct (Z.leb_spec (cr_width c) 32); [|lia]. cbn [andb].
  assert (length (take (significant (cr_width c)) (cr_dest c)) = significant (cr_width c)) as Hlt
    by (rewrite length_take; lia).
  rewrite <- (assoc_L (++)). rewrite !length_app, Hlt, Hr.
  destruct (Nat.leb_spec (significant (cr_width c) + 4) (significant (cr_width c) + (4 + length rest))); [|lia].
  f_equal. f_equal.
  - destruct c as [w d g]; cbn in *. f_equal.
    + by rewrite take_app_length'.
    + rewrite drop_app_length' by done. by rewrite take_app_length'.
  - rewrite <- drop_drop, drop_app_length' by done. by rewrite drop_app_length'.
Qed.

Lemma decode_loop_encode cs fuel :
  Forall client_route_ok cs → (length cs < fuel)%nat → decode_loop fuel (concat (encode_one <$> cs)) = Some cs.
Proof.
  intros H. revert fuel. induction H as [|c cs Hc Hcs IH]; intros [|fuel] Hf; try (cbn in Hf; lia); [done|].
  rewrite fmap_cons. cbn [concat decode_loop]. rewrite decode_one_encode by done.
  cbn -[decode_loop]. rewrite IH by (cbn in Hf; lia). done.
Qed.

(** C36: option 121 is what the client needs: the octets encode exactly the IPv4 routes
    of the NIC, in order, with their destination, prefix and router, as RFC 3442 reads them. *)
Theorem option121_roundtrip routes gateway out :
  classlessStaticRoutes routes gateway [] = Some (Ok out) →
  decode121 out = Some (omap (client_route gateway) routes).
Proof.
  intros ->%classlessStaticRoutes_encodes. rewrite app_nil_l. unfold decode121. apply decode_loop_encode.
  - apply Forall_forall. intros c (r & _ & Hc)%list_elem_of_omap. by eapply client_route_valid.
  - generalize (omap (client_route gateway) routes). intros cs. induction cs as [|c cs IH]; [cbn; lia|].
    rewrite fmap_cons. cbn [concat length]. rewrite length_app. unfold encode_one at 1. cbn [length]. lia.
Qed.

Lemma option121_roundtrip_witness :
  ∃ out, decode121 out
         = Some [{| cr_width := 16; cr_dest := [10; 1; 0; 0]; cr_router := [172; 23; 0; 1] |};
                 {| cr_width := 25; cr_dest := [10; 2; 3; 128]; cr_router := [0; 0; 0; 0] |}].
Proof.
  eexists. refine (eq_trans (option121_roundtrip
    [ {| Destination := "10.1.0.0/16"; Route_Gateway := "172.23.0.1" |};
      {| Destination := "fd00::/8"; Route_Gateway := "" |};
      {| Destination := "10.2.3.200/25"; Route_Gateway := "" |} ] "" _ _) _); vm_compute; reflexivity.
Defined.

(** The encoding panics on a slice bound exactly when a route whose IPv6 destination
    lies in the IPv4-mapped block comes before the first route that does not parse. *)
Theorem classlessStaticRoutes_panics routes gateway :
  classlessStaticRoutes routes gateway [] = None ↔
  ∃ pre r post, routes = pre ++ r :: post ∧ Forall (λ r, route_parses gateway r = true) pre ∧
                mapped_route gateway r = true.
Proof.
  generalize ([] : bytes). induction routes as [|r routes IH]; intros out.
  - split; [done|]. by intros ([|] & ? & ? & ? & _).
  - rewrite classlessStaticRoutes_cons. destruct (Route_parse r gateway) as [d|e] eqn:E.
    + destruct (mapped_route gateway r) eqn:Hm.
      { split; [intros _|done]. by exists [], r, routes. }
      rewrite IH. split.
      * intros (pre & r' & post & -> & Hpre & Hr'). exists (r :: pre), r', post. split_and!; [done| |done].
        constructor; [|done]. unfold route_parses. by rewrite E.
      * intros ([|r0 pre] & r' & post & [= -> ->] & Hpre & Hr'); [congruence|]. apply Forall_cons in Hpre as [_ ?]. eauto 10.
    + split; [done|]. intros ([|r0 pre] & r' & post & [= -> ->] & Hpre & Hr').
      * unfold mapped_route in Hr'. by rewrite E in Hr'.
      * apply Forall_cons in Hpre as [Hp _]. unfold route_parses in Hp. by rewrite E in Hp.
Qed.

Example mapped_route_panics :
  classlessStaticRoutes [ {| Destination := "::ffff:10.0.0.0/104"; Route_Gateway := "10.0.0.1" |} ] "" [] = None.
Proof. vm_compute. reflexivity. Qed.

(** ** The lease *)

(** The four options have codes of their own. *)
Class Dhcp4Laws `{Dhcp4} : Prop :=
  option_codes : NoDup [OptionSubnetMask; OptionRouter; OptionInterfaceMTU; OptionClasslessRouteFormat].

Lemma mac_bytes_length n s sep mac : mac_bytes n s sep = Some mac → length mac = n.
Proof.
  revert s mac. induction n as [|n IH]; intros s mac; cbn [mac_bytes]; [by intros [= <-]|].
  destruct (xtoi2 s sep); cbn; [|done]. destruct (mac_bytes n _ sep) eqn:E; cbn; [|done].
  intros [= <-]. cbn. by erewrite IH.
Qed.

Lemma mac_words_length n s mac : mac_words n s = Some mac → length mac = (2 * n)%nat.
Proof.
  revert s mac. induction n as [|n IH]; intros s mac; cbn [mac_words]; [by intros [= <-]|].
  destruct (hex2 s); cbn; [|done]. destruct (xtoi2 _ _); cbn; [|done].
  destruct (mac_words n _) eqn:E; cbn; [|done]. intros [= <-]. cbn. apply IH in E. lia.
Qed.

Lemma mac_len_pos n : mac_len n = true → (0 < n)%nat.
Proof. unfold mac_len. intros H%bool_decide_eq_true. rewrite !elem_of_cons in H. set_solver by lia. Qed.

(** A MAC address is never empty, so a server always has its one client. *)
Lemma ParseMAC_nonempty s mac : ParseMAC s = Some mac → mac ≠ [].
Proof.
  unfold ParseMAC. intros H ->. revert H. destruct (_ <? _)%nat; [done|].
  destruct s as [|a [|b [|c rest]]]; try done. destruct (_ || _).
  - destruct (negb _) eqn:?; [done|]. cbn [orb]. destruct (mac_len _) eqn:Hm; [|done]. cbn [negb].
    intros Hl%mac_bytes_length. apply mac_len_pos in Hm. cbn [length] in Hl. lia.
  - destruct rest as [|d [|e rest]]; try done. destruct (is_byte "." e); [|done].
    destruct (negb _) eqn:?; [done|]. cbn [orb]. destruct (mac_len _) eqn:Hm; [|done]. cbn [negb].
    intros Hl%mac_words_length. apply mac_len_pos in Hm. cbn [length] in Hl. lia.
Qed.

Section lease.
Context `{DH : Dhcp4} {DHL : Dhcp4Laws}.

(** The options of a lease, read back by their codes. *)
Definition lease_options (spec : Spec) (mask : bytes) (opts : gmap Z bytes) : Prop :=
  opts !! OptionSubnetMask = (if decide (mask = []) then None else Some mask) ∧
  opts !! OptionRouter = (if decide (Gateway spec = EmptyString) then None
                          else (λ gw, default [] (To4 gw)) <$> ParseIP (Gateway spec)) ∧
  opts !! OptionInterfaceMTU = (if (0 <? MTU spec) && (MTU spec <=? 65535) then Some (be16 (MTU spec)) else None) ∧
  classlessStaticRoutes (Routes spec) (Gateway spec) []
  = Some (Ok (default [] (opts !! OptionClasslessRouteFormat))).

Lemma vmiDHCPOptions_lease spec mask opts :
  vmiDHCPOptions spec mask = Some (Ok opts) → lease_options spec mask opts.
Proof.
  pose proof option_codes as Hc. rewrite !NoDup_cons, !not_elem_of_cons in Hc.
  destruct Hc as ((H1 & H2 & H3 & _) & (H4 & H5 & _) & (H6 & _) & _).
  unfold vmiDHCPOptions, lease_options. set (gwr := if decide (Gateway spec = "") then _ else _).
  destruct gwr as [o|] eqn:Hgw; [|done]. subst gwr.
  destruct (classlessStaticRoutes _ _ _) as [[routes|]|]; cbn -[lookup]; [|done..].
  intros [= <-].
  assert (o !! OptionSubnetMask = (if decide (mask = []) then None else Some mask) ∧
          o !! OptionRouter = (if decide (Gateway spec = "") then None
                          else (λ gw, default [] (To4 gw)) <$> ParseIP (Gateway spec)) ∧
          o !! OptionInterfaceMTU = None ∧ o !! OptionClasslessRouteFormat = None) as (O1 & O2 & O3 & O4).
  { destruct (decide (Gateway spec = "")); [|destruct (ParseIP (Gateway spec)); [|done]];
      injection Hgw as <-; destruct (decide (mask = [])); cbn -[lookup]; by simplify_map_eq. }
  destruct (_ && _), (decide (routes = [])) as [->|]; simplify_map_eq; by rewrite ?O1, ?O2, ?O3, ?O4.
Qed.

(** C37: the server started for a VM's NIC answers its guest, and nobody else, with the
    address of the NIC and with the options of its Spec, and leaves the servers of the
    other NICs alone. *)
Theorem ensureVMIDHCPServer_serves {S} (listen : S → option error * S) m spec bridge s ip n ip4 m' s' :
  OVNDHCP spec = false → m !! (NetnsPath spec, bridge) = None →
  ParseCIDR (IP spec) = Some (ip, n) → To4 ip = Some ip4 →
  ensureVMIDHCPServer listen m spec bridge s = Some (None, m', s') →
  ∃ mac h, ParseMAC (MAC spec) = Some mac ∧ m' = <[(NetnsPath spec, bridge) := h]> m ∧
    lease_options spec (net_mask n) (options h) ∧
    ∀ p, (∀ k, CHAddr p ≠ mac → ServeDHCP h p k = None) ∧
         (CHAddr p = mac →
          ServeDHCP h p Discover = Some (ReplyPacket p false fakeDHCPServerIP ip4 dhcpInfiniteLease (options h)) ∧
          ServeDHCP h p Request = Some (ReplyPacket p true fakeDHCPServerIP ip4 dhcpInfiniteLease (options h)) ∧
          ∀ c, ServeDHCP h p (OtherMessage c) = None).
Proof.
  intros Ho Hm Hip H4. unfold ensureVMIDHCPServer. rewrite Ho, Hm, Hip, H4.
  destruct (ParseMAC (MAC spec)) as [mac|] eqn:Hmac; [|done].
  destruct (vmiDHCPOptions spec _) as [[opts|]|] eqn:Hopts; [|done..]. cbn [mbind option_bind].
  destruct (listen s) as [[e|] s1]; [done|].
  intros [= <- <-]. eexists mac, _. split_and!; [done..|by apply vmiDHCPOptions_lease|].
  apply ParseMAC_nonempty in Hmac. intros p. unfold ServeDHCP. cbn [clientMAC serverIP clientIP options].
  rewrite (bool_decide_eq_false_2 (mac = [])) by done. split.
  - intros k Hp. by rewrite bool_decide_eq_false_2.
  - intros Hp. by rewrite bool_decide_eq_true_2.
Qed.

End lease.

(** ** A concrete packet: what it asks and what it answers *)
Section example.

Record ToyPacket := {
  toy_mac : bytes;
  toy_reply : option (bool * bytes * bytes * Z * gmap Z bytes);
}.

#[local] Instance toy_dhcp4 : Dhcp4 := {|
  OptionSubnetMask := 1; OptionRouter := 3; OptionInterfaceMTU := 26; OptionClasslessRouteFormat := 121;
  Packet := ToyPacket;
  CHAddr := toy_mac;
  ReplyPacket p ack server client lease opts :=
    {| toy_mac := toy_mac p; toy_reply := Some (ack, server, client, lease, opts) |};
|}.

#[local] Instance toy_dhcp4_laws : Dhcp4Laws.
Proof. unfold Dhcp4Laws. cbn. by apply (bool_decide_unpack _). Qed.

Definition toy_spec : Spec :=
  {| PodUID := "u"; PodName := "vm"; PodNamespace := "default"; ClaimUID := "claim"; ExtraIPs := [];
     Provider := "ovn"; KubeVirtVMI := true; NetnsPath := "/var/run/netns/a"; IfaceName := "net1"; IP := "172.23.0.5/20"; MAC := "00:00:5e:00:53:01";
     Gateway := "172.23.0.1"; Routes := [ {| Destination := "10.1.0.0/16"; Route_Gateway := "" |} ];
     MTU := 1400; ContainerID := "c"; IfaceID := "i"; OVNDHCP := false |}.

Definition listening : nat → option error * nat := λ s, (None, S s).

Definition toy_servers : gmap (string * string) singleClientDHCPHandler :=
  match ensureVMIDHCPServer listening ∅ toy_spec "k6t-net1" 0%nat with Some (_, m, _) => m | None => ∅ end.

Lemma ensureVMIDHCPServer_serves_witness :
  ∃ h, toy_servers = {[("/var/run/netns/a", "k6t-net1") := h]} ∧
    decode121 (default [] (options h !! 121)) =
      Some [ {| cr_width := 16; cr_dest := [10; 1; 0; 0]; cr_router := [172; 23; 0; 1] |} ].
Proof.
  destruct (ensureVMIDHCPServer_serves listening ∅ toy_spec "k6t-net1" 0%nat (v4InV6Prefix ++ [172; 23; 0; 5])
    {| net_IP := [172; 23; 0; 0]; mask_ones := 20; mask_bits := 32 |} [172; 23; 0; 5] toy_servers 1%nat)
    as (mac & h & _ & Hm & (_ & _ & _ & Hr) & _); [vm_compute; reflexivity..|].
  exists h. split; [exact Hm|]. clear Hm. cbn [OptionClasslessRouteFormat toy_dhcp4] in Hr.
  revert Hr. generalize (default [] (options h !! 121)). intros y Hy.
  vm_compute in Hy. injection Hy as <-. vm_compute. reflexivity.
Defined.

End example.
