(* ===== verification/Kernel.v ===== *)
(** * The node's network: netlink, network namespaces and Open vSwitch

    The datapath of pkg/plumbing calls the kernel through the netlink and netns packages,
    and Open vSwitch and iproute2 through their command lines.  These are the operations
    of the class [Kernel]; each one gives a result and the next state of the node, [W].
    [KernelLaws] states what they do, as far as the driver relies on it, on a view of the
    node: the links with their namespace, name, peer and configuration, the ports of the
    bridges of Open vSwitch, the namespaces that paths name, and the namespace of the thread. *)

From S2P Require Import Prelude Netip Store.

(** A link as [LinkByName] returns it. *)
Record Link (Id : Type) := {
  link_id : Id;
  Link_Type : string;
  Attrs_Name : string;
  Attrs_MTU : Z;
  Attrs_HardwareAddr : list Z;
}.
Arguments link_id {Id}. Arguments Link_Type {Id}. Arguments Attrs_Name {Id}.
Arguments Attrs_MTU {Id}. Arguments Attrs_HardwareAddr {Id}.

(** The address [netlink.ParseAddr] gives. *)
Record NlAddr := { Addr_IP : list Z; Addr_Mask : list Z }.

(** The requests that change the node's links. *)
Inductive Req (Ns Id : Type) :=
  | LinkAddVeth (name peer : string) (mtu : Z)
  | LinkAddBridge (ns : Ns) (name : string)
  | LinkAddTuntap (name : string) (owner group : Z)
  | LinkSetUp (l : Id)
  | LinkSetDown (l : Id)
  | LinkSetName (l : Id) (name : string)
  | LinkSetMTU (l : Id) (mtu : Z)
  | LinkSetHardwareAddr (l : Id) (mac : list Z)
  | LinkSetMaster (l master : Id)
  | LinkSetLearning (l : Id) (on : bool)
  | LinkSetNsFd (l : Id) (ns : Ns)
  | LinkDel (l : Id)
  | AddrAdd (l : Id) (addr : NlAddr) (nodad : bool)
  | RouteAdd (l : Id) (dst : IPNet) (gw : option (list Z)).
Arguments LinkAddVeth {Ns Id}. Arguments LinkAddBridge {Ns Id}. Arguments LinkAddTuntap {Ns Id}.
Arguments LinkSetUp {Ns Id}. Arguments LinkSetDown {Ns Id}. Arguments LinkSetName {Ns Id}.
Arguments LinkSetMTU {Ns Id}. Arguments LinkSetHardwareAddr {Ns Id}. Arguments LinkSetMaster {Ns Id}.
Arguments LinkSetLearning {Ns Id}. Arguments LinkSetNsFd {Ns Id}. Arguments LinkDel {Ns Id}.
Arguments AddrAdd {Ns Id}. Arguments RouteAdd {Ns Id}.

(** A lookup with no namespace is one in the namespace of the calling thread; creating a
    veth pair or a tuntap device happens there too. *)
Class Kernel (W : Type) := {
  NsId : Type;
  LinkId : Type;
  NsId_dec :: EqDecision NsId;
  LinkId_dec :: EqDecision LinkId;
  GetFromPath : string → W → result NsId * W;
  NewHandleAt : NsId → W → result () * W;
  NsGet : W → result NsId * W;
  NsSet : NsId → W → result () * W;
  LinkByName : option NsId → string → W → result (Link LinkId) * W;
  (** [netlink.LinkNotFoundError], one of the errors of a lookup *)
  LinkNotFound : error → bool;
  Netlink : Req NsId LinkId → W → result () * W;
  ParseAddr : string → result NlAddr;
  (** a command and its arguments: the output and the error *)
  Exec : string → list string → W → (string * option error) * W;
  (** a UDP listener on an interface of the thread's namespace, and closing it *)
  Listen : string → W → result () * W;
  CloseListener : string * string → W → result () * W;
}.

(** ** The view *)

(** A veth has a peer, and no other link does. *)
Inductive LinkKind (Id : Type) := Veth (peer : Id) | Other (type : string).
Arguments Veth {Id}. Arguments Other {Id}.

Record LinkState (Ns Id : Type) := {
  ls_ns : Ns;
  ls_name : string;
  ls_kind : LinkKind Id;
  ls_up : bool;
  ls_mac : list Z;
  ls_mtu : Z;
  ls_addrs : list (NlAddr * bool);
  ls_routes : list (IPNet * option (list Z));
  ls_master : option Id;
  ls_learning : bool;
}.
Arguments ls_ns {Ns Id}. Arguments ls_name {Ns Id}. Arguments ls_kind {Ns Id}.
Arguments ls_up {Ns Id}. Arguments ls_mac {Ns Id}. Arguments ls_mtu {Ns Id}. Arguments ls_addrs {Ns Id}.
Arguments ls_routes {Ns Id}. Arguments ls_master {Ns Id}. Arguments ls_learning {Ns Id}.

Definition ls_type {Ns Id} (s : LinkState Ns Id) : string := match ls_kind s with Veth _ => "veth" | Other t => t end.
Definition ls_peer {Ns Id} (s : LinkState Ns Id) : option Id := match ls_kind s with Veth p => Some p | Other _ => None end.

(** A port of Open vSwitch has the bridge it is on and its external IDs.  [home] is the
    namespace of the host. *)
Record Net (Ns Id : Type) := {
  links : Id → option (LinkState Ns Id);
  ports : gmap string (string * gmap string string);
  paths : string → option Ns;
  cur : Ns;
  home : Ns;
}.
Arguments links {Ns Id}. Arguments ports {Ns Id}. Arguments paths {Ns Id}.
Arguments cur {Ns Id}. Arguments home {Ns Id}.

Section effects.
Context {Ns Id : Type}.
Implicit Types (n : Net Ns Id) (s : LinkState Ns Id).

Definition with_links n (f : Id → option (LinkState Ns Id)) : Net Ns Id :=
  {| links := f; ports := ports n; paths := paths n; cur := cur n; home := home n |}.
Definition with_ports n (p : gmap string (string * gmap string string)) : Net Ns Id :=
  {| links := links n; ports := p; paths := paths n; cur := cur n; home := home n |}.
Definition with_cur n (c : Ns) : Net Ns Id :=
  {| links := links n; ports := ports n; paths := paths n; cur := c; home := home n |}.

(** The link [id] is in [ns] under [name]. *)
Definition at_name n (ns : Ns) (name : string) (id : Id) : Prop :=
  ∃ s, links n id = Some s ∧ ls_ns s = ns ∧ ls_name s = name.
Definition named n (ns : Ns) (name : string) : Prop := ∃ id, at_name n ns name id.

(** Changes of one link.  A link that goes down loses its routes and IPv6 addresses. *)
Definition set_up s b := {| ls_ns := ls_ns s; ls_name := ls_name s; ls_kind := ls_kind s;
  ls_up := b; ls_mac := ls_mac s; ls_mtu := ls_mtu s;
  ls_addrs := if b then ls_addrs s else filter (λ a, is_v4 (Addr_IP a.1) = true) (ls_addrs s);
  ls_routes := if b then ls_routes s else []; ls_master := ls_master s; ls_learning := ls_learning s |}.
Definition set_name s x := {| ls_ns := ls_ns s; ls_name := x; ls_kind := ls_kind s;
  ls_up := ls_up s; ls_mac := ls_mac s; ls_mtu := ls_mtu s; ls_addrs := ls_addrs s;
  ls_routes := ls_routes s; ls_master := ls_master s; ls_learning := ls_learning s |}.
Definition set_mtu s x := {| ls_ns := ls_ns s; ls_name := ls_name s; ls_kind := ls_kind s;
  ls_up := ls_up s; ls_mac := ls_mac s; ls_mtu := x; ls_addrs := ls_addrs s;
  ls_routes := ls_routes s; ls_master := ls_master s; ls_learning := ls_learning s |}.
Definition set_mac s x := {| ls_ns := ls_ns s; ls_name := ls_name s; ls_kind := ls_kind s;
  ls_up := ls_up s; ls_mac := x; ls_mtu := ls_mtu s; ls_addrs := ls_addrs s;
  ls_routes := ls_routes s; ls_master := ls_master s; ls_learning := ls_learning s |}.
Definition set_master s x := {| ls_ns := ls_ns s; ls_name := ls_name s; ls_kind := ls_kind s;
  ls_up := ls_up s; ls_mac := ls_mac s; ls_mtu := ls_mtu s; ls_addrs := ls_addrs s;
  ls_routes := ls_routes s; ls_master := x; ls_learning := ls_learning s |}.
Definition set_learning s x := {| ls_ns := ls_ns s; ls_name := ls_name s; ls_kind := ls_kind s;
  ls_up := ls_up s; ls_mac := ls_mac s; ls_mtu := ls_mtu s; ls_addrs := ls_addrs s;
  ls_routes := ls_routes s; ls_master := ls_master s; ls_learning := x |}.
(** A link that changes its namespace loses its configuration. *)
Definition set_ns s (x : Ns) : LinkState Ns Id := {| ls_ns := x; ls_name := ls_name s; ls_kind := ls_kind s;
  ls_up := false; ls_mac := ls_mac s; ls_mtu := ls_mtu s; ls_addrs := [];
  ls_routes := []; ls_master := None; ls_learning := ls_learning s |}.
Definition add_addr s x := {| ls_ns := ls_ns s; ls_name := ls_name s; ls_kind := ls_kind s;
  ls_up := ls_up s; ls_mac := ls_mac s; ls_mtu := ls_mtu s; ls_addrs := x :: ls_addrs s;
  ls_routes := ls_routes s; ls_master := ls_master s; ls_learning := ls_learning s |}.
Definition add_route s x := {| ls_ns := ls_ns s; ls_name := ls_name s; ls_kind := ls_kind s;
  ls_up := ls_up s; ls_mac := ls_mac s; ls_mtu := ls_mtu s; ls_addrs := ls_addrs s;
  ls_routes := x :: ls_routes s; ls_master := ls_master s; ls_learning := ls_learning s |}.

(** A link just created in [ns]: down and without configuration. *)
Definition created s (ns : Ns) (name type : string) (peer : option Id) : Prop :=
  ls_ns s = ns ∧ ls_name s = name ∧ ls_type s = type ∧ ls_peer s = peer ∧ ls_up s = false ∧
  ls_addrs s = [] ∧ ls_routes s = [] ∧ ls_master s = None.

Definition one_created n n' (ns : Ns) (name type : string) : Prop :=
  ¬ named n ns name ∧
  ∃ id s, links n id = None ∧ created s ns name type None ∧
    n' = with_links n (links n') ∧ links n' id = Some s ∧ ∀ x, x ≠ id → links n' x = links n x.

(** Only the link [id] changes, by [f]. *)
Definition changed n n' (id : Id) (f : LinkState Ns Id → LinkState Ns Id) : Prop :=
  n' = with_links n (links n') ∧ is_Some (links n id) ∧ links n' id = f <$> links n id ∧
  ∀ x, x ≠ id → links n' x = links n x.

(** What a request does when it succeeds.  Deleting a veth deletes its peer, deleting a
    bridge frees its ports.  A bridge whose MAC address was set keeps it when it gets
    ports; the driver sets it before it adds any. *)
Definition effect (r : Req Ns Id) n n' : Prop :=
  match r with
  | LinkAddVeth a b mtu =>
      ¬ named n (cur n) a ∧ ¬ named n (cur n) b ∧ a ≠ b ∧
      ∃ i j s t, i ≠ j ∧ links n i = None ∧ links n j = None ∧
        created s (cur n) a "veth" (Some j) ∧ created t (cur n) b "veth" (Some i) ∧
        n' = with_links n (links n') ∧ links n' i = Some s ∧ links n' j = Some t ∧
        ∀ x, x ≠ i → x ≠ j → links n' x = links n x
  | LinkAddBridge ns name => one_created n n' ns name "bridge"
  | LinkAddTuntap name _ _ => one_created n n' (cur n) name "tuntap"
  | LinkSetUp l => changed n n' l (λ s, set_up s true)
  | LinkSetDown l => changed n n' l (λ s, set_up s false)
  | LinkSetName l name =>
      changed n n' l (λ s, set_name s name) ∧
      ∀ s, links n l = Some s → ls_name s = name ∨ ¬ named n (ls_ns s) name
  | LinkSetMTU l mtu => changed n n' l (λ s, set_mtu s mtu)
  | LinkSetHardwareAddr l mac => changed n n' l (λ s, set_mac s mac)
  | LinkSetMaster l m => changed n n' l (λ s, set_master s (Some m))
  | LinkSetLearning l on => changed n n' l (λ s, set_learning s on)
  | LinkSetNsFd l ns =>
      changed n n' l (λ s, set_ns s ns) ∧ ∀ s, links n l = Some s → ls_ns s ≠ ns → ¬ named n ns (ls_name s)
  | LinkDel l =>
      n' = with_links n (links n') ∧
      ∃ s, links n l = Some s ∧ links n' l = None ∧ (∀ x, ls_peer s = Some x → links n' x = None) ∧
        ∀ x, x ≠ l → ls_peer s ≠ Some x →
          links n' x = links n x ∨ links n' x = (λ t, set_master t None) <$> links n x
  | AddrAdd l a nodad => changed n n' l (λ s, add_addr s (a, nodad))
  | RouteAdd l dst gw => changed n n' l (λ s, add_route s (dst, gw))
  end.
End effects.

(** ** What the driver relies on *)

(** The command lines of the driver for Open vSwitch. *)
Definition external_id (kv : string * string) : string := "external_ids:" +:+ kv.1 +:+ "=" +:+ kv.2.
Definition add_port_args (bridge port : string) (ids : list (string * string)) : list string :=
  ["--may-exist"; "add-port"; bridge; port; "--"; "set"; "interface"; port] ++ (external_id <$> ids).
Definition del_port_args (bridge : option string) (port : string) : list string :=
  ["--if-exists"; "del-port"] ++ option_list bridge ++ [port].
Definition find_args (ids : list (string * string)) : list string :=
  ["--bare"; "--columns=name"; "find"; "interface"] ++ (external_id <$> ids).

(** How Open vSwitch reads such an argument: the key ends at the first equals sign. *)
Definition parse_external_id (arg : string) : option (string * string) :=
  match trim_prefix_opt "external_ids:" arg with
  | Some kv => let '(k, v, found) := cut "=" kv in if found : bool then Some (k, v) else None
  | None => None
  end.
Definition plain_ids (ids : list (string * string)) : Prop :=
  ∀ kv, kv ∈ ids → parse_external_id (external_id kv) = Some kv.

(** Setting keys of a port's external IDs keeps the others. *)
Definition set_ids (ids : list (string * string)) (old : gmap string string) : gmap string string :=
  list_to_map (rev ids) ∪ old.

(** [strings.Fields]: the words between white space; [word] is the one being read. *)
Fixpoint fields_from (s word : string) : list string :=
  let done := if bool_decide (word = EmptyString) then [] else [word] in
  match s with
  | EmptyString => done
  | String c s => if is_space c then done ++ fields_from s EmptyString else fields_from s (word +:+ String c EmptyString)
  end.
Definition Fields (s : string) : list string := fields_from s EmptyString.

Example Fields_words : Fields " a  bc " = ["a"; "bc"].
Proof. reflexivity. Qed.

(** The text of an error of the kernel, which [isExists] inspects. *)
Definition errno_text (e : error) : string := match e with External msg => msg | _ => EmptyString end.
Fixpoint has_substring (p s : string) : bool :=
  match trim_prefix_opt p s, s with
  | Some _, _ => true
  | None, EmptyString => false
  | None, String _ s => has_substring p s
  end.
Definition isExists (e : error) : bool := has_substring "file exists" (to_lower (errno_text e)).

Section laws.
Context {W : Type} `{KE : Kernel W}.
Abbreviation net := (Net NsId LinkId).

Class KernelLaws := {
  view : W → net;
  (** reading changes nothing, and tells what is there *)
  path_view p w r w' : GetFromPath p w = (r, w') → view w' = view w ∧ ∀ ns, r = Ok ns → paths (view w) p = Some ns;
  handle_view ns w r w' : NewHandleAt ns w = (r, w') → view w' = view w;
  get_view w r w' : NsGet w = (r, w') → view w' = view w ∧ ∀ ns, r = Ok ns → ns = cur (view w);
  lookup_view p name w r w' : LinkByName p name w = (r, w') → view w' = view w;
  lookup_found p name w l w' :
    LinkByName p name w = (Ok l, w') →
    ∃ s, links (view w) (link_id l) = Some s ∧ ls_ns s = default (cur (view w)) p ∧ ls_name s = name ∧
         Attrs_Name l = name ∧ Link_Type l = ls_type s ∧ Attrs_MTU l = ls_mtu s ∧ Attrs_HardwareAddr l = ls_mac s;
  (** a link that is not found is not there; a lookup may also fail for other reasons *)
  lookup_missing p name w e w' :
    LinkByName p name w = (Err e, w') → LinkNotFound e = true → ¬ named (view w) (default (cur (view w)) p) name;
  (** the thread's namespace; going back to the host's works *)
  set_view ns w r w' : NsSet ns w = (r, w') → view w' = if is_ok r then with_cur (view w) ns else view w;
  set_home w r w' : NsSet (home (view w)) w = (r, w') → r = Ok tt;
  (** a request takes effect or fails and changes nothing *)
  request_ok r w w' : Netlink r w = (Ok tt, w') → effect r (view w) (view w');
  request_err r w e w' : Netlink r w = (Err e, w') → view w' = view w;
  (** an address that exists is on the link, a route that exists is in its namespace *)
  addr_exists l a nodad w e w' :
    Netlink (AddrAdd l a nodad) w = (Err e, w') → isExists e = true →
    ∃ s x b, links (view w) l = Some s ∧ (x, b) ∈ ls_addrs s ∧ Addr_IP x = Addr_IP a;
  route_exists l dst gw w e w' :
    Netlink (RouteAdd l dst gw) w = (Err e, w') → isExists e = true →
    ∃ s l' s' gw', links (view w) l = Some s ∧ links (view w) l' = Some s' ∧ ls_ns s' = ls_ns s ∧
      (dst, gw') ∈ ls_routes s';
  (** adding a port puts it on the bridge, where it may be already, and sets its external
      IDs; a command that fails may have had its effect *)
  exec_add bridge port ids w out e w' :
    plain_ids ids → Exec "ovs-vsctl" (add_port_args bridge port ids) w = ((out, e), w') →
    view w' = with_ports (view w)
      (<[port := (bridge, set_ids ids (default ∅ (snd <$> ports (view w) !! port)))]> (ports (view w))) ∨
    (e ≠ None ∧ view w' = view w);
  exec_del bridge port w out e w' :
    Exec "ovs-vsctl" (del_port_args bridge port) w = ((out, e), w') →
    view w' = with_ports (view w) (delete port (ports (view w))) ∨ (e ≠ None ∧ view w' = view w);
  exec_find ids w out e w' :
    plain_ids ids → Exec "ovs-vsctl" (find_args ids) w = ((out, e), w') →
    view w' = view w ∧
    (e = None → ∀ port, port ∈ Fields out ↔
       ∃ b m, ports (view w) !! port = Some (b, m) ∧ ∀ k v, (k, v) ∈ ids → m !! k = Some v);
  (** iproute2's bridge changes forwarding entries, which the view does not show *)
  exec_bridge args w out e w' : Exec "bridge" args w = ((out, e), w') → view w' = view w;
  listen_view i w r w' : Listen i w = (r, w') → view w' = view w;
  close_view k w r w' : CloseListener k w = (r, w') → view w' = view w;
}.
End laws.
Arguments KernelLaws W {KE}.
