(* ===== verification/Attach.v ===== *)
(** * The datapath of a NIC (pkg/plumbing/plumbing.go, plumbing_linux.go)

    Attaching a NIC creates a veth pair, moves one end into the sandbox, configures it and
    adds the other end to the integration bridge; for a VM the sandbox's end is wrapped
    in a bridge with a tap device.  The steps run in a monad over the state of the node
    and the DHCP servers of the process, with errors and panics; a deferred [Close] of a
    handle has no effect on either and is left out. *)

From S2P Require Import Prelude Netip Sha256 Store Kernel Dhcp.

(** ** Names *)

Definition integrationBridge : string := "br-int".
Definition cniVendor : string := "kube-ovn".
Definition ownerExternalID : string := "kube-ovn-dra-driver".
Definition ownerName : string := "nic".
Definition primaryIface : string := "eth0".
Definition kubevirtQemuUID : Z := 107.

Definition shortHashName (prefix key : string) : string :=
  str_take (str_len prefix + 8) (prefix +:+ hex_encode (take 4 (Sum256 key))).

Definition bridgeNameFor (ifaceName : string) : string := shortHashName "kvb" ifaceName.
Definition vethRenameFor (ifaceName : string) : string := shortHashName "kvv" ifaceName.

(** The two names of a NIC's veth pair, [vethNames] of a container and an interface. *)
Definition veth_key (containerID ifaceName : string) : string := containerID +:+ "/" +:+ ifaceName.
Definition vh (containerID ifaceName : string) : string := shortHashName "vh" (veth_key containerID ifaceName).
Definition vc (containerID ifaceName : string) : string := shortHashName "vc" (veth_key containerID ifaceName).

Definition vethNames (spec : Spec) : result (string * string) :=
  if bool_decide (ContainerID spec = EmptyString)
  then Err (Errorf "plumbing: Spec.ContainerID is empty (cannot derive veth names)" [])
  else Ok (vh (ContainerID spec) (IfaceName spec), vc (ContainerID spec) (IfaceName spec)).

Definition ipWithoutMask (cidr : string) : string := let '(ip, _, _) := cut "/" cidr in ip.

Definition ipsWithoutMask (cidrs : list string) : list string :=
  ipWithoutMask <$> filter (λ c, c ≠ EmptyString) cidrs.

(** [net.HardwareAddr.String] *)
Definition mac_string (mac : list Z) : string := join ":" ((λ b, hex_encode [b]) <$> mac).

Definition with_mtu (s : Spec) (mtu : Z) : Spec := {|
  PodUID := PodUID s; PodName := PodName s; PodNamespace := PodNamespace s; ClaimUID := ClaimUID s;
  NetnsPath := NetnsPath s; IfaceName := IfaceName s; IP := IP s; ExtraIPs := ExtraIPs s; MAC := MAC s;
  Gateway := Gateway s; Routes := Routes s; MTU := mtu; ContainerID := ContainerID s;
  Provider := Provider s; IfaceID := IfaceID s; KubeVirtVMI := KubeVirtVMI s; OVNDHCP := OVNDHCP s |}.

(** ** The monad *)

Inductive outcome (A : Type) :=
  | Ret (a : A)
  | Throw (e : error)
  | Panic.
Arguments Ret {A}. Arguments Throw {A}. Arguments Panic {A}.

Section attacher.
Context {W : Type} `{KE : Kernel W} `{DH : Dhcp4}.

(** The node, and the attacher's [dhcpServers]. *)
Record ovsAttacher := { kern : W; dhcpServers : gmap (string * string) singleClientDHCPHandler }.

Definition M (A : Type) : Type := ovsAttacher → outcome A * ovsAttacher.

#[export] Instance M_ret : MRet M := λ A a σ, (Ret a, σ).
#[export] Instance M_bind : MBind M := λ A B f m σ,
  match m σ with
  | (Ret a, σ) => f a σ
  | (Throw e, σ) => (Throw e, σ)
  | (Panic, σ) => (Panic, σ)
  end.

Definition fail {A} (e : error) : M A := λ σ, (Throw e, σ).

Definition of_result {A} (r : result A) : outcome A := match r with Ok a => Ret a | Err e => Throw e end.

Definition kernel {A} (f : W → result A * W) : M A := λ σ,
  let '(r, w) := f (kern σ) in (of_result r, {| kern := w; dhcpServers := dhcpServers σ |}).

Definition request (r : Req NsId LinkId) : M () := kernel (Netlink r).

(** [fmt.Errorf] with [%w] around the error of a step. *)
Definition wrap {A} (format : string) (args : list string) (m : M A) : M A := λ σ,
  match m σ with (Throw e, σ) => (Throw (Wrapf format args e), σ) | r => r end.

(** A step whose error is inspected, or ignored. *)
Definition attempt {A} (m : M A) : M (result A) := λ σ,
  match m σ with
  | (Ret a, σ) => (Ret (Ok a), σ)
  | (Throw e, σ) => (Ret (Err e), σ)
  | (Panic, σ) => (Panic, σ)
  end.
Definition ignore {A} (m : M A) : M () := _ ← attempt m; mret ().

(** A step after whose error [cleanup] runs, ignoring its error. *)
Definition or_else {A} (m : M A) (cleanup : M ()) : M A := λ σ,
  match m σ with
  | (Throw e, σ) => (_ ← ignore cleanup; fail e) σ
  | r => r
  end.

(** A deferred step: it runs however [m] ends, and its error is ignored. *)
Definition finally {A B} (m : M A) (after : M B) : M A := λ σ,
  let '(r, σ) := m σ in (r, (after σ).2).

(** A request for something that may be there already. *)
Definition unless_exists (format : string) (args : list string) (r : Req NsId LinkId) : M () :=
  x ← attempt (request r);
  match x with
  | Ok _ => mret ()
  | Err e => if isExists e then mret () else fail (Wrapf format args e)
  end.

Definition when (b : bool) (m : M ()) : M () := if b then m else mret ().

(** ** The host's end *)

Definition createVethPair (host pod : string) (mtu : Z) : M () :=
  existing ← attempt (kernel (LinkByName None host));
  match existing with
  | Ok _ => mret ()
  | Err _ =>
      _ ← wrap "create veth %s<->%s: %w" [host; pod]
            (request (LinkAddVeth host pod (if (0 <? mtu)%Z then mtu else 0%Z)));
      hostLink ← wrap "look up host veth %s: %w" [host] (kernel (LinkByName None host));
      _ ← when (0 <? mtu)%Z
            (peer ← attempt (kernel (LinkByName None pod));
             match peer with
             | Ok peerLink => ignore (request (LinkSetMTU (link_id peerLink) mtu))
             | Err _ => mret ()
             end);
      wrap "set host veth %s up: %w" [host] (request (LinkSetUp (link_id hostLink)))
  end.

Definition cleanupHostVeth (hostVeth : string) : M () :=
  l ← attempt (kernel (LinkByName None hostVeth));
  match l with
  | Err _ => mret ()
  | Ok link => wrap "delete host veth %s: %w" [hostVeth] (request (LinkDel (link_id link)))
  end.

(** ** The sandbox's end *)

Definition open_netns (path : string) : M NsId :=
  wrap "open netns %s: %w" [path] (kernel (GetFromPath path)).
Definition open_handle (ns : NsId) (path : string) : M () :=
  wrap "netlink handle for netns %s: %w" [path] (kernel (NewHandleAt ns)).

Definition moveIntoNetns (pod netnsPath ifaceName : string) : M () :=
  ns ← open_netns netnsPath;
  h ← attempt (kernel (NewHandleAt ns));
  alreadyMoved ← match h with
                 | Ok _ => x ← attempt (kernel (LinkByName (Some ns) ifaceName)); mret (is_ok x)
                 | Err _ => mret false
                 end;
  if alreadyMoved : bool then mret ()
  else
    link ← wrap "look up pod veth %s: %w" [pod] (kernel (LinkByName None pod));
    _ ← wrap "move %s into netns %s: %w" [pod; netnsPath] (request (LinkSetNsFd (link_id link) ns));
    _ ← open_handle ns netnsPath;
    inner ← wrap "look up moved veth %s in netns: %w" [pod] (kernel (LinkByName (Some ns) pod));
    _ ← wrap "set %s down before rename: %w" [pod] (request (LinkSetDown (link_id inner)));
    wrap "rename %s -> %s in netns: %w" [pod; ifaceName] (request (LinkSetName (link_id inner) ifaceName)).

Definition primaryMTU (netnsPath : string) : M Z :=
  ns ← attempt (kernel (GetFromPath netnsPath));
  match ns with
  | Err _ => mret 0%Z
  | Ok ns =>
      h ← attempt (kernel (NewHandleAt ns));
      match h with
      | Err _ => mret 0%Z
      | Ok _ =>
          link ← attempt (kernel (LinkByName (Some ns) primaryIface));
          match link with Err _ => mret 0%Z | Ok link => mret (Attrs_MTU link) end
      end
  end.

(** The MAC address of the Spec on a link; the errors of parsing and of setting it. *)
Definition set_spec_mac (spec : Spec) (id : LinkId) (bad : error) (format : string) (args : list string) : M () :=
  if bool_decide (MAC spec = EmptyString) then mret ()
  else match ParseMAC (MAC spec) with
       | None => fail bad
       | Some mac => wrap format args (request (LinkSetHardwareAddr id mac))
       end.

Fixpoint add_addresses (spec : Spec) (id : LinkId) (addresses : list string) : M () :=
  match addresses with
  | [] => mret ()
  | ip :: addresses =>
      match ParseAddr ip with
      | Err e => fail (Wrapf "parse IP %q: %w" [ip] e)
      | Ok addr =>
          _ ← unless_exists "add address %s to %s: %w" [ip; IfaceName spec]
                (AddrAdd id addr (negb (is_v4 (Addr_IP addr))));
          add_addresses spec id addresses
      end
  end.

Fixpoint add_routes (spec : Spec) (id : LinkId) (routes : list Route) : M () :=
  match routes with
  | [] => mret ()
  | r :: routes =>
      match Route_parse r (Gateway spec) with
      | Err e => fail (Wrapf "NIC %s: %w" [IfaceName spec] e)
      | Ok (dst, gw) =>
          _ ← unless_exists "add route %s on %s: %w" [Destination r; IfaceName spec] (RouteAdd id dst gw);
          add_routes spec id routes
      end
  end.

Definition configurePodIface (spec : Spec) : M () :=
  ns ← open_netns (NetnsPath spec);
  _ ← open_handle ns (NetnsPath spec);
  link ← wrap "look up %s in netns: %w" [IfaceName spec] (kernel (LinkByName (Some ns) (IfaceName spec)));
  if bool_decide (Link_Type link = "tuntap") then mret ()
  else
    _ ← set_spec_mac spec (link_id link) (Errorf "parse MAC %q: %w" [MAC spec]) "set MAC on %s: %w" [IfaceName spec];
    _ ← when (0 <? MTU spec)%Z
          (wrap "set MTU on %s: %w" [IfaceName spec] (request (LinkSetMTU (link_id link) (MTU spec))));
    _ ← add_addresses spec (link_id link) (IP spec :: if KubeVirtVMI spec then [] else ExtraIPs spec);
    _ ← wrap "set %s up: %w" [IfaceName spec] (request (LinkSetUp (link_id link)));
    add_routes spec (link_id link) (Routes spec).

(** ** Open vSwitch *)

Definition exec (cmd : string) (args : list string) : M (string * option error) := λ σ,
  let '(r, w) := Exec cmd args (kern σ) in (Ret r, {| kern := w; dhcpServers := dhcpServers σ |}).

Definition ovsVsctl (args : list string) : M () :=
  r ← exec "ovs-vsctl" args;
  match r with
  | (out, Some e) => fail (Wrapf "ovs-vsctl %s: %w: %s" [join " " args; trim_space out] e)
  | (_, None) => mret ()
  end.

Definition port_ids (spec : Spec) : list (string * string) :=
  [("iface-id", IfaceID spec); ("vendor", cniVendor); (ownerExternalID, ownerName);
   ("pod_name", PodName spec); ("pod_namespace", PodNamespace spec);
   ("ip", join "," (ipsWithoutMask (IP spec :: ExtraIPs spec)));
   ("pod_netns", NetnsPath spec)].

Definition attachToOVS (hostVeth : string) (spec : Spec) : M () :=
  ovsVsctl (add_port_args integrationBridge hostVeth (port_ids spec)).

Definition detachFromOVS (hostVeth : string) : M () :=
  ovsVsctl (del_port_args (Some integrationBridge) hostVeth).

Fixpoint detach_ports (names : list string) : M (list error) :=
  match names with
  | [] => mret []
  | name :: names =>
      x ← attempt (ovsVsctl (del_port_args None name));
      e ← match x with
          | Err e => mret [e]
          | Ok _ => y ← attempt (cleanupHostVeth name); mret (option_list (err_of y))
          end;
      errs ← detach_ports names;
      mret (e ++ errs)
  end.

Definition pod_ids (podName podNamespace : string) : list (string * string) :=
  [(ownerExternalID, ownerName); ("pod_name", podName); ("pod_namespace", podNamespace)].

Definition DetachPodPorts_ovs (podName podNamespace : string) : M () :=
  r ← exec "ovs-vsctl" (find_args (pod_ids podName podNamespace));
  match r with
  | (out, Some e) => fail (Wrapf "find ovs ports of pod %s/%s: %w: %s" [podNamespace; podName; trim_space out] e)
  | (out, None) =>
      errs ← detach_ports (Fields out);
      match errors_join (Some <$> errs) with Some e => fail e | None => mret () end
  end.

(** ** A VM's bridge and tap *)

(** A step of the thread while it is in another namespace. *)
Definition in_netns {A} (ns : NsId) (body : M A) : M A :=
  origNs ← wrap "get current netns: %w" [] (kernel NsGet);
  finally (_ ← wrap "switch to target netns: %w" [] (kernel (NsSet ns)); body) (kernel (NsSet origNs)).

Definition addTuntapInNetns (ns : NsId) (name : string) : M () :=
  in_netns ns
    (x ← attempt (request (LinkAddTuntap name kubevirtQemuUID kubevirtQemuUID));
     match x with Ok _ => mret () | Err e => if isExists e then mret () else fail e end).

Definition bridgeFdbReplaceStatic (ns : NsId) (mac : list Z) (ifaceName : string) : M () :=
  in_netns ns
    (r ← exec "bridge" ["fdb"; "replace"; mac_string mac; "dev"; ifaceName; "master"; "static"];
     match r with
     | (out, Some e) => fail (Wrapf "bridge fdb replace: %w: %s" [trim_space out] e)
     | (_, None) => mret ()
     end).

Definition newNetnsUDP4FilterListener (netnsPath ifaceName : string) : M () :=
  ns ← open_netns netnsPath;
  in_netns ns (kernel (Listen ifaceName)).

(** A step as the function of the state that [Dhcp] expects. *)
Definition as_step (m : M ()) (σ : ovsAttacher) : option error * ovsAttacher :=
  match m σ with
  | (Throw e, σ) => (Some e, σ)
  | (_, σ) => (None, σ)
  end.

Definition ensure_server (spec : Spec) (bridgeName : string) : M () := λ σ,
  match ensureVMIDHCPServer (as_step (newNetnsUDP4FilterListener (NetnsPath spec) bridgeName))
          (dhcpServers σ) spec bridgeName σ with
  | None => (Panic, σ)
  | Some (e, m, σ) =>
      (match e with None => Ret () | Some e => Throw e end, {| kern := kern σ; dhcpServers := m |})
  end.

Definition stop_server (netnsPath bridgeName : string) : M () := λ σ,
  let '(e, m, σ) := stopVMIDHCPServer (as_step (kernel (CloseListener (netnsPath, bridgeName))))
                      (dhcpServers σ) netnsPath bridgeName σ in
  (match e with None => Ret () | Some e => Throw e end, {| kern := kern σ; dhcpServers := m |}).

Definition wireVMIBridge (spec : Spec) : M () :=
  ns ← open_netns (NetnsPath spec);
  _ ← open_handle ns (NetnsPath spec);
  let ifaceName := IfaceName spec in
  existing ← wrap "look up %s to wrap in a bridge: %w" [ifaceName] (kernel (LinkByName (Some ns) ifaceName));
  let bridgeName := bridgeNameFor ifaceName in
  if bool_decide (Link_Type existing = "tuntap") then ensure_server spec bridgeName
  else
    let vethName := vethRenameFor ifaceName in
    _ ← wrap "set %s down before rename: %w" [ifaceName] (request (LinkSetDown (link_id existing)));
    _ ← wrap "rename %s -> %s: %w" [ifaceName; vethName] (request (LinkSetName (link_id existing) vethName));
    _ ← unless_exists "create bridge %s: %w" [bridgeName] (LinkAddBridge ns bridgeName);
    bridgeLink ← wrap "look up bridge %s: %w" [bridgeName] (kernel (LinkByName (Some ns) bridgeName));
    let bridgeMAC := Attrs_HardwareAddr bridgeLink in
    _ ← wrap "pin bridge %s MAC: %w" [bridgeName] (request (LinkSetHardwareAddr (link_id bridgeLink) bridgeMAC));
    _ ← wrap "create tap %s: %w" [ifaceName] (addTuntapInNetns ns ifaceName);
    tapLink ← wrap "look up tap %s: %w" [ifaceName] (kernel (LinkByName (Some ns) ifaceName));
    _ ← set_spec_mac spec (link_id tapLink) (Errorf "parse MAC %q for tap %s: %w" [MAC spec; ifaceName])
          "set MAC %s on tap %s: %w" [MAC spec; ifaceName];
    _ ← wrap "copy bridge MAC onto %s: %w" [vethName] (request (LinkSetHardwareAddr (link_id existing) bridgeMAC));
    _ ← wrap "enslave %s to bridge %s: %w" [vethName; bridgeName]
          (request (LinkSetMaster (link_id existing) (link_id bridgeLink)));
    _ ← wrap "enslave tap %s to bridge %s: %w" [ifaceName; bridgeName]
          (request (LinkSetMaster (link_id tapLink) (link_id bridgeLink)));
    _ ← wrap "set %s up: %w" [vethName] (request (LinkSetUp (link_id existing)));
    _ ← wrap "set tap %s up: %w" [ifaceName] (request (LinkSetUp (link_id tapLink)));
    _ ← wrap "set bridge %s up: %w" [bridgeName] (request (LinkSetUp (link_id bridgeLink)));
    _ ← wrap "disable FDB learning on %s: %w" [vethName] (request (LinkSetLearning (link_id existing) false));
    _ ← (if bool_decide (MAC spec = EmptyString) then mret ()
         else match ParseMAC (MAC spec) with
              | None => fail (Errorf "parse MAC %q for tap %s: %w" [MAC spec; ifaceName])
              | Some mac =>
                  wrap "replace auto-created self FDB entry for %s on tap %s with a forwarding one: %w"
                    [MAC spec; ifaceName] (bridgeFdbReplaceStatic ns mac (Attrs_Name tapLink))
              end);
    ensure_server spec bridgeName.

Definition unwireVMIBridge (spec : Spec) : M () :=
  let bridgeName := bridgeNameFor (IfaceName spec) in
  _ ← wrap "stop DHCP server of %s in netns %s: %w" [bridgeName; NetnsPath spec]
        (stop_server (NetnsPath spec) bridgeName);
  ns ← attempt (kernel (GetFromPath (NetnsPath spec)));
  match ns with
  | Err _ => mret ()
  | Ok ns =>
      _ ← open_handle ns (NetnsPath spec);
      tap ← attempt (kernel (LinkByName (Some ns) (IfaceName spec)));
      _ ← match tap with
          | Ok tapLink =>
              when (bool_decide (Link_Type tapLink = "tuntap"))
                (wrap "delete tap %s: %w" [IfaceName spec] (request (LinkDel (link_id tapLink))))
          | Err _ => mret ()
          end;
      bridge ← attempt (kernel (LinkByName (Some ns) bridgeName));
      match bridge with
      | Ok bridgeLink => wrap "delete bridge %s: %w" [bridgeName] (request (LinkDel (link_id bridgeLink)))
      | Err _ => mret ()
      end
  end.

(** ** Attach and Detach *)

Definition of_names (spec : Spec) : M (string * string) := λ σ, (of_result (vethNames spec), σ).

Definition Attach_ovs (spec : Spec) : M () :=
  match Validate spec with
  | Some e => fail e
  | None =>
      '(hostVeth, podVeth) ← of_names spec;
      mtu ← (if (MTU spec =? 0)%Z then primaryMTU (NetnsPath spec) else mret (MTU spec));
      let spec := with_mtu spec mtu in
      _ ← createVethPair hostVeth podVeth (MTU spec);
      _ ← or_else (moveIntoNetns podVeth (NetnsPath spec) (IfaceName spec)) (cleanupHostVeth hostVeth);
      _ ← or_else (configurePodIface spec) (cleanupHostVeth hostVeth);
      _ ← or_else (attachToOVS hostVeth spec) (cleanupHostVeth hostVeth);
      when (KubeVirtVMI spec)
        (or_else (wireVMIBridge spec) (_ ← ignore (detachFromOVS hostVeth); cleanupHostVeth hostVeth))
  end.

Definition Detach_ovs (spec : Spec) : M () :=
  _ ← when (KubeVirtVMI spec) (unwireVMIBridge spec);
  '(hostVeth, _) ← of_names spec;
  _ ← detachFromOVS hostVeth;
  cleanupHostVeth hostVeth.

End attacher.
Arguments ovsAttacher : clear implicits.
