(* ===== verification/NetShape.v ===== *)
(** * Where the links of a node are

    What the datapath's contract depends on: the namespace, the name and the peer of every
    link.  This file shows how the requests of the driver change them, and that they keep
    the well-formedness of the node. *)

From S2P Require Import Prelude Sha256 Store Kernel Attach.

(** ** Names *)

Lemma hex8_len key : str_len (hex_encode (take 4 (Sum256 key))) = 8%nat.
Proof. rewrite hex_encode_len, length_take, Sum256_length. reflexivity. Qed.

Lemma str_take_all n s : (str_len s ≤ n)%nat → str_take n s = s.
Proof. revert n. induction s as [|c s IH]; intros [|n]; simpl; try done; try lia. intros. f_equal. apply IH. lia. Qed.

Lemma shortHashName_app prefix key : shortHashName prefix key = prefix +:+ hex_encode (take 4 (Sum256 key)).
Proof. unfold shortHashName. apply str_take_all. rewrite str_len_app, hex8_len. lia. Qed.

(** The names fit into the kernel's limit for interface names. *)
Lemma shortHashName_len prefix key : str_len (shortHashName prefix key) = (str_len prefix + 8)%nat.
Proof. by rewrite shortHashName_app, str_len_app, hex8_len. Qed.

Lemma vh_vc c i c' i' : vh c i ≠ vc c' i'.
Proof. unfold vh, vc. rewrite !shortHashName_app. done. Qed.

Lemma vh_eq_vc_eq c i c' i' : vh c i = vh c' i' ↔ vc c i = vc c' i'.
Proof.
  unfold vh, vc. rewrite !shortHashName_app. split; intros H%str_app_inj_l; by rewrite H.
Qed.

(** C29: the names the driver derives for its devices fit into the 15 bytes that the kernel
    allows, and the two ends of a veth pair, the bridge and the renamed veth of a NIC all
    have different names. *)
Theorem device_names_fit s a b :
  vethNames s = Ok (a, b) →
  let i := IfaceName s in
  Forall (λ x, (0 < str_len x ≤ 15)%nat) [a; b; bridgeNameFor i; vethRenameFor i] ∧
  NoDup [a; b; bridgeNameFor i; vethRenameFor i].
Proof.
  unfold vethNames. case_bool_decide; [done|]. intros H'.
  assert (a = vh (ContainerID s) (IfaceName s) ∧ b = vc (ContainerID s) (IfaceName s)) as [-> ->] by (split; congruence).
  unfold vh, vc, bridgeNameFor, vethRenameFor. split.
  - repeat constructor; rewrite shortHashName_len; simpl; lia.
  - rewrite !shortHashName_app. rewrite !NoDup_cons, !not_elem_of_cons. split_and!;
      done || apply not_elem_of_nil || apply NoDup_nil_2.
Qed.

Lemma device_names_fit_witness :
  let s := {| PodUID := "u1"; PodName := "web"; PodNamespace := "ns"; ClaimUID := "c1"; NetnsPath := "/run/netns/a";
    IfaceName := "net1"; IP := "10.0.0.5/24"; ExtraIPs := []; MAC := ""; Gateway := ""; Routes := []; MTU := 0;
    ContainerID := "sb1"; Provider := "net1.ovn"; IfaceID := "web.ns.net1.ovn"; KubeVirtVMI := true; OVNDHCP := false |} in
  Forall (λ x, (0 < str_len x ≤ 15)%nat)
    [vh "sb1" "net1"; vc "sb1" "net1"; bridgeNameFor "net1"; vethRenameFor "net1"].
Proof. intros s. apply (device_names_fit s). reflexivity. Defined.

(** ** What the datapath depends on: where links are, and their peers *)

Section shapes.
Context {Ns Id : Type} `{!EqDecision Id}.
Implicit Types n : Net Ns Id.

Definition shape n (x : Id) : option (Ns * string * option Id) :=
  (λ s, (ls_ns s, ls_name s, ls_peer s)) <$> links n x.

Lemma named_shape n ns nm : named n ns nm ↔ ∃ x p, shape n x = Some (ns, nm, p).
Proof.
  unfold named, at_name, shape. split.
  - intros (x & s & Hs & <- & <-). exists x, (ls_peer s). by rewrite Hs.
  - intros (x & p & (s & Hs & [= -> -> ->])%fmap_Some). eauto 10.
Qed.

(** The two ends of the NIC of a container and an interface: [y] on the host, and [x] in
    the namespace [ns] under [nm]. *)
Definition tie n (x y : Id) (c i : string) (ns : Ns) (nm : string) : Prop :=
  shape n y = Some (home n, vh c i, Some x) ∧ shape n x = Some (ns, nm, Some y).

(** A link without a peer, such as a tap. *)
Definition lone n (z : Id) (ns : Ns) (nm : string) : Prop := shape n z = Some (ns, nm, None).

(** Names are unique in a namespace and peers mutual; the host end of a NIC has its own
    other end as peer while that is on the host, and only then is that end there. *)
Record wf_net n : Prop := {
  wf_unique x y ns nm p q : shape n x = Some (ns, nm, p) → shape n y = Some (ns, nm, q) → x = y;
  wf_mutual x ns nm y : shape n x = Some (ns, nm, Some y) → ∃ ns' nm', shape n y = Some (ns', nm', Some x);
  wf_host x c i y nm p : shape n x = Some (home n, vh c i, Some y) → shape n y = Some (home n, nm, p) → nm = vc c i;
  wf_pod x c i p : shape n x = Some (home n, vc c i, p) →
    ∃ y, p = Some y ∧ shape n y = Some (home n, vh c i, Some x);
}.

(** A step may change the names [X] on the host and [Y] elsewhere, and the ports [Z]; where
    it has no business the ends of a NIC and links without a peer stay in their place. *)
Record evolves (X : string → Prop) (Y : Ns → string → Prop) (Z : string → Prop) n n' : Prop := {
  ev_home : home n' = home n;
  ev_paths : paths n' = paths n;
  ev_host nm : ¬ X nm → named n' (home n) nm ↔ named n (home n) nm;
  ev_pod ns nm : ns ≠ home n → ¬ Y ns nm → named n' ns nm → named n ns nm;
  ev_ports p : ¬ Z p → ports n' !! p = ports n !! p;
  ev_wf : wf_net n → wf_net n';
  ev_tie x y c i ns nm : wf_net n → ¬ X (vh c i) → ns ≠ home n → ¬ Y ns nm → tie n x y c i ns nm → tie n' x y c i ns nm;
  ev_lone z ns nm : wf_net n → ns ≠ home n → ¬ Y ns nm → lone n z ns nm → lone n' z ns nm;
}.

Lemma evolves_refl X Y Z n : evolves X Y Z n n.
Proof. by split. Qed.

Lemma evolves_trans X Y Z n1 n2 n3 : evolves X Y Z n1 n2 → evolves X Y Z n2 n3 → evolves X Y Z n1 n3.
Proof.
  intros [A1 A2 A3 A4 A5 A6 A7 A8] [B1 B2 B3 B4 B5 B6 B7 B8]. split; [congruence..| | | |tauto| |].
  - intros nm H. rewrite <- A3 by done. rewrite <- A1. rewrite <- A1 in *. by apply B3.
  - intros ns nm Hns HY H. apply A4; [done..|]. apply B4; [by rewrite A1|done..].
  - intros p HZ. rewrite B5 by done. by apply A5.
  - intros x y c i ns nm Hwf HX Hne HY Ht. apply B7; [auto|done|by rewrite A1|done|auto].
  - intros z ns nm Hwf Hne HY Hz. apply B8; [auto|by rewrite A1|done|auto].
Qed.

Lemma evolves_mono (X X' : string → Prop) (Y Y' : Ns → string → Prop) (Z Z' : string → Prop) n n' :
  (∀ x, X x → X' x) → (∀ ns x, Y ns x → Y' ns x) → (∀ p, Z p → Z' p) → evolves X Y Z n n' → evolves X' Y' Z' n n'.
Proof.
  intros HX HY HZ [? ? H1 H2 H3 ? H4 H5]. split; try done; intros; (apply H1 || eapply H2 || apply H3 || apply H4 || apply H5); eauto.
Qed.

(** Nothing but configuration changes. *)
Lemma same_shape_evolves X Y Z n n' :
  home n' = home n → paths n' = paths n → ports n' = ports n → (∀ x, shape n' x = shape n x) → evolves X Y Z n n'.
Proof.
  intros Hh Hp Ho Hs. split; [done..| | | | |by intros x y c i ns nm _ _ _ _; unfold tie; rewrite !Hs, Hh|by intros z ns nm _ _ _; unfold lone; rewrite Hs].
  - intros nm _. rewrite !named_shape. by setoid_rewrite Hs.
  - intros ns nm _ _. rewrite !named_shape. by setoid_rewrite Hs.
  - intros p _. by rewrite Ho.
  - intros [H1 H2 H3 H4]. split; intros *; setoid_rewrite Hs; rewrite ?Hh; eauto.
Qed.

(** Only [l] changes its place, to one that is not on the host and was free. *)
Lemma moved_evolves X Y Z n n' l ns nm p ns' nm' :
  home n' = home n → paths n' = paths n → ports n' = ports n →
  shape n l = Some (ns, nm, p) → shape n' l = Some (ns', nm', p) → (∀ x, x ≠ l → shape n' x = shape n x) →
  ns' ≠ home n → (ns = home n → X nm ∧ ∃ c i, nm = vc c i) → (ns ≠ home n → Y ns nm) → Y ns' nm' →
  (ns', nm') = (ns, nm) ∨ ¬ named n ns' nm' → evolves X Y Z n n'.
Proof.
  intros Hh Hp Ho Hl Hl' Hx Hns HX HY0 HY Hfree.
  assert (∀ x q r s, shape n' x = Some (q, r, s) → x = l ∧ q = ns' ∧ r = nm' ∧ s = p ∨ x ≠ l ∧ shape n x = Some (q, r, s)) as Hin.
  { intros x q r s H. destruct (decide (x = l)) as [->|Hne]; [left; rewrite Hl' in H; naive_solver|right; by rewrite <- Hx]. }
  split; [done..| | | | | |].
  - intros nm0 H0. rewrite !named_shape. split; intros (x & q & H).
    + apply Hin in H as [(_ & ? & _)|[_ H]]; [congruence|eauto].
    + destruct (decide (x = l)) as [->|]; [|exists x, q; by rewrite Hx].
      rewrite Hl in H. injection H as -> -> ->. by destruct (HX eq_refl).
  - intros ns0 nm0 _ H0. rewrite !named_shape. intros (x & q & H).
    apply Hin in H as [(_ & -> & -> & _)|[_ H]]; [done|eauto].
  - intros q _. by rewrite Ho.
  - intros [Wu Wm Wh Wp]. split.
    + intros x y a b q r Hxa Hya. apply Hin in Hxa as [(-> & -> & -> & _)|[Hxl Hxa]], Hya as [(-> & E1 & E2 & _)|[Hyl Hya]];
        [done| | |by eapply Wu].
      * destruct Hfree as [[= <- <-]|Hf]; [by eapply Wu|]. destruct Hf. rewrite named_shape. eauto.
      * subst a b. destruct Hfree as [[= <- <-]|Hf]; [by eapply Wu|]. destruct Hf. rewrite named_shape. eauto.
    + intros x a b y Hxa. assert (∃ a' b', shape n x = Some (a', b', Some y)) as (a' & b' & Hxn).
      { apply Hin in Hxa as [(-> & -> & -> & <-)|[_ H]]; eauto. }
      destruct (Wm _ _ _ _ Hxn) as (a2 & b2 & Hy). destruct (decide (y = l)) as [->|Hne]; [|rewrite Hx by done; eauto].
      rewrite Hl in Hy. injection Hy as -> -> ->. eauto.
    + rewrite Hh. intros x c i y b q Hxa Hya.
      apply Hin in Hxa as [(_ & ? & _)|[_ Hxa]]; [congruence|].
      apply Hin in Hya as [(_ & ? & _)|[_ Hya]]; [congruence|]. by eapply Wh.
    + rewrite Hh. intros x c i q Hxa. apply Hin in Hxa as [(_ & ? & _)|[Hxl Hxa]]; [congruence|].
      destruct (Wp _ _ _ _ Hxa) as (y & -> & Hy). exists y. split; [done|]. rewrite Hx; [done|]. intros ->.
      rewrite Hl in Hy. injection Hy as -> -> ->. destruct (HX eq_refl) as [_ (c' & i' & E)]. by apply vh_vc in E.
  - intros x y c i a b _ _ Hne HYab [Hy Hxa]. unfold tie. rewrite Hh, !Hx; [done|..].
    + intros ->. rewrite Hl in Hxa. injection Hxa as -> -> ->. auto.
    + intros ->. rewrite Hl in Hy. injection Hy as -> -> ->. destruct (HX eq_refl) as [_ (c' & i' & E)]. by apply vh_vc in E.
  - intros z a b _ Hne HYab Hz. unfold lone. rewrite Hx; [done|]. intros ->. unfold lone in Hz.
    rewrite Hl in Hz. injection Hz as -> -> ->. auto.
Qed.

(** A request changes links only. *)
Lemma effect_fields r n n' : effect r n n' → n' = with_links n (links n').
Proof.
  destruct r; simpl.
  all: try (intros [E _]; exact E); try (intros [[E _] _]; exact E).
  - intros (_ & _ & _ & ? & ? & ? & ? & _ & _ & _ & _ & _ & E & _). exact E.
  - intros (_ & ? & ? & _ & _ & E & _). exact E.
  - intros (_ & ? & ? & _ & _ & E & _). exact E.
Qed.

(** New links, off the host, without a peer. *)
Lemma created_evolves X Y Z n n' ns nm type :
  ns ≠ home n → Y ns nm → one_created n n' ns nm type → evolves X Y Z n n'.
Proof.
  intros Hns HY (Hfree & id & s & Hid & (Hs1 & Hs2 & _ & Hs3 & _) & E & Hn' & Hx).
  assert (∀ x q r t, shape n' x = Some (q, r, t) → x = id ∧ q = ns ∧ r = nm ∧ t = None ∨ x ≠ id ∧ shape n x = Some (q, r, t)) as Hin.
  { intros x q r t H. destruct (decide (x = id)) as [->|Hne].
    - left. unfold shape in H. rewrite Hn' in H. simpl in H. naive_solver.
    - right. unfold shape in *. by rewrite Hx in H. }
  assert (∀ x q, shape n x = Some q → x ≠ id ∧ shape n' x = Some q) as Hold.
  { intros x q H. assert (x ≠ id) as Hne by (intros ->; unfold shape in H; by rewrite Hid in H).
    split; [done|]. unfold shape in *. by rewrite Hx. }
  split; [by rewrite E..| | | | |by intros x y ? ? ? ? _ _ _ _ [Hy Hxa]; split; [rewrite E; cbn|]; eapply Hold|by intros z ? ? _ _ _ Hz; eapply Hold].
  - intros nm0 _. rewrite !named_shape. split; intros (x & q & H).
    + apply Hin in H as [(_ & ? & _)|[_ H]]; [congruence|eauto].
    + apply Hold in H as [_ H]. eauto.
  - intros ns0 nm0 _ H0. rewrite !named_shape. intros (x & q & H).
    apply Hin in H as [(_ & -> & -> & _)|[_ H]]; [done|eauto].
  - intros q _. by rewrite E.
  - assert (home n' = home n) as Hh by (by rewrite E). intros [Wu Wm Wh Wp]. split.
    + intros x y a b q r Hxa Hya. apply Hin in Hxa as [(-> & -> & -> & _)|[Hxl Hxa]], Hya as [(-> & E1 & E2 & _)|[Hyl Hya]];
        [done| | |by eapply Wu].
      * destruct Hfree. rewrite named_shape. eauto.
      * subst. destruct Hfree. rewrite named_shape. eauto.
    + intros x a b y Hxa. apply Hin in Hxa as [(_ & _ & _ & ?)|[_ Hxa]]; [done|].
      destruct (Wm _ _ _ _ Hxa) as (a2 & b2 & Hy). apply Hold in Hy as [_ Hy]. eauto.
    + rewrite Hh. intros x c i y b q Hxa Hya.
      apply Hin in Hxa as [(_ & ? & _)|[_ Hxa]]; [congruence|].
      apply Hin in Hya as [(_ & ? & _)|[_ Hya]]; [congruence|]. by eapply Wh.
    + rewrite Hh. intros x c i q Hxa. apply Hin in Hxa as [(_ & ? & _)|[Hxl Hxa]]; [congruence|].
      destruct (Wp _ _ _ _ Hxa) as (y & -> & Hy). apply Hold in Hy as [_ Hy]. eauto.
Qed.

(** A new veth pair of a NIC on the host. *)
Lemma veth_evolves (X : string → Prop) Y Z n n' c i mtu :
  cur n = home n → X (vh c i) → X (vc c i) → effect (LinkAddVeth (vh c i) (vc c i) mtu) n n' → evolves X Y Z n n'.
Proof.
  intros Hcur HXa HXb (Ha & Hb & _ & x1 & x2 & s & t & Hne & H1 & H2 & Hs & Ht & E & L1 & L2 & Hx).
  rewrite Hcur in *. destruct Hs as (S1 & S2 & _ & S3 & _), Ht as (T1 & T2 & _ & T3 & _).
  assert (∀ x q r u, shape n' x = Some (q, r, u) →
    x = x1 ∧ q = home n ∧ r = vh c i ∧ u = Some x2 ∨ x = x2 ∧ q = home n ∧ r = vc c i ∧ u = Some x1 ∨
    shape n x = Some (q, r, u)) as Hin.
  { intros x q r u H. unfold shape in *. destruct (decide (x = x1)) as [->|Hn1]; [rewrite L1 in H; simpl in H; naive_solver|].
    destruct (decide (x = x2)) as [->|Hn2]; [rewrite L2 in H; simpl in H; naive_solver|]. rewrite Hx in H by done. auto. }
  assert (∀ x q, shape n x = Some q → x ≠ x1 ∧ x ≠ x2 ∧ shape n' x = Some q) as Hold.
  { intros x q H. unfold shape in *. assert (x ≠ x1) by (intros ->; by rewrite H1 in H).
    assert (x ≠ x2) by (intros ->; by rewrite H2 in H). by rewrite Hx. }
  assert (shape n' x1 = Some (home n, vh c i, Some x2)) as N1 by (unfold shape; rewrite L1; simpl; congruence).
  assert (shape n' x2 = Some (home n, vc c i, Some x1)) as N2 by (unfold shape; rewrite L2; simpl; congruence).
  rewrite named_shape in Ha, Hb.
  split; [by rewrite E..| | | | |by intros x y ? ? ? ? _ _ _ _ [Hy Hxa]; split; [rewrite E; cbn|]; eapply Hold|by intros z ? ? _ _ _ Hz; eapply Hold].
  - intros nm0 H0. rewrite !named_shape. split; intros (x & q & H).
    + apply Hin in H as [(_ & _ & -> & _)|[(_ & _ & -> & _)|H]]; [done..|eauto].
    + apply Hold in H as (_ & _ & H). eauto.
  - intros ns0 nm0 Hns H0. rewrite !named_shape. intros (x & q & H).
    apply Hin in H as [(_ & -> & _)|[(_ & -> & _)|H]]; [done..|eauto].
  - intros q _. by rewrite E.
  - assert (home n' = home n) as Hh by (by rewrite E). intros [Wu Wm Wh Wp]. split; rewrite ?Hh.
    + intros x y a b q r Hxa Hya.
      apply Hin in Hxa as [(-> & -> & -> & _)|[(-> & -> & -> & _)|Hxa]];
        apply Hin in Hya as [(-> & EA & EB & _)|[(-> & EA & EB & _)|Hya]];
        try done; try (by eapply Wu); try (by apply vh_vc in EB); try (by apply eq_sym, vh_vc in EB);
        exfalso; subst; first [apply Ha; by eauto | apply Hb; by eauto].
    + intros x a b y Hxa. apply Hin in Hxa as [(-> & _ & _ & [= ->])|[(-> & _ & _ & [= ->])|Hxa]]; [eauto..|].
      destruct (Wm _ _ _ _ Hxa) as (a2 & b2 & Hy). apply Hold in Hy as (_ & _ & Hy). eauto.
    + intros x c' i' y b q Hxa Hya.
      apply Hin in Hxa as [(-> & _ & Hk & [= ->])|[(_ & _ & Hk & _)|Hxa]]; [|by apply vh_vc in Hk|].
      * rewrite N2 in Hya. injection Hya as <- <-. symmetry. by apply vh_eq_vc_eq.
      * destruct (Wm _ _ _ _ Hxa) as (a2 & b2 & Hy). pose proof (Hold _ _ Hy) as (_ & _ & Hy').
        rewrite Hy' in Hya. injection Hya as -> -> <-. by eapply Wh.
    + intros x c' i' q Hxa.
      apply Hin in Hxa as [(_ & _ & Hk & _)|[(-> & _ & Hk & ->)|Hxa]]; [by apply eq_sym, vh_vc in Hk| |].
      * exists x1. split; [done|]. rewrite N1. do 3 f_equal. by apply vh_eq_vc_eq.
      * destruct (Wp _ _ _ _ Hxa) as (y & -> & Hy). apply Hold in Hy as (_ & _ & Hy). eauto.
Qed.

(** Deleting a link and its peer. *)
Lemma del_shape n n' l :
  effect (LinkDel l) n n' →
  ∃ ns nm p, shape n l = Some (ns, nm, p) ∧ n' = with_links n (links n') ∧ shape n' l = None ∧
    (∀ y, p = Some y → shape n' y = None) ∧ (∀ x, x ≠ l → p ≠ Some x → shape n' x = shape n x).
Proof.
  intros (E & s & Hs & Hl & Hp & Hx). exists (ls_ns s), (ls_name s), (ls_peer s). unfold shape. rewrite Hs, Hl.
  split_and!; [done..| |].
  - intros y Hy. by rewrite Hp.
  - intros x Hne Hnp. destruct (Hx x Hne Hnp) as [-> | ->]; [done|]. by destruct (links n x).
Qed.

(** What remains keeps its peer. *)
Lemma del_survives n n' l x ns nm y :
  wf_net n → effect (LinkDel l) n n' → shape n' x = Some (ns, nm, Some y) → shape n' y = shape n y.
Proof.
  intros Hwf (a & b & p & Hl & _ & Hl' & Hp & Hx)%del_shape H.
  destruct (decide (x = l)) as [->|Hxl]; [congruence|].
  destruct (decide (p = Some x)) as [->|Hxp]; [rewrite Hp in H by done; congruence|].
  rewrite Hx in H by done. destruct (wf_mutual _ Hwf _ _ _ _ H) as (c & d & Hy).
  apply Hx.
  - intros ->. rewrite Hl in Hy. congruence.
  - intros ->. destruct (wf_mutual _ Hwf _ _ _ _ Hl) as (c' & d' & Hy'). congruence.
Qed.

Lemma del_old n n' l x q : effect (LinkDel l) n n' → shape n' x = Some q → shape n x = Some q.
Proof.
  intros (a & b & p & Hl & _ & Hl' & Hp & Hx)%del_shape H.
  destruct (decide (x = l)) as [->|Hxl]; [congruence|].
  destruct (decide (p = Some x)) as [->|Hxp]; [rewrite Hp in H by done; congruence|]. by rewrite <- Hx.
Qed.

Lemma del_wf n n' l : effect (LinkDel l) n n' → wf_net n → wf_net n'.
Proof.
  intros He Hwf. pose proof (λ x q, del_old _ _ _ x q He) as Hold.
  assert (home n' = home n) as Hh by (destruct He as [-> _]; done). split; rewrite ?Hh.
  - intros x y ns nm p q Hx%Hold Hy%Hold. by eapply (wf_unique n).
  - intros x ns nm y Hx. pose proof (del_survives _ _ _ _ _ _ _ Hwf He Hx) as Hy. apply Hold in Hx.
    rewrite Hy. by eapply (wf_mutual n).
  - intros x c i y nm p Hx%Hold Hy%Hold. by eapply (wf_host n).
  - intros x c i p Hx. destruct (wf_pod n Hwf x c i p (Hold _ _ Hx)) as (y & -> & Hy).
    exists y. split; [done|]. by rewrite (del_survives _ _ _ _ _ _ _ Hwf He Hx).
Qed.

Lemma del_evolves (X : string → Prop) Y Z n n' l :
  effect (LinkDel l) n n' →
  (∀ nm p, shape n l = Some (home n, nm, p) → X nm) →
  (∀ ns nm y nm' q, shape n l = Some (ns, nm, Some y) → shape n y = Some (home n, nm', q) → X nm') →
  (∀ ns nm p, shape n l = Some (ns, nm, p) → ns = home n) →
  evolves X Y Z n n'.
Proof.
  intros He HX HX' Hhome. pose proof (λ x q, del_old _ _ _ x q He) as Hold. pose proof (del_wf _ _ _ He) as Hwf.
  destruct (del_shape _ _ _ He) as (a & b & p & Hl & E & Hl' & Hp & Hx).
  split; [by rewrite E..| | | |done| |].
  - intros nm0 H0. rewrite !named_shape. split; intros (x & q & H); [eauto|].
    destruct (decide (x = l)) as [->|Hxl]; [by destruct H0; eapply HX|].
    destruct (decide (p = Some x)) as [->|Hxp]; [by destruct H0; eapply HX'|]. exists x, q. by rewrite Hx.
  - intros ns0 nm0 _ _. rewrite !named_shape. intros (x & q & H). eauto.
  - intros q _. by rewrite E.
  - intros x y c i a' b' Hn HXc Hne _ [Hy Hxa]. assert (y ≠ l) as Hyl by (intros ->; eapply HXc, HX, Hy).
    assert (x ≠ l) as Hxl by (intros ->; eapply Hne, Hhome, Hxa).
    assert (home n' = home n) as Hh by (by rewrite E). unfold tie. rewrite Hh, !Hx; [done|..]; try done; intros ->.
    + destruct (wf_mutual _ Hn _ _ _ _ Hl) as (? & ? & H). rewrite Hxa in H. congruence.
    + destruct (wf_mutual _ Hn _ _ _ _ Hl) as (? & ? & H). rewrite Hy in H. congruence.
  - intros z a' b' Hn Hne _ Hz. unfold lone. rewrite Hx; [done|..].
    + intros ->. eapply Hne, Hhome, Hz.
    + intros ->. destruct (wf_mutual _ Hn _ _ _ _ Hl) as (? & ? & H). unfold lone in Hz. congruence.
Qed.

End shapes.
