(* ===== verification/AttachLogic.v ===== *)
(** * A logic for the steps of the attacher

    [guar P m G]: from a well-formed node that satisfies [P], the step [m] changes the node
    as [G] allows, however it ends.  [post P m Q]: when it succeeds its result and the
    node satisfy [Q].  The second half of the file gives the guarantee of each step of
    Attach. *)

From S2P Require Import Prelude Netip Store Kernel Dhcp Attach NetShape.

(** The paths and the namespace of the host, which no step changes. *)
Class Anchor (Ns : Type) := { pth : string → option Ns; hm : Ns }.

Section logic.
Context {W : Type} `{KE : Kernel W} {KL : KernelLaws W} `{DH : Dhcp4} {AN : Anchor NsId}.
Abbreviation net := (Net NsId LinkId).
Implicit Types (n : net) (σ : ovsAttacher W).

Definition vw σ : net := view (kern σ).

(** No path leads to the host, and each namespace has one path. *)
Definition paths_ok n : Prop :=
  (∀ p ns, paths n p = Some ns → ns ≠ home n) ∧ (∀ p q ns, paths n p = Some ns → paths n q = Some ns → p = q).
Definition tidy_net n : Prop := wf_net n ∧ paths_ok n ∧ cur n = home n.

Definition ready n : Prop := tidy_net n ∧ paths n = pth ∧ home n = hm.

(** A change within bounds that leaves the thread where it is. *)
Definition stays (X : string → Prop) (Y : NsId → string → Prop) (Z : string → Prop) n n' : Prop :=
  evolves X Y Z n n' ∧ cur n' = cur n.

Lemma stays_refl X Y Z n : stays X Y Z n n.
Proof. split; [apply evolves_refl|done]. Qed.
Lemma stays_trans X Y Z n1 n2 n3 : stays X Y Z n1 n2 → stays X Y Z n2 n3 → stays X Y Z n1 n3.
Proof. intros [H1 C1] [H2 C2]. split; [by eapply evolves_trans|congruence]. Qed.
Lemma stays_mono (X X' : string → Prop) (Y Y' : NsId → string → Prop) (Z Z' : string → Prop) n n' :
  (∀ x, X x → X' x) → (∀ ns x, Y ns x → Y' ns x) → (∀ p, Z p → Z' p) → stays X Y Z n n' → stays X' Y' Z' n n'.
Proof. intros ??? [H C]. split; [by eapply evolves_mono|done]. Qed.

Lemma paths_ok_evolves X Y Z n n' : evolves X Y Z n n' → paths_ok n → paths_ok n'.
Proof. intros [Hh Hp _ _ _ _] [H1 H2]. split; rewrite Hp, ?Hh; eauto. Qed.

Lemma tidy_stays X Y Z n n' : stays X Y Z n n' → tidy_net n → tidy_net n'.
Proof.
  intros [He Hc] (Hwf & Hp & Hcur). split_and!; [by eapply ev_wf|by eapply paths_ok_evolves|].
  by rewrite Hc, (ev_home _ _ _ _ _ He).
Qed.

Lemma ready_stays X Y Z n n' : stays X Y Z n n' → ready n → ready n'.
Proof.
  intros H (Ht & Hp & Hh). destruct (H) as [He _]. split_and!; [by eapply tidy_stays| |].
  - by rewrite (ev_paths _ _ _ _ _ He).
  - by rewrite (ev_home _ _ _ _ _ He).
Qed.

Definition guar {A} (P : net → Prop) (m : M A) (G : net → net → Prop) : Prop :=
  ∀ σ r σ', m σ = (r, σ') → ready (vw σ) → P (vw σ) → G (vw σ) (vw σ').

Definition post {A} (P : net → Prop) (m : M A) (Q : A → net → Prop) : Prop :=
  ∀ σ a σ', m σ = (Ret a, σ') → ready (vw σ) → P (vw σ) → Q a (vw σ').

Definition top (n : net) : Prop := True.

(** What a step may be guaranteed to do: a preorder that keeps the node ready and allows
    changes of the configuration of links. *)
Class Guarantee (G : net → net → Prop) : Prop := {
  g_config n n' : home n' = home n → paths n' = paths n → ports n' = ports n → cur n' = cur n →
    (∀ x, shape n' x = shape n x) → G n n';
  g_trans n1 n2 n3 : G n1 n2 → G n2 n3 → G n1 n3;
  g_ready n n' : G n n' → ready n → ready n';
}.

#[global] Instance stays_guarantee X Y Z : Guarantee (stays X Y Z).
Proof.
  split; [|apply stays_trans|apply ready_stays]. intros n n' Hh Hp Ho Hc Hs. split; [by apply same_shape_evolves|done].
Qed.

Section rules.
Context {G : net → net → Prop} `{!Guarantee G}.

Lemma g_refl n : G n n.
Proof. by apply g_config. Qed.

Lemma guar_conseq {A} (P P' : net → Prop) (m : M A) : (∀ n, P' n → P n) → guar P m G → guar P' m G.
Proof. intros HP H σ r σ' E Ht Hp. eapply H; eauto. Qed.

Lemma guar_ret {A} P (a : A) : guar P (mret a) G.
Proof. intros σ r σ' [= <- <-] _ _. apply g_refl. Qed.
Lemma guar_fail {A} P e : guar P (fail e : M A) G.
Proof. intros σ r σ' [= <- <-] _ _. apply g_refl. Qed.

Lemma guar_bind_post {A B} P (Q : A → net → Prop) (m : M A) (f : A → M B) :
  guar P m G → post P m Q → (∀ a, guar (Q a) (f a) G) → guar P (m ≫= f) G.
Proof.
  intros Hm Hq Hf σ r σ' E Ht HP. unfold mbind, M_bind in E. destruct (m σ) as [[a|e|] σ1] eqn:Em.
  - eapply g_trans; [by eapply Hm|]. eapply Hf; [done| |by eapply Hq]. eapply g_ready; [by eapply Hm|done].
  - injection E as _ <-. by eapply Hm.
  - injection E as _ <-. by eapply Hm.
Qed.

Lemma guar_bind {A B} P (m : M A) (f : A → M B) :
  guar P m G → (∀ a, guar top (f a) G) → guar P (m ≫= f) G.
Proof. intros Hm Hf. by apply (guar_bind_post P (λ _, top)). Qed.

Lemma guar_wrap {A} P fmt args (m : M A) : guar P m G → guar P (wrap fmt args m) G.
Proof.
  intros Hm σ r σ' E. unfold wrap in E. destruct (m σ) as [[a|e|] σ1] eqn:Em; injection E as _ <-; by eapply Hm.
Qed.

Lemma guar_attempt {A} P (m : M A) : guar P m G → guar P (attempt m) G.
Proof.
  intros Hm σ r σ' E. unfold attempt in E. destruct (m σ) as [[a|e|] σ1] eqn:Em; injection E as _ <-; by eapply Hm.
Qed.

Lemma guar_ignore {A} P (m : M A) : guar P m G → guar P (ignore m) G.
Proof. intros Hm. apply guar_bind; [by apply guar_attempt|]. intros a. apply guar_ret. Qed.

Lemma guar_when P b (m : M ()) : guar P m G → guar P (when b m) G.
Proof. destruct b; [done|]. intros _. apply guar_ret. Qed.

Lemma guar_or_else {A} P (m : M A) c : guar P m G → guar top c G → guar P (or_else m c) G.
Proof.
  intros Hm Hc σ r σ' E Ht HP. unfold or_else in E. destruct (m σ) as [[a|e|] σ1] eqn:Em.
  - injection E as _ <-. by eapply Hm.
  - assert (G (vw σ) (vw σ1)) as H1 by (by eapply Hm). eapply g_trans; [done|].
    assert (guar top (_ ← ignore c; fail (A := A) e) G) as H2.
    { apply guar_bind; [by apply guar_ignore|]. intros _. apply guar_fail. }
    eapply H2; [exact E|by eapply g_ready|done].
  - injection E as _ <-. by eapply Hm.
Qed.

(** A read of the kernel. *)
Lemma guar_read {A} P (f : W → result A * W) :
  (∀ w r w', f w = (r, w') → view w' = view w) → guar P (kernel f) G.
Proof.
  intros Hf σ r σ' E _ _. unfold kernel in E. destruct (f (kern σ)) as [x w] eqn:Ef. injection E as _ <-.
  unfold vw. simpl. rewrite (Hf _ _ _ Ef). apply g_refl.
Qed.

Lemma guar_request P r :
  (∀ n n', ready n → P n → effect r n n' → G n n') → guar P (request r) G.
Proof.
  intros Hr σ x σ' E Ht HP. unfold request, kernel in E. destruct (Netlink r (kern σ)) as [y w] eqn:Ey.
  injection E as _ <-. unfold vw in *. simpl. destruct y as [[]|e].
  - apply request_ok in Ey. by apply Hr.
  - rewrite (request_err _ _ _ _ Ey). apply g_refl.
Qed.

(** Requests that change only the configuration of a link. *)
Definition inert (r : Req NsId LinkId) : bool :=
  match r with
  | LinkSetUp _ | LinkSetDown _ | LinkSetMTU _ _ | LinkSetHardwareAddr _ _ | LinkSetMaster _ _
  | LinkSetLearning _ _ | AddrAdd _ _ _ | RouteAdd _ _ _ => true
  | _ => false
  end.

Lemma inert_shape r n n' : inert r = true → effect r n n' → ∀ x, shape n' x = shape n x.
Proof.
  assert (∀ l f, (∀ s, ls_ns (f s) = ls_ns s ∧ ls_name (f s) = ls_name s ∧ ls_peer (f s) = ls_peer s) →
    changed n n' l f → ∀ x, shape n' x = shape n x) as H.
  { intros l f Hf (_ & [s Hs] & Hl & Hx) x. unfold shape. destruct (decide (x = l)) as [->|]; [|by rewrite Hx].
    rewrite Hl, Hs. simpl. destruct (Hf s) as (-> & -> & ->). done. }
  destruct r; simpl; try done; intros _; by apply H.
Qed.

Lemma guar_inert P r : inert r = true → guar P (request r) G.
Proof.
  intros Hi. apply guar_request. intros n n' _ _ He. pose proof (effect_fields _ _ _ He) as E.
  apply g_config; [by rewrite E..|]. by eapply inert_shape.
Qed.

Lemma guar_unless_exists P fmt args r : guar P (request r) G → guar P (unless_exists fmt args r) G.
Proof.
  intros H. apply guar_bind; [by apply guar_attempt|]. intros [x|e]; [apply guar_ret|].
  destruct (isExists e); [apply guar_ret|apply guar_fail].
Qed.

Lemma guar_lookup P o name : guar P (kernel (LinkByName o name)) G.
Proof. apply guar_read, lookup_view. Qed.

Lemma guar_open P path : guar P (open_netns path) G.
Proof. apply guar_wrap, guar_read. intros w r w' H. by apply path_view in H as [-> _]. Qed.

Lemma guar_handle P ns path : guar P (open_handle ns path) G.
Proof. apply guar_wrap, guar_read, handle_view. Qed.

End rules.

(** ** Results of reads *)

Lemma post_conseq {A} (P : net → Prop) (Q Q' : A → net → Prop) (m : M A) :
  (∀ a n, Q a n → Q' a n) → post P m Q → post P m Q'.
Proof. intros HQ H σ a σ' E Hr HP. eapply HQ. by eapply H. Qed.

Lemma post_wrap {A} P fmt args (m : M A) Q : post P m Q → post P (wrap fmt args m) Q.
Proof.
  intros Hm σ a σ' E. unfold wrap in E. destruct (m σ) as [[x|e|] σ1] eqn:Em; try done. injection E as <- <-. by eapply Hm.
Qed.

Lemma post_open P path : post P (open_netns path) (λ ns n, P n ∧ pth path = Some ns ∧ ns ≠ hm).
Proof.
  apply post_wrap. intros σ a σ' E (Ht & Hp & Hh) HP. unfold kernel in E.
  destruct (GetFromPath path (kern σ)) as [r w] eqn:Er. injection E as Ea <-. apply path_view in Er as [Hv Hns].
  unfold vw in *. simpl. rewrite Hv. destruct r as [ns|]; [|done]. injection Ea as <-. rewrite <- Hp.
  split_and!; [done|by apply Hns|]. destruct Ht as (_ & [H _] & _). rewrite <- Hh. apply (H path). by apply Hns.
Qed.

(** The link a lookup finds, on the host or in a namespace. *)
Lemma post_lookup P o name :
  post P (kernel (LinkByName o name))
    (λ l n, P n ∧ Attrs_Name l = name ∧ ∃ s, links n (link_id l) = Some s ∧ ls_ns s = default hm o ∧
       ls_name s = name ∧ Link_Type l = ls_type s).
Proof.
  intros σ a σ' E ((_ & _ & Hc) & _ & Hh) HP. unfold kernel in E. destruct (LinkByName o name (kern σ)) as [r w] eqn:Er.
  pose proof (lookup_view _ _ _ _ _ Er) as Hv. injection E as Ea <-. destruct r as [l|]; [|done]. injection Ea as ->.
  apply lookup_found in Er as (s & Hs & Hn & Hnm & Ha & Hty & _). unfold vw in *. simpl. rewrite Hv.
  split; [done|]. split; [done|]. exists s. by rewrite Hn, Hc, Hh.
Qed.

End logic.

(** ** Automation *)

Create HintDb guar.
#[export] Hint Resolve guar_ret guar_fail guar_wrap guar_attempt guar_ignore guar_when guar_lookup guar_open
  guar_handle guar_unless_exists : guar.
#[export] Hint Extern 0 (Guarantee _) => apply _ : guar.
#[export] Hint Extern 1 (guar _ (request _) _) => apply guar_inert; reflexivity : guar.

(** Runs through a step whose parts need no facts. *)
Ltac guar :=
  repeat match goal with
    | |- guar _ (_ ≫= _) _ => apply guar_bind; [|intros]
    | |- guar _ (match ?x with _ => _ end) _ => destruct x
    | |- guar _ (if ?x then _ else _) _ => destruct x
    | |- guar _ (let _ := _ in _) _ => cbv zeta
    | |- guar _ _ _ => solve [eauto 6 with guar]
    | |- guar _ (wrap _ _ _) _ => apply guar_wrap
    | |- guar _ (attempt _) _ => apply guar_attempt
    | |- guar _ (ignore _) _ => apply guar_ignore
    | |- guar _ (when _ _) _ => apply guar_when
    | |- guar _ (unless_exists _ _ _) _ => apply guar_unless_exists
    end.

(** ** The steps *)

Section steps.
Context {W : Type} `{KE : Kernel W} {KL : KernelLaws W} `{DH : Dhcp4} {AN : Anchor NsId}.
Abbreviation net := (Net NsId LinkId).
Implicit Types (n : net) (σ : ovsAttacher W).
Context (X : string → Prop) (Y : NsId → string → Prop) (Z : string → Prop).
Abbreviation G := (stays X Y Z).

Lemma guar_request_stays P r :
  (∀ n n', ready n → P n → effect r n n' → evolves X Y Z n n') → guar P (request r) G.
Proof.
  intros H. apply guar_request. intros n n' Hr HP He. split; [by apply H|]. by rewrite (effect_fields _ _ _ He).
Qed.

(** Lookups of a name fail only if there is no link of that name. *)
Definition lookups_tell o name : Prop := ∀ w e w', LinkByName o name w = (Err e, w') → LinkNotFound e = true.

Lemma post_attempt_lookup P o name :
  post P (attempt (kernel (LinkByName o name)))
    (λ r n, P n ∧ match r with
                  | Ok l => ∃ s, links n (link_id l) = Some s ∧ ls_ns s = default hm o ∧ ls_name s = name ∧
                                 Link_Type l = ls_type s
                  | Err _ => lookups_tell o name → ¬ named n (default hm o) name
                  end).
Proof.
  intros σ a σ' E Hr HP. unfold attempt in E. destruct (kernel _ σ) as [[l|e|] σ1] eqn:Ek; [| |done];
    injection E as <- <-.
  - destruct (post_lookup P o name _ _ _ Ek Hr HP) as (? & _ & ?). done.
  - unfold kernel in Ek. destruct (LinkByName o name (kern σ)) as [[l|e'] w] eqn:El; [done|]. injection Ek as -> <-.
    pose proof (lookup_view _ _ _ _ _ El) as Hv. pose proof (lookup_missing _ _ _ _ _ El) as Hm.
    unfold vw in *. simpl. rewrite Hv. destruct Hr as ((_ & _ & Hc) & _ & Hh). rewrite Hc, Hh in Hm. split; [done|].
    intros Ht. by eapply Hm, Ht.
Qed.

Lemma links_shape n x s : links n x = Some s → shape n x = Some (ls_ns s, ls_name s, ls_peer s).
Proof. unfold shape. by intros ->. Qed.

Lemma createVethPair_guar c i mtu : X (vh c i) → X (vc c i) → guar top (createVethPair (vh c i) (vc c i) mtu) G.
Proof.
  intros Ha Hb. unfold createVethPair. guar.
  apply guar_request_stays. intros n n' ((_ & _ & Hc) & _) _ He. by eapply veth_evolves.
Qed.

Lemma cleanup_evolves c i n n' l s :
  X (vh c i) → X (vc c i) → wf_net n → links n l = Some s → ls_ns s = home n → ls_name s = vh c i →
  effect (LinkDel l) n n' → evolves X Y Z n n'.
Proof.
  intros Ha Hb Hwf Hs Hh Hn He. apply links_shape in Hs. rewrite Hh, Hn in Hs. apply (del_evolves _ _ _ _ _ l He).
  - intros nm p. rewrite Hs. by intros [= <- <-].
  - intros ns nm y nm' q. rewrite Hs. intros [= <- <- Hp] Hy. rewrite Hp in Hs.
    by rewrite (wf_host _ Hwf _ _ _ _ _ _ Hs Hy).
  - intros ns nm p. rewrite Hs. by intros [= <- _ _].
Qed.

Lemma cleanupHostVeth_guar P c i : X (vh c i) → X (vc c i) → guar P (cleanupHostVeth (vh c i)) G.
Proof.
  intros Ha Hb. unfold cleanupHostVeth. eapply guar_bind_post; [eauto with guar|apply post_attempt_lookup|].
  intros [l|]; [|eauto with guar]. apply guar_wrap, guar_request_stays.
  intros n n' ((Hwf & _) & _ & Hh) (_ & s & Hs & Hns & Hn & _) He. eapply cleanup_evolves; [done..| |done|done]. by rewrite Hns.
Qed.

(** Two steps, the first of which only reads or configures. *)
Lemma guar_keep {A B} (P : net → Prop) (m : M A) (f : A → M B) :
  (∀ n n', (∀ x, shape n' x = shape n x) → home n' = home n → P n → P n') →
  (∀ σ r σ', m σ = (r, σ') → ready (vw σ) → (∀ x, shape (vw σ') x = shape (vw σ) x) ∧ home (vw σ') = home (vw σ)) →
  guar P m G → (∀ a, guar P (f a) G) → guar P (m ≫= f) G.
Proof.
  intros HP Hm Hg Hf. apply (guar_bind_post P (λ _, P)); [done| |done].
  intros σ a σ' E Hr H. destruct (Hm _ _ _ E Hr). by eapply HP.
Qed.

Lemma setdown_shape fmt args l σ r σ' :
  wrap fmt args (request (LinkSetDown l)) σ = (r, σ') → ready (vw σ) →
  (∀ x, shape (vw σ') x = shape (vw σ) x) ∧ home (vw σ') = home (vw σ).
Proof.
  intros E _. unfold wrap, request, kernel in E. destruct (Netlink (LinkSetDown l) (kern σ)) as [[[]|e] w] eqn:Er.
  - injection E as _ <-. apply request_ok in Er. unfold vw. simpl. split; [by apply (inert_shape (LinkSetDown l))|].
    by rewrite (effect_fields _ _ _ Er).
  - injection E as _ <-. unfold vw. simpl. by rewrite (request_err _ _ _ _ Er).
Qed.

(** Renaming a link of a sandbox. *)
Definition in_ns (ns : NsId) (nm : string) (l : LinkId) n : Prop := ns ≠ home n ∧ ∃ p, shape n l = Some (ns, nm, p).

Lemma rename_evolves ns nm0 l nm n n' :
  Y ns nm0 → Y ns nm → in_ns ns nm0 l n → effect (LinkSetName l nm) n n' → evolves X Y Z n n'.
Proof.
  intros HY0 HY (Hns & p & Hl) He. pose proof (effect_fields _ _ _ He) as E.
  destruct He as [(_ & [s Hs] & Hl' & Hx) Hfree]. rewrite Hs in Hl'. pose proof (links_shape _ _ _ Hs) as Hsh.
  rewrite Hl in Hsh. injection Hsh as -> -> ->. specialize (Hfree s Hs).
  eapply (moved_evolves X Y Z n n' l (ls_ns s) (ls_name s) (ls_peer s) (ls_ns s) nm);
    [by rewrite E..|by apply links_shape|unfold shape; by rewrite Hl'| |done|done|done|done|].
  - intros x Hne. unfold shape. by rewrite Hx.
  - destruct Hfree as [->|]; auto.
Qed.

Lemma rename_guar fmt args ns nm0 l nm :
  Y ns nm0 → Y ns nm → guar (in_ns ns nm0 l) (wrap fmt args (request (LinkSetName l nm))) G.
Proof. intros HY0 HY. apply guar_wrap, guar_request_stays. intros n n' _ Hin He. by apply (rename_evolves ns nm0 l nm). Qed.

Lemma guar_setdown {B} fmt args ns nm l (f : () → M B) :
  (∀ a, guar (in_ns ns nm l) (f a) G) → guar (in_ns ns nm l) (wrap fmt args (request (LinkSetDown l)) ≫= f) G.
Proof.
  intros Hf. apply guar_keep; [|by apply setdown_shape|guar|done].
  intros n n' Hs Hh (Hns & p & Hl). unfold in_ns. rewrite Hh, Hs. eauto.
Qed.

(** A pure fact about a result. *)
Lemma guar_pure {A} (φ : Prop) (P : net → Prop) (m : M A) : (φ → guar P m G) → guar (λ n, P n ∧ φ) m G.
Proof. intros H σ r σ' E Hr [HP Hφ]. exact (H Hφ σ r σ' E Hr HP). Qed.

Lemma guar_open_bind {B} P path (f : NsId → M B) :
  (∀ ns, pth path = Some ns → ns ≠ hm → guar P (f ns) G) → guar P (open_netns path ≫= f) G.
Proof.
  intros Hf. eapply guar_bind_post; [apply guar_open|apply post_open|]. intros ns. apply guar_pure. intros [Hp Hn]. by apply Hf.
Qed.

Lemma guar_lookup_ns {B} fmt args ns name (f : Link LinkId → M B) :
  ns ≠ hm → (∀ l, guar (in_ns ns name (link_id l)) (f l) G) →
  guar top (wrap fmt args (kernel (LinkByName (Some ns) name)) ≫= f) G.
Proof.
  intros Hne Hf. eapply guar_bind_post; [guar|apply post_wrap, post_lookup|].
  intros l σ r σ' E Hr (_ & _ & s & Hs & Hns & Hnm & _). eapply Hf; [done..|].
  destruct Hr as (_ & _ & Hh). split; [by rewrite Hh|]. apply links_shape in Hs. rewrite Hns, Hnm in Hs. eauto.
Qed.

Lemma setns_evolves l ns s c i n n' :
  X (vc c i) → Y ns (vc c i) → ns ≠ home n → links n l = Some s → ls_ns s = home n → ls_name s = vc c i →
  effect (LinkSetNsFd l ns) n n' → evolves X Y Z n n'.
Proof.
  intros HX HY Hne Hs Hns Hnm He. pose proof (effect_fields _ _ _ He) as E.
  destruct He as [(_ & _ & Hl' & Hx) Hfree]. rewrite Hs in Hl'.
  eapply (moved_evolves X Y Z n n' l (ls_ns s) (ls_name s) (ls_peer s) ns (ls_name s));
    [by rewrite E..|by apply links_shape|unfold shape; by rewrite Hl'| |done| |by rewrite Hns| |].
  - intros x Hxl. unfold shape. by rewrite Hx.
  - intros _. rewrite Hnm. eauto.
  - by rewrite Hnm.
  - right. apply (Hfree s Hs). by rewrite Hns.
Qed.

Lemma moveIntoNetns_guar c i path iface :
  X (vc c i) → (∀ ns, pth path = Some ns → Y ns iface ∧ Y ns (vc c i)) →
  guar top (moveIntoNetns (vc c i) path iface) G.
Proof.
  intros HX HY. unfold moveIntoNetns. apply guar_open_bind. intros ns Hp Hne. destruct (HY ns Hp) as [HY1 HY2].
  apply guar_bind; [apply guar_attempt, guar_read, handle_view|]. intros h.
  apply guar_bind; [guar|]. intros [|]; [apply guar_ret|].
  eapply guar_bind_post; [guar|apply post_wrap, post_lookup|]. intros l.
  apply guar_bind.
  { apply guar_wrap, guar_request_stays. intros n n' (_ & _ & Hh) (_ & _ & s & Hs & Hns & Hnm & _) He.
    eapply setns_evolves; [done|done| |done| |done|done]; by rewrite Hh. }
  intros _. apply guar_bind; [guar|]. intros _. apply guar_lookup_ns; [done|]. intros inner.
  apply guar_setdown. intros _. by apply rename_guar.
Qed.

Lemma add_addresses_guar P spec id addresses : guar P (add_addresses spec id addresses) G.
Proof.
  revert P. induction addresses as [|ip addresses IH]; intros P; simpl; [apply guar_ret|].
  destruct (ParseAddr ip); [|apply guar_fail]. apply guar_bind; [guar|]. intros _. apply IH.
Qed.

Lemma add_routes_guar P spec id routes : guar P (add_routes spec id routes) G.
Proof.
  revert P. induction routes as [|r routes IH]; intros P; simpl; [apply guar_ret|].
  destruct (Route_parse r (Gateway spec)) as [[dst gw]|]; [|apply guar_fail]. apply guar_bind; [guar|]. intros _. apply IH.
Qed.

Lemma set_spec_mac_guar P spec id bad fmt args : guar P (set_spec_mac spec id bad fmt args) G.
Proof. unfold set_spec_mac. guar. Qed.

#[local] Hint Resolve add_addresses_guar add_routes_guar set_spec_mac_guar : guar.

Lemma configurePodIface_guar P spec : guar P (configurePodIface spec) G.
Proof. unfold configurePodIface. guar. Qed.

Lemma primaryMTU_guar P path : guar P (primaryMTU path) G.
Proof.
  unfold primaryMTU. apply guar_bind; [apply guar_attempt, guar_read; intros w r w' H; by apply path_view in H as [-> _]|].
  intros [ns|]; [|guar]. apply guar_bind; [apply guar_attempt, guar_read, handle_view|]. intros; guar.
Qed.

Lemma ports_evolves n q : (∀ p, ¬ Z p → q !! p = ports n !! p) → evolves X Y Z n (with_ports n q).
Proof. intros Hq. split; try done. intros [H1 H2 H3 H4]. by split. Qed.

Lemma ovsVsctl_guar P args :
  (∀ w out e w', Exec "ovs-vsctl" args w = ((out, e), w') → stays X Y Z (view w) (view w')) →
  guar P (ovsVsctl args) G.
Proof.
  intros H. unfold ovsVsctl. apply guar_bind; [|intros [out [e|]]; guar].
  intros σ r σ' E _ _. unfold exec in E. destruct (Exec _ _ _) as [[out e] w] eqn:Ee. injection E as _ <-. by eapply H.
Qed.

(** The identifiers of the driver have no equals sign in their keys. *)
Lemma port_ids_plain spec : plain_ids (port_ids spec).
Proof. intros kv Hkv. unfold port_ids in Hkv. repeat (apply elem_of_cons in Hkv as [->|Hkv]; [reflexivity|]). by apply not_elem_of_nil in Hkv. Qed.
Lemma pod_ids_plain pod ns : plain_ids (pod_ids pod ns).
Proof. intros kv Hkv. unfold pod_ids in Hkv. repeat (apply elem_of_cons in Hkv as [->|Hkv]; [reflexivity|]). by apply not_elem_of_nil in Hkv. Qed.

Lemma attachToOVS_guar P host spec : Z host → guar P (attachToOVS host spec) G.
Proof.
  intros HZ. apply ovsVsctl_guar. intros w out e w' H. apply exec_add in H as [-> | [_ ->]]; [|apply stays_refl|apply port_ids_plain].
  split; [|done]. apply ports_evolves. intros p Hp. apply lookup_insert_ne. by intros <-.
Qed.

Lemma del_port_guar P bridge host : Z host → guar P (ovsVsctl (del_port_args bridge host)) G.
Proof.
  intros HZ. apply ovsVsctl_guar. intros w out e w' H. apply exec_del in H as [-> | [_ ->]]; [|apply stays_refl].
  split; [|done]. apply ports_evolves. intros p Hp. apply lookup_delete_ne. by intros <-.
Qed.

(** A step in another namespace, and back. *)
Definition away {A} (ns : NsId) (body : M A) : Prop :=
  ∀ σ r σ', body σ = (r, σ') → cur (vw σ) = ns → home (vw σ) = hm → stays X Y Z (vw σ) (vw σ').

Lemma with_cur_evolves n ns : evolves X Y Z n (with_cur n ns).
Proof. by apply same_shape_evolves. Qed.

Lemma finally_inv {A B} (m : M A) (after : M B) σ r σ' :
  finally m after σ = (r, σ') → ∃ σ1, m σ = (r, σ1) ∧ σ' = (after σ1).2.
Proof. unfold finally. destruct (m σ) as [x σ1]. intros [= <- <-]. eauto. Qed.

Lemma bind_inv {A B} (m : M A) (f : A → M B) σ r σ' :
  (m ≫= f) σ = (r, σ') →
  (∃ a σ1, m σ = (Ret a, σ1) ∧ f a σ1 = (r, σ')) ∨ (∃ x, m σ = (x, σ') ∧ ∀ a, x ≠ Ret a).
Proof.
  unfold mbind, M_bind. destruct (m σ) as [[a|e|] σ1]; [eauto|..]; intros [= _ <-]; right; eexists; split; done.
Qed.

Lemma in_netns_guar {A} P ns (body : M A) : away ns body → guar P (in_netns ns body) G.
Proof.
  intros Hb σ r σ' E ((Hwf & Hp & Hc) & Hpth & Hh) _.
  destruct (NsGet (kern σ)) as [g w0] eqn:Eg.
  assert (wrap "get current netns: %w" [] (kernel NsGet) σ
    = (match g with Ok o => Ret o | Err e => Throw (Wrapf "get current netns: %w" [] e) end,
       {| kern := w0; dhcpServers := dhcpServers σ |})) as EN by (unfold wrap, kernel; rewrite Eg; by destruct g).
  apply get_view in Eg as [Hv0 Ho].
  apply bind_inv in E as [(o & σ0 & E0 & E)|(x & E0 & Hx)]; rewrite EN in E0; destruct g as [o'|e]; try done;
    [|by destruct (Hx o'); congruence|injection E0 as _ <-; unfold vw; simpl; rewrite Hv0; apply stays_refl].
  injection E0 as -> <-. specialize (Ho o eq_refl). fold (vw σ) in *.
  set (σ0 := {| kern := w0; dhcpServers := dhcpServers σ |}) in *. assert (vw σ0 = vw σ) as V0 by done.
  apply finally_inv in E as (σ1 & E1 & ->).
  assert (evolves X Y Z (vw σ) (vw σ1)) as H1.
  { rewrite <- V0. destruct (NsSet ns (kern σ0)) as [g w1] eqn:Es.
    assert (wrap "switch to target netns: %w" [] (kernel (NsSet ns)) σ0
      = (match g with Ok o => Ret o | Err e => Throw (Wrapf "switch to target netns: %w" [] e) end,
         {| kern := w1; dhcpServers := dhcpServers σ0 |})) as EN' by (unfold wrap, kernel; rewrite Es; by destruct g).
    apply set_view in Es.
    apply bind_inv in E1 as [([] & σ2 & E2 & E1)|(x & E2 & Hx)]; rewrite EN' in E2; destruct g as [[]|e]; try done;
      [|by destruct (Hx ()); congruence|injection E2 as _ <-; unfold vw; simpl; rewrite Es; apply evolves_refl].
    injection E2 as <-. simpl in Es.
    destruct (Hb _ _ _ E1) as [He _]; [unfold vw; simpl; rewrite Es; simpl; congruence..|].
    eapply evolves_trans; [|exact He]. unfold vw at 2. simpl. rewrite Es. apply with_cur_evolves. }
  unfold kernel. destruct (NsSet o (kern σ1)) as [y w2] eqn:Es. pose proof Es as Hok. simpl.
  assert (o = home (view (kern σ1))) as Hoh by (fold (vw σ1); rewrite (ev_home _ _ _ _ _ H1); congruence).
  rewrite Hoh in Hok. apply set_home in Hok. subst y. apply set_view in Es. simpl in Es.
  unfold vw at 2. simpl. rewrite Es. split; [|simpl; congruence].
  eapply evolves_trans; [exact H1|apply with_cur_evolves].
Qed.

Lemma addTuntap_guar P ns name : ns ≠ hm → Y ns name → guar P (addTuntapInNetns ns name) G.
Proof.
  intros Hne HY. apply in_netns_guar. intros σ r σ' E Hc Hh. unfold mbind, M_bind, attempt, request, kernel in E.
  destruct (Netlink _ (kern σ)) as [[[]|e] w] eqn:En; simpl in E.
  - injection E as _ <-. apply request_ok in En. unfold vw in *. simpl. pose proof (effect_fields _ _ _ En) as Ef.
    split; [|by rewrite Ef]. simpl in En. rewrite Hc in En. eapply created_evolves; [|done|exact En]. by rewrite Hh.
  - apply request_err in En. destruct (isExists e); injection E as _ <-; unfold vw; simpl; rewrite En; apply stays_refl.
Qed.

Lemma bridgeFdb_guar P ns mac name : guar P (bridgeFdbReplaceStatic ns mac name) G.
Proof.
  apply in_netns_guar. intros σ r σ' E _ _. unfold mbind, M_bind, exec in E.
  destruct (Exec _ _ _) as [[out e] w] eqn:Ee. apply exec_bridge in Ee.
  destruct e; injection E as _ <-; unfold vw; simpl; rewrite Ee; apply stays_refl.
Qed.

Lemma listener_guar P path name : guar P (newNetnsUDP4FilterListener path name) G.
Proof.
  unfold newNetnsUDP4FilterListener. apply guar_bind; [guar|]. intros ns. apply in_netns_guar.
  intros σ r σ' E _ _. unfold kernel in E. destruct (Listen _ _) as [x w] eqn:El. apply listen_view in El.
  injection E as _ <-. unfold vw. simpl. rewrite El. apply stays_refl.
Qed.

Lemma ensure_server_guar P spec name : guar P (ensure_server spec name) G.
Proof.
  intros σ r σ' E Hr _. unfold ensure_server, ensureVMIDHCPServer in E.
  assert (∀ σ1 e, as_step (newNetnsUDP4FilterListener (NetnsPath spec) name) σ = (e, σ1) → G (vw σ) (vw σ1)) as Hl.
  { intros σ1 e El. unfold as_step in El. destruct (newNetnsUDP4FilterListener _ _ σ) as [x σ2] eqn:Ex.
    assert (σ1 = σ2) as -> by (by destruct x; injection El as _ <-). exact (listener_guar top _ _ _ _ _ Ex Hr I). }
  destruct (OVNDHCP spec); [injection E as _ <-; apply stays_refl|].
  destruct (_ !! _); [injection E as _ <-; apply stays_refl|].
  destruct (ParseCIDR _) as [[ip n]|]; [|injection E as _ <-; apply stays_refl].
  destruct (To4 ip); [|injection E as _ <-; apply stays_refl].
  destruct (ParseMAC _); [|injection E as _ <-; apply stays_refl].
  destruct (vmiDHCPOptions _ _) as [[o|e]|]; simpl in E; [|injection E as _ <-; apply stays_refl..].
  destruct (as_step _ σ) as [[e|] σ1] ;
    injection E as _ <-; exact (Hl _ _ eq_refl).
Qed.

#[local] Hint Resolve bridgeFdb_guar ensure_server_guar : guar.

Lemma guar_top {A} P (m : M A) : guar top m G → guar P m G.
Proof. intros H. by apply (guar_conseq top). Qed.

Lemma wireVMIBridge_guar P spec :
  (∀ ns nm, pth (NetnsPath spec) = Some ns →
     nm ∈ [IfaceName spec; bridgeNameFor (IfaceName spec); vethRenameFor (IfaceName spec)] → Y ns nm) →
  guar P (wireVMIBridge spec) G.
Proof.
  intros HY. apply guar_top. unfold wireVMIBridge. apply guar_open_bind. intros ns Hp Hne.
  assert (∀ nm, nm ∈ [IfaceName spec; bridgeNameFor (IfaceName spec); vethRenameFor (IfaceName spec)] → Y ns nm) as HY'
    by eauto.
  apply guar_bind; [guar|]. intros _. cbv zeta. apply guar_lookup_ns; [done|]. intros existing.
  destruct (bool_decide _); [guar|]. apply guar_setdown. intros _.
  apply guar_bind; [apply rename_guar; set_solver|]. intros _.
  apply guar_bind.
  { apply guar_unless_exists, guar_request_stays. intros n n' (_ & _ & Hh) _ He.
    eapply created_evolves; [| |exact He]; [by rewrite Hh|apply HY'; set_solver]. }
  intros _. apply guar_bind; [guar|]. intros bridge. apply guar_bind; [guar|]. intros _.
  apply guar_bind; [apply guar_wrap, addTuntap_guar; [done|apply HY'; set_solver]|]. intros _. guar.
Qed.

End steps.

(** ** What a step in another namespace does *)

Section away.
Context {W : Type} `{KE : Kernel W} {KL : KernelLaws W} `{DH : Dhcp4} {AN : Anchor NsId}.
Implicit Types σ : ovsAttacher W.

(** A step in another namespace: it fails before it gets there, or is the body with the
    thread there and back. *)
Lemma in_netns_view {A} ns (body : M A) σ r σ' :
  in_netns ns body σ = (r, σ') → ready (vw σ) →
  vw σ' = vw σ ∨ ∃ σ1 x σ2, body σ1 = (x, σ2) ∧ vw σ1 = with_cur (vw σ) ns ∧
    (home (vw σ2) = home (vw σ) → vw σ' = with_cur (vw σ2) (home (vw σ))).
Proof.
  intros E ((_ & _ & Hc) & _). unfold in_netns, mbind, M_bind, wrap, kernel in E.
  destruct (NsGet (kern σ)) as [[o|e] w0] eqn:Eg; simpl in E; apply get_view in Eg as [Hv0 Ho];
    [|injection E as _ <-; by left]. specialize (Ho o eq_refl). fold (vw σ) in Ho. rewrite Hc in Ho. subst o.
  apply finally_inv in E as (σ1 & E & ->). fold (vw σ) in *.
  assert (∀ w, home (view w) = home (vw σ) → view (NsSet (home (vw σ)) w).2 = with_cur (view w) (home (vw σ))) as Hback.
  { intros w Hw. destruct (NsSet _ w) as [y w'] eqn:Es. pose proof Es as Hok. rewrite <- Hw in Hok. apply set_home in Hok.
    subst y. by apply set_view in Es. }
  cbn [kern dhcpServers] in E. destruct (NsSet ns w0) as [[[]|e] w1] eqn:Es; simpl in E; apply set_view in Es; simpl in Es.
  - right. destruct (body _) as [x σ2] eqn:Eb in E. destruct (NsSet (home (vw σ)) (kern σ1)) as [y w2] eqn:Et.
    eexists _, x, σ2. split; [exact Eb|]. split; [unfold vw at 1; simpl; by rewrite Es, Hv0|].
    assert (σ2 = σ1) as -> by (by destruct x; injection E as _ <-). intros Hh. specialize (Hback (kern σ1) Hh). by rewrite Et in Hback.
  - left. injection E as _ <-. simpl. destruct (NsSet (home (vw σ)) w1) as [y w2] eqn:Et.
    specialize (Hback w1). rewrite Et, Es, Hv0 in Hback. simpl in Hback. unfold vw at 1. simpl. rewrite Hback by done.
    rewrite <- Hc. by destruct (vw σ).
Qed.

(** The tap is created in the sandbox, or nothing is. *)
Lemma addTuntap_created ns name σ r σ' :
  addTuntapInNetns ns name σ = (r, σ') → ready (vw σ) →
  vw σ' = vw σ ∨ one_created (vw σ) (vw σ') ns name "tuntap".
Proof.
  intros E Hr. destruct (in_netns_view _ _ _ _ _ E Hr) as [->|(σ1 & x & σ2 & E1 & H1 & H2)]; [by left|].
  destruct Hr as ((_ & _ & Hc) & _).
  assert (vw σ2 = vw σ1 ∨ one_created (vw σ1) (vw σ2) ns name "tuntap") as [Hs|Hs].
  { unfold mbind, M_bind, attempt, request, kernel in E1. destruct (Netlink _ (kern σ1)) as [[[]|e] w] eqn:En; simpl in E1.
    - injection E1 as _ <-. apply request_ok in En. right. simpl in En. fold (vw σ1) in En. by rewrite H1 in *.
    - apply request_err in En. left. by destruct (isExists e); injection E1 as _ <-. }
  - left. rewrite Hs, H1 in H2. rewrite (H2 eq_refl). rewrite <- Hc. by destruct (vw σ).
  - right. rewrite H1 in Hs. destruct Hs as (Hf & id & st & Hid & Hcr & E2 & Hn' & Hx).
    rewrite H2 by (by rewrite E2). split; [done|]. exists id, st. split_and!; try done.
    simpl. rewrite E2 at 1. unfold with_links, with_cur. simpl. by rewrite <- Hc.
Qed.

Lemma inert_ready (r : Req NsId LinkId) n n' : inert r = true → ready n → effect r n n' → ready n'.
Proof.
  intros Hi Hr He. pose proof (effect_fields _ _ _ He) as E.
  eapply (g_ready (G := stays (λ _, False) (λ _ _, False) (λ _, False))); [|exact Hr].
  apply g_config; [by rewrite E..|]. by eapply inert_shape.
Qed.

End away.
