(* ===== verification/NicPrepare.v ===== *)
(** * Resolving an allocated device to a NIC (pkg/nicprepare/nicprepare.go)

    Prepare finds the pod that consumes the claim on this node, the provider
    kube-ovn keys the NIC by, waits for kube-ovn's answer and turns it into what
    the attach step needs.  [client k ns name] is what the API server answers to the
    [k]-th read of the call. *)

From S2P Require Import Prelude Netip K8s Subnet Json Annotation Store.

Definition defaultProvider : string := "ovn".
Definition providersAnnotation : string := "ovn.kubernetes.io/dra_providers".
Definition kubevirtVMLabel : string := "vm.kubevirt.io/name".

Record nicRecord := { Rec_Subnet : string; Rec_Provider : string }.

Definition decode_record (v : json) : option nicRecord :=
  m ← decode_struct ["subnet"; "provider"] v;
  Some {| Rec_Subnet := str_field m "subnet"; Rec_Provider := str_field m "provider" |}.

(** [json.Unmarshal] into a [map[string]nicRecord]: every value is decoded, a later
    duplicate of a key wins. *)
Fixpoint decode_records (fields : list (string * json)) (acc : gmap string nicRecord) :
    option (gmap string nicRecord) :=
  match fields with
  | [] => Some acc
  | (k, v) :: fields => r ← decode_record v; decode_records fields (<[k := r]> acc)
  end.

Definition Unmarshal_records (s : string) : result (gmap string nicRecord) :=
  match parse_json s with
  | Some JNull => Ok ∅
  | Some (JObj fields) =>
      match decode_records fields ∅ with Some m => Ok m | None => Err (External "json") end
  | _ => Err (External "json")
  end.

Definition decode_route (v : json) : option Route :=
  m ← decode_struct ["dst"; "gw"] v;
  Some {| Destination := str_field m "dst"; Route_Gateway := str_field m "gw" |}.

(** [json.Unmarshal] into a [[]plumbing.Route] *)
Definition Unmarshal_routes (s : string) : result (list Route) :=
  match parse_json s with
  | Some JNull => Ok []
  | Some (JArr l) =>
      match mapM decode_route l with Some rs => Ok rs | None => Err (External "json") end
  | _ => Err (External "json")
  end.

Definition recordedNIC (claim : ResourceClaim) (res : AllocationResult) : result (option nicRecord) :=
  let value := default EmptyString (Claim_Annotations claim !! providersAnnotation) in
  if bool_decide (value = EmptyString) then Ok None
  else
    records ← wrap_err "invalid %s annotation of claim %s/%s: %w"
                [providersAnnotation; Claim_Namespace claim; Claim_Name claim]
                (Unmarshal_records value);
    Ok (records !! (Res_Pool res +:+ "/" +:+ Res_Device res)).

Record NicDeviceConfig := {
  Nic_DeviceName : string;
  Nic_IfaceName : string;
  Nic_SubnetName : string;
  Nic_Provider : string;
  Nic_PodName : string;
  Nic_PodNamespace : string;
  Nic_PodUID : string;
  Nic_LogicalSwitchPort : string;
  Nic_ExtraIPs : list string;
  Nic_IP : string;
  Nic_MAC : string;
  Nic_CIDR : string;
  Nic_Gateway : string;
  Nic_VMName : string;
  Nic_Routes : list Route;
  Nic_MTU : Z;
  Nic_OVNDHCP : bool;
}.

(** ** Addresses *)

Definition of_family (v4 : bool) (value : string) : bool :=
  match ParseIP (cut "/" value).1.1 with
  | Some ip => eqb (is_v4 ip) v4
  | None => false
  end.

(** The first value of the family, [""] without one. *)
Fixpoint byFamily (values : list string) (v4 : bool) : string :=
  match values with
  | [] => EmptyString
  | value :: values => if of_family v4 value then value else byFamily values v4
  end.

Definition withMask (ip cidr : string) : string :=
  if bool_decide (ip = EmptyString) || contains_byte "/" ip then ip
  else
    match ParseCIDR cidr with
    | None => ip
    | Some (_, ipnet) => ip +:+ "/" +:+ pretty (mask_ones ipnet)
    end.

(** One round of the loop over the families. *)
Definition add_family (ipList : string) (cidrs gateways : list string)
    (acc : list string * string * string) (v4 : bool) : list string * string * string :=
  let '(ips, cidr, gateway) := acc in
  let ip := byFamily (split "," ipList) v4 in
  if bool_decide (ip = EmptyString) then acc
  else
    let familyCIDR := byFamily cidrs v4 in
    let familyGateway := byFamily gateways v4 in
    let '(cidr, gateway) := match ips with [] => (familyCIDR, familyGateway) | _ => (cidr, gateway) end in
    (ips ++ [withMask ip familyCIDR], cidr, gateway).

Definition dualStackAddresses (ipList cidrList gatewayList : string) : list string * string * string :=
  let cidrs := split "," cidrList in
  let gateways := split "," gatewayList in
  let '(ips, cidr, gateway) :=
    foldl (add_family ipList cidrs gateways) ([], EmptyString, EmptyString) [true; false] in
  let ips := match ips with [] => [withMask ipList cidrList] | _ => ips end in
  (ips, cidr, gateway).

Definition portName (owner namespace provider : string) : string :=
  if bool_decide (provider = EmptyString) || bool_decide (provider = defaultProvider)
  then owner +:+ "." +:+ namespace
  else owner +:+ "." +:+ namespace +:+ "." +:+ provider.

(** ** The pod of a claim *)

Section lookup.
Context (client : nat → string → string → result Pod).

Definition is_pod_ref (ref : ConsumerReference) : bool :=
  bool_decide (Ref_Resource ref = "pods") && bool_decide (Ref_APIGroup ref = EmptyString).

Definition finished (pod : Pod) : bool :=
  bool_decide (Pod_Phase pod = PodSucceeded) || bool_decide (Pod_Phase pod = PodFailed).

(** The loop over [status.reservedFor]: the number of pod references, the live
    consumers, and those of them on the node. *)
Fixpoint collect (podNS nodeName : string) (reservedFor : list ConsumerReference)
    (refs : nat) (consumers onNode : list Pod) : result (nat * list Pod * list Pod) :=
  match reservedFor with
  | [] => Ok (refs, consumers, onNode)
  | ref :: reservedFor =>
      if negb (is_pod_ref ref) then collect podNS nodeName reservedFor refs consumers onNode
      else
        match client refs podNS (Ref_Name ref) with
        | Err e =>
            if IsNotFound e then collect podNS nodeName reservedFor (S refs) consumers onNode
            else Err (Wrapf "get pod %s/%s: %w" [podNS; Ref_Name ref] e)
        | Ok pod =>
            if negb (bool_decide (Pod_UID pod = Ref_UID ref)) || finished pod
            then collect podNS nodeName reservedFor (S refs) consumers onNode
            else collect podNS nodeName reservedFor (S refs) (consumers ++ [pod])
                   (if bool_decide (Pod_NodeName pod = nodeName) then onNode ++ [pod] else onNode)
        end
  end.

(** [pod.Labels[kubevirtVMLabel]] *)
Definition vm_of (pod : Pod) : string := default EmptyString (Pod_Labels pod !! kubevirtVMLabel).

Definition checkSharedClaim (claim : ResourceClaim) (consumers : list Pod) : option error :=
  match consumers with
  | first :: _ :: _ =>
      let vm := vm_of first in
      match List.find (λ pod, bool_decide (vm = EmptyString) || negb (bool_decide (vm_of pod = vm))) consumers with
      | None => None
      | Some pod =>
          Some (Errorf "claim %s/%s is shared by pods %s and %s; a DRA NIC claim can only be shared by the virt-launcher pods of one KubeVirt VM (live migration), use one claim per pod"
                  [Claim_Namespace claim; Claim_Name claim; Pod_Name first; Pod_Name pod])
      end
  | _ => None
  end.

(** Also returns the number of reads done. *)
Definition lookupPodForClaim (claim : ResourceClaim) (nodeName : string) :
    result (string * string * string * nat) :=
  let podNS := Claim_Namespace claim in
  '(refs, consumers, onNode) ← collect podNS nodeName (Claim_ReservedFor claim) 0 [] [];
  if (refs =? 0)%nat
  then Err (Errorf "claim %s/%s has no pod in ReservedFor" [Claim_Namespace claim; Claim_Name claim])
  else
    check (checkSharedClaim claim consumers)
      match onNode with
      | [] => Err (Errorf "claim %s/%s has no pod on node %s in ReservedFor"
                     [Claim_Namespace claim; Claim_Name claim; nodeName])
      | [pod] => Ok (Pod_Name pod, podNS, Pod_UID pod, refs)
      | pod :: pod' :: _ =>
          Err (Errorf "claim %s/%s is reserved for more than one pod on node %s (%s, %s); a DRA NIC is prepared once per node, use one claim per pod"
                 [Claim_Namespace claim; Claim_Name claim; nodeName; Pod_Name pod; Pod_Name pod'])
      end.

End lookup.

(** ** RequestIPAM *)

Definition extractSubnetName (device : Device) (driver : string) : string :=
  StringAttribute device driver AttrSubnetName.

Definition extractProvider (device : Device) (driver : string) : string :=
  StringAttribute device driver AttrProvider.

Definition validateSecondaryProvider (provider subnetName : string) : option error :=
  if bool_decide (provider = EmptyString) || bool_decide (provider = defaultProvider)
  then Some (Errorf "subnet %q uses the default provider %q and cannot be attached as a secondary NIC; set a dedicated spec.provider on the kube-ovn Subnet (e.g. %q)"
               [subnetName; defaultProvider; subnetName +:+ ".<namespace>.ovn"])
  else None.

Section request.
Context `{P : Poller}.

Definition RequestIPAM (client : nat → string → string → result Pod) (claim : ResourceClaim)
    (res : AllocationResult) (device : Device) (ifaceName nodeName : string) : result NicDeviceConfig :=
  '(podName, podNS, podUID, reads) ← wrap_err "find pod for claim %s/%s: %w"
      [Claim_Namespace claim; Claim_Name claim] (lookupPodForClaim client claim nodeName);
  record ← recordedNIC claim res;
  let '(subnetName, provider) :=
    match record with
    | Some r => (Rec_Subnet r, Rec_Provider r)
    | None => (extractSubnetName device (Res_Driver res), extractProvider device (Res_Driver res))
    end in
  if bool_decide (subnetName = EmptyString)
  then Err (Errorf "device %s has no subnetName attribute" [Device_Name device])
  else check (validateSecondaryProvider provider subnetName) (
    alloc ← wrap_err "kube-ovn-controller did not allocate NIC %q on subnet %q for pod %s/%s (no %s.kubernetes.io/allocated or %s.%s.kubernetes.io/allocated annotation); check the pod's events and that kube-ovn-controller runs with --enable-dra-nic and --dra-nic-driver-name=%s: %w"
        [ifaceName; subnetName; podNS; podName; provider; provider; ifaceName; Res_Driver res]
        (WaitForAllocation (λ i, client (reads + i)%nat podNS podName) podNS podName
           [provider +:+ "." +:+ ifaceName; provider]);
    routes ← if bool_decide (NIC_Routes alloc = EmptyString) then Ok []
             else wrap_err "invalid %s.kubernetes.io/routes annotation of pod %s/%s: %w"
                    [NIC_Provider alloc; podNS; podName] (Unmarshal_routes (NIC_Routes alloc));
    let portOwner := if bool_decide (NIC_VMName alloc = EmptyString) then podName else NIC_VMName alloc in
    let '(ips, cidr, gateway) := dualStackAddresses (NIC_IP alloc) (NIC_CIDR alloc) (NIC_Gateway alloc) in
    Ok {|
      Nic_DeviceName := Res_Device res;
      Nic_IfaceName := ifaceName;
      Nic_SubnetName := subnetName;
      Nic_Provider := provider;
      Nic_PodName := podName;
      Nic_PodNamespace := podNS;
      Nic_PodUID := podUID;
      Nic_LogicalSwitchPort := portName portOwner podNS (NIC_Provider alloc);
      Nic_ExtraIPs := tail ips;
      Nic_IP := default EmptyString (head ips);
      Nic_MAC := NIC_MAC alloc;
      Nic_CIDR := cidr;
      Nic_Gateway := gateway;
      Nic_VMName := NIC_VMName alloc;
      Nic_Routes := routes;
      Nic_MTU := 0%Z;
      Nic_OVNDHCP := false;
    |}).

End request.

(** ** Which pod a claim is prepared for *)

(** A pod that has not ended. *)
Definition alive (pod : Pod) : Prop := Pod_Phase pod ≠ PodSucceeded ∧ Pod_Phase pod ≠ PodFailed.
#[export] Instance alive_dec pod : Decision (alive pod).
Proof. unfold alive. apply _. Defined.

Lemma finished_alive pod : negb (finished pod) = bool_decide (alive pod).
Proof. unfold finished. repeat case_bool_decide; unfold alive in *; naive_solver. Qed.

Section lookup_spec.
Context (client : nat → string → string → result Pod) (ns node : string).

(** What the [k]-th read says of a reference: the pod, if it still exists under its UID
    and has not finished. *)
Definition consumer (k : nat) (ref : ConsumerReference) : option Pod :=
  match client k ns (Ref_Name ref) with
  | Ok pod => if bool_decide (Pod_UID pod = Ref_UID ref) && bool_decide (alive pod) then Some pod else None
  | Err _ => None
  end.

(** The read succeeded, or said that the pod does not exist. *)
Definition readable (k : nat) (ref : ConsumerReference) : Prop :=
  match client k ns (Ref_Name ref) with Ok _ => True | Err e => IsNotFound e = true end.

Fixpoint consumers_from (k : nat) (refs : list ConsumerReference) : list Pod :=
  match refs with
  | [] => []
  | ref :: refs => option_list (consumer k ref) ++ consumers_from (S k) refs
  end.

Fixpoint all_readable (k : nat) (refs : list ConsumerReference) : Prop :=
  match refs with
  | [] => True
  | ref :: refs => readable k ref ∧ all_readable (S k) refs
  end.

Definition pod_refs (refs : list ConsumerReference) : list ConsumerReference :=
  filter (λ ref, is_pod_ref ref = true) refs.

Definition on_node (pods : list Pod) : list Pod := filter (λ p, Pod_NodeName p = node) pods.

Lemma collect_Ok refs k cs os out :
  collect client ns node refs k cs os = Ok out ↔
  all_readable k (pod_refs refs) ∧
  out = (k + length (pod_refs refs), cs ++ consumers_from k (pod_refs refs),
         os ++ on_node (consumers_from k (pod_refs refs)))%nat.
Proof.
  revert k cs os. induction refs as [|ref refs IH]; intros k cs os; unfold pod_refs in *; simpl.
  { rewrite !app_nil_r, Nat.add_0_r. naive_solver. }
  destruct (is_pod_ref ref) eqn:Er; rewrite filter_cons, Er; simpl; [|apply IH].
  unfold readable, consumer. destruct (client k ns (Ref_Name ref)) as [pod|e]; simpl.
  - rewrite <- finished_alive. destruct (bool_decide (Pod_UID pod = Ref_UID ref)), (finished pod); simpl;
      rewrite IH; [| |by rewrite Nat.add_succ_r; naive_solver..];
      rewrite ?Nat.add_succ_r; [naive_solver|].
    unfold on_node. rewrite filter_cons, <- (assoc_L (++)). simpl.
    case_bool_decide; [rewrite decide_True by done|rewrite decide_False by done];
      rewrite <- ?(assoc_L (++)); naive_solver.
  - destruct (IsNotFound e); [|naive_solver]. rewrite IH, Nat.add_succ_r. naive_solver.
Qed.

End lookup_spec.

(** Every pod is a virt-launcher pod of one VM. *)
Definition same_vm (pods : list Pod) : Prop :=
  ∃ vm, vm ≠ EmptyString ∧ ∀ p, p ∈ pods → vm_of p = vm.

Lemma checkSharedClaim_None claim consumers :
  checkSharedClaim claim consumers = None ↔ length consumers ≤ 1 ∨ same_vm consumers.
Proof.
  unfold checkSharedClaim. destruct consumers as [|p [|p' ps]].
  1,2: split; [intros _; left; simpl; lia|done].
  destruct (List.find _ _) as [bad|] eqn:E; [split; [done|]|split; [intros _|done]].
  - apply List.find_some in E as [Hin Hb%orb_true_iff]. intros [Hl|(vm & Hvm & Hall)]; [simpl in Hl; lia|].
    apply list_elem_of_In in Hin. rewrite (Hall p), (Hall bad) in Hb by (done || left).
    rewrite negb_true_iff, bool_decide_eq_true, bool_decide_eq_false in Hb. naive_solver.
  - right. exists (vm_of p). pose proof (λ x, List.find_none _ _ E x) as Hn. split.
    + intros Hv. specialize (Hn p (or_introl eq_refl)). by rewrite bool_decide_true in Hn.
    + intros x Hx. specialize (Hn x). rewrite <- list_elem_of_In in Hn. specialize (Hn Hx).
      apply orb_false_iff in Hn as [_ Hn%negb_false_iff]. by apply bool_decide_eq_true in Hn.
Qed.

Lemma lookupPodForClaim_Ok client claim node name ns uid reads :
  lookupPodForClaim client claim node = Ok (name, ns, uid, reads) ↔
  let refs := pod_refs (Claim_ReservedFor claim) in
  let consumers := consumers_from client ns 0 refs in
  ns = Claim_Namespace claim ∧ reads = length refs ∧ all_readable client ns 0 refs ∧
  (∃ pod, on_node node consumers = [pod] ∧ Pod_Name pod = name ∧ Pod_UID pod = uid) ∧
  (length consumers ≤ 1 ∨ same_vm consumers).
Proof.
  unfold lookupPodForClaim. rewrite bind_Ok. setoid_rewrite collect_Ok. simpl. split.
  - intros (? & [Hr ->] & E). destruct (Nat.eqb_spec (length (pod_refs (Claim_ReservedFor claim))) 0); [done|].
    destruct (checkSharedClaim _ _) eqn:Es; [done|]. apply checkSharedClaim_None in Es. simpl in E.
    destruct (on_node _ _) as [|pod [|]] eqn:Eo; [done| |done]. injection E as <- <- <- <-. eauto 10.
  - intros (-> & -> & Hr & (pod & Eo & <- & <-) & Hs). eexists. split; [done|]. rewrite Eo.
    apply (checkSharedClaim_None claim) in Hs. rewrite Hs. simpl.
    destruct (Nat.eqb_spec (length (pod_refs (Claim_ReservedFor claim))) 0) as [Hz|]; [|done].
    apply nil_length_inv in Hz. rewrite Hz in Eo. done.
Qed.

(** C18: a claim is prepared exactly for its one live consumer on the node: every read
    of a consumer succeeds or says it is gone, one pod of the node remains, and if the
    claim has several live consumers in the cluster they are all virt-launcher pods of
    one VM. *)
Theorem lookupPodForClaim_iff client claim node name ns uid reads :
  lookupPodForClaim client claim node = Ok (name, ns, uid, reads) ↔
  let refs := pod_refs (Claim_ReservedFor claim) in
  let consumers := consumers_from client ns 0 refs in
  ns = Claim_Namespace claim ∧ reads = length refs ∧ all_readable client ns 0 refs ∧
  (∃ pod, on_node node consumers = [pod] ∧ Pod_Name pod = name ∧ Pod_UID pod = uid) ∧
  (length consumers ≤ 1 ∨ same_vm consumers).
Proof. apply lookupPodForClaim_Ok. Qed.

Lemma consumers_from_elem client ns k refs pod :
  pod ∈ consumers_from client ns k refs →
  ∃ j ref, ref ∈ refs ∧ client j ns (Ref_Name ref) = Ok pod ∧ Pod_UID pod = Ref_UID ref ∧
    alive pod.
Proof.
  revert k. induction refs as [|ref refs IH]; intros k; simpl; [set_solver|].
  rewrite elem_of_app. intros [Hp|Hp].
  - exists k, ref. unfold consumer in Hp. destruct (client k ns (Ref_Name ref)) as [p|]; [|set_solver].
    case_bool_decide as Hu; [|set_solver]. destruct (decide (alive p)) as [Ef|]; [rewrite bool_decide_true in Hp by done|rewrite bool_decide_false in Hp by done; set_solver].
    simpl in Hp. apply list_elem_of_singleton in Hp as ->. set_solver.
  - destruct (IH _ Hp) as (j & ref' & Hin & ?). exists j, ref'. set_solver.
Qed.

(** ** Addresses *)

Lemma byFamily_spec values v4 :
  byFamily values v4 = EmptyString ∨
  (byFamily values v4 ∈ values ∧ of_family v4 (byFamily values v4) = true).
Proof.
  induction values as [|v values IH]; simpl; [by left|].
  destruct (of_family v4 v) eqn:E; [right; set_solver|]. destruct IH; [by left|right; set_solver].
Qed.

Lemma byFamily_found values v4 v :
  v ∈ values → of_family v4 v = true → byFamily values v4 ≠ EmptyString.
Proof.
  induction values as [|w values IH]; simpl; [set_solver|]. intros Hin Hf.
  destruct (of_family v4 w) eqn:E.
  - intros ->. by destruct v4.
  - apply IH; [|done]. apply elem_of_cons in Hin as [->|]; [congruence|done].
Qed.

Lemma withMask_empty ip cidr : withMask ip cidr = EmptyString → ip = EmptyString.
Proof.
  unfold withMask. case_bool_decide; [done|]. simpl. destruct (contains_byte "/" ip); [done|].
  destruct (ParseCIDR cidr) as [[? ?]|]; [|done]. destruct ip; [done|]. by rewrite str_app_cons.
Qed.

(** The addresses are those of the families present, IPv4 first. *)
Lemma dualStackAddresses_eq ipList cidrList gatewayList :
  let ip v4 := byFamily (split "," ipList) v4 in
  let addr v4 := withMask (ip v4) (byFamily (split "," cidrList) v4) in
  let gw v4 := byFamily (split "," gatewayList) v4 in
  let cidr v4 := byFamily (split "," cidrList) v4 in
  dualStackAddresses ipList cidrList gatewayList =
  if decide (ip true = EmptyString) then
    if decide (ip false = EmptyString) then ([withMask ipList cidrList], EmptyString, EmptyString)
    else ([addr false], cidr false, gw false)
  else
    (addr true :: (if decide (ip false = EmptyString) then [] else [addr false]), cidr true, gw true).
Proof.
  simpl. unfold dualStackAddresses. simpl.
  destruct (decide (byFamily (split "," ipList) true = EmptyString)) as [H4|H4];
    destruct (decide (byFamily (split "," ipList) false = EmptyString)) as [H6|H6];
    unfold add_family; rewrite ?(bool_decide_true _ H4), ?(bool_decide_false _ H4),
      ?(bool_decide_true _ H6), ?(bool_decide_false _ H6); done.
Qed.

Lemma dualStackAddresses_nonempty ipList cidrList gatewayList ips cidr gw :
  dualStackAddresses ipList cidrList gatewayList = (ips, cidr, gw) →
  ∃ ip rest, ips = ip :: rest ∧ length rest ≤ 1 ∧ (ipList ≠ EmptyString → ip ≠ EmptyString).
Proof.
  rewrite dualStackAddresses_eq. repeat case_decide; intros [= <- _ _]; eexists _, _;
    (split; [done|split; [simpl; lia|]]); intros ? ?%withMask_empty; done.
Qed.

(** A number below 129 reads back as itself. *)
Lemma dtoi_pretty n : (0 <= n <= 128)%Z → dtoi (pretty n) = Some n.
Proof.
  intros Hn.
  assert (forallb (λ k, bool_decide (dtoi (pretty (Z.of_nat k)) = Some (Z.of_nat k))) (seq 0 129) = true)
    as Hall by (vm_compute; reflexivity).
  rewrite forallb_forall in Hall. specialize (Hall (Z.to_nat n)). rewrite Z2Nat.id in Hall by lia.
  apply (bool_decide_eq_true_1 _), Hall, in_seq. lia.
Qed.

Lemma cut_app c a b : contains_byte c a = false → cut c (a +:+ String c b) = (a, b, true).
Proof.
  induction a as [|d a IH]; [intros _; rewrite str_app_nil; simpl; by rewrite decide_True|]. simpl.
  intros [Hd Ha]%orb_false_iff. apply bool_decide_eq_false in Hd.
  change (cut c (String d (a +:+ String c b)) = (String d a, b, true)). simpl. by rewrite decide_False, IH.
Qed.

Lemma ParseCIDR_ones s ip n : ParseCIDR s = Some (ip, n) →
  (0 <= mask_ones n <= mask_bits n)%Z ∧ (mask_bits n = 32 ∨ mask_bits n = 128)%Z.
Proof.
  unfold ParseCIDR. destruct (cut "/" s) as [[a m] f]. destruct f; simpl; [|done].
  destruct (ParseAddr a) as [ad|]; [|done]. destruct (negb _); [done|]. destruct (dtoi m) as [k|]; [|done].
  destruct (Z.ltb_spec k 0), (Z.ltb_spec (BitLen ad) k); simpl; try done. intros [= <- <-]. simpl.
  split; [lia|]. unfold BitLen. destruct (Is4 ad); auto.
Qed.

(** The address kube-ovn allocated, combined with the mask of its subnet, parses as
    that address with that prefix length: the notation the attach step and the DHCP
    server read it in. *)
Theorem withMask_parses ip cidr a b net :
  ParseAddr ip = Some a → Zone a = EmptyString → contains_byte "/" ip = false →
  ParseCIDR cidr = Some (b, net) → mask_bits net = BitLen a →
  ParseCIDR (withMask ip cidr) =
  Some (As16 a, {| net_IP := Mask_IP (As16 a) (net_mask net);
                   mask_ones := mask_ones net; mask_bits := mask_bits net |}).
Proof.
  intros Ha Hz Hs Hc Hb. pose proof (ParseCIDR_ones _ _ _ Hc) as [Hr Hbits].
  unfold withMask. rewrite bool_decide_false by (by intros ->). rewrite Hs. simpl. rewrite Hc.
  unfold ParseCIDR. rewrite str_app_cons, str_app_nil, (cut_app "/" ip _ Hs). simpl.
  rewrite Ha, bool_decide_true by done. simpl. rewrite dtoi_pretty by lia.
  rewrite <- Hb. destruct (Z.ltb_spec (mask_ones net) 0), (Z.ltb_spec (mask_bits net) (mask_ones net)); try lia.
  done.
Qed.

Lemma withMask_parses_witness :
  ParseCIDR (withMask "172.23.0.5" "172.23.0.0/24") =
  Some (v4InV6Prefix ++ [172; 23; 0; 5], {| net_IP := [172; 23; 0; 0]; mask_ones := 24; mask_bits := 32 |})%Z.
Proof.
  eapply (withMask_parses "172.23.0.5" "172.23.0.0/24" (Addr4 [172; 23; 0; 5]%Z) _
    {| net_IP := [172; 23; 0; 0]; mask_ones := 24; mask_bits := 32 |}%Z);
    vm_compute; reflexivity.
Defined.

(** ** What RequestIPAM returns *)

Section request_calls.
Context `{P : Poller}.

(** The provider and subnet of a device: the recorded ones, or those of its attributes. *)
Definition nic_identity (claim : ResourceClaim) (res : AllocationResult) (device : Device) :
    result (string * string) :=
  record ← recordedNIC claim res;
  Ok match record with
     | Some r => (Rec_Subnet r, Rec_Provider r)
     | None => (extractSubnetName device (Res_Driver res), extractProvider device (Res_Driver res))
     end.

Lemma validateSecondaryProvider_None provider subnetName :
  validateSecondaryProvider provider subnetName = None ↔
  provider ≠ EmptyString ∧ provider ≠ defaultProvider.
Proof.
  unfold validateSecondaryProvider. rewrite !bool_decide_decide. repeat case_decide; naive_solver.
Qed.

(** The calls a successful request went through. *)
Lemma RequestIPAM_Ok client claim res device iface node cfg :
  RequestIPAM client claim res device iface node = Ok cfg →
  ∃ reads alloc,
    lookupPodForClaim client claim node =
      Ok (Nic_PodName cfg, Nic_PodNamespace cfg, Nic_PodUID cfg, reads) ∧
    nic_identity claim res device = Ok (Nic_SubnetName cfg, Nic_Provider cfg) ∧
    Nic_SubnetName cfg ≠ EmptyString ∧ Nic_Provider cfg ≠ EmptyString ∧ Nic_Provider cfg ≠ defaultProvider ∧
    WaitForAllocation (λ i, client (reads + i)%nat (Nic_PodNamespace cfg) (Nic_PodName cfg))
      (Nic_PodNamespace cfg) (Nic_PodName cfg)
      [Nic_Provider cfg +:+ "." +:+ iface; Nic_Provider cfg] = Ok alloc ∧
    (Nic_IP cfg :: Nic_ExtraIPs cfg, Nic_CIDR cfg, Nic_Gateway cfg) =
      dualStackAddresses (NIC_IP alloc) (NIC_CIDR alloc) (NIC_Gateway alloc) ∧
    Nic_LogicalSwitchPort cfg =
      portName (if decide (NIC_VMName alloc = EmptyString) then Nic_PodName cfg else NIC_VMName alloc)
        (Nic_PodNamespace cfg) (NIC_Provider alloc) ∧
    Nic_MAC cfg = NIC_MAC alloc ∧ Nic_IfaceName cfg = iface ∧ Nic_DeviceName cfg = Res_Device res.
Proof.
  unfold RequestIPAM, nic_identity. rewrite bind_Ok.
  intros ([[[name ns] uid] reads] & Hl%wrap_err_Ok & E).
  apply bind_Ok in E as (record & Hrec & E). rewrite Hrec. simpl.
  destruct (match record with Some _ => _ | None => _ end) as [subnetName provider].
  case_bool_decide as Hs; [done|].
  destruct (validateSecondaryProvider provider subnetName) eqn:Ev; [done|].
  apply validateSecondaryProvider_None in Ev. simpl in E.
  apply bind_Ok in E as (alloc & Ha%wrap_err_Ok & E). apply bind_Ok in E as (routes & _ & E).
  destruct (dualStackAddresses _ _ _) as [[ips cidr] gw] eqn:Ed.
  pose proof (dualStackAddresses_nonempty _ _ _ _ _ _ Ed) as (ip & rest & -> & _).
  injection E as <-. exists reads, alloc. rewrite Ed. simpl. rewrite bool_decide_decide.
  destruct Ev as [Hv Hv']. split_and!; try done. by case_decide.
Qed.

Lemma RequestIPAM_pod client claim res device iface node cfg :
  RequestIPAM client claim res device iface node = Ok cfg →
  ∃ j ref pod, ref ∈ Claim_ReservedFor claim ∧ is_pod_ref ref = true ∧
    client j (Claim_Namespace claim) (Ref_Name ref) = Ok pod ∧
    Pod_Name pod = Nic_PodName cfg ∧ Pod_UID pod = Nic_PodUID cfg ∧ Pod_UID pod = Ref_UID ref ∧
    Pod_NodeName pod = node ∧ alive pod.
Proof.
  intros (reads & alloc & Hl & _)%RequestIPAM_Ok.
  apply lookupPodForClaim_Ok in Hl as (Hns & _ & _ & (pod & Hon & Hname & Huid) & _).
  assert (pod ∈ on_node node (consumers_from client (Nic_PodNamespace cfg) 0
    (pod_refs (Claim_ReservedFor claim)))) as Hin by (rewrite Hon; set_solver).
  apply list_elem_of_filter in Hin as [Hnode (j & ref & Href & Hget & Hu & Hf)%consumers_from_elem].
  apply list_elem_of_filter in Href as [Hpr Href]. exists j, ref, pod. rewrite <- Hns. by split_and!.
Qed.

End request_calls.

Section request_spec.
Context `{PL : PollerLaws}.

Lemma extractAllocation_provider pod p nic : extractAllocation pod p = Some nic → NIC_Provider nic = p.
Proof. by intros (? & _ & _ & ? & _)%extractAllocation_Some. Qed.

(** The provider kube-ovn answered under, by the annotations of the pod. *)
Lemma first_allocation_two pod p q nic :
  first_allocation pod [p; q] = Some nic →
  ∃ r, (r = p ∨ r = q ∧ extractAllocation pod p = None) ∧ extractAllocation pod r = Some nic.
Proof.
  cbn [first_allocation]. destruct (extractAllocation pod p) eqn:Ep; [intros [= <-]; eauto|].
  destruct (extractAllocation pod q) eqn:Eq; intros [= <-]; eauto.
Qed.

Lemma portName_secondary owner ns p iface q :
  p ≠ EmptyString → p ≠ defaultProvider → q = p +:+ "." +:+ iface ∨ q = p →
  portName owner ns q = owner +:+ "." +:+ ns +:+ "." +:+ q.
Proof.
  intros H1 H2 Hq. unfold portName. rewrite !bool_decide_eq_false_2; [done|..]; destruct Hq as [->| ->]; try done.
  - intros E. assert (contains_byte "." (p +:+ "." +:+ iface) = true) as Hc
      by (rewrite contains_byte_app, orb_true_r; done). by rewrite E in Hc.
  - by destruct p.
Qed.

(** C19: a NIC that is resolved belongs to a live pod of this node that the claim is
    reserved for, has an address and a MAC and never uses the default provider.  A read of
    that pod showed the allocation it carries, under the provider with the interface name
    or, when that one has none, under the provider alone: the addresses and the MAC are
    those of that provider's annotations, and the logical switch port is the VM's name
    from them, or the pod's, with the namespace and that provider. *)
Theorem RequestIPAM_sound client claim res device iface node cfg :
  RequestIPAM client claim res device iface node = Ok cfg →
  (∃ j ref pod, ref ∈ Claim_ReservedFor claim ∧ is_pod_ref ref = true ∧
     client j (Claim_Namespace claim) (Ref_Name ref) = Ok pod ∧
     Pod_Name pod = Nic_PodName cfg ∧ Pod_UID pod = Nic_PodUID cfg ∧ Pod_UID pod = Ref_UID ref ∧
     Pod_NodeName pod = node ∧ alive pod) ∧
  Nic_IP cfg ≠ EmptyString ∧ Nic_MAC cfg ≠ EmptyString ∧
  Nic_Provider cfg ≠ EmptyString ∧ Nic_Provider cfg ≠ defaultProvider ∧
  (∃ k pod ann p, client k (Claim_Namespace claim) (Nic_PodName cfg) = Ok pod ∧ Pod_Annotations pod = Some ann ∧
     (p = Nic_Provider cfg +:+ "." +:+ iface ∨
      p = Nic_Provider cfg ∧ extractAllocation pod (Nic_Provider cfg +:+ "." +:+ iface) = None) ∧
     annotation ann (p +:+ ".kubernetes.io/allocated") = "true" ∧
     Nic_MAC cfg = annotation ann (p +:+ ".kubernetes.io/mac_address") ∧
     Nic_IP cfg :: Nic_ExtraIPs cfg =
       (dualStackAddresses (annotation ann (p +:+ ".kubernetes.io/ip_address"))
          (annotation ann (p +:+ ".kubernetes.io/cidr")) (annotation ann (p +:+ ".kubernetes.io/gateway"))).1.1 ∧
     let vm := annotation ann (p +:+ ".kubernetes.io/virtualmachine") in
     Nic_LogicalSwitchPort cfg =
       (if decide (vm = EmptyString) then Nic_PodName cfg else vm) +:+ "." +:+ Claim_Namespace claim +:+ "." +:+ p).
Proof.
  intros HR. split; [by apply RequestIPAM_pod in HR|].
  apply RequestIPAM_Ok in HR as (reads & alloc & Hl & _ & _ & Hp & Hp' & Hw & Hd & Hport & Hmac & _).
  apply lookupPodForClaim_Ok in Hl as (Hns & _). rewrite Hns in *.
  pose proof (WaitForAllocation_complete _ _ _ _ _ Hw) as (Hip & Hm & _).
  symmetry in Hd. pose proof (dualStackAddresses_nonempty _ _ _ _ _ _ Hd) as (ip & rest & [= <- _] & _ & Hne).
  split_and!; [auto|congruence|done|done|].
  apply WaitForAllocation_Ok in Hw as (j & pod & _ & Hget & Hf & _).
  apply first_allocation_two in Hf as (p & Hwhich & Hex).
  pose proof (extractAllocation_provider _ _ _ Hex) as Hpr. rewrite Hpr in Hport.
  rewrite (portName_secondary _ _ (Nic_Provider cfg) iface) in Hport by tauto.
  unfold extractAllocation in Hex. destruct (Pod_Annotations pod) as [ann|] eqn:Ha; [|done].
  destruct (negb _) eqn:Hal; [done|]. apply negb_false_iff, bool_decide_eq_true in Hal.
  destruct (_ || _); [done|]. injection Hex as <-. cbn in *.
  exists (reads + j)%nat, pod, ann, p. split_and!; try done. exact (eq_sym (f_equal (λ x, x.1.1) Hd)).
Qed.

End request_spec.

(** ** Providers longer than an attribute value

    A device attribute longer than the API server's limit is left out, also the
    provider's.  The provider is what the NIC is resolved by, so the devices of such a
    Subnet are published and allocated but never prepared. *)

Section long_provider.
Context `{KL : K8sLaws} `{PL : PollerLaws}.

Lemma Device_attrs_keys s k :
  k ∉ [AttrSubnetName; AttrSubnetType; AttrVlanID; AttrProvider; AttrProviderNetwork; AttrVPC] →
  Device_attrs s !! k = None.
Proof.
  intros Hk. unfold Device_attrs. rewrite !add_attr_ne by set_solver.
  case_decide; rewrite ?lookup_insert_ne by set_solver; by apply lookup_singleton_ne; set_solver.
Qed.

Lemma Device_long_provider s cap driver :
  DeviceAttributeMaxValueLength < str_len (Subnet_Provider s) →
  StringAttribute (Device_of s cap) driver AttrProvider = EmptyString.
Proof.
  intros Hl. unfold StringAttribute, Device_of. simpl.
  assert (Device_attrs s !! AttrProvider = None) as ->.
  { unfold Device_attrs. rewrite add_attr_long by done. rewrite !add_attr_ne by done.
    case_decide; by simplify_map_eq. }
  simpl. rewrite Device_attrs_keys; [done|]. intros Hk.
  assert (contains_byte "/" (driver +:+ "/" +:+ AttrProvider) = true) as Hc
    by (rewrite contains_byte_app, orb_true_r; done).
  rewrite !elem_of_cons in Hk. by destruct Hk as [E|[E|[E|[E|[E|[E|Hk%not_elem_of_nil]]]]]]; rewrite ?E in Hc.
Qed.

(** A Subnet whose provider is longer than an attribute value is published, but no
    claim for its device is ever prepared unless the controller recorded the provider
    on the claim. *)
Theorem long_provider_never_prepared s cap client claim res iface node :
  Publishable s = None → DeviceAttributeMaxValueLength < str_len (Subnet_Provider s) →
  recordedNIC claim res = Ok None →
  is_ok (RequestIPAM client claim res (Device_of s cap) iface node) = false.
Proof.
  intros _ Hl Hr. destruct (RequestIPAM _ _ _ _ _ _) as [cfg|] eqn:E; [|done].
  apply RequestIPAM_Ok in E as (reads & alloc & _ & Hid & _ & Hp & _).
  unfold nic_identity in Hid. rewrite Hr in Hid. simpl in Hid. injection Hid as _ Hid.
  unfold extractProvider in Hid. rewrite Device_long_provider in Hid by done. congruence.
Qed.

End long_provider.

(** ** An example: the source and the target pod of a live migration *)
Module example.

Definition provider : string := "vlan10.kube-system.ovn".

Definition pod (name uid node : string) : Pod := {|
  Pod_Name := name; Pod_UID := uid; Pod_Labels := {[kubevirtVMLabel := "vm1"]};
  Pod_Annotations := Some (list_to_map
    [(tmplAllocated provider, "true"); (tmplIPAddress provider, "10.0.0.5,fd00::5");
     (tmplMACAddress provider, "00:00:00:00:00:05"); (tmplCIDR provider, "10.0.0.0/16,fd00::/64");
     (tmplGateway provider, "10.0.0.1,fd00::1"); (tmplVM provider, "vm1");
     (tmplRoutes provider, q "[{'dst':'10.9.0.0/16','gw':'10.0.0.254'}]")]);
  Pod_NodeName := node; Pod_Phase := PodRunning |}.

Definition client (k : nat) (ns name : string) : result Pod :=
  if bool_decide (name = "launcher-1") then Ok (pod name "u1" "node1")
  else if bool_decide (name = "launcher-2") then Ok (pod name "u2" "node2")
  else Err (NotFound name).

Definition ref (name uid : string) : ConsumerReference :=
  {| Ref_APIGroup := ""; Ref_Resource := "pods"; Ref_Name := name; Ref_UID := uid |}.

Definition claim : ResourceClaim := {|
  Claim_Namespace := "ns"; Claim_Name := "c"; Claim_UID := "claim-1"; Claim_Annotations := ∅;
  Claim_Allocation := None;
  Claim_ReservedFor := [ref "launcher-0" "u0"; ref "launcher-1" "u1"; ref "launcher-2" "u2"] |}.

Definition res : AllocationResult := {|
  Res_Request := "nic"; Res_Driver := "nic.resource.kube-ovn.io"; Res_Pool := "vlan10";
  Res_Device := "subnet-vlan10"; Res_AdminAccess := None; Res_ConsumedCapacity := ∅ |}.

Definition subnet (provider : string) : Subnet := {|
  Subnet_Name := "vlan10"; Subnet_UID := "s1"; Subnet_VlanID := 10; Subnet_Provider := provider;
  Subnet_ProviderNetwork := "pn1"; Subnet_VPC := "ovn-cluster";
  Subnet_V4 := {| Enabled := true; Free := 10; Held := 0; Allocated := 0 |};
  Subnet_V6 := {| Enabled := true; Free := 10; Held := 0; Allocated := 0 |} |}.

End example.

Example migration_target :
  RequestIPAM (P := poller_model 3) example.client example.claim example.res
    (Device_of (K := k8s_model) (example.subnet example.provider) true) "net1" "node2" = Ok {|
    Nic_DeviceName := "subnet-vlan10"; Nic_IfaceName := "net1"; Nic_SubnetName := "vlan10";
    Nic_Provider := example.provider; Nic_PodName := "launcher-2"; Nic_PodNamespace := "ns";
    Nic_PodUID := "u2"; Nic_LogicalSwitchPort := "vm1.ns.vlan10.kube-system.ovn";
    Nic_ExtraIPs := ["fd00::5/64"]; Nic_IP := "10.0.0.5/16"; Nic_MAC := "00:00:00:00:00:05";
    Nic_CIDR := "10.0.0.0/16"; Nic_Gateway := "10.0.0.1"; Nic_VMName := "vm1";
    Nic_Routes := [{| Destination := "10.9.0.0/16"; Route_Gateway := "10.0.0.254" |}];
    Nic_MTU := 0; Nic_OVNDHCP := false |}.
Proof. vm_compute. reflexivity. Qed.

Lemma RequestIPAM_sound_witness :
  ∃ cfg, RequestIPAM (P := poller_model 3) example.client example.claim example.res
    (Device_of (K := k8s_model) (example.subnet example.provider) true) "net1" "node2" = Ok cfg ∧
    Nic_IP cfg ≠ EmptyString.
Proof.
  eexists. split; [vm_compute; reflexivity|].
  refine (proj1 (proj2 (RequestIPAM_sound (PL := poller_model_laws 3) example.client example.claim
    example.res (Device_of (K := k8s_model) (example.subnet example.provider) true) "net1" "node2" _ _))).
  vm_compute. reflexivity.
Defined.

Lemma long_provider_never_prepared_witness :
  is_ok (RequestIPAM (P := poller_model 3) example.client example.claim example.res
    (Device_of (K := k8s_model)
      (example.subnet "a-rather-long-network-attachment-definition-name.some-namespace.ovn") true)
    "net1" "node2") = false.
Proof.
  apply (long_provider_never_prepared (PL := poller_model_laws 3) (KL := k8s_model_laws));
    [vm_compute; reflexivity|vm_compute; lia|vm_compute; reflexivity].
Defined.
