(* ===== verification/Profile.v ===== *)
(** * Device profiles (internal/profiles/profiles.go, internal/profiles/nic/nic.go)

    A profile enumerates the devices of the node and applies the opaque
    configuration of a claim.  The kubelet plugin uses it through the interface
    [Profile]; [nic_profile] is the NIC profile.  Its enumeration also remembers the
    Subnet of every device name, so it passes a state.  An [Api] is what the API
    server answers at one moment. *)

From S2P Require Import Prelude K8s NicConfig Subnet Held Pools Store.

Record Api := {
  list_subnets : result (list Unstructured);
  get_subnet : string → result Unstructured;
  get_vlan : string → result Unstructured;
  get_node : string → result Unstructured;
}.

(** CDI container edits: the program only sets environment variables. *)
Record ContainerEdits := { Env : list string }.

Abbreviation PerDeviceCDIContainerEdits := (gmap string ContainerEdits).

Definition ResultKey (res : AllocationResult) : string := Res_Request res +:+ "/" +:+ Res_Device res.

(** A device as kubelet is told of it. *)
Record KubeletDevice := {
  RequestNames : list string;
  PoolName : string;
  DeviceName_of : string;
  CdiDeviceIds : list string;
}.

Record PreparedDevice := {
  PD_Device : KubeletDevice;
  PD_ContainerEdits : option ContainerEdits;
  PD_AdminAccess : bool;
  PD_NIC : option Spec;
}.

Definition GetDevices (pds : list PreparedDevice) : list KubeletDevice := PD_Device <$> pds.

(** The interface the kubelet plugin programs against.  [ApplyConfig] also returns the
    configuration object, which it may change in place; the last two operations are the
    optional interfaces [mtuResolver] and [dhcpResolver]. *)
Class Profile (S : Type) := {
  EnumerateDevices : Api → S → result DriverResources * S;
  Validate_config : RuntimeObject → option error;
  ApplyConfig : S → option RuntimeObject → list AllocationResult →
                result PerDeviceCDIContainerEdits * option RuntimeObject;
  SubnetMTU : option (Api → S → string → result Z);
  SubnetOVNDHCP : option (Api → S → string → result bool);
}.

(** The configuration of profiles without one. *)
Definition Noop_ApplyConfig (config : option RuntimeObject) : result PerDeviceCDIContainerEdits :=
  match config with
  | Some _ => Err (Errorf "configuration not allowed" [])
  | None => Ok ∅
  end.

(** ** strconv.Atoi *)

Fixpoint atoi_loop (s : string) (n : Z) : option Z :=
  match s with
  | EmptyString => Some n
  | String c s => if is_digit c then atoi_loop s (n * 10 + digit_val c)%Z else None
  end.

Definition Atoi (s : string) : option Z :=
  let digits s := match s with EmptyString => None | _ => atoi_loop s 0%Z end in
  n ← match s with
      | String c s' =>
          if is_byte "-" c then Z.opp <$> digits s'
          else if is_byte "+" c then digits s' else digits s
      | EmptyString => None
      end;
  if decide (i64_min <= n <= i64_max)%Z then Some n else None.

(** ** The NIC profile *)

Definition ProfileName : string := "nic".

Record NicProfile := {
  nodeName : string;
  subnets : gmap string string;
}.

Definition NewProfile (node : string) : NicProfile := {| nodeName := node; subnets := ∅ |}.

Definition store_subnet (p : NicProfile) (device subnet : string) : NicProfile :=
  {| nodeName := nodeName p; subnets := <[device := subnet]> (subnets p) |}.

Definition has_spec (obj : Unstructured) : bool :=
  match as_map (obj_get (Object obj) "spec") with Some _ => true | None => false end.

Section with_packages.
Context `{K : K8s} `{G : GoImpl}.

Definition vlans_of (api : Api) (name : string) : result VlanInfo :=
  vlan ← get_vlan api name; Ok (ParseVlan vlan).

(** A Subnet whose ProviderNetwork, if it has one, is ready on the node. *)
Definition ready_on (labels : gmap string string) (s : Subnet) : bool :=
  bool_decide (Subnet_ProviderNetwork s = EmptyString)
  || bool_decide (default EmptyString (labels !! ReadyLabel (Subnet_ProviderNetwork s)) = "true").

(** The loop over the listed Subnets. *)
Fixpoint enumerate (api : Api) (labels : gmap string string) (objs : list Unstructured)
    (p : NicProfile) (devices : list Device) : result (list Device) * NicProfile :=
  match objs with
  | [] => (Ok devices, p)
  | obj :: objs =>
      if negb (has_spec obj) then enumerate api labels objs p devices
      else
        match ParseSubnet obj (vlans_of api) with
        | Err e => (Err e, p)
        | Ok s =>
            match Publishable s with
            | Some _ => enumerate api labels objs p devices
            | None =>
                if negb (ready_on labels s) then enumerate api labels objs p devices
                else
                  let device := Device_of s false in
                  enumerate api labels objs (store_subnet p (Device_Name device) (Subnet_Name s))
                    (devices ++ [device])
            end
        end
  end.

Definition nic_EnumerateDevices (api : Api) (p : NicProfile) : result DriverResources * NicProfile :=
  match list_subnets api with
  | Err e => (Err (Wrapf "list kube-ovn subnets: %w" [] e), p)
  | Ok objs =>
      match get_node api (nodeName p) with
      | Err e => (Err (Wrapf "get node %s: %w" [nodeName p] e), p)
      | Ok node =>
          match enumerate api (GetLabels node) objs p [] with
          | (Err e, p) => (Err e, p)
          | (Ok devices, p) =>
              (Ok {| Pools_of := {[nodeName p :=
                       {| Pool_Slices := [{| Slice_Devices := devices |}]; Pool_NodeSelector := None |}]} |}, p)
          end
      end
  end.

Definition nic_SubnetOVNDHCP (api : Api) (p : NicProfile) (subnetName : string) : result bool :=
  subnet ← wrap_err "get subnet %s: %w" [subnetName] (get_subnet api subnetName);
  Ok (NestedBool (Object subnet) ["spec"; "enableDHCP"]).

Definition providerNetworkMTULabel (providerNetwork : string) : string :=
  providerNetwork +:+ ".provider-network.kubernetes.io/mtu".

(** [mtu > 0] of a float64 *)
Definition f64_pos (f : f64) : bool :=
  match f with FNaN => false | FInf neg => negb neg | FFin m _ => (0 <? m)%Z end.

(** The MTU of a VLAN underlay Subnet: that of its ProviderNetwork on the node. *)
Definition provider_network_mtu (api : Api) (p : NicProfile) (providerNetwork : string) : result Z :=
  node ← wrap_err "get node %s: %w" [nodeName p] (get_node api (nodeName p));
  let value := default EmptyString (GetLabels node !! providerNetworkMTULabel providerNetwork) in
  if bool_decide (value = EmptyString) then Ok 0%Z
  else
    let invalid := Err (Errorf "invalid MTU %q of provider network %s on node %s"
                          [value; providerNetwork; nodeName p]) in
    match Atoi value with
    | Some mtu => if (mtu <=? 0)%Z then invalid else Ok mtu
    | None => invalid
    end.

Definition nic_SubnetMTU (api : Api) (p : NicProfile) (subnetName : string) : result Z :=
  subnet ← wrap_err "get subnet %s: %w" [subnetName] (get_subnet api subnetName);
  let obj := Object subnet in
  if (0 <? NestedInt64 obj ["spec"; "mtu"])%Z then Ok (NestedInt64 obj ["spec"; "mtu"])
  else if f64_pos (NestedFloat64 obj ["spec"; "mtu"]) then Ok (f64_to_i64 (NestedFloat64 obj ["spec"; "mtu"]))
  else
    let vlanName := NestedString obj ["spec"; "vlan"] in
    if bool_decide (vlanName = EmptyString) || NestedBool obj ["spec"; "logicalGateway"]
       || NestedBool obj ["spec"; "u2oInterconnection"]
    then Ok 0%Z
    else
      vlan ← wrap_err "get vlan %s of subnet %s: %w" [vlanName; subnetName] (get_vlan api vlanName);
      let providerNetwork := Vlan_Provider (ParseVlan vlan) in
      if bool_decide (providerNetwork = EmptyString) then Ok 0%Z
      else provider_network_mtu api p providerNetwork.

Definition nic_Validate (config : RuntimeObject) : option error :=
  match config with
  | ObjNicConfig c => NicConfig.Validate c
  | ObjOther kind => Some (Errorf "expected v1alpha1.NicConfig but got: %T" [kind])
  end.

(** Upper case, then every byte outside [A-Z0-9_] becomes an underscore. *)
Definition env_char (c : ascii) : bool := is_upper c || is_digit c || is_byte "_" c.
Definition envKey (ifaceName : string) : string :=
  str_map (λ c, if env_char c then c else "_"%char) (to_upper ifaceName).

Definition subnetNameFromDevice (p : NicProfile) (deviceName : string) : string :=
  default (trim_prefix deviceName DeviceNamePrefix) (subnets p !! deviceName).

Definition nic_envs (p : NicProfile) (ifaceName : string) (res : AllocationResult) : list string :=
  ["KUBE_OVN_NIC_" +:+ envKey ifaceName +:+ "_SUBNET=" +:+ subnetNameFromDevice p (Res_Device res);
   "KUBE_OVN_NIC_" +:+ envKey ifaceName +:+ "_DEVICE=" +:+ Res_Device res].

(** Edits of the results under one configuration. *)
Definition nic_edits (p : NicProfile) (c : NicConfig) (results : list AllocationResult) :
    PerDeviceCDIContainerEdits :=
  foldl (λ edits res, <[ResultKey res := {| Env := nic_envs p (InterfaceName c) res |}]> edits) ∅ results.

Definition nic_ApplyConfig (p : NicProfile) (config : option RuntimeObject)
    (results : list AllocationResult) : result PerDeviceCDIContainerEdits * option RuntimeObject :=
  match default (ObjNicConfig DefaultNicConfig) config with
  | ObjOther kind => (Err (Errorf "runtime object is not a recognized NicConfig" []), config)
  | ObjNicConfig c =>
      let c := Normalize c in
      (Ok (nic_edits p c results),
       match config with Some _ => Some (ObjNicConfig c) | None => None end)
  end.

#[export] Instance nic_profile : Profile NicProfile := {|
  EnumerateDevices := nic_EnumerateDevices;
  Validate_config := nic_Validate;
  ApplyConfig := nic_ApplyConfig;
  SubnetMTU := Some nic_SubnetMTU;
  SubnetOVNDHCP := Some nic_SubnetOVNDHCP;
|}.

End with_packages.

(** ** Properties *)

Lemma ready_on_spec labels s :
  ready_on labels s = true ↔
  Subnet_ProviderNetwork s = EmptyString ∨ labels !! ReadyLabel (Subnet_ProviderNetwork s) = Some "true".
Proof.
  unfold ready_on. rewrite orb_true_iff, !bool_decide_eq_true.
  destruct (labels !! _) as [v|]; simpl; naive_solver.
Qed.

Section enumeration.
Context `{K : K8s} `{G : GoImpl}.

(** Whether the node publishes a parsed Subnet. *)
Definition published_on (labels : gmap string string) (s : Subnet) : Prop :=
  Publishable s = None ∧ ready_on labels s = true.
#[global] Instance published_on_dec labels s : Decision (published_on labels s).
Proof. unfold published_on. destruct (Publishable s); [right; naive_solver|]. apply and_dec; apply _. Defined.

(** The Subnets behind the listed objects. *)
Definition parsed (api : Api) (objs : list Unstructured) (ss : list Subnet) : Prop :=
  Forall2 (λ obj s, ParseSubnet obj (vlans_of api) = Ok s) (filter (λ o, has_spec o = true) objs) ss.

Definition remember (p : NicProfile) (s : Subnet) : NicProfile :=
  store_subnet p (DeviceName (Subnet_Name s)) (Subnet_Name s).

Lemma enumerate_Ok api labels objs p devs devs' p' :
  enumerate api labels objs p devs = (Ok devs', p') →
  ∃ ss, parsed api objs ss ∧
    devs' = devs ++ ((λ s, Device_of s false) <$> filter (published_on labels) ss) ∧
    p' = foldl remember p (filter (published_on labels) ss).
Proof.
  unfold parsed. revert p devs. induction objs as [|obj objs IH]; intros p devs; simpl.
  { intros [= <- <-]. exists []. by rewrite app_nil_r. }
  rewrite filter_cons. destruct (has_spec obj); simpl; [|apply IH].
  destruct (ParseSubnet obj _) as [s|e] eqn:Ep; [|done]. intros E.
  destruct (decide (published_on labels s)) as [Hp|Hp].
  - destruct Hp as [Hp Hr]. rewrite Hp, Hr in E. simpl in E.
    destruct (IH _ _ E) as (ss & Hss & -> & ->). exists (s :: ss). split; [by constructor|].
    rewrite filter_cons_True by done. by rewrite <- (assoc_L (++)).
  - assert (enumerate api labels objs p devs = (Ok devs', p')) as E'.
    { unfold published_on in Hp. destruct (Publishable s); [done|].
      destruct (ready_on labels s); [|done]. by destruct Hp. }
    destruct (IH _ _ E') as (ss & Hss & -> & ->). exists (s :: ss). split; [by constructor|].
    by rewrite filter_cons_False.
Qed.

Lemma nic_EnumerateDevices_Ok api p r p' :
  nic_EnumerateDevices api p = (Ok r, p') →
  ∃ objs node ss, list_subnets api = Ok objs ∧ get_node api (nodeName p) = Ok node ∧ parsed api objs ss ∧
    let pub := filter (published_on (GetLabels node)) ss in
    Pools_of r = {[nodeName p' := {| Pool_Slices := [{| Slice_Devices := (λ s, Device_of s false) <$> pub |}];
                                     Pool_NodeSelector := None |}]} ∧
    p' = foldl remember p pub.
Proof.
  unfold nic_EnumerateDevices. destruct (list_subnets api) as [objs|]; [|done].
  destruct (get_node api (nodeName p)) as [node|]; [|done].
  destruct (enumerate _ _ _ _ _) as [[devs|] q] eqn:E; [|done]. intros [= <- <-].
  apply enumerate_Ok in E as (ss & Hss & -> & ->). exists objs, node, ss. by split_and!.
Qed.

Lemma remember_node p ss : nodeName (foldl remember p ss) = nodeName p.
Proof. revert p. induction ss as [|s ss IH]; intros p; simpl; [done|]. by rewrite IH. Qed.

(** The Subnets with other counters. *)
Definition recounted (ss cs : list Subnet) : Prop :=
  Forall2 (λ s c, c = set_families s (Subnet_V4 c) (Subnet_V6 c)) ss cs.

Lemma recounted_names ss cs : recounted ss cs → Subnet_Name <$> cs = Subnet_Name <$> ss.
Proof. induction 1 as [|s c ss cs -> _ IH]; [done|]. by rewrite !fmap_cons, IH. Qed.

Lemma Pool_for_devices s cap :
  pool_devices (Pool_for s cap) = if cap && Exhausted s then [] else [Device_of s cap].
Proof. unfold pool_devices, Pool_for. simpl. by destruct cap, (Exhausted s). Qed.


(** In the node publish mode one Subnet that does not parse, for example because its
    Vlan is missing, keeps every device of the node from being enumerated. *)
Theorem bad_subnet_blocks_node api p objs u e :
  list_subnets api = Ok objs → u ∈ objs → has_spec u = true → ParseSubnet u (vlans_of api) = Err e →
  is_ok (nic_EnumerateDevices api p).1 = false.
Proof.
  intros Ho Hu Hs He. destruct (nic_EnumerateDevices api p) as [[r|] p'] eqn:E; [|done].
  apply nic_EnumerateDevices_Ok in E as (objs' & node & ss & Ho' & _ & Hp & _).
  rewrite Ho in Ho'. injection Ho' as <-. assert (u ∈ filter (λ o, has_spec o = true) objs) as Hin
    by (by apply list_elem_of_filter).
  apply list_elem_of_lookup in Hin as [i Hi]. destruct (Forall2_lookup_l _ _ _ _ _ Hp Hi) as (t & _ & Ht).
  congruence.
Qed.

Lemma remember_ne p ss d :
  d ∉ (λ s, DeviceName (Subnet_Name s)) <$> ss → subnets (foldl remember p ss) !! d = subnets p !! d.
Proof.
  revert p. induction ss as [|s ss IH]; intros p; simpl; [done|].
  rewrite not_elem_of_cons. intros [Hd Hss]. rewrite IH by done. simpl. by rewrite lookup_insert_ne.
Qed.

Lemma remember_lookup p ss s :
  NoDup ((λ s, DeviceName (Subnet_Name s)) <$> ss) → s ∈ ss →
  subnets (foldl remember p ss) !! DeviceName (Subnet_Name s) = Some (Subnet_Name s).
Proof.
  revert p. induction ss as [|t ss IH]; intros p; simpl; [set_solver|].
  rewrite NoDup_cons, elem_of_cons. intros [Ht Hnd] [->|Hs]; [|auto].
  rewrite remember_ne by done. simpl. by rewrite lookup_insert_eq.
Qed.

(** After an enumeration in which device names are distinct, the Subnet the
    profile names for a device in the container's environment is the one the device's
    attribute names, which the address is allocated from. *)
Lemma EnumerateDevices_names_subnet api p r p' pool d driver :
  nic_EnumerateDevices api p = (Ok r, p') → Pools_of r !! nodeName p = Some pool →
  NoDup (Device_Name <$> pool_devices pool) → d ∈ pool_devices pool →
  subnetNameFromDevice p' (Device_Name d) = StringAttribute d driver AttrSubnetName.
Proof.
  intros (objs & node & ss & _ & _ & _ & Hr & ->)%nic_EnumerateDevices_Ok Hpool Hnd Hd.
  simpl in Hr. rewrite remember_node in Hr. rewrite Hr, lookup_singleton_eq in Hpool. injection Hpool as <-.
  unfold pool_devices in Hnd, Hd. simpl in Hnd, Hd. rewrite app_nil_r in Hnd, Hd.
  apply list_elem_of_fmap in Hd as (s & -> & Hs). rewrite Device_subnetName. simpl.
  unfold subnetNameFromDevice. rewrite remember_lookup; [done| |done].
  by rewrite <- list_fmap_compose in Hnd.
Qed.

End enumeration.

(** ** Result keys *)

Lemma contains_byte_mid c a b : contains_byte c (a +:+ String c b) = true.
Proof. rewrite contains_byte_app. simpl. by rewrite bool_decide_true, orb_true_r. Qed.

Lemma ResultKey_inj r r' :
  contains_byte "/" (Res_Device r) = false → contains_byte "/" (Res_Device r') = false →
  ResultKey r = ResultKey r' → Res_Request r = Res_Request r' ∧ Res_Device r = Res_Device r'.
Proof.
  unfold ResultKey. generalize (Res_Request r) (Res_Request r') (Res_Device r) (Res_Device r').
  intros q q' d d' Hd Hd'. rewrite !str_app_cons, !str_app_nil. revert q'.
  induction q as [|c q IH]; intros [|c' q'].
  - rewrite !str_app_nil. by intros [= ->].
  - rewrite str_app_nil, str_app_cons. intros [= <- ->].
    by rewrite contains_byte_mid in Hd.
  - rewrite str_app_nil, str_app_cons. intros [= -> <-].
    by rewrite contains_byte_mid in Hd'.
  - rewrite !str_app_cons. intros [= -> E]. by destruct (IH _ E) as [-> ->].
Qed.

(** The edits of a result are those of its own device, also when another result of the
    claim is for the same device. *)
Lemma nic_edits_lookup p c results res :
  res ∈ results → Forall (λ r, contains_byte "/" (Res_Device r) = false) results →
  nic_edits p c results !! ResultKey res = Some {| Env := nic_envs p (InterfaceName c) res |}.
Proof.
  unfold nic_edits. induction results as [|r results IH] using rev_ind; [set_solver|].
  rewrite elem_of_app, Forall_app, foldl_app. intros Hin [Hall Hr]. rewrite Forall_singleton in Hr. simpl.
  destruct (decide (ResultKey r = ResultKey res)) as [E|E].
  - rewrite E, lookup_insert_eq. assert (Res_Device r = Res_Device res) as Hd.
    { apply (ResultKey_inj r res Hr); [|done]. rewrite Forall_forall in Hall.
      destruct Hin as [Hin| ->%list_elem_of_singleton]; auto. }
    unfold nic_envs. by rewrite Hd.
  - rewrite lookup_insert_ne by done. apply IH; [|done]. set_solver.
Qed.

(** ** An example: one overlay and two underlay Subnets, one of them ready on the node *)
Module example.

Definition subnet (name vlan : string) : Unstructured := {|
  GetName := name; GetUID := name; GetLabels := ∅;
  Object := [("spec", VMap [("provider", VString (name +:+ ".default.ovn")); ("vlan", VString vlan);
                            ("cidrBlock", VString "10.0.0.0/24")])] |}.
Definition vlan (name : string) : Unstructured := {|
  GetName := name; GetUID := name; GetLabels := ∅;
  Object := [("spec", VMap [("id", VInt64 10); ("provider", VString ("pn-" +:+ name))])] |}.
Definition node : Unstructured := {|
  GetName := "node1"; GetUID := "n"; Object := [];
  GetLabels := {["pn-v1.provider-network.kubernetes.io/ready" := "true"]} |}.

Definition api : Api := {|
  list_subnets := Ok [subnet "a" ""; subnet "b" "v1"; subnet "c" "v2"];
  get_subnet n := Ok (subnet n "");
  get_vlan n := Ok (vlan n);
  get_node _ := Ok node |}.

Definition subnet_of (name : string) (vid : Z) (pn : string) : Subnet := {|
  Subnet_Name := name; Subnet_UID := name; Subnet_Provider := name +:+ ".default.ovn"; Subnet_VPC := "";
  Subnet_VlanID := vid; Subnet_ProviderNetwork := pn;
  Subnet_V4 := {| Enabled := true; Free := 0; Held := 0; Allocated := 0 |};
  Subnet_V6 := Family_zero |}.

Definition enumerated : DriverResources := {|
  Pools_of := {["node1" := {|
    Pool_Slices := [{| Slice_Devices := [Device_of (K := k8s_model) (subnet_of "a" 0 "") false;
                                         Device_of (K := k8s_model) (subnet_of "b" 10 "pn-v1") false] |}];
    Pool_NodeSelector := None |}]} |}.

End example.

Example enumerate_example :
  (nic_EnumerateDevices (K := k8s_model) (G := go_model) example.api (NewProfile "node1")).1
  = Ok example.enumerated.
Proof. vm_compute. reflexivity. Qed.

(** The Subnets a and c as the publisher counts them: a has addresses left, c has none. *)
Definition counted : list Subnet :=
  (λ s, set_families s {| Enabled := true; Free := if bool_decide (Subnet_Name s = "c") then 0 else 5; Held := 0; Allocated := 0 |}
          Family_zero) <$>
  [example.subnet_of "a" 0 ""; example.subnet_of "b" 10 "pn-v1"; example.subnet_of "c" 10 "pn-v2"].


(** The Vlan of Subnet b is gone. *)
Definition api_without_vlan : Api := {|
  list_subnets := list_subnets example.api; get_subnet := get_subnet example.api;
  get_vlan n := Err (NotFound n); get_node := get_node example.api |}.

Lemma bad_subnet_blocks_node_witness :
  is_ok (nic_EnumerateDevices (K := k8s_model) (G := go_model) api_without_vlan (NewProfile "node1")).1 = false.
Proof.
  eapply (bad_subnet_blocks_node (K := k8s_model) (G := go_model) api_without_vlan (NewProfile "node1") _
    (example.subnet "b" "v1")); [vm_compute; reflexivity|right; left|vm_compute; reflexivity..].
Defined.
