(* ===== verification/Snapshot.v ===== *)
(** * The central publisher's snapshot (cmd/kube-ovn-dra-kubeletplugin/publisher.go)

    The publisher turns the informer stores into pools, one per Subnet, and reports
    Subnets without a free address with an Event.  A store lists its objects in any
    order; objects of another type than the informer's are [None]. *)

From S2P Require Import Prelude K8s Subnet Held Pools Profile.

(** An Event on a Subnet. *)
Inductive SubnetEvent :=
  | SubnetFull (name : string)
  | SubnetAvailable (name : string).

Section with_packages.
Context `{K : K8s} `{G : GoImpl}.

Record snapshotter := {
  snap_driverName : string;
  snap_capacity : bool;
  snap_subnets : list (option Unstructured);
  snap_vlans : string → result (option (option Unstructured));
  snap_ips : list (option Unstructured);
  snap_claims : list (option ResourceClaim);
  snap_owners : OwnersOf;
}.

(** The Vlan of a Subnet, from the informer's store. *)
Definition snap_vlan (s : snapshotter) (name : string) : result VlanInfo :=
  match snap_vlans s name with
  | Err e => Err e
  | Ok None => Err (NotFound name)
  | Ok (Some None) => Err (Errorf "vlan %q has unexpected type %T" [name])
  | Ok (Some (Some u)) => Ok (ParseVlan u)
  end.

(** The Subnet of an object, if it is to be published. *)
Definition snap_subnet (s : snapshotter) (obj : option Unstructured) : option Subnet :=
  match obj with
  | None => None
  | Some u =>
      if negb (has_spec u) then None
      else match ParseSubnet u (snap_vlan s) with
           | Err _ => None
           | Ok subnet => match Publishable subnet with Some _ => None | None => Some subnet end
           end
  end.

(** [sort.Slice] by name; a cluster's Subnets have distinct names, so the order of
    equal ones does not matter. *)
Definition name_le (s t : Subnet) : Prop := String.leb (Subnet_Name s) (Subnet_Name t) = true.
#[global] Instance name_le_dec s t : Decision (name_le s t).
Proof. unfold name_le. apply _. Defined.

Definition snap_sorted (s : snapshotter) : list Subnet :=
  merge_sort name_le (omap (snap_subnet s) (snap_subnets s)).

Definition snap_iprefs (s : snapshotter) : list IPRef :=
  omap (λ obj, match obj with
               | Some u => let '(ref, ok) := ParseIPObject u in if ok then Some ref else None
               | None => None
               end) (snap_ips s).

(** The Subnets with their held addresses, when capacities are published. *)
Definition snap_counted (s : snapshotter) : list Subnet :=
  if snap_capacity s
  then ApplyHeld (snap_sorted s) (snap_driverName s) (omap id (snap_claims s)) (snap_iprefs s) (snap_owners s)
  else snap_sorted s.

(** ** Events on full Subnets *)

(** The loop of [update]: the new set and the events, in order. *)
Fixpoint update_loop (old : gset string) (subnets : list Subnet) (full : gset string) :
    gset string * list SubnetEvent :=
  match subnets with
  | [] => (full, [])
  | s :: subnets =>
      if Full s then
        let '(full, events) := update_loop old subnets ({[Subnet_Name s]} ∪ full) in
        (full, if decide (Subnet_Name s ∈ old) then events else SubnetFull (Subnet_Name s) :: events)
      else if decide (Subnet_Name s ∈ old) then
        let '(full, events) := update_loop old subnets full in
        (full, SubnetAvailable (Subnet_Name s) :: events)
      else update_loop old subnets full
  end.

Definition fullSubnets_update (full : gset string) (subnets : list Subnet) : gset string * list SubnetEvent :=
  update_loop full subnets ∅.

(** The pools, and what the tracker of full Subnets, if there is one, becomes and records. *)
Definition resources (s : snapshotter) (full : option (gset string)) :
    DriverResources * option (gset string) * list SubnetEvent :=
  let subnets := snap_counted s in
  let '(full, events) :=
    match snap_capacity s, full with
    | true, Some f => let '(f, events) := fullSubnets_update f subnets in (Some f, events)
    | _, full => (full, [])
    end in
  ({| Pools_of := Pools subnets (snap_capacity s) |}, full, events).

End with_packages.
Arguments snapshotter : clear implicits.

(** ** The names of a pod's addresses

    [now] is the clock in nanoseconds; the cache keeps an answer for [podOwnersTTL]. *)
Definition podOwnersTTL : Z := 60000000000.

Record podOwnersEntry := { entry_names : list string; entry_expires : Z }.

Definition owners (cache : gmap string podOwnersEntry) (now now' : Z) (get : string → string → result Pod)
    (namespace pod : string) : list string * gmap string podOwnersEntry :=
  let key := namespace +:+ "/" +:+ pod in
  let cached := match cache !! key with
                | Some e => if (now <? entry_expires e)%Z then Some (entry_names e) else None
                | None => None
                end in
  match cached with
  | Some names => (names, cache)
  | None =>
      let store names := (names, <[key := {| entry_names := names; entry_expires := (now' + podOwnersTTL)%Z |}]> cache) in
      match get namespace pod with
      | Ok got =>
          let vm := default EmptyString (Pod_Labels got !! "vm.kubevirt.io/name") in
          store (pod :: if bool_decide (vm = EmptyString) then [] else [vm])
      | Err e => if IsNotFound e then store [pod] else ([pod], cache)
      end
  end.

(** ** Properties *)

Section properties.
Context `{K : K8s} `{G : GoImpl}.
Implicit Types s : snapshotter.

(** The Subnets the publisher publishes. *)
Definition published s : list Subnet := omap (snap_subnet s) (snap_subnets s).

(** What a Subnet is published as: with its held addresses when capacities are on. *)
Definition counted s (t : Subnet) : Subnet :=
  if snap_capacity s
  then spec_subnet (snap_driverName s) (omap id (snap_claims s)) (snap_iprefs s) (snap_owners s) t
  else t.

Lemma sorted_perm s : snap_sorted s ≡ₚ published s.
Proof. apply merge_sort_Permutation. Qed.

Lemma snap_counted_spec s :
  NoDup (Subnet_Name <$> published s) → snap_counted s = counted s <$> snap_sorted s.
Proof.
  intros Hnd. unfold snap_counted, counted. destruct (snap_capacity s); [|by rewrite list_fmap_id].
  apply ApplyHeld_spec. by rewrite sorted_perm.
Qed.

Lemma counted_name s t : Subnet_Name (counted s t) = Subnet_Name t.
Proof. unfold counted. by destruct (snap_capacity s). Qed.

Lemma snap_counted_names s :
  NoDup (Subnet_Name <$> published s) → NoDup (Subnet_Name <$> snap_counted s).
Proof.
  intros Hnd. rewrite snap_counted_spec by done. rewrite <- list_fmap_compose.
  rewrite (list_fmap_ext _ Subnet_Name (snap_sorted s)) by (intros; apply counted_name).
  by rewrite sorted_perm.
Qed.

Lemma published_elem s t :
  t ∈ published s ↔ ∃ u, Some u ∈ snap_subnets s ∧ has_spec u = true ∧
    ParseSubnet u (snap_vlan s) = Ok t ∧ Publishable t = None.
Proof.
  unfold published. rewrite list_elem_of_omap. split.
  - intros ([u|] & Hu & Hs); [|done]. exists u. split; [done|]. simpl in Hs.
    destruct (has_spec u); [|done]. simpl in Hs. destruct (ParseSubnet u _) as [t'|]; [|done].
    destruct (Publishable t') eqn:E; [done|]. by injection Hs as ->.
  - intros (u & Hu & Hsp & Hp & Hpub). exists (Some u). split; [done|]. simpl. by rewrite Hsp, Hp, Hpub.
Qed.

(** C35: the publisher publishes one pool for every Subnet that parses and can back a NIC,
    and no other, whatever the order of the informer stores and maps: the pool of the
    Subnet with its addresses counted as the specification counts them. A Subnet that
    does not parse, for example because its Vlan is missing, only leaves out its own pool. *)
Theorem resources_pools s full name p :
  NoDup (Subnet_Name <$> published s) →
  Pools_of (resources s full).1.1 !! name = Some p ↔
  ∃ u t, Some u ∈ snap_subnets s ∧ has_spec u = true ∧ ParseSubnet u (snap_vlan s) = Ok t ∧
    Publishable t = None ∧ Subnet_Name t = name ∧ p = Pool_for (counted s t) (snap_capacity s).
Proof.
  intros Hnd. assert (Pools_of (resources s full).1.1 = Pools (snap_counted s) (snap_capacity s)) as ->.
  { unfold resources. destruct (snap_capacity s), full; [|done..]. by destruct (fullSubnets_update _ _). }
  rewrite Pools_lookup by (by apply snap_counted_names). rewrite snap_counted_spec by done.
  setoid_rewrite list_elem_of_fmap. setoid_rewrite sorted_perm. setoid_rewrite published_elem. split.
  - intros (t' & (t & -> & u & Hu & Hsp & Hp & Hpub) & <- & ->). exists u, t. by rewrite counted_name.
  - intros (u & t & Hu & Hsp & Hp & Hpub & <- & ->). exists (counted s t). rewrite counted_name.
    split; [|done]. exists t. eauto 10.
Qed.

(** ** Events *)

(** Some Subnet of that name is full, or not. *)
Definition some_full (b : bool) (n : string) (subnets : list Subnet) : Prop :=
  ∃ t, t ∈ subnets ∧ Subnet_Name t = n ∧ Full t = b.

Lemma some_full_cons b n t subnets :
  some_full b n (t :: subnets) ↔ (Subnet_Name t = n ∧ Full t = b) ∨ some_full b n subnets.
Proof.
  unfold some_full. setoid_rewrite elem_of_cons. split.
  - intros (t' & [->|Ht'] & Hn & Hf); [by left|right; eauto].
  - intros [[Hn Hf]|(t' & Ht' & Hn & Hf)]; eauto.
Qed.

Lemma some_full_nil b n : some_full b n [] ↔ False.
Proof. split; [|done]. by intros (t & Ht%not_elem_of_nil & _). Qed.

Lemma update_loop_spec old subnets full full' events :
  update_loop old subnets full = (full', events) → NoDup (Subnet_Name <$> subnets) →
  (∀ n, n ∈ full' ↔ n ∈ full ∨ some_full true n subnets) ∧
  (∀ n, SubnetFull n ∈ events ↔ (n ∉ old) ∧ some_full true n subnets) ∧
  (∀ n, SubnetAvailable n ∈ events ↔ n ∈ old ∧ some_full false n subnets) ∧
  NoDup events.
Proof.
  revert full events. induction subnets as [|t subnets IH]; intros full events; cbn [update_loop].
  { intros [= <- <-] _. setoid_rewrite some_full_nil. setoid_rewrite elem_of_nil. split_and!; [tauto..|constructor]. }
  intros E. rewrite fmap_cons, NoDup_cons. intros [Ht Hnd].
  assert (∀ b, ¬ some_full b (Subnet_Name t) subnets) as Hfresh.
  { intros b (t' & Ht' & Hn & _). apply Ht. rewrite <- Hn. by apply list_elem_of_fmap_2. }
  setoid_rewrite some_full_cons. destruct (Full t) eqn:Hf.
  - destruct (update_loop old subnets _) as [f evs] eqn:El. injection E as <- <-.
    destruct (IH _ _ El Hnd) as (H1 & H2 & H3 & H4). setoid_rewrite elem_of_union in H1.
    setoid_rewrite elem_of_singleton in H1. split_and!.
    + intros n. rewrite H1. naive_solver.
    + intros n. case_decide; rewrite ?elem_of_cons, H2; naive_solver.
    + intros n. case_decide; rewrite ?elem_of_cons, H3; naive_solver.
    + case_decide; [done|]. constructor; [|done]. rewrite H2. intros [_ Hx]. by apply (Hfresh true).
  - case_decide as Ho.
    + destruct (update_loop old subnets full) as [f evs] eqn:El. injection E as <- <-.
      destruct (IH _ _ El Hnd) as (H1 & H2 & H3 & H4). split_and!.
      * intros n. rewrite H1. naive_solver.
      * intros n. rewrite elem_of_cons, H2. naive_solver.
      * intros n. rewrite elem_of_cons, H3. naive_solver.
      * constructor; [|done]. rewrite H3. intros [_ Hx]. by apply (Hfresh false).
    + destruct (IH _ _ E Hnd) as (H1 & H2 & H3 & H4). split_and!; [| | |done]; intros n;
        rewrite ?H1, ?H2, ?H3; naive_solver.
Qed.

(** A snapshot records an Event for a Subnet exactly when its being full changed
    since the last one, and at most one; afterwards the tracker holds exactly the full
    Subnets of the snapshot. *)
Theorem fullSubnets_events full subnets full' events :
  fullSubnets_update full subnets = (full', events) → NoDup (Subnet_Name <$> subnets) →
  (∀ n, n ∈ full' ↔ some_full true n subnets) ∧
  (∀ n, SubnetFull n ∈ events ↔ n ∈ full' ∧ n ∉ full) ∧
  (∀ n, SubnetAvailable n ∈ events ↔ n ∈ full ∧ some_full false n subnets) ∧
  NoDup events.
Proof.
  intros E Hnd. destruct (update_loop_spec _ _ _ _ _ E Hnd) as (H1 & H2 & H3 & H4).
  assert (∀ n, n ∈ full' ↔ some_full true n subnets) as H1'.
  { intros n. rewrite H1. split; [intros [Hn%not_elem_of_empty|]; done|by right]. }
  split_and!; [done| |done|done]. intros n. rewrite H2, H1'. tauto.
Qed.

End properties.

(** ** An example: one Subnet without free addresses, one whose Vlan is missing *)
Module example.

Definition snap : snapshotter := {|
  snap_driverName := "nic.resource.kube-ovn.io"; snap_capacity := true;
  snap_subnets := [Some (Profile.example.subnet "b" "v9"); None; Some (Profile.example.subnet "a" "")];
  snap_vlans _ := Ok None; snap_ips := []; snap_claims := []; snap_owners _ pod := [pod] |}.

End example.

Lemma resources_pools_witness :
  Pools_of (resources (K := k8s_model) (G := go_model) example.snap (Some ∅)).1.1 !! "a" =
  Some (Pool_for (K := k8s_model)
    (counted (K := k8s_model) example.snap (Profile.example.subnet_of "a" 0 "")) true).
Proof.
  apply (resources_pools (K := k8s_model) (G := go_model) example.snap (Some ∅)).
  - vm_compute. apply NoDup_singleton.
  - exists (Profile.example.subnet "a" ""), (Profile.example.subnet_of "a" 0 "").
    split; [right; right; left|]. repeat split; vm_compute; reflexivity.
Defined.

Lemma fullSubnets_events_witness :
  (∀ n, SubnetFull n ∈ [SubnetFull "a"] ↔ n ∈ ({["a"]} : gset string) ∧ n ∉ (∅ : gset string)) ∧
  NoDup [SubnetFull "a"].
Proof.
  destruct (fullSubnets_events ∅ [Profile.example.subnet_of "a" 0 ""] {["a"]} [SubnetFull "a"])
    as (_ & Hf & _ & Hn).
  - vm_compute. reflexivity.
  - apply NoDup_singleton.
  - split; [exact Hf|exact Hn].
Defined.
