(* ===== verification/Cdi.v ===== *)
(** * CDI spec files (cmd/kube-ovn-dra-kubeletplugin/cdi.go)

    Every prepared claim has a CDI spec file with one device per allocation result.
    The CDI package is third-party: naming, versioning and the cache that writes and
    removes files are operations of the class [CDI]; the files are a map from spec name
    to content. *)

From S2P Require Import Prelude K8s Profile.

Record CDIDevice := { CDIDevice_Name : string; CDIDevice_Edits : ContainerEdits }.
Record CDISpec := { CDI_Kind : string; CDI_Devices : list CDIDevice; CDI_Version : string }.

Class CDI := {
  QualifiedName : string → string → string → string;
  GenerateTransientSpecName : string → string → string → string;
  GenerateNameForTransientSpec : CDISpec → string → result string;
  MinimumRequiredVersion : CDISpec → result string;
  (** the error of writing a spec file or of removing one, given the files *)
  WriteSpec : gmap string CDISpec → CDISpec → string → option error;
  RemoveSpec : gmap string CDISpec → string → option error;
  (** os.Getenv of NODE_NAME *)
  NODE_NAME : string;
}.

Definition cdiCommonDeviceName : string := "common".

(** The bytes [[a-zA-Z0-9]]; runs of others are replaced. *)
Definition is_word (c : ascii) : bool := is_lower c || is_upper c || is_digit c.
Definition non_word (c : ascii) : bool := negb (is_word c).
Definition replace_non_word (repl : ascii) (s : string) : string := replace_runs non_word repl false s.

Record CDIHandler := { cdi_driverName : string; cdi_class : string }.

Definition vendor (cdi : CDIHandler) : string := "k8s." +:+ cdi_driverName cdi.
Definition kind (cdi : CDIHandler) : string := vendor cdi +:+ "/" +:+ cdi_class cdi.

Definition claimDeviceName (claimUID request device : string) : string :=
  claimUID +:+ "-" +:+ replace_non_word "-" request +:+ "-" +:+ device.

Definition Append (e : ContainerEdits) (o : option ContainerEdits) : ContainerEdits :=
  match o with Some e' => {| Env := Env e ++ Env e' |} | None => e end.

Section with_cdi.
Context `{C : CDI}.

Definition write_spec (files : gmap string CDISpec) (spec : CDISpec) (name : string) :
    option error * gmap string CDISpec :=
  match WriteSpec files spec name with
  | Some e => (Some e, files)
  | None => (None, <[name := spec]> files)
  end.

Definition with_version (spec : CDISpec) : result CDISpec :=
  v ← wrap_err "failed to get minimum required CDI spec version: %w" [] (MinimumRequiredVersion spec);
  Ok {| CDI_Kind := CDI_Kind spec; CDI_Devices := CDI_Devices spec; CDI_Version := v |}.

Definition CreateCommonSpecFile (cdi : CDIHandler) (files : gmap string CDISpec) :
    option error * gmap string CDISpec :=
  let spec := {| CDI_Kind := kind cdi;
                 CDI_Devices := [{| CDIDevice_Name := cdiCommonDeviceName;
                                    CDIDevice_Edits := {| Env :=
                                      ["KUBERNETES_NODE_NAME=" +:+ NODE_NAME;
                                       "DRA_RESOURCE_DRIVER_NAME=" +:+ cdi_driverName cdi] |} |}];
                 CDI_Version := EmptyString |} in
  match with_version spec with
  | Err e => (Some e, files)
  | Ok spec =>
      match GenerateNameForTransientSpec spec cdiCommonDeviceName with
      | Err e => (Some (Wrapf "failed to generate Spec name: %w" [] e), files)
      | Ok name => write_spec files spec name
      end
  end.

(** The CDI device of one prepared device. *)
Definition claim_cdi_device (cdi : CDIHandler) (claimUID : string) (pd : PreparedDevice) : CDIDevice :=
  let device := PD_Device pd in
  let request := default EmptyString (head (RequestNames device)) in
  let deviceEnvKey := to_upper (replace_non_word "_" (request +:+ "_" +:+ DeviceName_of device)) in
  let claimEdits := {| Env :=
    [to_upper (cdi_class cdi) +:+ "_DEVICE_" +:+ deviceEnvKey +:+ "_RESOURCE_CLAIM=" +:+ claimUID;
     "DRA_ADMIN_ACCESS=" +:+ show_bool (PD_AdminAccess pd)] |} in
  {| CDIDevice_Name := claimDeviceName claimUID request (DeviceName_of device);
     CDIDevice_Edits := Append claimEdits (PD_ContainerEdits pd) |}.

Definition claim_spec (cdi : CDIHandler) (claimUID : string) (devices : list PreparedDevice) : CDISpec := {|
  CDI_Kind := kind cdi;
  CDI_Devices := claim_cdi_device cdi claimUID <$> devices;
  CDI_Version := EmptyString;
|}.

Definition claim_spec_name (cdi : CDIHandler) (claimUID : string) : string :=
  GenerateTransientSpecName (vendor cdi) (cdi_class cdi) claimUID.

Definition CreateClaimSpecFile (cdi : CDIHandler) (files : gmap string CDISpec) (claimUID : string)
    (devices : list PreparedDevice) : option error * gmap string CDISpec :=
  match with_version (claim_spec cdi claimUID devices) with
  | Err e => (Some e, files)
  | Ok spec => write_spec files spec (claim_spec_name cdi claimUID)
  end.

Definition DeleteClaimSpecFile (cdi : CDIHandler) (files : gmap string CDISpec) (claimUID : string) :
    option error * gmap string CDISpec :=
  match RemoveSpec files (claim_spec_name cdi claimUID) with
  | Some e => (Some e, files)
  | None => (None, delete (claim_spec_name cdi claimUID) files)
  end.

Definition GetClaimDevices (cdi : CDIHandler) (claimUID request device : string) : list string :=
  [QualifiedName (vendor cdi) (cdi_class cdi) cdiCommonDeviceName;
   QualifiedName (vendor cdi) (cdi_class cdi) (claimDeviceName claimUID request device)].

End with_cdi.

(** ** Names of CDI devices *)

Lemma replace_word repl b s : str_forall is_word s = true → replace_runs non_word repl b s = s.
Proof.
  revert b. induction s as [|c s IH]; intros b; simpl; [done|]. rewrite andb_true_iff. intros [Hc Hs].
  unfold non_word at 1. rewrite Hc. simpl. by rewrite IH.
Qed.

Lemma word_no_dash s : str_forall is_word s = true → contains_byte "-" s = false.
Proof.
  induction s as [|c s IH]; simpl; [done|]. rewrite andb_true_iff. intros [Hc Hs].
  rewrite (IH Hs), orb_false_r. apply bool_decide_eq_false. by intros <-.
Qed.

Lemma dash_split a a' b b' :
  contains_byte "-" a = false → contains_byte "-" a' = false →
  a +:+ String "-" b = a' +:+ String "-" b' → a = a' ∧ b = b'.
Proof.
  revert a'. induction a as [|c a IH]; intros [|c' a'].
  - rewrite !str_app_nil. by intros _ _ [= ->].
  - rewrite str_app_nil, str_app_cons. simpl. by intros _ Ha' [= <- _].
  - rewrite str_app_nil, str_app_cons. simpl. by intros Ha _ [= -> _].
  - rewrite !str_app_cons. simpl. intros [_ Ha]%orb_false_iff [_ Ha']%orb_false_iff [= -> E].
    by destruct (IH _ Ha Ha' E) as [-> ->].
Qed.

(** Requests without punctuation keep the CDI devices of a claim apart. *)
Lemma claimDeviceName_inj uid r r' d d' :
  str_forall is_word r = true → str_forall is_word r' = true →
  claimDeviceName uid r d = claimDeviceName uid r' d' → r = r' ∧ d = d'.
Proof.
  intros Hr Hr' E. unfold claimDeviceName, replace_non_word in E. rewrite !replace_word in E by done.
  apply str_app_inj_l in E. rewrite !str_app_cons, !str_app_nil in E. injection E as E.
  by apply dash_split; [apply word_no_dash..|].
Qed.

(** CDI device names of one claim are not unique: requests that differ only in the
    length of a run of punctuation, both valid request names, give the same CDI device
    name for a shared device. *)
Theorem claimDeviceName_not_unique uid d :
  ∃ r r', r ≠ r' ∧ dns1123_label r = true ∧ dns1123_label r' = true ∧
    claimDeviceName uid r d = claimDeviceName uid r' d.
Proof. by exists "net-a", "net--a". Qed.
