(* ===== verification/Checkpoint.v ===== *)
(** * The checkpoint (cmd/kube-ovn-dra-kubeletplugin/checkpoint.go)

    The prepared claims are kept in a file with a checksum over the JSON of the rest of
    the file.  The kubelet's checkpoint manager, which reads and writes it, is
    third-party: [CheckpointManager] is its interface, against which the device state is
    verified, and [file_manager] an implementation built from the methods here. *)

From S2P Require Import Prelude Store Profile.

Abbreviation PreparedClaims := (gmap string (list PreparedDevice)).

Record Checkpoint := { Checksum : Z; V1_PreparedClaims : PreparedClaims }.

Definition newCheckpoint : Checkpoint := {| Checksum := 0; V1_PreparedClaims := ∅ |}.

(** encoding/json on the checkpoint, whose fields are of types of other packages, and
    the kubelet's checksum. *)
Class Codec := {
  Marshal : Checkpoint → result string;
  Unmarshal : string → result Checkpoint;
  checksum_New : string → Z;
  checksum_Verify : Z → string → option error;
}.

Class CodecLaws `{Codec} : Prop := {
  json_roundtrip cp s : Marshal cp = Ok s → Unmarshal s = Ok cp;
  checksum_verify ck s : checksum_Verify ck s = None ↔ ck = checksum_New s;
}.

Section checkpoint.
Context `{C : Codec}.

Definition with_checksum (cp : Checkpoint) (ck : Z) : Checkpoint :=
  {| Checksum := ck; V1_PreparedClaims := V1_PreparedClaims cp |}.

(** The encoded file and the checkpoint, whose checksum the method sets. *)
Definition MarshalCheckpoint (cp : Checkpoint) : result string * Checkpoint :=
  let cp := with_checksum cp 0 in
  match Marshal cp with
  | Err e => (Err e, cp)
  | Ok out => let cp := with_checksum cp (checksum_New out) in (Marshal cp, cp)
  end.

Definition UnmarshalCheckpoint (data : string) : result Checkpoint := Unmarshal data.

(** The deferred function restores the checksum on every path, so the checkpoint is
    unchanged. *)
Definition VerifyChecksum (cp : Checkpoint) : option error :=
  match Marshal (with_checksum cp 0) with
  | Err e => Some e
  | Ok out => checksum_Verify (Checksum cp) out
  end.

End checkpoint.

(** ** Properties *)

Section properties.
Context `{CL : CodecLaws}.

Lemma checkpoint_roundtrip_aux cp data cp' :
  MarshalCheckpoint cp = (Ok data, cp') →
  ∃ read, UnmarshalCheckpoint data = Ok read ∧ VerifyChecksum read = None ∧
    V1_PreparedClaims read = V1_PreparedClaims cp.
Proof.
  unfold MarshalCheckpoint. destruct (Marshal (with_checksum cp 0)) as [out|] eqn:E; [|done].
  intros [= Hd _]. apply json_roundtrip in Hd. exists (with_checksum cp (checksum_New out)).
  split_and!; [done| |done]. unfold VerifyChecksum.
  change (with_checksum (with_checksum cp (checksum_New out)) 0) with (with_checksum cp 0).
  rewrite E. by apply checksum_verify.
Qed.

(** A checkpoint that is written reads back with the same claims and a checksum
    that verifies. *)
Theorem checkpoint_roundtrip cp data cp' :
  MarshalCheckpoint cp = (Ok data, cp') →
  ∃ read, UnmarshalCheckpoint data = Ok read ∧ VerifyChecksum read = None ∧
    V1_PreparedClaims read = V1_PreparedClaims cp.
Proof. apply checkpoint_roundtrip_aux. Qed.

End properties.

(** ** The checkpoint manager's interface

    [D] is the state of the disk.  A read gives the claims of the stored checkpoint or
    an error; a write either stores the claims or leaves the stored checkpoint as it
    was, as the manager replaces the file by renaming. *)
Definition DriverPluginCheckpointFile : string := "checkpoint.json".

Class CheckpointManager (D : Type) := {
  GetCheckpoint : D → result PreparedClaims;
  CreateCheckpoint : D → PreparedClaims → option error * D;
  ListCheckpoints : D → result (list string);
}.

Class CheckpointLaws D `{M : CheckpointManager D} : Prop := {
  create_get d c d' : CreateCheckpoint d c = (None, d') → GetCheckpoint d' = Ok c;
  create_fail d c e d' : CreateCheckpoint d c = (Some e, d') → GetCheckpoint d' = GetCheckpoint d;
}.

(** A manager over one file: [fails k] says whether the [k]-th write of its life
    fails. *)
Record Disk := { disk_file : option string; disk_writes : nat }.

Definition file_get `{Codec} (d : Disk) : result PreparedClaims :=
  match disk_file d with
  | None => Err (External "checkpoint is not found")
  | Some data =>
      cp ← UnmarshalCheckpoint data;
      check (VerifyChecksum cp) (Ok (V1_PreparedClaims cp))
  end.

Definition file_create `{Codec} (fails : nat → bool) (d : Disk) (c : PreparedClaims) : option error * Disk :=
  let d' := {| disk_file := disk_file d; disk_writes := S (disk_writes d) |} in
  match (MarshalCheckpoint {| Checksum := 0; V1_PreparedClaims := c |}).1 with
  | Err e => (Some e, d')
  | Ok data =>
      if fails (disk_writes d) then (Some (External "write checkpoint"), d')
      else (None, {| disk_file := Some data; disk_writes := S (disk_writes d) |})
  end.

Definition file_manager `{Codec} (fails : nat → bool) : CheckpointManager Disk := {|
  GetCheckpoint := file_get;
  CreateCheckpoint := file_create fails;
  ListCheckpoints d := Ok match disk_file d with Some _ => [DriverPluginCheckpointFile] | None => [] end;
|}.

Lemma file_manager_laws `{CL : CodecLaws} fails : CheckpointLaws Disk (M := file_manager fails).
Proof.
  split; simpl; unfold file_create; intros d c.
  - intros d'. destruct (MarshalCheckpoint _) as [[data|] cp'] eqn:E; simpl; [|done].
    destruct (fails _); [done|]. intros [= <-]. unfold file_get. simpl.
    apply checkpoint_roundtrip_aux in E as (read & -> & Hv & Hc). simpl. rewrite Hv. simpl. by rewrite Hc.
  - intros e d'. destruct (MarshalCheckpoint _) as [[data|] cp']; simpl; [destruct (fails _)|];
      intros [= <- <-]; done.
Qed.

(** A manager that keeps the claims themselves; [None] is an unreadable file. *)
Record MemDisk := { mem_claims : option PreparedClaims; mem_writes : nat }.

Definition mem_manager (fails : nat → bool) : CheckpointManager MemDisk := {|
  GetCheckpoint d := match mem_claims d with Some c => Ok c | None => Err (External "checkpoint is corrupted") end;
  CreateCheckpoint d c :=
    if fails (mem_writes d)
    then (Some (External "write checkpoint"), {| mem_claims := mem_claims d; mem_writes := S (mem_writes d) |})
    else (None, {| mem_claims := Some c; mem_writes := S (mem_writes d) |});
  ListCheckpoints d := Ok match mem_claims d with Some _ => [DriverPluginCheckpointFile] | None => [] end;
|}.

Lemma mem_manager_laws fails : CheckpointLaws MemDisk (M := mem_manager fails).
Proof.
  split; simpl; intros d c.
  - intros d'. destruct (fails _); [done|]. by intros [= <-].
  - intros e d'. destruct (fails _); [|done]. by intros [= _ <-].
Qed.

(** ** A codec that satisfies the laws

    Any injective encoding of checkpoints does; this one writes the bits of the number
    stdpp's [Countable] gives the value. *)
#[export] Instance Route_countable : Countable Route.
Proof.
  by refine (inj_countable' (λ r, (Destination r, Route_Gateway r))
    (λ x, {| Destination := x.1; Route_Gateway := x.2 |}) _); intros [].
Defined.
#[export] Instance ContainerEdits_eq_dec : EqDecision ContainerEdits.
Proof. solve_decision. Defined.
#[export] Instance ContainerEdits_countable : Countable ContainerEdits.
Proof. by refine (inj_countable' Env (λ x, {| Env := x |}) _); intros []. Defined.
#[export] Instance KubeletDevice_eq_dec : EqDecision KubeletDevice.
Proof. solve_decision. Defined.
#[export] Instance KubeletDevice_countable : Countable KubeletDevice.
Proof.
  by refine (inj_countable' (λ d, (RequestNames d, PoolName d, DeviceName_of d, CdiDeviceIds d))
    (λ '(a, b, c, d), {| RequestNames := a; PoolName := b; DeviceName_of := c; CdiDeviceIds := d |}) _);
    intros [].
Defined.
#[export] Instance Spec_countable : Countable Spec.
Proof.
  by refine (inj_countable' (λ s,
    (PodUID s, PodName s, PodNamespace s, ClaimUID s, NetnsPath s, IfaceName s, IP s, ExtraIPs s, MAC s,
     Gateway s, Routes s, MTU s, ContainerID s, Provider s, IfaceID s, KubeVirtVMI s, OVNDHCP s))
    (λ '(a, b, c, d, e, f, g, h, i, j, k, l, m, n, o, p, q), {|
       PodUID := a; PodName := b; PodNamespace := c; ClaimUID := d; NetnsPath := e; IfaceName := f; IP := g;
       ExtraIPs := h; MAC := i; Gateway := j; Routes := k; MTU := l; ContainerID := m; Provider := n;
       IfaceID := o; KubeVirtVMI := p; OVNDHCP := q |}) _); intros [].
Defined.
#[export] Instance PreparedDevice_eq_dec : EqDecision PreparedDevice.
Proof. solve_decision. Defined.
#[export] Instance PreparedDevice_countable : Countable PreparedDevice.
Proof.
  by refine (inj_countable' (λ d, (PD_Device d, PD_ContainerEdits d, PD_AdminAccess d, PD_NIC d))
    (λ '(a, b, c, d), {| PD_Device := a; PD_ContainerEdits := b; PD_AdminAccess := c; PD_NIC := d |}) _);
    intros [].
Defined.
#[export] Instance Checkpoint_eq_dec : EqDecision Checkpoint.
Proof. solve_decision. Defined.
#[export] Instance Checkpoint_countable : Countable Checkpoint.
Proof.
  by refine (inj_countable' (λ c, (Checksum c, V1_PreparedClaims c))
    (λ x, {| Checksum := x.1; V1_PreparedClaims := x.2 |}) _); intros [].
Defined.

Fixpoint bits (p : positive) : string :=
  match p with
  | xH => EmptyString
  | xO p => String "0" (bits p)
  | xI p => String "1" (bits p)
  end.
Fixpoint of_bits (s : string) : positive :=
  match s with
  | EmptyString => xH
  | String c s => if is_byte "1" c then xI (of_bits s) else xO (of_bits s)
  end.

Lemma of_bits_bits p : of_bits (bits p) = p.
Proof. induction p as [p IH|p IH|]; simpl; by rewrite ?IH. Qed.

Definition codec_model : Codec := {|
  Marshal cp := Ok (bits (encode cp));
  Unmarshal s := match decode (of_bits s) with Some cp => Ok cp | None => Err (External "json") end;
  checksum_New s := Z.of_nat (str_len s);
  checksum_Verify ck s :=
    if decide (ck = Z.of_nat (str_len s)) then None else Some (External "checkpoint is corrupted");
|}.

Lemma codec_model_laws : CodecLaws (H := codec_model).
Proof.
  split; simpl.
  - intros cp s [= <-]. by rewrite of_bits_bits, decode_encode.
  - intros ck s. case_decide; naive_solver.
Qed.

Lemma checkpoint_roundtrip_witness :
  ∃ read, UnmarshalCheckpoint (C := codec_model)
      (bits (encode (with_checksum newCheckpoint
         (checksum_New (Codec := codec_model) (bits (encode newCheckpoint)))))) = Ok read ∧
    VerifyChecksum (C := codec_model) read = None ∧ V1_PreparedClaims read = ∅.
Proof.
  apply (checkpoint_roundtrip (CL := codec_model_laws) newCheckpoint _
    (with_checksum newCheckpoint (checksum_New (Codec := codec_model) (bits (encode newCheckpoint))))).
  reflexivity.
Defined.
