(* ===== verification/State.v ===== *)
(** * Preparing claims (cmd/kube-ovn-dra-kubeletplugin/state.go, vmi.go)

    The device state answers kubelet's prepare and unprepare calls.  It keeps the
    devices of the node, the checkpoint of the prepared claims, the CDI spec files and
    the NIC store it shares with the sandbox hooks.  Its lock serializes the
    operations, so each one is a function of the state and of what its environment
    answers during the call. *)

From S2P Require Import Prelude Netip K8s NicConfig Subnet Annotation Store NicPrepare Profile Cdi Checkpoint.

(** The decoder of opaque parameters: apimachinery's strict JSON serializer. *)
Class ConfigDecoder := { Decode : string → result RuntimeObject }.

(** What the environment answers during a prepare call: the API server at the [k]-th
    enumeration of the call, and, while the [i]-th NIC is resolved, the pod reads, the
    API server and the result of annotating the VMI. *)
Record PrepareEnv := {
  env_enumerate : nat → Api;
  env_pods : nat → nat → string → string → result Pod;
  env_api : nat → Api;
  env_annotate : nat → option error;
}.

Record OpaqueDeviceConfig := { Config_For : list string; Config_Obj : option RuntimeObject }.

Definition vmiMACAnnotationPrefix : string := "nic.kubeovn.io/mac.".

Record DeviceState (P D : Type) := {
  driverName : string;
  cdi : CDIHandler;
  driverResources : DriverResources;
  allocatable : gmap string Device;
  disk : D;
  profile : P;
  ds_nodeName : string;
  isNIC : bool;
  nicStore : option NICStore;
  annotateVMI : bool;
  cdi_files : gmap string CDISpec;
}.
Arguments driverName {P D}. Arguments cdi {P D}. Arguments driverResources {P D}.
Arguments allocatable {P D}. Arguments disk {P D}. Arguments profile {P D}.
Arguments ds_nodeName {P D}. Arguments isNIC {P D}. Arguments nicStore {P D}.
Arguments annotateVMI {P D}. Arguments cdi_files {P D}.

Section setters.
Context {P D : Type} (st : DeviceState P D).

Definition with_devices (resources : DriverResources) (alloc : gmap string Device) (p : P) : DeviceState P D := {|
  driverName := driverName st; cdi := cdi st; driverResources := resources; allocatable := alloc;
  disk := disk st; profile := p; ds_nodeName := ds_nodeName st; isNIC := isNIC st; nicStore := nicStore st;
  annotateVMI := annotateVMI st; cdi_files := cdi_files st |}.

Definition with_files (files : gmap string CDISpec) : DeviceState P D := {|
  driverName := driverName st; cdi := cdi st; driverResources := driverResources st;
  allocatable := allocatable st; disk := disk st; profile := profile st; ds_nodeName := ds_nodeName st;
  isNIC := isNIC st; nicStore := nicStore st; annotateVMI := annotateVMI st; cdi_files := files |}.

Definition with_disk (d : D) : DeviceState P D := {|
  driverName := driverName st; cdi := cdi st; driverResources := driverResources st;
  allocatable := allocatable st; disk := d; profile := profile st; ds_nodeName := ds_nodeName st;
  isNIC := isNIC st; nicStore := nicStore st; annotateVMI := annotateVMI st; cdi_files := cdi_files st |}.

Definition with_store (s : option NICStore) : DeviceState P D := {|
  driverName := driverName st; cdi := cdi st; driverResources := driverResources st;
  allocatable := allocatable st; disk := disk st; profile := profile st; ds_nodeName := ds_nodeName st;
  isNIC := isNIC st; nicStore := s; annotateVMI := annotateVMI st; cdi_files := cdi_files st |}.

End setters.

(** ** Configurations *)

Definition checkAdminAccess (claim : ResourceClaim) : bool :=
  match Claim_Allocation claim with
  | None => false
  | Some a => existsb (λ r, default false (Res_AdminAccess r)) (Alloc_Results a)
  end.

(** The configurations of a source, or the source that is unknown. *)
Fixpoint split_sources (configs classConfigs claimConfigs : list AllocationConfig) :
    result (list AllocationConfig * list AllocationConfig) :=
  match configs with
  | [] => Ok (classConfigs, claimConfigs)
  | c :: configs =>
      match Config_Source c with
      | FromClass => split_sources configs (classConfigs ++ [c]) claimConfigs
      | FromClaim => split_sources configs classConfigs (claimConfigs ++ [c])
      | OtherSource name => Err (Errorf "invalid config source: %v" [name])
      end
  end.

Section configs.
Context `{CD : ConfigDecoder}.

Fixpoint decode_configs (driver : string) (configs : list AllocationConfig) :
    result (list OpaqueDeviceConfig) :=
  match configs with
  | [] => Ok []
  | c :: configs =>
      match Config_Opaque c with
      | None => Err (Errorf "only opaque parameters are supported by this driver" [])
      | Some o =>
          if negb (bool_decide (Opaque_Driver o = driver)) then decode_configs driver configs
          else
            obj ← wrap_err "error decoding config parameters: %w" [] (Decode (Opaque_Raw o));
            rest ← decode_configs driver configs;
            Ok ({| Config_For := Config_Requests c; Config_Obj := Some obj |} :: rest)
      end
  end.

Definition GetOpaqueDeviceConfigs (driver : string) (possibleConfigs : list AllocationConfig) :
    result (list OpaqueDeviceConfig) :=
  '(classConfigs, claimConfigs) ← split_sources possibleConfigs [] [];
  decode_configs driver (classConfigs ++ claimConfigs).

End configs.

Definition configMatchesRequest `{K8s} (requests : list string) (request : string) : bool :=
  bool_decide (requests = []) || bool_decide (request ∈ requests)
  || bool_decide (BaseRequestRef request ∈ requests).

(** The position of the last configuration that matches.  A configuration's identity,
    the pointer the code keys its map by, is its position; 0 is the default's. *)
Fixpoint last_match `{K8s} (configs : list OpaqueDeviceConfig) (request : string) : option nat :=
  match configs with
  | [] => None
  | c :: configs =>
      match last_match configs request with
      | Some i => Some (S i)
      | None => if configMatchesRequest (Config_For c) request then Some 0 else None
      end
  end.

Definition default_config : OpaqueDeviceConfig := {| Config_For := []; Config_Obj := None |}.

(** ** Devices *)

Definition allocatableDevices (resources : DriverResources) (node : string) : gmap string Device :=
  match Pools_of resources !! node with
  | None => ∅
  | Some pool =>
      foldl (λ m slice, foldl (λ m d, <[Device_Name d := d]> m) m (Slice_Devices slice)) ∅ (Pool_Slices pool)
  end.

Section device_state.
Context `{K : K8s} `{G : GoImpl} `{PO : Poller} `{CDI0 : CDI} `{CD : ConfigDecoder}.
Context {P D : Type} `{PF : Profile P} `{M : CheckpointManager D}.

Implicit Types (st : DeviceState P D) (env : PrepareEnv) (claim : ResourceClaim).

(** [k] counts the enumerations of the call. *)
Definition checkAllocatable env st (k : nat) (device : string) : option error * DeviceState P D * nat :=
  match allocatable st !! device with
  | Some _ => (None, st, k)
  | None =>
      let '(resources, p) := EnumerateDevices (env_enumerate env k) (profile st) in
      match resources with
      | Err e => (Some (Wrapf "enumerate devices: %w" [] e),
                  with_devices st (driverResources st) (allocatable st) p, S k)
      | Ok r =>
          let alloc := allocatableDevices r (ds_nodeName st) in
          let st := with_devices st (driverResources st) alloc p in
          match alloc !! device with
          | Some _ => (None, st, S k)
          | None => (Some (Errorf "requested device is not allocatable: %v" [device]), st, S k)
          end
      end
  end.

(** Enumerate the devices again; also whether they changed. *)
Definition RefreshDevices (api : Api) st : result (DriverResources * bool) * DeviceState P D :=
  let '(resources, p) := EnumerateDevices api (profile st) in
  match resources with
  | Err e => (Err (Wrapf "enumerate devices: %w" [] e),
              with_devices st (driverResources st) (allocatable st) p)
  | Ok r =>
      if DeepEqual r (driverResources st)
      then (Ok (r, false), with_devices st (driverResources st) (allocatable st) p)
      else (Ok (r, true), with_devices st r (allocatableDevices r (ds_nodeName st)) p)
  end.

(** The loop over the allocation results: the results of each configuration. *)
Fixpoint group_results env st (k : nat) (configs : list OpaqueDeviceConfig)
    (results : list AllocationResult) (m : gmap nat (list AllocationResult)) :
    result (gmap nat (list AllocationResult)) * DeviceState P D :=
  match results with
  | [] => (Ok m, st)
  | res :: results =>
      if negb (bool_decide (Res_Driver res = driverName st)) then group_results env st k configs results m
      else
        match checkAllocatable env st k (Res_Device res) with
        | (Some e, st, _) => (Err e, st)
        | (None, st, k) =>
            let m := match last_match configs (Res_Request res) with
                     | Some i => <[i := default [] (m !! i) ++ [res]]> m
                     | None => m
                     end in
            group_results env st k configs results m
        end
  end.

(** The results by configuration, and the configurations with the default in front. *)
Definition resultsByConfig env st (a : Allocation) :
    result (gmap nat (list AllocationResult) * list OpaqueDeviceConfig) * DeviceState P D :=
  match GetOpaqueDeviceConfigs (driverName st) (Alloc_Config a) with
  | Err e => (Err (Wrapf "error getting opaque device configs: %w" [] e), st)
  | Ok configs =>
      let configs := default_config :: configs in
      match group_results env st 0 configs (Alloc_Results a) ∅ with
      | (Err e, st) => (Err e, st)
      | (Ok m, st) => (Ok (m, configs), st)
      end
  end.

(** Apply every configuration to its results, in the order of the range statement;
    applying one may change it in place. *)
Fixpoint apply_configs (p : P) (groups : list (nat * list AllocationResult))
    (configs : list OpaqueDeviceConfig) (edits : PerDeviceCDIContainerEdits) :
    result (PerDeviceCDIContainerEdits * list OpaqueDeviceConfig) :=
  match groups with
  | [] => Ok (edits, configs)
  | (i, results) :: groups =>
      let c := default default_config (configs !! i) in
      let '(r, obj) := ApplyConfig p (Config_Obj c) results in
      match r with
      | Err e => Err (Wrapf "error applying config: %w" [] e)
      | Ok containerEdits =>
          let configs := <[i := {| Config_For := Config_For c; Config_Obj := obj |}]> configs in
          apply_configs p groups configs (containerEdits ∪ edits)
      end
  end.

(** The interface name a configuration gives its results. *)
Definition iface_name (nic : bool) (obj : option RuntimeObject) : string :=
  match nic, obj with
  | true, Some (ObjNicConfig c) =>
      if bool_decide (InterfaceName c = EmptyString) then "net1" else InterfaceName c
  | _, _ => "net1"
  end.

Record prepItem := { item_result : AllocationResult; item_iface : string }.

Definition items_of (nic : bool) (configs : list OpaqueDeviceConfig)
    (groups : list (nat * list AllocationResult)) : list prepItem :=
  groups ≫= λ '(i, results),
    (λ r, {| item_result := r;
             item_iface := iface_name nic (configs !! i ≫= Config_Obj) |}) <$> results.

(** ** Interface names *)

(** The first name of the list seen before. *)
Fixpoint duplicate (names seen : list string) : option string :=
  match names with
  | [] => None
  | n :: names => if decide (n ∈ seen) then Some n else duplicate names (n :: seen)
  end.

Definition checkInterfaceNames st claim (ifaceNames : list string) : option error :=
  match duplicate ifaceNames [] with
  | Some name =>
      Some (Errorf "claim %s/%s requests more than one NIC named %q; set a distinct interfaceName in each request's NicConfig"
              [Claim_Namespace claim; Claim_Name claim; name])
  | None =>
      match nicStore st with
      | None => None
      | Some store =>
          head (Claim_ReservedFor claim ≫= λ ref,
            if negb (is_pod_ref ref) then []
            else
              Specs store (Ref_UID ref) ≫= λ spec,
                if negb (bool_decide (ClaimUID spec = Claim_UID claim))
                   && bool_decide (IfaceName spec ∈ ifaceNames)
                then [Errorf "NIC %q of claim %s/%s is already used by another DRA NIC of pod %s/%s (claim UID %s); set a distinct interfaceName in the NicConfig"
                        [IfaceName spec; Claim_Namespace claim; Claim_Name claim; Claim_Namespace claim;
                         Ref_Name ref; ClaimUID spec]]
                else [])
      end
  end.

(** ** Resolving NICs *)

Definition subnetMTU (api : Api) st (subnet : string) : result Z :=
  match SubnetMTU with Some f => f api (profile st) subnet | None => Ok 0%Z end.

Definition subnetOVNDHCP (api : Api) st (subnet : string) : result bool :=
  match SubnetOVNDHCP with Some f => f api (profile st) subnet | None => Ok false end.

Definition nic_with (cfg : NicDeviceConfig) (mtu : Z) (dhcp : bool) : NicDeviceConfig := {|
  Nic_DeviceName := Nic_DeviceName cfg; Nic_IfaceName := Nic_IfaceName cfg;
  Nic_SubnetName := Nic_SubnetName cfg; Nic_Provider := Nic_Provider cfg; Nic_PodName := Nic_PodName cfg;
  Nic_PodNamespace := Nic_PodNamespace cfg; Nic_PodUID := Nic_PodUID cfg;
  Nic_LogicalSwitchPort := Nic_LogicalSwitchPort cfg; Nic_ExtraIPs := Nic_ExtraIPs cfg; Nic_IP := Nic_IP cfg;
  Nic_MAC := Nic_MAC cfg; Nic_CIDR := Nic_CIDR cfg; Nic_Gateway := Nic_Gateway cfg;
  Nic_VMName := Nic_VMName cfg; Nic_Routes := Nic_Routes cfg; Nic_MTU := mtu; Nic_OVNDHCP := dhcp |}.

(** The annotation that records the MAC of a VM's NIC. *)
Definition vmi_key (cfg : NicDeviceConfig) : string * string * string :=
  (Nic_PodNamespace cfg, Nic_VMName cfg, vmiMACAnnotationPrefix +:+ Nic_IfaceName cfg).

(** The [i]-th NIC, and the VMI annotation that was written, if one was. *)
Definition resolveNIC env st claim (i : nat) (it : prepItem) :
    result NicDeviceConfig * option (string * string * string * string) :=
  let device := default {| Device_Name := EmptyString; Device_Attributes := ∅; Device_Capacity := ∅;
                           Device_AllowMultipleAllocations := None |}
                  (allocatable st !! Res_Device (item_result it)) in
  match RequestIPAM (env_pods env i) claim (item_result it) device (item_iface it) (ds_nodeName st) with
  | Err e => (Err (Wrapf "NIC IPAM for device %s: %w" [Res_Device (item_result it)] e), None)
  | Ok cfg =>
      match subnetMTU (env_api env i) st (Nic_SubnetName cfg) with
      | Err e => (Err (Wrapf "MTU of NIC %s: %w" [item_iface it] e), None)
      | Ok mtu =>
          match subnetOVNDHCP (env_api env i) st (Nic_SubnetName cfg) with
          | Err e => (Err (Wrapf "DHCP of NIC %s: %w" [item_iface it] e), None)
          | Ok dhcp =>
              let cfg := nic_with cfg mtu dhcp in
              if annotateVMI st && negb (bool_decide (Nic_VMName cfg = EmptyString)) then
                match env_annotate env i with
                | Some e => (Err (Wrapf "record the MAC of NIC %s on VMI %s/%s: %w"
                                    [item_iface it; Nic_PodNamespace cfg; Nic_VMName cfg] e), None)
                | None => (Ok cfg, Some (vmi_key cfg, Nic_MAC cfg))
                end
              else (Ok cfg, None)
          end
      end
  end.

(** The NICs are resolved concurrently and independently of each other; all of them
    have to succeed.  Annotations of the ones that did are written in any case: [Vmi]
    follows them to the objects. *)
Definition resolveNICs env st claim (items : list prepItem) : result (list NicDeviceConfig) :=
  let resolved := imap (resolveNIC env st claim) items in
  match errors_join (err_of ∘ fst <$> resolved) with
  | Some e => Err e
  | None => Ok (omap (λ r, match r.1 with Ok c => Some c | Err _ => None end) resolved)
  end.

(** ** Prepare and Unprepare *)

Definition nicSpecFromConfig (cfg : NicDeviceConfig) : Spec := {|
  PodUID := Nic_PodUID cfg; PodName := Nic_PodName cfg; PodNamespace := Nic_PodNamespace cfg;
  ClaimUID := EmptyString; NetnsPath := EmptyString; IfaceName := Nic_IfaceName cfg; IP := Nic_IP cfg;
  ExtraIPs := Nic_ExtraIPs cfg; MAC := Nic_MAC cfg; Gateway := Nic_Gateway cfg; Routes := Nic_Routes cfg;
  MTU := Nic_MTU cfg; ContainerID := EmptyString; Provider := Nic_Provider cfg;
  IfaceID := Nic_LogicalSwitchPort cfg; KubeVirtVMI := false; OVNDHCP := Nic_OVNDHCP cfg |}.

Definition with_claim (s : Spec) (claimUID : string) : Spec := {|
  PodUID := PodUID s; PodName := PodName s; PodNamespace := PodNamespace s; ClaimUID := claimUID;
  NetnsPath := NetnsPath s; IfaceName := IfaceName s; IP := IP s; ExtraIPs := ExtraIPs s; MAC := MAC s;
  Gateway := Gateway s; Routes := Routes s; MTU := MTU s; ContainerID := ContainerID s;
  Provider := Provider s; IfaceID := IfaceID s; KubeVirtVMI := KubeVirtVMI s; OVNDHCP := OVNDHCP s |}.

(** One prepared device, from the result, its NIC and its edits. *)
Definition build_device st claim (edits : PerDeviceCDIContainerEdits) (admin : bool)
    (it : prepItem) (nicCfg : option NicDeviceConfig) : PreparedDevice :=
  let res := item_result it in {|
  PD_Device := {| RequestNames := [Res_Request res]; PoolName := Res_Pool res;
                  DeviceName_of := Res_Device res;
                  CdiDeviceIds := GetClaimDevices (cdi st) (Claim_UID claim) (Res_Request res) (Res_Device res) |};
  PD_ContainerEdits := edits !! ResultKey res;
  PD_AdminAccess := admin;
  PD_NIC := (λ cfg, with_claim (nicSpecFromConfig cfg) (Claim_UID claim)) <$> nicCfg |}.

(** [s.nicStore.Add] for the NICs of the prepared devices, in their order. *)
Definition add_nics (store : NICStore) (devices : list PreparedDevice) : NICStore :=
  foldl Add store (omap PD_NIC devices).

(** [nicCfgs]: one entry per item, nil for all of them without the NIC profile. *)
Definition nic_configs env st claim (items : list prepItem) :
    result (list (option NicDeviceConfig)) :=
  if isNIC st then
    match resolveNICs env st claim items with
    | Err e => Err e
    | Ok cfgs => Ok (Some <$> cfgs)
    end
  else Ok (replicate (length items) None).

Definition prepareDevices env st claim : result (list PreparedDevice) * DeviceState P D :=
  match Claim_Allocation claim with
  | None => (Err (Errorf "claim not yet allocated" []), st)
  | Some a =>
      let hasAdminAccess := checkAdminAccess claim in
      match resultsByConfig env st a with
      | (Err e, st) => (Err e, st)
      | (Ok (configResults, configs), st) =>
          match apply_configs (profile st) (map_range 30 configResults) configs ∅ with
          | Err e => (Err e, st)
          | Ok (edits, configs) =>
              let items := items_of (isNIC st) configs (map_range 31 configResults) in
              match (if isNIC st then checkInterfaceNames st claim (item_iface <$> items) else None) with
              | Some e => (Err e, st)
              | None =>
                  match nic_configs env st claim items with
                  | Err e => (Err e, st)
                  | Ok nicCfgs =>
                      let devices := zip_with (build_device st claim edits hasAdminAccess) items nicCfgs in
                      (Ok devices, with_store st ((λ s, add_nics s devices) <$> nicStore st))
                  end
              end
          end
      end
  end.

Definition Prepare env st claim : result (list KubeletDevice) * DeviceState P D :=
  match GetCheckpoint (disk st) with
  | Err e => (Err (Wrapf "unable to sync from checkpoint: %w" [] e), st)
  | Ok preparedClaims =>
      match preparedClaims !! Claim_UID claim with
      | Some devices => (Ok (GetDevices devices), st)
      | None =>
          match prepareDevices env st claim with
          | (Err e, st) => (Err (Wrapf "prepare failed: %w" [] e), st)
          | (Ok devices, st) =>
              match CreateClaimSpecFile (cdi st) (cdi_files st) (Claim_UID claim) devices with
              | (Some e, files) =>
                  (Err (Wrapf "unable to create CDI spec file for claim: %w" [] e), with_files st files)
              | (None, files) =>
                  let st := with_files st files in
                  match CreateCheckpoint (disk st) (<[Claim_UID claim := devices]> preparedClaims) with
                  | (Some e, d) => (Err (Wrapf "unable to sync to checkpoint: %w" [] e), with_disk st d)
                  | (None, d) => (Ok (GetDevices devices), with_disk st d)
                  end
              end
          end
      end
  end.

Definition unprepareDevices st (claimUID : string) : DeviceState P D :=
  with_store st ((λ s, RemoveClaim s claimUID) <$> nicStore st).

Definition Unprepare st (claimUID : string) : option error * DeviceState P D :=
  let '(checkpoint, st) :=
    match GetCheckpoint (disk st) with
    | Ok claims => (Ok claims, st)
    | Err _ =>
        match CreateCheckpoint (disk st) ∅ with
        | (Some e, d) => (Err (Wrapf "unable to create new checkpoint: %w" [] e), with_disk st d)
        | (None, d) => (Ok ∅, with_disk st d)
        end
    end in
  match checkpoint with
  | Err e => (Some e, st)
  | Ok preparedClaims =>
      match preparedClaims !! claimUID with
      | None => (None, st)
      | Some _ =>
          let st := unprepareDevices st claimUID in
          match DeleteClaimSpecFile (cdi st) (cdi_files st) claimUID with
          | (Some e, files) =>
              (Some (Wrapf "unable to delete CDI spec file for claim: %w" [] e), with_files st files)
          | (None, files) =>
              let st := with_files st files in
              match CreateCheckpoint (disk st) (delete claimUID preparedClaims) with
              | (Some e, d) => (Some (Wrapf "unable to sync to checkpoint: %w" [] e), with_disk st d)
              | (None, d) => (None, with_disk st d)
              end
          end
      end
  end.

(** ** Start *)

(** The NICs of the checkpointed claims, in the order of the range statement. *)
Definition checkpoint_nics (claims : PreparedClaims) : list Spec :=
  map_range 32 claims ≫= λ kv, omap PD_NIC kv.2.

Definition restoreNICs st : result (DeviceState P D) :=
  match nicStore st with
  | None => Ok st
  | Some store =>
      claims ← wrap_err "unable to sync from checkpoint: %w" [] (GetCheckpoint (disk st));
      Ok (with_store st (Some (foldl Add store (checkpoint_nics claims))))
  end.

(** A new process: the flags, the disk and the CDI directory it finds, and the
    profile and the NIC store it was given.  The constructors of the CDI cache, the
    checkpoint manager and the decoder, which only allocate, are left out; a process
    whose start fails exits. *)
Record Config := {
  cfg_driverName : string;
  cfg_profile : string;
  cfg_nodeName : string;
  cfg_annotateVMI : bool;
}.

Definition NewDeviceState (config : Config) (api : Api) (p : P) (d : D) (files : gmap string CDISpec)
    (store : option NICStore) : result (DeviceState P D) :=
  let '(resources, p) := EnumerateDevices api p in
  driverResources ← wrap_err "error enumerating all possible devices: %w" [] resources;
  let handler := {| cdi_driverName := cfg_driverName config; cdi_class := cfg_profile config |} in
  let '(e, files) := CreateCommonSpecFile handler files in
  check (Wrapf "unable to create CDI spec file for common edits: %w" [] <$> e) (
    let st := {|
      driverName := cfg_driverName config; cdi := handler; driverResources := driverResources;
      allocatable := allocatableDevices driverResources (cfg_nodeName config); disk := d; profile := p;
      ds_nodeName := cfg_nodeName config; isNIC := bool_decide (cfg_profile config = ProfileName);
      nicStore := store; annotateVMI := cfg_annotateVMI config; cdi_files := files |} in
    checkpoints ← wrap_err "unable to list checkpoints: %w" [] (ListCheckpoints d);
    if bool_decide (DriverPluginCheckpointFile ∈ checkpoints) then restoreNICs st
    else
      match CreateCheckpoint d ∅ with
      | (Some e, _) => Err (Wrapf "unable to sync to checkpoint: %w" [] e)
      | (None, d) => Ok (with_disk st d)
      end).

End device_state.
