(* ===== verification/Webhook.v ===== *)
(** * The admission webhook (cmd/kube-ovn-dra-webhook/main.go, resource.go)

    It validates the opaque parameters of claims and claim templates for this driver, so
    that a configuration the driver would reject never reaches a node.  Decoding and
    converting the reviewed object is apimachinery's: the class [ReviewCodec]. *)

From S2P Require Import Prelude K8s NicConfig Subnet Profile State.

Record GroupVersionResource := { GVR_Group : string; GVR_Version : string; GVR_Resource : string }.
#[export] Instance GroupVersionResource_eq_dec : EqDecision GroupVersionResource.
Proof. solve_decision. Defined.

Definition resource_gvr (version resource : string) : GroupVersionResource :=
  {| GVR_Group := "resource.k8s.io"; GVR_Version := version; GVR_Resource := resource |}.

Definition resourceClaimResourceV1 := resource_gvr "v1" "resourceclaims".
Definition resourceClaimTemplateResourceV1 := resource_gvr "v1" "resourceclaimtemplates".
Definition resourceClaimResourceV1Beta1 := resource_gvr "v1beta1" "resourceclaims".
Definition resourceClaimTemplateResourceV1Beta1 := resource_gvr "v1beta1" "resourceclaimtemplates".
Definition resourceClaimResourceV1Beta2 := resource_gvr "v1beta2" "resourceclaims".
Definition resourceClaimTemplateResourceV1Beta2 := resource_gvr "v1beta2" "resourceclaimtemplates".

(** What is reviewed: the resource and the raw object. *)
Record AdmissionReview := { Review_Resource : GroupVersionResource; Review_Raw : string }.

Inductive StatusReason := BadRequest | Invalid.
Record AdmissionResponse := {
  Allowed : bool;
  Result : option (StatusReason * list error);
}.

(** The versions an object is decoded as. *)
Inductive ReviewedType := ClaimV1 | ClaimV1Beta1 | ClaimV1Beta2 | TemplateV1 | TemplateV1Beta1 | TemplateV1Beta2.

(** [Decode] of the raw object as a type, and [scheme.Convert] to v1; of the v1 object
    only the opaque parameters of its device configurations are used. *)
Class ReviewCodec := {
  ReviewObject : Type;
  DecodeReview : ReviewedType → string → result ReviewObject;
  ConvertV1 : ReviewObject → result (list (option OpaqueConfig));
}.

Section webhook.
Context `{RC : ReviewCodec} `{CD : ConfigDecoder}.

Definition extract (t : ReviewedType) (ar : AdmissionReview) : result (list (option OpaqueConfig)) :=
  obj ← DecodeReview t (Review_Raw ar);
  wrap_err "failed to convert to v1: %w" [] (ConvertV1 obj).

Definition unsupported (ar : AdmissionReview) : result (list (option OpaqueConfig)) :=
  Err (Errorf "unsupported resource version: %s" [GVR_Version (Review_Resource ar)]).

Definition extractResourceClaim (ar : AdmissionReview) : result (list (option OpaqueConfig)) :=
  if decide (Review_Resource ar = resourceClaimResourceV1) then extract ClaimV1 ar
  else if decide (Review_Resource ar = resourceClaimResourceV1Beta1) then extract ClaimV1Beta1 ar
  else if decide (Review_Resource ar = resourceClaimResourceV1Beta2) then extract ClaimV1Beta2 ar
  else unsupported ar.

Definition extractResourceClaimTemplate (ar : AdmissionReview) : result (list (option OpaqueConfig)) :=
  if decide (Review_Resource ar = resourceClaimTemplateResourceV1) then extract TemplateV1 ar
  else if decide (Review_Resource ar = resourceClaimTemplateResourceV1Beta1) then extract TemplateV1Beta1 ar
  else if decide (Review_Resource ar = resourceClaimTemplateResourceV1Beta2) then extract TemplateV1Beta2 ar
  else unsupported ar.

(** The errors of the configurations, from the [i]-th on. *)
Fixpoint config_errors (validate : RuntimeObject → option error) (driver specPath : string) (i : nat)
    (configs : list (option OpaqueConfig)) : list error :=
  match configs with
  | [] => []
  | config :: configs =>
      let rest := config_errors validate driver specPath (S i) configs in
      match config with
      | None => rest
      | Some o =>
          if negb (bool_decide (Opaque_Driver o = driver)) then rest
          else
            let fieldPath := specPath +:+ ".devices.config[" +:+ pretty i +:+ "].opaque.parameters" in
            match Decode (Opaque_Raw o) with
            | Err e => Wrapf "error decoding object at %s: %w" [fieldPath] e :: rest
            | Ok obj =>
                match validate obj with
                | Some e => Wrapf "object at %s is invalid: %w" [fieldPath] e :: rest
                | None => rest
                end
            end
      end
  end.

Definition bad_request (e : error) : AdmissionResponse :=
  {| Allowed := false; Result := Some (BadRequest, [e]) |}.

Definition admit_configs (validate : RuntimeObject → option error) (driver specPath : string)
    (configs : result (list (option OpaqueConfig))) : AdmissionResponse :=
  match configs with
  | Err e => bad_request e
  | Ok configs =>
      match config_errors validate driver specPath 0 configs with
      | [] => {| Allowed := true; Result := None |}
      | errs => {| Allowed := false; Result := Some (Invalid, errs) |}
      end
  end.

Definition is_claim (r : GroupVersionResource) : bool :=
  bool_decide (r ∈ [resourceClaimResourceV1; resourceClaimResourceV1Beta1; resourceClaimResourceV1Beta2]).
Definition is_template (r : GroupVersionResource) : bool :=
  bool_decide (r ∈ [resourceClaimTemplateResourceV1; resourceClaimTemplateResourceV1Beta1;
                    resourceClaimTemplateResourceV1Beta2]).

Definition admitResourceClaimParameters (validate : RuntimeObject → option error) (driver : string)
    (ar : AdmissionReview) : AdmissionResponse :=
  if is_claim (Review_Resource ar) then admit_configs validate driver "spec" (extractResourceClaim ar)
  else if is_template (Review_Resource ar)
  then admit_configs validate driver "spec.spec" (extractResourceClaimTemplate ar)
  else bad_request (Errorf "expected resource to be one of %v, got %s" [GVR_Resource (Review_Resource ar)]).

(** ** Properties *)

Lemma config_errors_nil validate driver path i configs :
  config_errors validate driver path i configs = [] ↔
  ∀ o, Some o ∈ configs → Opaque_Driver o = driver →
    ∃ obj, Decode (Opaque_Raw o) = Ok obj ∧ validate obj = None.
Proof.
  revert i. induction configs as [|c configs IH]; intros i; simpl.
  { split; [|done]. by intros _ o Ho%not_elem_of_nil. }
  setoid_rewrite elem_of_cons. destruct c as [o|]; [|rewrite IH; naive_solver].
  case_bool_decide as Hd; simpl; [|rewrite IH; naive_solver].
  destruct (Decode (Opaque_Raw o)) as [obj|e] eqn:Ed; [destruct (validate obj) eqn:Ev|].
  - split; [done|]. intros H. destruct (H o (or_introl eq_refl) Hd) as (obj' & E & Hv). congruence.
  - rewrite IH. split; [|naive_solver]. intros H o' [[= ->]|Ho'] Hdr; [eauto|eauto].
  - split; [done|]. intros H. destruct (H o (or_introl eq_refl) Hd) as (obj' & E & Hv). congruence.
Qed.

(** The configurations of the reviewed object. *)
Definition reviewed (ar : AdmissionReview) : result (list (option OpaqueConfig)) :=
  if is_claim (Review_Resource ar) then extractResourceClaim ar
  else if is_template (Review_Resource ar) then extractResourceClaimTemplate ar
  else unsupported ar.

Lemma admit_iff validate driver ar :
  Allowed (admitResourceClaimParameters validate driver ar) = true ↔
  ∃ configs, reviewed ar = Ok configs ∧ ∀ o, Some o ∈ configs → Opaque_Driver o = driver →
    ∃ obj, Decode (Opaque_Raw o) = Ok obj ∧ validate obj = None.
Proof.
  unfold admitResourceClaimParameters, reviewed.
  assert (∀ path r, Allowed (admit_configs validate driver path r) = true ↔
    ∃ configs, r = Ok configs ∧ ∀ o, Some o ∈ configs → Opaque_Driver o = driver →
      ∃ obj, Decode (Opaque_Raw o) = Ok obj ∧ validate obj = None) as H.
  { intros path [configs|e]; simpl; [|naive_solver].
    pose proof (config_errors_nil validate driver path 0 configs) as Hn.
    destruct (config_errors validate driver path 0 configs); simpl.
    - split; [|done]. intros _. exists configs. split; [done|]. by apply Hn.
    - split; [done|]. intros (c & [= <-] & Hc). by apply Hn in Hc. }
  destruct (is_claim _); [apply H|]. destruct (is_template _); [apply H|]. simpl. naive_solver.
Qed.

End webhook.

(** What the webhook admits the driver can prepare: in an admitted claim or template,
    every configuration for the driver decodes to a NicConfig, the driver applies it, and
    the interface name the NIC gets has one to fifteen bytes, is no directory name and has
    no slash, colon, blank, tab or newline. *)
Theorem webhook_guards_driver `{RC : ReviewCodec} `{CD : ConfigDecoder} driver ar :
  Allowed (admitResourceClaimParameters nic_Validate driver ar) = true →
  ∃ configs, reviewed ar = Ok configs ∧ ∀ o, Some o ∈ configs → Opaque_Driver o = driver →
    ∃ c, Decode (Opaque_Raw o) = Ok (ObjNicConfig c) ∧
      ∀ p results, ∃ edits c', nic_ApplyConfig p (Some (ObjNicConfig c)) results = (Ok edits, Some (ObjNicConfig c')) ∧
        iface_name true (Some (ObjNicConfig c')) = InterfaceName c' ∧
        plain_ifname (InterfaceName c') = true.
Proof.
  intros (configs & Hr & H)%admit_iff. exists configs. split; [done|]. intros o Ho Hd.
  destruct (H o Ho Hd) as ([c|k] & Hx & Hv); [|done]. exists c. split; [done|]. intros p results.
  eexists _, (Normalize c). split; [done|]. pose proof (Normalize_named c) as Hne. split.
  - unfold iface_name. by rewrite bool_decide_false.
  - apply Validate_plain in Hv. unfold Normalize in *. case_decide; [done|]. by destruct Hv.
Qed.

(** ** An example: one configuration for the driver and one for another driver *)
Module example.

#[global] Instance codec : ReviewCodec := {|
  ReviewObject := string;
  DecodeReview t raw := match t with TemplateV1Beta1 => Ok raw | _ => Err (External "decode") end;
  ConvertV1 raw := Ok [Some {| Opaque_Driver := "nic.resource.kube-ovn.io"; Opaque_Raw := raw |};
                       Some {| Opaque_Driver := "gpu.example.com"; Opaque_Raw := "?" |}; None] |}.

#[global] Instance decoder : ConfigDecoder := {|
  Decode raw := Ok (ObjNicConfig {| APIVersion := ""; Kind := "NicConfig"; InterfaceName := raw |}) |}.

Definition review (name : string) : AdmissionReview :=
  {| Review_Resource := resourceClaimTemplateResourceV1Beta1; Review_Raw := name |}.

End example.

Example webhook_refuses :
  Allowed (admitResourceClaimParameters nic_Validate "nic.resource.kube-ovn.io" (example.review "a/b")) = false.
Proof. reflexivity. Qed.

Lemma webhook_guards_driver_witness :
  ∃ configs, reviewed (example.review "net7") = Ok configs ∧
    ∀ o, Some o ∈ configs → Opaque_Driver o = "nic.resource.kube-ovn.io" →
      ∃ c, Decode (Opaque_Raw o) = Ok (ObjNicConfig c).
Proof.
  destruct (webhook_guards_driver "nic.resource.kube-ovn.io" (example.review "net7")) as (configs & Hr & H);
    [reflexivity|]. exists configs. split; [exact Hr|]. intros o Ho Hd.
  destruct (H o Ho Hd) as (c & Hc & _). exists c. exact Hc.
Defined.
