(* ===== verification/StoreInv.v ===== *)
(** * Interface names in the NIC store

    A pod has one network namespace, so the NICs of a pod need distinct interface
    names, across claims.  The store keeps them by claim and interface; this file
    shows when adding specs keeps the names of every pod distinct. *)

From S2P Require Import Prelude Store.

Definition store_wf (s : NICStore) : Prop :=
  ∀ pod, NoDup (IfaceName <$> Specs s pod) ∧ ∀ t, t ∈ Specs s pod → PodUID t = pod.

Lemma store_wf_new : store_wf NewNICStore.
Proof.
  intros pod. unfold Specs, specs_at, NewNICStore. simpl. rewrite lookup_empty. simpl.
  split; [constructor|set_solver].
Qed.

Lemma store_wf_inj s pod t t' :
  store_wf s → t ∈ Specs s pod → t' ∈ Specs s pod → IfaceName t = IfaceName t' → t = t'.
Proof.
  intros Hwf Ht Ht' E. destruct (Hwf pod) as [Hnd _].
  apply list_elem_of_lookup in Ht as [i Hi]. apply list_elem_of_lookup in Ht' as [j Hj].
  assert (i = j) as ->; [|congruence].
  eapply NoDup_lookup; [exact Hnd| |]; rewrite list_lookup_fmap; [by rewrite Hi|rewrite Hj; simpl; by rewrite E].
Qed.

Lemma upsert_ext p q spec specs :
  (∀ t, t ∈ specs → p t = q t) → upsert p spec specs = upsert q spec specs.
Proof.
  induction specs as [|t specs IH]; intros Hpq; simpl; [done|].
  rewrite (Hpq t) by set_solver. destruct (q t); [done|]. f_equal. apply IH. set_solver.
Qed.

(** Adding a spec whose interface no other claim of the pod uses. *)
Lemma Add_wf s sp :
  store_wf s → (∀ t, t ∈ Specs s (PodUID sp) → IfaceName t = IfaceName sp → ClaimUID t = ClaimUID sp) →
  store_wf (Add s sp) ∧
  ∀ pod t, t ∈ Specs (Add s sp) pod ↔
    (pod = PodUID sp ∧ t = sp) ∨ (t ∈ Specs s pod ∧ ¬ (pod = PodUID sp ∧ IfaceName t = IfaceName sp)).
Proof.
  intros Hwf Hcl.
  assert (∀ pod, Specs (Add s sp) pod =
    if decide (pod = PodUID sp) then upsert (same_iface sp) sp (Specs s pod) else Specs s pod) as HAdd.
  { intros pod. rewrite Specs_Add. case_decide as Hpod; [|done]. subst. apply upsert_ext. intros t Ht.
    unfold same_nic, same_iface. destruct (decide (IfaceName t = IfaceName sp)) as [E|E].
    - by rewrite !bool_decide_true by auto.
    - by rewrite (bool_decide_false (IfaceName t = _)), andb_false_r by done. }
  assert (∀ pod t, t ∈ Specs (Add s sp) pod ↔
    (pod = PodUID sp ∧ t = sp) ∨ (t ∈ Specs s pod ∧ ¬ (pod = PodUID sp ∧ IfaceName t = IfaceName sp))) as Hel.
  { intros pod t. rewrite HAdd. case_decide as Hpod; [|naive_solver].
    rewrite (upsert_iff IfaceName same_iface same_iface_key) by apply Hwf. naive_solver. }
  split; [|done]. intros pod. split.
  - rewrite HAdd. case_decide; [apply (upsert_keys IfaceName same_iface same_iface_key)|]; apply Hwf.
  - intros t [[-> ->]|[Ht _]]%Hel; [done|]. by apply Hwf in Ht.
Qed.

(** Adding the specs of one claim. *)
Lemma Add_claim_wf c l s :
  store_wf s → (∀ sp, sp ∈ l → ClaimUID sp = c) → NoDup (IfaceName <$> l) →
  (∀ sp t, sp ∈ l → t ∈ Specs s (PodUID sp) → IfaceName t = IfaceName sp → ClaimUID t = c) →
  store_wf (foldl Add s l) ∧
  ∀ pod t, t ∈ Specs (foldl Add s l) pod ↔
    (t ∈ l ∧ PodUID t = pod) ∨
    (t ∈ Specs s pod ∧ ∀ sp, sp ∈ l → ¬ (PodUID sp = pod ∧ IfaceName t = IfaceName sp)).
Proof.
  revert s. induction l as [|sp l IH]; intros s Hwf Hc Hnd Hcl; simpl; [set_solver|].
  rewrite fmap_cons, NoDup_cons in Hnd. destruct Hnd as [Hsp Hnd].
  destruct (Add_wf s sp) as [Hwf' Hel]; [done|intros; rewrite (Hc sp) by set_solver; apply (Hcl sp); set_solver|].
  destruct (IH (Add s sp)) as [Hwf'' Hel'].
  - done.
  - set_solver.
  - done.
  - intros sp' t Hsp' Ht E. apply Hel in Ht as [[_ ->]|[Ht _]].
    + exfalso. apply Hsp. rewrite E. by apply list_elem_of_fmap_2.
    + apply (Hcl sp'); set_solver.
  - split; [done|]. intros pod t. rewrite Hel', Hel.
    assert (∀ sp', sp' ∈ l → IfaceName sp' ≠ IfaceName sp) as Hne.
    { intros sp' Hsp' E. apply Hsp. rewrite <- E. by apply list_elem_of_fmap_2. }
    setoid_rewrite elem_of_cons. split.
    + intros [?|[[[-> ->]|[? Hn]] Hl]]; [naive_solver..|]. right. split; [done|].
      intros sp' [->|Hsp'] [<- E]; [by apply Hn|by apply (Hl sp')].
    + intros [[[->|Ht] <-]|[Ht Hl]].
      * right. split; [by left|]. intros sp' Hsp' [_ E]. by apply (Hne sp').
      * by left.
      * right. split; [right; split; [done|]; intros [-> E]; by apply (Hl sp); [left|]|].
        intros sp' Hsp' [<- E]. by apply (Hl sp'); [right|].
Qed.

(** Restoring specs that all come from a well-formed store. *)
Lemma Add_restore_wf s0 l s :
  store_wf s0 → (∀ sp, sp ∈ l → sp ∈ Specs s0 (PodUID sp)) →
  store_wf s → (∀ pod t, t ∈ Specs s pod → t ∈ Specs s0 pod) →
  store_wf (foldl Add s l) ∧
  ∀ pod t, t ∈ Specs (foldl Add s l) pod ↔ (t ∈ l ∧ PodUID t = pod) ∨ t ∈ Specs s pod.
Proof.
  intros Hwf0. revert s. induction l as [|sp l IH]; intros s Hl Hwf Hsub; simpl; [set_solver|].
  assert (∀ t, t ∈ Specs s (PodUID sp) → IfaceName t = IfaceName sp → t = sp) as Heq.
  { intros t Ht E. apply (store_wf_inj s0 (PodUID sp)); [done|by apply Hsub|apply Hl; set_solver|done]. }
  destruct (Add_wf s sp) as [Hwf' Hel]; [done|intros t Ht E; by rewrite (Heq t)|].
  destruct (IH (Add s sp)) as [Hwf'' Hel']; [set_solver|done| |].
  { intros pod t [[-> ->]|[Ht _]]%Hel; [apply Hl; set_solver|auto]. }
  split; [done|]. intros pod t. rewrite Hel', Hel, elem_of_cons. split; [naive_solver|].
  intros [[[->|Ht] <-]|Ht]; [naive_solver..|].
  destruct (decide (pod = PodUID sp ∧ IfaceName t = IfaceName sp)) as [[-> E]|Hn]; [|naive_solver].
  right. left. split; [done|]. by apply Heq.
Qed.

Lemma RemoveClaim_wf `{GoImpl} s c : store_wf s → store_wf (RemoveClaim s c).
Proof.
  intros Hwf pod. rewrite Specs_RemoveClaim. split; [apply NoDup_fmap_filter, Hwf|].
  intros t [_ Ht]%list_elem_of_filter. by apply Hwf in Ht.
Qed.

#[export] Hint Resolve store_wf_new RemoveClaim_wf : dra.
