(* ===== verification/StateProps.v ===== *)
(** * Correctness of prepare and unprepare

    What a prepare call hands to kubelet, to the checkpoint and to the sandbox hooks,
    for every order in which Go visits the maps and whatever the environment answers. *)

From S2P Require Import Prelude K8s NicConfig Subnet Annotation Store StoreInv NicPrepare Profile Cdi Checkpoint State.

(** ** Configurations and results *)

Section configs.
Context `{K : K8s}.

Lemma last_match_Some configs request i :
  last_match configs request = Some i →
  (∃ c, configs !! i = Some c ∧ configMatchesRequest (Config_For c) request = true) ∧
  ∀ j c, i < j → configs !! j = Some c → configMatchesRequest (Config_For c) request = false.
Proof.
  revert i. induction configs as [|c configs IH]; intros i; simpl; [done|].
  destruct (last_match configs request) as [k|] eqn:E.
  - intros [= <-]. destruct (IH k eq_refl) as [Hm Hl]. split; [done|].
    intros [|j] c' Hj Hc; [lia|]. apply (Hl j); [lia|done].
  - destruct (configMatchesRequest _ _) eqn:Em; [|done]. intros [= <-]. split; [eauto|].
    intros [|j] c' Hj Hc; [lia|]. simpl in Hc.
    clear IH Em. revert j Hc Hj. induction configs as [|d configs IH]; intros j Hc Hj; [done|].
    simpl in E. destruct (last_match configs request); [done|].
    destruct (configMatchesRequest (Config_For d) request) eqn:Ed; [done|].
    destruct j as [|j]; simpl in Hc; [congruence|]. apply (IH eq_refl j); [done|lia].
Qed.

(** The default configuration in front matches everything. *)
Lemma last_match_default configs request :
  ∃ i, last_match (default_config :: configs) request = Some i ∧ i ≤ length configs.
Proof.
  simpl. destruct (last_match configs request) as [i|] eqn:E; [|exists 0; split; [done|lia]].
  exists (S i). split; [done|]. apply last_match_Some in E as [(c & Hc & _) _].
  by apply lookup_lt_Some in Hc.
Qed.

End configs.

(** The configurations of a source for the driver, in order. *)
Definition relevant (driver : string) (src : ConfigSource) (configs : list AllocationConfig) :
    list AllocationConfig :=
  filter (λ c, Opaque_Driver <$> Config_Opaque c = Some driver) (filter (λ c, Config_Source c = src) configs).

Lemma split_sources_Ok configs cls clm out :
  split_sources configs cls clm = Ok out →
  out = (cls ++ filter (λ c, Config_Source c = FromClass) configs,
         clm ++ filter (λ c, Config_Source c = FromClaim) configs).
Proof.
  revert cls clm. induction configs as [|c configs IH]; intros cls clm; simpl.
  { intros [= <-]. by rewrite !app_nil_r. }
  rewrite !filter_cons. destruct (Config_Source c); [| |done]; intros ->%IH; simpl;
    by rewrite <- (assoc_L (++)).
Qed.

Section decode.
Context `{K : K8s} `{CD : ConfigDecoder}.

Lemma decode_configs_Ok driver configs out :
  decode_configs driver configs = Ok out →
  Forall2 (λ c o, Config_For o = Config_Requests c)
    (filter (λ c, Opaque_Driver <$> Config_Opaque c = Some driver) configs) out.
Proof.
  revert out. induction configs as [|c configs IH]; intros out; simpl; [by intros [= <-]|].
  rewrite filter_cons. destruct (Config_Opaque c) as [o|]; [|done]. simpl.
  case_bool_decide as Hd; simpl.
  - rewrite decide_True by congruence. intros E. apply bind_Ok in E as (obj & _ & E).
    apply bind_Ok in E as (rest & Hrest & [= <-]). constructor; [done|]. by apply IH.
  - rewrite decide_False by congruence. apply IH.
Qed.

Lemma GetOpaqueDeviceConfigs_Ok driver configs out :
  GetOpaqueDeviceConfigs driver configs = Ok out →
  Forall2 (λ c o, Config_For o = Config_Requests c)
    (relevant driver FromClass configs ++ relevant driver FromClaim configs) out.
Proof.
  unfold GetOpaqueDeviceConfigs. intros ([cls clm] & Hs & E)%bind_Ok. apply split_sources_Ok in Hs as [= -> ->]. simpl in E.
  apply decode_configs_Ok in E. by rewrite filter_app in E.
Qed.

(** The configuration applied to a result is the last matching one of the claim,
    else the last matching one of the device class, else the default; configurations
    of other drivers never apply. *)
Theorem config_precedence driver possible configs request i :
  GetOpaqueDeviceConfigs driver possible = Ok configs →
  last_match (default_config :: configs) request = Some i →
  let matching c := configMatchesRequest (Config_Requests c) request = true in
  let clm := relevant driver FromClaim possible in
  let cls := relevant driver FromClass possible in
  (∃ j c, i = S (length cls + j) ∧ clm !! j = Some c ∧ matching c ∧
     ∀ j' c', j < j' → clm !! j' = Some c' → ¬ matching c') ∨
  ((∀ c, c ∈ clm → ¬ matching c) ∧
   ((∃ j c, i = S j ∧ cls !! j = Some c ∧ matching c ∧
       ∀ j' c', j < j' → cls !! j' = Some c' → ¬ matching c') ∨
    (i = 0 ∧ ∀ c, c ∈ cls → ¬ matching c))).
Proof.
  intros Hg Hi matching clm cls. apply GetOpaqueDeviceConfigs_Ok in Hg. fold clm cls in Hg.
  apply last_match_Some in Hi as [(o & Ho & Hm) Hlast].
  assert (∀ k c, i ≤ k → (cls ++ clm) !! k = Some c → ¬ matching c) as Hafter.
  { intros k c Hk Hc. destruct (Forall2_lookup_l _ _ _ _ _ Hg Hc) as (o' & Ho' & Hr).
    unfold matching. rewrite <- Hr, (Hlast (S k) o'); [done|lia|done]. }
  assert (∀ j c, i ≤ length cls + j → clm !! j = Some c → ¬ matching c) as Hclm.
  { intros j c Hj Hc. apply (Hafter (length cls + j)); [lia|].
    rewrite lookup_app_r by lia. by rewrite Nat.add_comm, Nat.add_sub. }
  assert (∀ j c, i ≤ j → cls !! j = Some c → ¬ matching c) as Hcls.
  { intros j c Hj Hc. apply (Hafter j); [lia|]. by apply lookup_app_l_Some. }
  destruct i as [|i]; simpl in Ho.
  { right. split; [|right; split; [done|]]; intros c [j Hj]%list_elem_of_lookup; [apply (Hclm j)|apply (Hcls j)];
      (lia || done). }
  destruct (Forall2_lookup_r _ _ _ _ _ Hg Ho) as (c & Hc & Hr).
  assert (matching c) as Hmc by (unfold matching; by rewrite <- Hr).
  apply lookup_app_Some in Hc as [Hc|[Hl Hc]].
  - right. split; [|left; exists i, c; split_and!; [done..|]].
    + intros c' [j Hj]%list_elem_of_lookup. apply (Hclm j); [|done]. apply lookup_lt_Some in Hc. lia.
    + intros j' c' Hj'. apply Hcls. lia.
  - left. exists (i - length cls), c. split_and!; [lia|done..|]. intros j' c' Hj'. apply Hclm. lia.
Qed.

End decode.

(** ** Grouping is a permutation *)

Lemma flatten_insert {A} (m : gmap nat (list A)) i l (x : A) :
  l = default [] (m !! i) →
  (map_to_list (<[i := l ++ [x]]> m) ≫= snd) ≡ₚ (map_to_list m ≫= snd) ++ [x].
Proof.
  intros ->. destruct (m !! i) as [l|] eqn:E; simpl.
  - rewrite <- insert_delete_eq, map_to_list_insert by (by rewrite lookup_delete_eq).
    rewrite <- (map_to_list_delete m i l E). simpl. rewrite <- !(assoc_L (++)).
    apply Permutation_app_head, Permutation_app_comm.
  - rewrite map_to_list_insert by done. simpl. by rewrite Permutation_cons_append.
Qed.

Section prepare.
Context `{K : K8s} `{G : GoImpl} `{PO : Poller} `{CDI0 : CDI} `{CD : ConfigDecoder}.
Context {P D : Type} `{PF : Profile P} `{M : CheckpointManager D}.

Implicit Types (st : DeviceState P D) (env : PrepareEnv) (claim : ResourceClaim).

(** The part of the state that only prepare's last steps and unprepare change. *)
Definition io st := (disk st, cdi_files st, nicStore st, cdi st, driverName st, ds_nodeName st, isNIC st).

Lemma checkAllocatable_io env st k device e st' k' :
  checkAllocatable env st k device = (e, st', k') → io st' = io st.
Proof.
  unfold checkAllocatable. destruct (allocatable st !! device); [by intros [= _ <- _]|].
  destruct (EnumerateDevices _ _) as [[r|] p]; [destruct (allocatableDevices r _ !! device)|];
    by intros [= _ <- _].
Qed.

Lemma io_driverName st st' : io st' = io st → driverName st' = driverName st.
Proof. unfold io. congruence. Qed.

Lemma group_results_Ok env st k configs results m r st' :
  group_results env st k (default_config :: configs) results m = (r, st') →
  io st' = io st ∧
  ∀ m', r = Ok m' →
    (map_to_list m' ≫= snd) ≡ₚ (map_to_list m ≫= snd) ++ filter (λ x, Res_Driver x = driverName st) results ∧
    ((∀ i x l, m !! i = Some l → x ∈ l → last_match (default_config :: configs) (Res_Request x) = Some i) →
     ∀ i x l, m' !! i = Some l → x ∈ l → last_match (default_config :: configs) (Res_Request x) = Some i).
Proof.
  revert st k m. induction results as [|x results IH]; intros st k m; cbn [group_results].
  { intros [= <- <-]. split; [done|]. intros m' [= <-]. by rewrite app_nil_r. }
  case_bool_decide as Hd; simpl; rewrite filter_cons;
    [rewrite decide_True by done|rewrite decide_False by done; apply IH].
  destruct (checkAllocatable env st k (Res_Device x)) as [[[e|] st1] k1] eqn:Ec;
    apply checkAllocatable_io in Ec; [by intros [= <- <-]|].
  destruct (last_match_default configs (Res_Request x)) as (i & Hi & _).
  change (match last_match configs (Res_Request x) with Some i => Some (S i) | None => _ end)
    with (last_match (default_config :: configs) (Res_Request x)).
  rewrite Hi. intros E. apply IH in E as [Hio Hm]. split; [congruence|].
  intros m' ->. destruct (Hm m' eq_refl) as [Hp Hl]. rewrite (io_driverName _ _ Ec) in Hp. split.
  - rewrite Hp, flatten_insert by done. by rewrite <- (assoc_L (++)).
  - intros Hm0. apply Hl. intros j y l. destruct (decide (j = i)) as [->|Hne].
    + rewrite lookup_insert_eq. intros [= <-] [Hy|Hy%list_elem_of_singleton]%elem_of_app; [|by subst].
      destruct (m !! i) eqn:Em; [by eapply Hm0|set_solver].
    + rewrite lookup_insert_ne by done. apply Hm0.
Qed.

Lemma map_range_flatten {A} site (m : gmap nat (list A)) :
  (map_range site m ≫= snd) ≡ₚ (map_to_list m ≫= snd).
Proof. by rewrite map_range_perm. Qed.

Lemma items_results nic configs groups : item_result <$> items_of nic configs groups = groups ≫= snd.
Proof.
  unfold items_of. induction groups as [|[i l] groups IH]; [done|].
  rewrite !bind_cons, fmap_app, IH. f_equal. rewrite <- list_fmap_compose. apply list_fmap_id.
Qed.

(** The results of this driver. *)
Definition own_results st (a : Allocation) : list AllocationResult :=
  filter (λ x, Res_Driver x = driverName st) (Alloc_Results a).

Lemma resultsByConfig_Ok env st a r st' :
  resultsByConfig env st a = (r, st') →
  io st' = io st ∧ ∀ m configs, r = Ok (m, configs) →
    (map_to_list m ≫= snd) ≡ₚ own_results st a ∧
    ∃ opaque, configs = default_config :: opaque ∧
      GetOpaqueDeviceConfigs (driverName st) (Alloc_Config a) = Ok opaque ∧
      ∀ i x l, m !! i = Some l → x ∈ l → last_match configs (Res_Request x) = Some i.
Proof.
  unfold resultsByConfig. destruct (GetOpaqueDeviceConfigs _ _) as [opaque|] eqn:Eo; [|by intros [= <- <-]].
  destruct (group_results _ _ _ _ _ _) as [[m|] st1] eqn:E; apply group_results_Ok in E as [Hio Hm];
    intros [= <- <-]; (split; [done|]); intros m' configs [= <- <-].
  destruct (Hm m eq_refl) as [Hp Hl]. rewrite map_to_list_empty in Hp. split; [done|].
  exists opaque. split_and!; [done..|]. apply Hl. intros i x l. by rewrite lookup_empty.
Qed.

(** ** Interface names *)

Lemma duplicate_None names seen :
  duplicate names seen = None ↔ NoDup names ∧ ∀ n, n ∈ names → n ∉ seen.
Proof.
  revert seen. induction names as [|n names IH]; intros seen; simpl; [split; [split; [constructor|set_solver]|done]|].
  rewrite NoDup_cons. case_decide as Hn.
  - split; [done|]. intros [_ H]. exfalso. apply (H n); set_solver.
  - rewrite IH. set_solver.
Qed.

Lemma checkInterfaceNames_None st claim names :
  checkInterfaceNames st claim names = None →
  NoDup names ∧
  ∀ store ref t, nicStore st = Some store → ref ∈ Claim_ReservedFor claim → is_pod_ref ref = true →
    t ∈ Specs store (Ref_UID ref) → IfaceName t ∈ names → ClaimUID t = Claim_UID claim.
Proof.
  unfold checkInterfaceNames. destruct (duplicate names []) eqn:E; [done|].
  apply duplicate_None in E as [Hnd _]. intros Hs. split; [done|]. intros store ref t Est Href Hpod Ht Hn.
  rewrite Est in Hs. apply head_None in Hs.
  destruct (decide (ClaimUID t = Claim_UID claim)) as [|Hne]; [done|]. exfalso.
  eapply (not_elem_of_nil). erewrite <- Hs. apply list_elem_of_bind. exists ref.
  rewrite Hpod. split; [|exact Href]. simpl. apply list_elem_of_bind. exists t. split; [|exact Ht].
  rewrite bool_decide_false, bool_decide_true by done. simpl. by apply list_elem_of_singleton.
Qed.

(** ** Resolving *)

Lemma resolveNIC_Ok env st claim i it cfg patch :
  resolveNIC env st claim i it = (Ok cfg, patch) →
  Nic_IfaceName cfg = item_iface it ∧
  ∃ ref, ref ∈ Claim_ReservedFor claim ∧ is_pod_ref ref = true ∧ Ref_UID ref = Nic_PodUID cfg.
Proof.
  unfold resolveNIC. destruct (RequestIPAM _ _ _ _ _ _) as [c|] eqn:E; [|done].
  assert (Nic_IfaceName c = item_iface it ∧
    ∃ ref, ref ∈ Claim_ReservedFor claim ∧ is_pod_ref ref = true ∧ Ref_UID ref = Nic_PodUID c) as Hc.
  { split; [by apply RequestIPAM_Ok in E as (? & ? & _ & _ & _ & _ & _ & _ & _ & _ & _ & ? & _)|].
    apply RequestIPAM_pod in E as (j & ref & pod & Hin & Hp & _ & _ & Hu & Hr & _). exists ref.
    split_and!; [done..|congruence]. }
  destruct (subnetMTU _ _ _); [|done]. destruct (subnetOVNDHCP _ _ _); [|done].
  destruct (annotateVMI st && _); [destruct (env_annotate env i); [done|]|]; by intros [= <- _].
Qed.

Lemma resolveNICs_Ok env st claim items cfgs :
  resolveNICs env st claim items = Ok cfgs →
  Forall2 (λ it cfg, Nic_IfaceName cfg = item_iface it ∧
      ∃ ref, ref ∈ Claim_ReservedFor claim ∧ is_pod_ref ref = true ∧ Ref_UID ref = Nic_PodUID cfg) items cfgs.
Proof.
  unfold resolveNICs. destruct (errors_join _) as [e|] eqn:E; intros [= <-]. apply errors_join_None in E. revert E.
  generalize (resolveNIC env st claim), (resolveNIC_Ok env st claim). intros f Hf. revert f Hf.
  induction items as [|it items IH]; intros f Hf; [by constructor|].
  rewrite imap_cons. simpl. intros [Hn HF]%Forall_cons. simpl in Hn.
  destruct (f 0 it) as [[cfg|] patch] eqn:Ef; [|done]. simpl. constructor; [by eapply Hf|].
  apply (IH (f ∘ S)); [|done]. intros i it' cfg' patch'. apply Hf.
Qed.

Lemma nic_configs_Ok env st claim items cfgs :
  nic_configs env st claim items = Ok cfgs →
  Forall2 (λ it ocfg, if isNIC st then
        ∃ cfg, ocfg = Some cfg ∧ Nic_IfaceName cfg = item_iface it ∧
        ∃ ref, ref ∈ Claim_ReservedFor claim ∧ is_pod_ref ref = true ∧ Ref_UID ref = Nic_PodUID cfg
      else ocfg = None) items cfgs.
Proof.
  unfold nic_configs. destruct (isNIC st).
  - destruct (resolveNICs _ _ _ _) as [cfgs'|] eqn:HF; intros [= <-]. apply resolveNICs_Ok in HF.
    apply Forall2_fmap_r. eapply Forall2_impl; [done|]. simpl. eauto.
  - intros [= <-]. induction items as [|it items IH]; simpl; constructor; done.
Qed.

(** What a prepared device is, given its item. *)
Definition device_for claim (nic : bool) (it : prepItem) (pd : PreparedDevice) : Prop :=
  RequestNames (PD_Device pd) = [Res_Request (item_result it)] ∧
  PoolName (PD_Device pd) = Res_Pool (item_result it) ∧
  DeviceName_of (PD_Device pd) = Res_Device (item_result it) ∧
  if nic then
    ∃ sp, PD_NIC pd = Some sp ∧ ClaimUID sp = Claim_UID claim ∧ IfaceName sp = item_iface it ∧
      ∃ ref, ref ∈ Claim_ReservedFor claim ∧ is_pod_ref ref = true ∧ Ref_UID ref = PodUID sp
  else PD_NIC pd = None.

Lemma build_devices st claim edits admin nic items cfgs :
  Forall2 (λ it ocfg, if nic : bool then
      ∃ cfg, ocfg = Some cfg ∧ Nic_IfaceName cfg = item_iface it ∧
      ∃ ref, ref ∈ Claim_ReservedFor claim ∧ is_pod_ref ref = true ∧ Ref_UID ref = Nic_PodUID cfg
    else ocfg = None) items cfgs →
  Forall2 (device_for claim nic) items (zip_with (build_device st claim edits admin) items cfgs).
Proof.
  intros HF. induction HF as [|it ocfg items cfgs H HF IH]; simpl; constructor; [|done].
  unfold device_for, build_device. simpl. split_and!; [done..|]. destruct nic.
  - destruct H as (cfg & -> & Hi & Href). simpl. eexists. split; [done|]. simpl. auto.
  - by subst.
Qed.

(** A prepare that succeeds gives one device per result of the driver, in some order,
    and hands their NICs to the store; one that fails leaves disk, files and store as
    they were. *)
Lemma prepareDevices_spec env st claim r st' :
  prepareDevices env st claim = (r, st') →
  (∀ e, r = Err e → io st' = io st) ∧
  ∀ devices, r = Ok devices →
    io st' = (disk st, cdi_files st, (λ s, add_nics s devices) <$> nicStore st, cdi st, driverName st,
              ds_nodeName st, isNIC st) ∧
    ∃ a items, Claim_Allocation claim = Some a ∧
      item_result <$> items ≡ₚ own_results st a ∧
      Forall2 (device_for claim (isNIC st)) items devices ∧
      (isNIC st = true → NoDup (item_iface <$> items) ∧
        ∀ store ref t, nicStore st = Some store → ref ∈ Claim_ReservedFor claim → is_pod_ref ref = true →
          t ∈ Specs store (Ref_UID ref) → IfaceName t ∈ item_iface <$> items → ClaimUID t = Claim_UID claim).
Proof.
  unfold prepareDevices. destruct (Claim_Allocation claim) as [a|]; [|by intros [= <- <-]].
  destruct (resultsByConfig env st a) as [[[m configs]|e] st1] eqn:Er; apply resultsByConfig_Ok in Er as [Hio Hr];
    [|by intros [= <- <-]]. destruct (Hr m configs eq_refl) as [Hperm _]. clear Hr.
  destruct (apply_configs _ _ _ _) as [[edits configs']|e]; [|by intros [= <- <-]].
  set (items := items_of (isNIC st1) configs' (map_range 31 m)).
  assert (isNIC st1 = isNIC st ∧ nicStore st1 = nicStore st) as [Hnic Hst] by (unfold io in Hio; split; congruence).
  destruct (if isNIC st1 then _ else None) as [e|] eqn:Ec; [by intros [= <- <-]|].
  destruct (nic_configs env st1 claim items) as [cfgs|e] eqn:En; intros [= <- <-]; [|by split].
  apply nic_configs_Ok in En. split; [done|]. intros devices [= <-]. rewrite Hnic in *. split.
  { unfold io in *. simpl. congruence. }
  exists a, items. split_and!; [done| | |].
  - unfold items. by rewrite items_results, map_range_flatten, Hperm.
  - by apply build_devices.
  - intros Hn. rewrite Hn in Ec. apply checkInterfaceNames_None in Ec. by rewrite Hst in Ec.
Qed.

End prepare.
