(* ===== verification/Vmi.v ===== *)
(** * Annotations of a VMI (cmd/kube-ovn-dra-kubeletplugin/vmi.go)

    The MAC of a VM's NIC is written onto its VMI with a merge patch.  [State] says which
    annotations the driver asks for; here they are followed to the objects in the cluster.
    The API server is a parameter: it answers a merge patch as RFC 7386 says, as far as
    annotations are concerned, and touches no other object. *)

From S2P Require Import Prelude K8s NicConfig Subnet Json Annotation Store NicPrepare Profile Cdi Checkpoint State StateProps.

(** ** Objects as JSON *)

Fixpoint field (k : string) (fields : list (string * json)) : option json :=
  match fields with
  | [] => None
  | (k', v) :: fields => if bool_decide (k' = k) then Some v else field k fields
  end.

Definition fields_of (v : json) : list (string * json) := match v with JObj fields => fields | _ => [] end.
Definition get (k : string) (v : json) : json := default JNull (field k (fields_of v)).

Definition remove_field (k : string) (fields : list (string * json)) : list (string * json) :=
  filter (λ kv, kv.1 ≠ k) fields.
Definition set_field (k : string) (v : json) (fields : list (string * json)) : list (string * json) :=
  (k, v) :: remove_field k fields.

(** RFC 7386: a patch that is an object is merged member by member, null removes a
    member, and any other patch replaces the target. *)
Fixpoint merge_patch (target patch : json) {struct patch} : json :=
  match patch with
  | JObj members =>
      JObj ((fix merge_members members fields :=
               match members with
               | [] => fields
               | (k, v) :: members =>
                   merge_members members
                     match v with
                     | JNull => remove_field k fields
                     | v => set_field k (merge_patch (default JNull (field k fields)) v) fields
                     end
               end) members (fields_of target))
  | patch => patch
  end.

Definition annotation (v : json) (key : string) : option string :=
  match field key (fields_of (get "annotations" (get "metadata" v))) with
  | Some (JStr s) => Some s
  | _ => None
  end.

(** ** The request *)

Class ApiServer (C : Type) := {
  get_vmi : C → string → string → option json;
  (** A merge patch of the VMI in a namespace with a name. *)
  Patch : C → string → string → json → option error * C;
}.

Class ApiServerLaws (C : Type) `{AS : ApiServer C} := {
  Patch_ok c c' ns name patch : Patch c ns name patch = (None, c') →
    ∃ v v', get_vmi c ns name = Some v ∧ get_vmi c' ns name = Some v' ∧
      ∀ key, annotation v' key = annotation (merge_patch v patch) key;
  Patch_other c c' ns name patch e ns' name' : Patch c ns name patch = (e, c') → (ns', name') ≠ (ns, name) →
    get_vmi c' ns' name' = get_vmi c ns' name';
  Patch_failed c c' ns name patch e : Patch c ns name patch = (Some e, c') → get_vmi c' ns name = get_vmi c ns name;
}.

(** Marshalling a map of strings does not fail. *)
Definition vmi_patch (annotations : gmap string string) : json :=
  JObj [("metadata", JObj [("annotations", JObj (prod_map id JStr <$> map_to_list annotations))])].

Section annotator.
Context {C : Type} `{AS : ApiServer C}.

Definition dynamicVMIAnnotator (client : C) (namespace name : string) (annotations : gmap string string) :
    option error * C :=
  Patch client namespace name (vmi_patch annotations).

(** The MACs that were recorded, one request after the other; a request that fails ends
    them. *)
Fixpoint annotate_all (client : C) (writes : list (string * string * string * string)) : option error * C :=
  match writes with
  | [] => (None, client)
  | (namespace, name, key, mac) :: writes =>
      match dynamicVMIAnnotator client namespace name {[key := mac]} with
      | (None, client) => annotate_all client writes
      | (Some e, client) => (Some e, client)
      end
  end.
End annotator.

(** ** Merging annotations *)

Lemma field_remove k k' fields : field k (remove_field k' fields) = if decide (k = k') then None else field k fields.
Proof.
  unfold remove_field. induction fields as [|[k0 v] fields IH]; [by case_decide|]. rewrite filter_cons. cbn [fst field].
  destruct (decide (k0 = k')) as [->|Hne].
  - rewrite decide_False by naive_solver. rewrite IH. case_decide; [done|]. by rewrite bool_decide_eq_false_2 by done.
  - rewrite decide_True by done. cbn [field]. case_bool_decide as E; [|by rewrite IH]. subst. by rewrite decide_False.
Qed.
Lemma field_set k k' v fields :
  field k (set_field k' v fields) = if decide (k = k') then Some v else field k fields.
Proof. cbn [set_field field]. rewrite field_remove. by case_bool_decide; case_decide; subst. Qed.

Lemma get_object k v patch :
  patch ≠ JNull → get k (merge_patch v (JObj [(k, patch)])) = merge_patch (get k v) patch.
Proof.
  intros Hp. unfold get at 1. cbn [merge_patch fields_of].
  destruct patch; [done|..]; rewrite field_set, decide_True by done; done.
Qed.

Lemma field_members (l : list (string * string)) v key : NoDup l.*1 →
  field key (fields_of (merge_patch v (JObj (prod_map id JStr <$> l)))) =
    match (list_to_map l : gmap string string) !! key with
    | Some s => Some (JStr s)
    | None => field key (fields_of v)
    end.
Proof.
  cbn [merge_patch fields_of]. generalize (fields_of v) as fields.
  induction l as [|[k s] l IH]; intros fields Hnd; [done|]. apply NoDup_cons in Hnd as [Hk Hnd].
  cbn [fmap list_fmap prod_map fst snd id list_to_map foldr uncurry]. rewrite IH by done.
  destruct (decide (key = k)) as [->|].
  - rewrite (not_elem_of_list_to_map_1 _ _ Hk), field_set, decide_True by done. by rewrite lookup_insert_eq.
  - rewrite field_set, decide_False by done. by rewrite lookup_insert_ne.
Qed.

(** A patch sets the annotations it has and keeps the others. *)
Lemma annotation_patch v annotations key :
  annotation (merge_patch v (vmi_patch annotations)) key =
    match annotations !! key with Some s => Some s | None => annotation v key end.
Proof.
  unfold annotation, vmi_patch. rewrite !get_object by done.
  rewrite field_members by apply NoDup_fst_map_to_list. rewrite list_to_map_to_list. by destruct (annotations !! key).
Qed.

(** ** What the requests leave *)

Section records.
Context {C : Type} `{AL : ApiServerLaws C}.

(** The annotation of a VMI in the cluster. *)
Definition annotated (c : C) (ns name key : string) : option string :=
  get_vmi c ns name ≫= λ v, annotation v key.

Lemma annotator_annotated c c' ns name key mac ns' name' key' :
  dynamicVMIAnnotator c ns name {[key := mac]} = (None, c') →
  annotated c' ns' name' key' =
    if decide ((ns', name', key') = (ns, name, key)) then Some mac else annotated c ns' name' key'.
Proof.
  intros Hp. unfold annotated. destruct (decide ((ns', name') = (ns, name))) as [[= -> ->]|Hne].
  - destruct (Patch_ok _ _ _ _ _ Hp) as (v & v' & -> & -> & Ha). simpl. rewrite Ha, annotation_patch.
    destruct (decide (key' = key)) as [->|Hk]; [by rewrite lookup_singleton_eq, decide_True|].
    rewrite lookup_singleton_ne, decide_False by congruence. done.
  - rewrite (Patch_other _ _ _ _ _ _ _ _ Hp Hne), decide_False by congruence. done.
Qed.

(** Requests for different annotations: each one is there at the end, the others are kept. *)
Lemma annotate_all_annotated writes c c' :
  annotate_all c writes = (None, c') → NoDup writes.*1 →
  (∀ ns name key mac, (ns, name, key, mac) ∈ writes → annotated c' ns name key = Some mac) ∧
  (∀ ns name key, (ns, name, key) ∉ writes.*1 → annotated c' ns name key = annotated c ns name key).
Proof.
  revert c. induction writes as [|[[[ns name] key] mac] writes IH]; intros c Hw Hnd.
  { injection Hw as <-. split; [set_solver|done]. }
  cbn [annotate_all] in Hw. destruct (dynamicVMIAnnotator _ _ _ _) as [[e|] c1] eqn:Hp; [done|].
  apply NoDup_cons in Hnd as [Hk Hnd]. destruct (IH _ Hw Hnd) as [Hin Hout].
  split; intros ns' name' key'.
  - intros mac' [[= -> -> -> ->]|H]%elem_of_cons; [|by apply Hin].
    by rewrite (Hout _ _ _ Hk), (annotator_annotated _ _ _ _ _ _ _ _ _ Hp), decide_True.
  - rewrite fmap_cons, not_elem_of_cons. intros [Hne H].
    by rewrite (Hout _ _ _ H), (annotator_annotated _ _ _ _ _ _ _ _ _ Hp), decide_False.
Qed.
End records.

Section resolve.
Context `{K : K8s} `{G : GoImpl} `{PO : Poller} `{CDI0 : CDI} `{CD : ConfigDecoder}.
Context {P D : Type} `{PF : Profile P} `{M : CheckpointManager D}.
Context {C : Type} `{AL : ApiServerLaws C}.
Implicit Types (st : DeviceState P D) (c : C).

(** The annotations that resolving the NICs of a claim wrote. *)
Definition resolved_macs env st claim items : list (string * string * string * string) :=
  omap snd (imap (resolveNIC env st claim) items).

(** A NIC of a VM asks for the annotation of its interface, and no other NIC does. *)
Lemma resolveNIC_asks env st claim i it cfg patch :
  resolveNIC env st claim i it = (Ok cfg, patch) →
  patch = if annotateVMI st && negb (bool_decide (Nic_VMName cfg = EmptyString))
          then Some (Nic_PodNamespace cfg, Nic_VMName cfg, "nic.kubeovn.io/mac." +:+ item_iface it, Nic_MAC cfg)
          else None.
Proof.
  intros E. pose proof (resolveNIC_Ok _ _ _ _ _ _ _ E) as [<- _]. revert E. unfold resolveNIC.
  destruct (RequestIPAM _ _ _ _ _ _) as [c0|]; [|done]. destruct (subnetMTU _ _ _); [|done].
  destruct (subnetOVNDHCP _ _ _); [|done].
  destruct (annotateVMI st && _) eqn:Ea; [destruct (env_annotate env i); [done|]|]; intros [= <- <-];
    cbn [nic_with Nic_VMName] in *; by rewrite Ea.
Qed.

Lemma resolveNIC_key env st claim i it r ns name key mac :
  resolveNIC env st claim i it = (r, Some (ns, name, key, mac)) → key = "nic.kubeovn.io/mac." +:+ item_iface it.
Proof.
  destruct r as [cfg|e]; intros E.
  - apply resolveNIC_asks in E. by destruct (_ && _); simplify_eq.
  - revert E. unfold resolveNIC. repeat case_match; naive_solver.
Qed.

Lemma resolved_macs_elem env st claim items w :
  w ∈ resolved_macs env st claim items ↔
  ∃ i it, items !! i = Some it ∧ (resolveNIC env st claim i it).2 = Some w.
Proof.
  unfold resolved_macs. rewrite list_elem_of_omap. split.
  - intros (x & (i & it & -> & Hi)%elem_of_lookup_imap & Hx). eauto.
  - intros (i & it & Hi & Hw). exists (resolveNIC env st claim i it). split; [|done].
    by apply elem_of_lookup_imap_2.
Qed.

(** Different interface names make different keys. *)
Lemma resolved_macs_NoDup env st claim items :
  NoDup (item_iface <$> items) → NoDup (resolved_macs env st claim items).*1.
Proof.
  unfold resolved_macs. generalize (resolveNIC env st claim), (resolveNIC_key env st claim). intros f Hf. revert f Hf.
  induction items as [|it items IH]; intros f Hf Hnd; [constructor|].
  rewrite fmap_cons in Hnd. apply NoDup_cons in Hnd as [Hn Hnd]. rewrite imap_cons. simpl.
  specialize (IH (f ∘ S) (λ i, Hf (S i)) Hnd).
  destruct (f 0 it) as [r [[[[ns name] key] mac]|]] eqn:E; simpl; [|done].
  apply NoDup_cons. split; [|done]. apply Hf in E as ->. intros ([k m] & [= <-] & Hin)%list_elem_of_fmap.
  apply list_elem_of_omap in Hin as (x & (j & it' & -> & Hj)%elem_of_lookup_imap & Hx). simpl in Hx.
  destruct (f (S j) it') as [r' p] eqn:E'. simpl in Hx. subst p. apply Hf in E' as E'.
  apply (inj (String.append _)) in E'. apply Hn. rewrite E'. apply list_elem_of_fmap_2. by eapply list_elem_of_lookup_2.
Qed.

(** C14: the NICs of a claim are resolved at a time, so that their requests reach the API
    server in any order.  When the driver is to annotate VMIs, the claim's interface names
    passed the driver's check and the requests are answered without an error, the VMI of
    every NIC of a VM that was resolved has the annotation nic.kubeovn.io/mac.<interface>
    with the MAC that the NIC is attached with, whether all NICs were resolved or not; and
    every annotation under another key, of any VMI, is as before. *)
Theorem resolveNICs_recorded env st claim items writes c c' :
  annotateVMI st = true → checkInterfaceNames st claim (item_iface <$> items) = None →
  writes ≡ₚ resolved_macs env st claim items → annotate_all c writes = (None, c') →
  (∀ i it cfg, items !! i = Some it → (resolveNIC env st claim i it).1 = Ok cfg → Nic_VMName cfg ≠ EmptyString →
     ∃ v, get_vmi c' (Nic_PodNamespace cfg) (Nic_VMName cfg) = Some v ∧
       annotation v ("nic.kubeovn.io/mac." +:+ item_iface it) = Some (MAC (nicSpecFromConfig cfg))) ∧
  (∀ ns name key, (∀ it, it ∈ items → key ≠ "nic.kubeovn.io/mac." +:+ item_iface it) →
     annotated c' ns name key = annotated c ns name key).
Proof.
  intros Hst [Hnd _]%checkInterfaceNames_None Hperm Hw.
  destruct (annotate_all_annotated _ _ _ Hw) as [Hin Hout].
  { rewrite Hperm. by apply resolved_macs_NoDup. }
  split.
  - intros i it cfg Hi Hr Hvm. destruct (resolveNIC env st claim i it) as [r patch] eqn:E. simpl in Hr. subst r.
    pose proof (resolveNIC_asks _ _ _ _ _ _ _ E) as Hp. rewrite Hst, bool_decide_eq_false_2 in Hp by done.
    assert (annotated c' (Nic_PodNamespace cfg) (Nic_VMName cfg) ("nic.kubeovn.io/mac." +:+ item_iface it) =
            Some (Nic_MAC cfg)) as Ha.
    { apply Hin. rewrite Hperm. apply resolved_macs_elem. exists i, it. by rewrite E. }
    unfold annotated in Ha. apply bind_Some in Ha as (v & Hv & Ha). by exists v.
  - intros ns name key Hk. apply Hout. intros ([k m] & [= <-] & Hin')%list_elem_of_fmap.
    rewrite Hperm in Hin'. apply resolved_macs_elem in Hin' as (i & it & Hi & Hs).
    destruct (resolveNIC env st claim i it) as [r p] eqn:E. simpl in Hs. subst p. apply resolveNIC_key in E.
    eapply Hk; [|done]. by eapply list_elem_of_lookup_2.
Qed.
End resolve.
