(* ===== verification/Lifecycle.v ===== *)
(** * The lifecycle of prepared claims

    The invariant that ties the checkpoint to the NIC store, over every sequence of
    prepare, unprepare and refresh calls and restarts of the plugin, whatever the API
    server, the disk and the CDI directory answer. *)

From S2P Require Import Prelude K8s NicConfig Subnet Annotation Store StoreInv NicPrepare Profile Cdi Checkpoint State StateProps.

Section lifecycle.
Context `{K : K8s} `{G : GoImpl} `{PO : Poller} `{CDI0 : CDI} `{CD : ConfigDecoder}.
Context {P D : Type} `{PF : Profile P} `{ML : CheckpointLaws D}.

Implicit Types (st : DeviceState P D) (env : PrepareEnv) (claim : ResourceClaim).

(** Every NIC of the checkpoint is in the store, under its claim, but for the claims that
    are [gone]: an unprepare has taken their NICs out of the store, and they are still in
    the checkpoint. *)
Definition covered_but (gone : gset string) (d : D) (store : NICStore) : Prop :=
  ∀ claims uid devices pd sp,
    GetCheckpoint d = Ok claims → claims !! uid = Some devices → uid ∉ gone → pd ∈ devices → PD_NIC pd = Some sp →
    ClaimUID sp = uid ∧ sp ∈ Specs store (PodUID sp).

(** The plugin has a store, the NICs of a pod have distinct interface names, and the
    sandbox hooks find every checkpointed NIC, of claims that are not gone. *)
Definition inv_but (gone : gset string) st : Prop :=
  ∃ store, nicStore st = Some store ∧ store_wf store ∧ covered_but gone (disk st) store.

Lemma covered_but_mono gone gone' d store : gone ⊆ gone' → covered_but gone d store → covered_but gone' d store.
Proof. intros Hs Hc claims uid ds pd sp Hg Hu Hn. apply (Hc claims uid ds); [done..|set_solver]. Qed.

Lemma inv_but_mono gone gone' st : gone ⊆ gone' → inv_but gone st → inv_but gone' st.
Proof. intros Hs (store & H1 & H2 & H3). exists store. split_and!; [done..|]. by eapply covered_but_mono. Qed.

Lemma inv_but_io gone st st' : io st' = io st → inv_but gone st → inv_but gone st'.
Proof. unfold io, inv_but. intros [= Hd _ Hs _ _ _ _]. by rewrite Hd, Hs. Qed.

Lemma omap_NIC_elem claim nic items devices sp :
  Forall2 (device_for claim nic) items devices → sp ∈ omap PD_NIC devices →
  nic = true ∧ ClaimUID sp = Claim_UID claim ∧ IfaceName sp ∈ item_iface <$> items ∧
  ∃ ref, ref ∈ Claim_ReservedFor claim ∧ is_pod_ref ref = true ∧ Ref_UID ref = PodUID sp.
Proof.
  intros HF (pd & Hpd & Hsp)%list_elem_of_omap. apply list_elem_of_lookup in Hpd as [i Hi].
  destruct (Forall2_lookup_r _ _ _ _ _ HF Hi) as (it & Hit & _ & _ & _ & Hd).
  destruct nic; [|congruence]. destruct Hd as (sp' & Hsp' & Hc & Hn & Href).
  assert (sp' = sp) as -> by congruence. split_and!; try done. rewrite Hn.
  apply list_elem_of_fmap_2. by eapply list_elem_of_lookup_2.
Qed.

Lemma omap_NIC_names claim items devices :
  Forall2 (device_for claim true) items devices →
  IfaceName <$> omap PD_NIC devices = item_iface <$> items.
Proof.
  induction 1 as [|it pd items devices (_ & _ & _ & sp & Hsp & _ & Hn & _) HF IH]; [done|].
  change (omap PD_NIC (pd :: devices))
    with (match PD_NIC pd with Some x => x :: omap PD_NIC devices | None => omap PD_NIC devices end).
  by rewrite Hsp, !fmap_cons, Hn, IH.
Qed.

(** The specs are of one claim, with distinct names that no other claim of their pods uses. *)
Definition addable (c : string) (specs : list Spec) (store : NICStore) : Prop :=
  (∀ sp, sp ∈ specs → ClaimUID sp = c) ∧ NoDup (IfaceName <$> specs) ∧
  (∀ sp t, sp ∈ specs → t ∈ Specs store (PodUID sp) → IfaceName t = IfaceName sp → ClaimUID t = c).

Lemma prepareDevices_addable env st claim devices st' store :
  prepareDevices env st claim = (Ok devices, st') → nicStore st = Some store →
  addable (Claim_UID claim) (omap PD_NIC devices) store.
Proof.
  intros HP Hs. apply prepareDevices_spec in HP as [_ HP].
  destruct (HP devices eq_refl) as (_ & a & items & _ & _ & HF & Hnic). clear HP. split_and!.
  - intros sp Hsp. by eapply omap_NIC_elem in Hsp as (_ & ? & _).
  - destruct (isNIC st).
    + rewrite (omap_NIC_names claim items) by done. by apply Hnic.
    + assert (omap PD_NIC devices = []) as ->; [|constructor].
      apply elem_of_nil_inv. intros sp Hsp. by destruct (omap_NIC_elem _ _ _ _ _ HF Hsp) as (? & _).
  - intros sp t Hsp Ht E. destruct (omap_NIC_elem _ _ _ _ _ HF Hsp) as (Hn & _ & Hin & ref & Href & Hp & Hu).
    destruct (Hnic Hn) as [_ H]. apply (H store ref); [done..|by rewrite Hu|by rewrite E].
Qed.

(** The store after a successful prepareDevices. *)
Lemma add_nics_spec env st claim devices st' store :
  prepareDevices env st claim = (Ok devices, st') → nicStore st = Some store → store_wf store →
  store_wf (add_nics store devices) ∧
  (∀ sp, sp ∈ omap PD_NIC devices → sp ∈ Specs (add_nics store devices) (PodUID sp) ∧
                                   ClaimUID sp = Claim_UID claim) ∧
  (∀ pod t, t ∈ Specs store pod → ClaimUID t ≠ Claim_UID claim → t ∈ Specs (add_nics store devices) pod).
Proof.
  intros HP Hs Hwf. destruct (prepareDevices_addable _ _ _ _ _ _ HP Hs) as (Hc & Hnd & Hcl).
  destruct (Add_claim_wf (Claim_UID claim) (omap PD_NIC devices) store) as [Hwf' Hel]; [done..|].
  split_and!; [done| |].
  - intros sp Hsp. split; [|auto]. apply Hel. by left.
  - intros pod t Ht Hne. apply Hel. right. split; [done|]. intros sp Hsp [<- E]. apply Hne. by eapply Hcl.
Qed.

(** Adding the NICs of a claim that is not checkpointed keeps the others covered. *)
Lemma covered_add gone env st claim devices st' store claims :
  prepareDevices env st claim = (Ok devices, st') → nicStore st = Some store → store_wf store →
  covered_but gone (disk st) store → GetCheckpoint (disk st) = Ok claims → claims !! Claim_UID claim = None →
  covered_but gone (disk st) (add_nics store devices).
Proof.
  intros HP Hs Hwf Hcov Hg Hn. destruct (add_nics_spec _ _ _ _ _ _ HP Hs Hwf) as (_ & _ & Hkeep).
  intros claims' uid ds pd sp Hg' Hu Hng Hpd Hsp. destruct (Hcov _ _ _ _ _ Hg' Hu Hng Hpd Hsp) as [Hc Hin].
  split; [done|]. apply Hkeep; [done|]. rewrite Hc. congruence.
Qed.

Lemma covered_create gone d claims store uid devices d' :
  CreateCheckpoint d (<[uid := devices]> claims) = (None, d') → GetCheckpoint d = Ok claims → covered_but gone d store →
  (∀ sp, sp ∈ omap PD_NIC devices → ClaimUID sp = uid ∧ sp ∈ Specs store (PodUID sp)) →
  covered_but gone d' store.
Proof.
  intros Hc%create_get Hg Hcov Hnew claims' uid' ds pd sp Hg' Hu Hn Hpd Hsp.
  rewrite Hc in Hg'. injection Hg' as <-. destruct (decide (uid' = uid)) as [->|Hne].
  - rewrite lookup_insert_eq in Hu. injection Hu as <-. apply Hnew, list_elem_of_omap. eauto.
  - rewrite lookup_insert_ne in Hu by done. by eapply Hcov.
Qed.

Lemma covered_but_same gone d d' store :
  GetCheckpoint d' = GetCheckpoint d → covered_but gone d store → covered_but gone d' store.
Proof. unfold covered_but. by intros ->. Qed.

(** Prepare keeps the invariant on every path, also when the CDI file or the checkpoint
    cannot be written. *)
Lemma Prepare_inv gone env st claim r st' : Prepare env st claim = (r, st') → inv_but gone st → inv_but gone st'.
Proof.
  unfold Prepare. intros HP Hinv. pose proof Hinv as (store & Hs & Hwf & Hcov).
  destruct (GetCheckpoint (disk st)) as [claims|] eqn:Hg; [|by simplify_eq].
  destruct (claims !! Claim_UID claim) as [ds|] eqn:Hu; [by simplify_eq|].
  destruct (prepareDevices env st claim) as [[devices|e] st1] eqn:Hd;
    pose proof (prepareDevices_spec _ _ _ _ _ Hd) as [Herr Hok].
  2: { injection HP as <- <-. apply (inv_but_io _ st); [by eapply Herr|done]. }
  destruct (Hok devices eq_refl) as [[= Hdisk Hfiles Hstore Hcdi _ _ _] _]. clear Herr Hok.
  rewrite Hs in Hstore. simpl in Hstore.
  destruct (add_nics_spec _ _ _ _ _ _ Hd Hs Hwf) as (Hwf' & Hnew & _).
  assert (covered_but gone (disk st1) (add_nics store devices)) as Hcov' by (rewrite Hdisk; by eapply covered_add).
  destruct (CreateClaimSpecFile _ _ _ _) as [[e|] files]; [injection HP as <- <-; eexists; by split_and!|].
  simpl in HP. rewrite Hdisk in HP. destruct (CreateCheckpoint (disk st) _) as [[e|] d] eqn:Hc;
    injection HP as <- <-; eexists; (split_and!; [done..|]); simpl; rewrite Hdisk in Hcov'.
  - by eapply covered_but_same; [eapply create_fail|].
  - eapply covered_create; [done..|]. intros sp Hsp. by destruct (Hnew sp Hsp).
Qed.

(** Without an entry in the checkpoint the claim needs no NICs. *)
Lemma inv_but_none gone uid st claims :
  GetCheckpoint (disk st) = Ok claims → claims !! uid = None → inv_but gone st → inv_but (gone ∖ {[uid]}) st.
Proof.
  intros Hg Hu (store & Hs & Hwf & Hcov). exists store. split_and!; [done..|].
  intros claims' u ds pd sp Hg' Hu' Hn. apply (Hcov claims' u ds); [done..|]. set_unfold. intros Hin. apply Hn.
  split; [done|]. intros ->. congruence.
Qed.

(** A checkpoint that lost entries, or failed to be written. *)
Lemma inv_but_disk gone st d claims claims' :
  GetCheckpoint (disk st) = Ok claims → GetCheckpoint d = Ok claims' → claims' ⊆ claims →
  inv_but gone st → inv_but gone (with_disk st d).
Proof.
  intros Hg Hg' Hsub (store & Hs & Hwf & Hcov). exists store. split_and!; [done..|].
  intros cl u ds pd sp Hd Hu. simpl in Hd. rewrite Hg' in Hd. injection Hd as <-. eapply Hcov; [done|by eapply lookup_weaken].
Qed.

Lemma inv_but_same gone st d :
  GetCheckpoint d = GetCheckpoint (disk st) → inv_but gone st → inv_but gone (with_disk st d).
Proof. intros Hg (store & Hs & Hwf & Hcov). exists store. split_and!; [done..|]. by eapply covered_but_same. Qed.

Lemma inv_but_empty gone gone' st d : GetCheckpoint d = Ok ∅ → inv_but gone st → inv_but gone' (with_disk st d).
Proof.
  intros Hg (store & Hs & Hwf & _). exists store. split_and!; [done..|]. intros cl u ds pd sp Hd Hu. simpl in Hd.
  rewrite Hg in Hd. injection Hd as <-. by rewrite lookup_empty in Hu.
Qed.

Lemma unprepareDevices_inv gone uid st : uid ∈ gone → inv_but gone st → inv_but gone (unprepareDevices st uid).
Proof.
  intros Hin (store & Hs & Hwf & Hcov). unfold unprepareDevices. rewrite Hs. exists (RemoveClaim store uid).
  split_and!; [done|by apply RemoveClaim_wf|]. intros cl u ds pd sp Hg Hu Hn Hpd Hsp. simpl in Hg.
  destruct (Hcov _ _ _ _ _ Hg Hu Hn Hpd Hsp) as [Hc Hi]. split; [done|]. rewrite Specs_RemoveClaim.
  apply list_elem_of_filter. split; [|done]. rewrite Hc. by intros ->.
Qed.

(** The claims that are gone after an unprepare: the one it was about, unless it worked. *)
Definition gone_by (gone : gset string) (uid : string) (e : option error) : gset string :=
  match e with None => gone ∖ {[uid]} | Some _ => gone ∪ {[uid]} end.

Lemma inv_but_gone_by gone uid e st : inv_but (gone ∖ {[uid]}) st → inv_but (gone_by gone uid e) st.
Proof. destruct e; [|done]. apply inv_but_mono. set_solver. Qed.

(** An unprepare on every path. *)
Lemma Unprepare_inv gone st uid e st' :
  Unprepare st uid = (e, st') → inv_but gone st → inv_but (gone_by gone uid e) st'.
Proof.
  unfold Unprepare. intros HU Hinv. destruct (GetCheckpoint (disk st)) as [claims|e0] eqn:Hg.
  - destruct (claims !! uid) as [ds|] eqn:Hu; [|injection HU as <- <-; by eapply inv_but_none].
    apply (inv_but_mono _ (gone ∪ {[uid]})), (unprepareDevices_inv _ uid) in Hinv; [|set_solver..].
    assert (disk (unprepareDevices st uid) = disk st) as Hd by done. revert HU Hinv Hd.
    generalize (unprepareDevices st uid) as st1. intros st1 HU Hinv Hd.
    destruct (DeleteClaimSpecFile _ _ _) as [[er|] files]; [by injection HU as <- <-|]. simpl in HU. rewrite Hd in HU.
    destruct (CreateCheckpoint (disk st) _) as [[er|] d] eqn:Hc; injection HU as <- <-; simpl.
    + apply create_fail in Hc. eapply inv_but_same; [by simpl; rewrite Hd|done].
    + apply create_get in Hc. eapply (inv_but_mono ((gone ∪ {[uid]}) ∖ {[uid]})); [set_solver|].
      eapply inv_but_none; [done|apply lookup_delete_eq|].
      eapply (inv_but_disk _ (with_files st1 files)); [by simpl; rewrite Hd|done|apply delete_subseteq|done].
  - destruct (CreateCheckpoint (disk st) ∅) as [[er|] d] eqn:Hc.
    + injection HU as <- <-. apply create_fail in Hc. apply (inv_but_mono gone); [set_solver|]. by apply inv_but_same.
    + rewrite lookup_empty in HU. injection HU as <- <-. apply create_get in Hc. by eapply inv_but_empty.
Qed.

Lemma RefreshDevices_inv gone api st r st' : RefreshDevices api st = (r, st') → inv_but gone st → inv_but gone st'.
Proof.
  unfold RefreshDevices. destruct (EnumerateDevices _ _) as [[res|] p]; [destruct (DeepEqual _ _)|];
    intros [= _ <-]; apply inv_but_io; done.
Qed.

(** ** The checkpoint on its own *)

(** Some store would do for the checkpoint: what a new process starts from. *)
Definition recoverable (d : D) : Prop := ∃ v, store_wf v ∧ covered_but ∅ d v.

Lemma recoverable_sub d d' claims claims' :
  GetCheckpoint d = Ok claims → GetCheckpoint d' = Ok claims' → claims' ⊆ claims → recoverable d → recoverable d'.
Proof.
  intros Hg Hg' Hsub (v & Hwf & Hcov). exists v. split; [done|]. intros cl u ds pd sp Hd Hu.
  rewrite Hg' in Hd. injection Hd as <-. eapply Hcov; [done|by eapply lookup_weaken].
Qed.

Lemma recoverable_same d d' : GetCheckpoint d' = GetCheckpoint d → recoverable d → recoverable d'.
Proof. intros E (v & Hwf & Hcov). exists v. split; [done|by eapply covered_but_same]. Qed.

Lemma recoverable_empty d : GetCheckpoint d = Ok ∅ → recoverable d.
Proof.
  intros Hg. exists NewNICStore. split; [apply store_wf_new|]. intros cl u ds pd sp Hd Hu. rewrite Hg in Hd.
  injection Hd as <-. by rewrite lookup_empty in Hu.
Qed.

Lemma inv_recoverable st : inv_but ∅ st → recoverable (disk st).
Proof. intros (store & _ & Hwf & Hcov). by exists store. Qed.

(** An unprepare only ever takes a claim out of the checkpoint, or empties it. *)
Lemma Unprepare_recoverable st uid e st' :
  Unprepare st uid = (e, st') → recoverable (disk st) → recoverable (disk st').
Proof.
  unfold Unprepare. intros HU Hr. destruct (GetCheckpoint (disk st)) as [claims|e0] eqn:Hg.
  - destruct (claims !! uid) as [ds|]; [|by injection HU as <- <-].
    destruct (DeleteClaimSpecFile _ _ _) as [[er|] files]; [by injection HU as <- <-|]. simpl in HU.
    destruct (CreateCheckpoint (disk st) _) as [[er|] d] eqn:Hc; injection HU as <- <-; simpl.
    + by eapply recoverable_same; [eapply create_fail|].
    + apply create_get in Hc. by apply (recoverable_sub (disk st) d claims (delete uid claims)); [..|apply delete_subseteq|].
  - destruct (CreateCheckpoint (disk st) ∅) as [[er|] d] eqn:Hc.
    + injection HU as <- <-. by eapply recoverable_same; [eapply create_fail|].
    + rewrite lookup_empty in HU. injection HU as <- <-. by eapply recoverable_empty, create_get.
Qed.

Lemma checkpoint_nics_elem claims sp :
  sp ∈ checkpoint_nics claims ↔ ∃ uid ds pd, claims !! uid = Some ds ∧ pd ∈ ds ∧ PD_NIC pd = Some sp.
Proof.
  unfold checkpoint_nics. rewrite list_elem_of_bind. split.
  - intros ([uid ds] & (pd & Hpd & Hsp)%list_elem_of_omap & Hin%map_range_elem). by exists uid, ds, pd.
  - intros (uid & ds & pd & Hu & Hpd & Hsp). exists (uid, ds). rewrite map_range_elem.
    split; [|done]. apply list_elem_of_omap. eauto.
Qed.

(** A new process on a disk with such a checkpoint. *)
Lemma restart_inv config api p d files st' :
  NewDeviceState config api p d files (Some NewNICStore) = Ok st' → recoverable d →
  inv_but ∅ st' ∧ ∀ store claims, nicStore st' = Some store → GetCheckpoint (disk st') = Ok claims →
    ∀ pod t, t ∈ Specs store pod → PodUID t = pod ∧ t ∈ checkpoint_nics claims.
Proof.
  unfold NewDeviceState. intros HN (store & Hwf & Hcov).
  destruct (EnumerateDevices api p) as [res p']. apply bind_Ok in HN as (r & _ & HN).
  destruct (CreateCommonSpecFile _ _) as [[e|] files']; [done|]. simpl in HN.
  apply bind_Ok in HN as (cps & _ & HN). case_bool_decide.
  - unfold restoreNICs in HN. simpl in HN. apply bind_Ok in HN as (claims & Hg%wrap_err_Ok & [= <-]).
    assert (∀ sp, sp ∈ checkpoint_nics claims → sp ∈ Specs store (PodUID sp)) as Hl.
    { intros sp (uid & ds & pd & Hu & Hpd & Hsp)%checkpoint_nics_elem. by eapply (Hcov _ uid). }
    destruct (Add_restore_wf store (checkpoint_nics claims) NewNICStore) as [Hwf' Hel];
      [done..|apply store_wf_new|intros pod t Ht; by apply not_elem_of_nil in Ht|].
    split.
    + eexists. split_and!; [done|done|]. intros claims' uid ds pd sp Hg' Hu Hn Hpd Hsp. simpl in Hg'.
      split; [by eapply Hcov|]. apply Hel. left. split; [|done]. apply checkpoint_nics_elem.
      rewrite Hg in Hg'. injection Hg' as <-. by exists uid, ds, pd.
    + intros s claims' [= <-] Hg'. simpl in Hg'. rewrite Hg in Hg'. injection Hg' as <-.
      intros pod t [[Ht Hp]|Ht]%Hel; [done|by apply not_elem_of_nil in Ht].
  - destruct (CreateCheckpoint d ∅) as [[e|] d'] eqn:Hc; [done|]. injection HN as <-.
    apply create_get in Hc. split.
    + eexists. split_and!; [done|apply store_wf_new|]. intros claims' uid ds pd sp Hg' Hu. simpl in Hg'.
      rewrite Hc in Hg'. injection Hg' as <-. by rewrite lookup_empty in Hu.
    + intros s claims' [= <-] _ pod t Ht. by apply not_elem_of_nil in Ht.
Qed.

(** ** What kubelet gets *)

(** The paths of a prepare call that succeeds. *)
Lemma Prepare_Ok env st claim devices st' :
  Prepare env st claim = (Ok devices, st') →
  ∃ claims, GetCheckpoint (disk st) = Ok claims ∧
    ((∃ pds, claims !! Claim_UID claim = Some pds ∧ devices = GetDevices pds ∧ st' = st) ∨
     (claims !! Claim_UID claim = None ∧ ∃ pds st1 files,
        prepareDevices env st claim = (Ok pds, st1) ∧ devices = GetDevices pds ∧
        CreateClaimSpecFile (cdi st1) (cdi_files st1) (Claim_UID claim) pds = (None, files) ∧
        cdi_files st' = files ∧ nicStore st' = nicStore st1 ∧
        GetCheckpoint (disk st') = Ok (<[Claim_UID claim := pds]> claims))).
Proof.
  unfold Prepare. destruct (GetCheckpoint (disk st)) as [claims|]; [|done]. intros E. exists claims.
  split; [done|]. destruct (claims !! Claim_UID claim) as [pds|] eqn:Hu.
  { injection E as <- <-. left. eauto. }
  right. split; [done|]. destruct (prepareDevices env st claim) as [[pds|] st1] eqn:Hp; [|done].
  destruct (CreateClaimSpecFile _ _ _ _) as [[e|] files] eqn:Hf; [done|]. simpl in E.
  destruct (CreateCheckpoint _ _) as [[e|] d] eqn:Hc; [done|]. injection E as <- <-.
  apply create_get in Hc. exists pds, st1, files. by split_and!.
Qed.

(** Preparing a claim again returns the same devices and changes nothing, whatever
    the environment answers by then. *)
Theorem Prepare_idempotent env env' st claim devices st' :
  Prepare env st claim = (Ok devices, st') → Prepare env' st' claim = (Ok devices, st').
Proof.
  intros (claims & Hg & [(pds & Hu & -> & ->)|(_ & pds & _ & _ & _ & -> & _ & _ & _ & Hg')])%Prepare_Ok;
    unfold Prepare; [by rewrite Hg, Hu|by rewrite Hg', lookup_insert_eq].
Qed.

(** C13: a first prepare hands kubelet exactly one device per allocation result of this
    driver, whatever the order of the maps; it checkpoints them, and every NIC it
    resolved is in the store under the claim, with an interface name of its own. *)
Theorem Prepare_devices env st claim devices st' claims store :
  GetCheckpoint (disk st) = Ok claims → claims !! Claim_UID claim = None →
  nicStore st = Some store → store_wf store →
  Prepare env st claim = (Ok devices, st') →
  ∃ a pds store', Claim_Allocation claim = Some a ∧ devices = GetDevices pds ∧ nicStore st' = Some store' ∧
    ((λ d, (RequestNames d, PoolName d, DeviceName_of d)) <$> devices) ≡ₚ
      ((λ r, ([Res_Request r], Res_Pool r, Res_Device r)) <$> own_results st a) ∧
    GetCheckpoint (disk st') = Ok (<[Claim_UID claim := pds]> claims) ∧
    store_wf store' ∧
    (isNIC st = true → Forall (λ pd, ∃ sp, PD_NIC pd = Some sp ∧ ClaimUID sp = Claim_UID claim ∧
                                      sp ∈ Specs store' (PodUID sp)) pds).
Proof.
  intros Hg Hn Hs Hwf (claims' & Hg' & [(pds & Hu & _)|(_ & pds & st1 & files & Hp & -> & _ & _ & Hs' & Hc)])%Prepare_Ok;
    rewrite Hg in Hg'; injection Hg' as <-; [congruence|].
  destruct (add_nics_spec _ _ _ _ _ _ Hp Hs Hwf) as (Hwf' & Hnew & _).
  apply prepareDevices_spec in Hp as [_ Hp].
  destruct (Hp pds eq_refl) as ([= _ _ Hst1 _ _ _ _] & a & items & Ha & Hperm & HF & _). rewrite Hs in Hst1. simpl in Hst1.
  exists a, pds, (add_nics store pds). split_and!; [done|done|congruence| |done|done|].
  - unfold GetDevices. rewrite <- Hperm, <- !list_fmap_compose. clear -HF.
    induction HF as [|it pd items pds (Hr & Hpool & Hd & _) HF IH]; [done|].
    rewrite !fmap_cons, IH. simpl. by rewrite Hr, Hpool, Hd.
  - intros Hnic. rewrite Hnic in HF. apply Forall_forall. intros pd Hpd.
    pose proof Hpd as [i Hi]%list_elem_of_lookup.
    destruct (Forall2_lookup_r _ _ _ _ _ HF Hi) as (it & _ & _ & _ & _ & sp & Hsp & Hcl & _).
    exists sp. split_and!; [done..|]. apply Hnew, list_elem_of_omap. eauto.
Qed.

(** ** Unprepare *)

(** Unpreparing a prepared claim removes it from the checkpoint, removes its CDI
    file and every NIC of it from the store, and touches no other claim. *)
Theorem Unprepare_frees st uid st' claims pds :
  GetCheckpoint (disk st) = Ok claims → claims !! uid = Some pds → Unprepare st uid = (None, st') →
  GetCheckpoint (disk st') = Ok (delete uid claims) ∧
  cdi_files st' = delete (claim_spec_name (cdi st) uid) (cdi_files st) ∧
  ∀ store, nicStore st = Some store → ∃ store', nicStore st' = Some store' ∧
    ∀ pod, Specs store' pod = filter (λ s, ClaimUID s ≠ uid) (Specs store pod).
Proof.
  unfold Unprepare. intros -> Hu. rewrite Hu. unfold unprepareDevices, DeleteClaimSpecFile. simpl.
  destruct (RemoveSpec _ _); [done|]. simpl. destruct (CreateCheckpoint _ _) as [[e|] d] eqn:Hc; [done|].
  intros [= <-]. simpl. split_and!; [by eapply create_get|done|]. intros store ->. eexists. split; [done|].
  intros pod. apply Specs_RemoveClaim.
Qed.

Lemma filter_upsert c sp l :
  ClaimUID sp = c → filter (λ s, ClaimUID s ≠ c) (upsert (same_nic sp) sp l) = filter (λ s, ClaimUID s ≠ c) l.
Proof.
  intros Hc. induction l as [|t l IH]; simpl.
  - rewrite filter_cons, decide_False by auto. done.
  - unfold same_nic at 1. destruct (decide (ClaimUID t = c)) as [Ht|Ht].
    + destruct (_ && _); rewrite !filter_cons, !(decide_False (P := ClaimUID _ ≠ c)) by auto; done.
    + rewrite bool_decide_false by congruence. simpl. rewrite !filter_cons, !decide_True by done. by rewrite IH.
Qed.

Lemma filter_add_nics c l store pod :
  (∀ sp, sp ∈ l → ClaimUID sp = c) →
  filter (λ s, ClaimUID s ≠ c) (Specs (foldl Add store l) pod) = filter (λ s, ClaimUID s ≠ c) (Specs store pod).
Proof.
  revert store. induction l as [|sp l IH]; intros store Hl; simpl; [done|]. rewrite IH by set_solver.
  rewrite Specs_Add. case_decide; [|done]. apply filter_upsert. set_solver.
Qed.

(** C21: preparing a claim and unpreparing it again leaves the checkpoint as it was, and
    the store with exactly the NICs of the other claims, in their order. *)
Theorem Prepare_Unprepare_roundtrip env st claim devices st1 st2 claims store :
  GetCheckpoint (disk st) = Ok claims → claims !! Claim_UID claim = None →
  nicStore st = Some store → store_wf store →
  Prepare env st claim = (Ok devices, st1) → Unprepare st1 (Claim_UID claim) = (None, st2) →
  GetCheckpoint (disk st2) = Ok claims ∧
  ∃ store2, nicStore st2 = Some store2 ∧
    ∀ pod, Specs store2 pod = filter (λ s, ClaimUID s ≠ Claim_UID claim) (Specs store pod).
Proof.
  intros Hg Hn Hs Hwf (claims' & Hg' & [(pds & Hu & _)|(_ & pds & stp & files & Hp & _ & _ & _ & Hs' & Hc)])%Prepare_Ok;
    rewrite Hg in Hg'; injection Hg' as <-; [congruence|].
  destruct (add_nics_spec _ _ _ _ _ _ Hp Hs Hwf) as (_ & Hnew & _).
  apply prepareDevices_spec in Hp as [_ Hp]. destruct (Hp pds eq_refl) as ([= _ _ Hst1 _ _ _ _] & _). clear Hp.
  unfold Unprepare. rewrite Hc, lookup_insert_eq. unfold unprepareDevices. simpl.
  destruct (DeleteClaimSpecFile _ _ _) as [[e|] files']; [done|]. simpl.
  destruct (CreateCheckpoint _ _) as [[e|] d] eqn:Hd; [done|]. intros [= <-]. simpl.
  apply create_get in Hd. rewrite Hd, delete_insert_id by done. split; [done|].
  rewrite Hs', Hst1, Hs. simpl. eexists. split; [done|]. intros pod. rewrite Specs_RemoveClaim.
  apply filter_add_nics. intros sp Hsp. by apply Hnew.
Qed.

(** ** Restart *)

(** C22: on a disk with a checkpoint that some store without name clashes could hold, as every
    run leaves it but one that prepared after a failed unprepare, a new process has in its
    store exactly the NICs of the checkpointed claims: those it needs to attach sandboxes
    again, each under its pod, and nothing of claims that were never checkpointed. *)
Theorem restart_restores config api p d files st' claims :
  recoverable d → NewDeviceState config api p d files (Some NewNICStore) = Ok st' →
  GetCheckpoint (disk st') = Ok claims →
  ∃ store, nicStore st' = Some store ∧
    ∀ pod sp, sp ∈ Specs store pod ↔
      PodUID sp = pod ∧ ∃ uid pds pd, claims !! uid = Some pds ∧ pd ∈ pds ∧ PD_NIC pd = Some sp.
Proof.
  intros Hinv HN Hg. destruct (restart_inv _ _ _ _ _ _ HN Hinv) as [(store & Hs & _ & Hcov) Hall].
  exists store. split; [done|]. intros pod sp. rewrite <- checkpoint_nics_elem. split.
  - by apply Hall.
  - intros [<- (uid & pds & pd & Hu & Hpd & Hsp)%checkpoint_nics_elem]. by eapply (Hcov _ uid).
Qed.

(** ** Where an error leaves the parts out of step *)

(** A prepare whose CDI file cannot be written fails, but its NICs stay in the store,
    and unpreparing the claim does not remove them: the checkpoint does not know it. *)
Theorem failed_prepare_keeps_nics env st claim pds st1 claims store e files sp :
  GetCheckpoint (disk st) = Ok claims → claims !! Claim_UID claim = None →
  nicStore st = Some store → store_wf store →
  prepareDevices env st claim = (Ok pds, st1) → sp ∈ omap PD_NIC pds →
  CreateClaimSpecFile (cdi st1) (cdi_files st1) (Claim_UID claim) pds = (Some e, files) →
  ∃ err st' store', Prepare env st claim = (Err err, st') ∧ Unprepare st' (Claim_UID claim) = (None, st') ∧
    nicStore st' = Some store' ∧ sp ∈ Specs store' (PodUID sp).
Proof.
  intros Hg Hn Hs Hwf Hp Hsp Hf. destruct (add_nics_spec _ _ _ _ _ _ Hp Hs Hwf) as (_ & Hnew & _).
  unfold Prepare. rewrite Hg, Hn, Hp, Hf.
  apply prepareDevices_spec in Hp as [_ Hp]. destruct (Hp pds eq_refl) as ([= Hd _ Hst1 _ _ _ _] & _).
  eexists _, _, _. split_and!; [done| | |by apply Hnew].
  - unfold Unprepare. simpl. by rewrite Hd, Hg, Hn.
  - simpl. by rewrite Hst1, Hs.
Qed.

(** C39: an unprepare that fails after it forgot the NICs, on the CDI file or the
    checkpoint, leaves the claim prepared: preparing it again succeeds from the
    checkpoint, with none of its NICs in the store. *)
Theorem failed_unprepare_loses_nics env st claim pds claims store e st' :
  GetCheckpoint (disk st) = Ok claims → claims !! Claim_UID claim = Some pds →
  nicStore st = Some store → Unprepare st (Claim_UID claim) = (Some e, st') →
  ∃ store', Prepare env st' claim = (Ok (GetDevices pds), st') ∧ nicStore st' = Some store' ∧
    ∀ pod t, t ∈ Specs store' pod → ClaimUID t ≠ Claim_UID claim.
Proof.
  intros Hg Hu Hs. unfold Unprepare. rewrite Hg, Hu. unfold unprepareDevices. rewrite Hs. simpl.
  assert (∀ pod t, t ∈ Specs (RemoveClaim store (Claim_UID claim)) pod → ClaimUID t ≠ Claim_UID claim) as Hr.
  { intros pod t. rewrite Specs_RemoveClaim. by intros [? _]%list_elem_of_filter. }
  destruct (DeleteClaimSpecFile _ _ _) as [[er|] files].
  - intros [= <- <-]. eexists. split_and!; [|done|done]. unfold Prepare. simpl. by rewrite Hg, Hu.
  - simpl. destruct (CreateCheckpoint _ _) as [[er|] d] eqn:Hc; [|done]. intros [= <- <-]. eexists.
    split_and!; [|done|done]. unfold Prepare. simpl. rewrite (create_fail _ _ _ _ Hc). by rewrite Hg, Hu.
Qed.

(** An unprepare that cannot read the checkpoint replaces it with an empty one and
    reports success: no claim is prepared any more, while the store keeps all NICs. *)
Theorem Unprepare_resets_checkpoint st uid e d :
  GetCheckpoint (disk st) = Err e → CreateCheckpoint (disk st) ∅ = (None, d) →
  ∃ st', Unprepare st uid = (None, st') ∧ GetCheckpoint (disk st') = Ok ∅ ∧ nicStore st' = nicStore st.
Proof.
  intros Hg Hc. unfold Unprepare. rewrite Hg, Hc, lookup_empty. eexists. split; [done|].
  split; [by eapply create_get|done].
Qed.

End lifecycle.
