(* ===== verification/Sandbox.v ===== *)
(** * Sandbox events (pkg/plumbing/nri.go)

    The handler turns the events of pod sandboxes into attach and detach calls.  The
    datapath is behind the interface [Attacher]; [W] is the state of the node's network.
    What an attacher promises is [AttacherLaws], over a view of the datapath: which NICs
    are plugged, where, and what a NIC needs to be plugged. *)

From S2P Require Import Prelude Store StoreInv.

Class Attacher (W : Type) := {
  Attach : W → Spec → option error * W;
  Detach : W → Spec → option error * W;
  DetachPodPorts : W → string → string → option error * W;
}.

(** A NIC has a key, from its container and its interface, that its devices on the host
    are named by; [live w k] says that the NIC with the key [k] is plugged, wherever its
    other end is and whatever its name.  [placed w s] says that the NIC of [s] is plugged
    as [s] has it: in its sandbox, under its interface name, and with its identifiers on
    the bridge.  [free_for w s] says that nothing else has the interface name in the
    sandbox of [s], and [clash s t] that attaching [s] itself may take the name of [t].
    [tidy] is the well-formedness of the node that all operations keep. *)
Class Datapath (W : Type) := {
  nic_key : string → string → string;
  live : W → string → Prop;
  placed : W → Spec → Prop;
  free_for : W → Spec → Prop;
  clash : Spec → Spec → Prop;
  tidy : W → Prop;
}.

Definition spec_key {W} `{Datapath W} (s : Spec) : string := nic_key (ContainerID s) (IfaceName s).
Definition nic_live {W} `{Datapath W} (w : W) (s : Spec) : Prop := live w (spec_key s).

(** A successful attach puts the NIC in its place if its name was free.  An attach, also
    one in vain, leaves every NIC it does not clash with in its place, keeps its name free,
    and leaves the NICs with other keys plugged or not.  A successful detach unplugs the
    NIC, and no kind of detach plugs anything. *)
Class AttacherLaws W `{A : Attacher W} `{V : Datapath W} : Prop := {
  attach_tidy w s e w' : tidy w → Attach w s = (e, w') → tidy w';
  detach_tidy w s e w' : tidy w → Detach w s = (e, w') → tidy w';
  ports_tidy w pod ns e w' : tidy w → DetachPodPorts w pod ns = (e, w') → tidy w';
  placed_live w s : tidy w → placed w s → nic_live w s;
  attach_placed w s w' : tidy w → Attach w s = (None, w') → free_for w s → placed w' s;
  attach_keeps w s e w' t : tidy w → Attach w s = (e, w') → ¬ clash s t → placed w t → placed w' t;
  attach_free w s e w' t : tidy w → Attach w s = (e, w') → ¬ clash s t → free_for w t → free_for w' t;
  attach_other w s e w' c i :
    tidy w → Attach w s = (e, w') → nic_key c i ≠ spec_key s → live w' (nic_key c i) ↔ live w (nic_key c i);
  detach_gone w s w' : tidy w → Detach w s = (None, w') → ¬ nic_live w' s;
  detach_shrinks w s e w' c i :
    tidy w → Detach w s = (e, w') → live w' (nic_key c i) → live w (nic_key c i);
  ports_shrinks w pod ns e w' c i :
    tidy w → DetachPodPorts w pod ns = (e, w') → live w' (nic_key c i) → live w (nic_key c i);
}.

(** Nothing keeps the NICs from being plugged, neither the sandbox nor one of them. *)
Definition unblocked {W} `{Datapath W} (w : W) (specs : list Spec) : Prop :=
  (∀ s, s ∈ specs → free_for w s) ∧
  (∀ s t, s ∈ specs → t ∈ specs → IfaceName s ≠ IfaceName t → ¬ clash s t).

Definition kubevirtVirtLauncherLabel : string := "virt-launcher".
Definition kubevirtLabelKey : string := "kubevirt.io".

(** A spec with the fields only the sandbox knows. *)
Definition in_sandbox (containerID netnsPath : string) (isVMI : bool) (s : Spec) : Spec := {|
  PodUID := PodUID s; PodName := PodName s; PodNamespace := PodNamespace s; ClaimUID := ClaimUID s;
  NetnsPath := netnsPath; IfaceName := IfaceName s; IP := IP s; ExtraIPs := ExtraIPs s; MAC := MAC s;
  Gateway := Gateway s; Routes := Routes s; MTU := MTU s; ContainerID := containerID;
  Provider := Provider s; IfaceID := IfaceID s; KubeVirtVMI := isVMI; OVNDHCP := OVNDHCP s |}.

Definition sandboxSpecs (store : NICStore) (podUID containerID netnsPath : string)
    (labels : gmap string string) : list Spec :=
  let isVMI := bool_decide (default EmptyString (labels !! kubevirtLabelKey) = kubevirtVirtLauncherLabel) in
  in_sandbox containerID netnsPath isVMI <$> Specs store podUID.

Section handler.
Context {W : Type} `{A : Attacher W}.

(** Detach the specs in order, whatever fails; the errors. *)
Fixpoint detach_all (specs : list Spec) (w : W) : list error * W :=
  match specs with
  | [] => ([], w)
  | s :: specs =>
      let '(e, w) := Detach w s in
      let '(errs, w) := detach_all specs w in
      (option_list e ++ errs, w)
  end.

(** Attach the specs in order; on the first error, detach what is attached. *)
Fixpoint run_specs (podUID : string) (specs : list Spec) (store : NICStore) (w : W) :
    option error * NICStore * W :=
  match specs with
  | [] => (None, store, w)
  | s :: specs =>
      match Attach w s with
      | (Some e, w) =>
          let '(taken, store) := TakeAttached store podUID in
          let '(errs, w) := detach_all taken w in
          (errors_join (Some <$> (e :: errs)), store, w)
      | (None, w) => run_specs podUID specs (MarkAttached store podUID s) w
      end
  end.

Definition OnRunPodSandbox (store : NICStore) (w : W) (podUID containerID netnsPath : string)
    (labels : gmap string string) : option error * NICStore * W :=
  run_specs podUID (sandboxSpecs store podUID containerID netnsPath labels) store w.

(** Attach the specs in order, going on after an error; the errors. *)
Fixpoint sync_specs (podUID : string) (specs : list Spec) (store : NICStore) (w : W) :
    list error * NICStore * W :=
  match specs with
  | [] => ([], store, w)
  | s :: specs =>
      match Attach w s with
      | (Some e, w) =>
          let '(errs, store, w) := sync_specs podUID specs store w in (e :: errs, store, w)
      | (None, w) => sync_specs podUID specs (MarkAttached store podUID s) w
      end
  end.

Definition OnSynchronizeSandbox (store : NICStore) (w : W) (podUID containerID netnsPath : string)
    (labels : gmap string string) : option error * NICStore * W :=
  let '(errs, store, w) :=
    sync_specs podUID (sandboxSpecs store podUID containerID netnsPath labels) store w in
  (errors_join (Some <$> errs), store, w).

Definition OnStopPodSandbox (store : NICStore) (w : W) (podUID podName podNamespace : string) :
    option error * NICStore * W :=
  let '(taken, store) := TakeAttached store podUID in
  let '(errs, w) := detach_all taken w in
  let '(e, w) := DetachPodPorts w podName podNamespace in
  (errors_join (Some <$> (errs ++ option_list e)), store, w).

End handler.

(** ** Properties *)

Section handler_props.
Context {W : Type} `{AL : AttacherLaws W}.

(** The specs the attached table holds for a pod. *)
Definition attached_of (store : NICStore) (pod : string) : list Spec := specs_at (attached store) pod.

Lemma MarkAttached_byPod store pod s : byPod (MarkAttached store pod s) = byPod store.
Proof. done. Qed.

Lemma run_specs_byPod pod specs store w e store' w' :
  run_specs pod specs store w = (e, store', w') → byPod store' = byPod store.
Proof.
  revert store w. induction specs as [|s specs IH]; intros store w; simpl; [by intros [= _ -> _]|].
  destruct (Attach w s) as [[er|] w1]; [|intros H; by rewrite (IH _ _ H)].
  destruct (detach_all _ _) as [errs w2]. by intros [= _ <- _].
Qed.

Lemma sync_specs_byPod pod specs store w errs store' w' :
  sync_specs pod specs store w = (errs, store', w') → byPod store' = byPod store.
Proof.
  revert store w errs. induction specs as [|s specs IH]; intros store w errs; simpl; [by intros [= _ -> _]|].
  destruct (Attach w s) as [[er|] w1]; [|intros H; by rewrite (IH _ _ _ H)].
  destruct (sync_specs _ _ _ _) as [[errs1 st1] w2] eqn:E. intros [= _ <- <-]. exact (IH _ _ _ E).
Qed.

Lemma mark_has store pod s : s ∈ attached_of (MarkAttached store pod s) pod.
Proof.
  unfold attached_of, MarkAttached. simpl. rewrite specs_at_insert, decide_True by done. apply upsert_has.
Qed.

Lemma mark_keeps store pod s t :
  t ∈ attached_of store pod → IfaceName t ≠ IfaceName s → t ∈ attached_of (MarkAttached store pod s) pod.
Proof.
  unfold attached_of, MarkAttached. simpl. rewrite specs_at_insert, decide_True by done.
  generalize (specs_at (attached store) pod). intros l Hl Hne. induction l as [|u l IH]; [set_solver|]. simpl.
  unfold same_iface at 1. case_bool_decide as Hu; [|set_solver].
  apply elem_of_cons in Hl as [->|?]; [done|set_solver].
Qed.

Lemma unblocked_tail w s specs e w' :
  tidy w → Attach w s = (e, w') → IfaceName s ∉ IfaceName <$> specs → unblocked w (s :: specs) → unblocked w' specs.
Proof.
  intros Ht Ea Hn [Hfree Hclash]. split.
  - intros t Htn. apply (attach_free _ _ _ _ t Ht Ea); [|apply Hfree; by right].
    apply Hclash; [left|by right|]. intros E. apply Hn. rewrite E. by apply list_elem_of_fmap_2.
  - intros t u Ht' Hu. apply Hclash; by right.
Qed.

(** Attaching the specs of a pod, with distinct interfaces, one after the other: all of
    them end up in their place and in the attached table. *)
Lemma run_specs_ok pod specs store w store' w' :
  tidy w → unblocked w specs → NoDup (IfaceName <$> specs) →
  run_specs pod specs store w = (None, store', w') →
  (∀ s, s ∈ specs → placed w' s ∧ s ∈ attached_of store' pod) ∧
  (∀ s, s ∈ attached_of store pod → IfaceName s ∉ IfaceName <$> specs → s ∈ attached_of store' pod) ∧
  (∀ t, (∀ s, s ∈ specs → ¬ clash s t) → placed w t → placed w' t).
Proof.
  revert store w. induction specs as [|s specs IH]; intros store w.
  { intros _ _ _ [= <- <-]. set_solver. }
  rewrite fmap_cons, NoDup_cons. intros Htd Hub [Hn Hnd]. simpl run_specs.
  destruct (Attach w s) as [[e|] w1] eqn:Ea; [by destruct (detach_all _ _)|].
  assert (tidy w1) as Ht1 by (by eapply attach_tidy).
  intros E. destruct (IH _ _ Ht1 (unblocked_tail _ _ _ _ _ Htd Ea Hn Hub) Hnd E) as (Hall & Hkeep & Hmono).
  destruct Hub as [Hfree Hclash]. split_and!.
  - intros t [->|Ht]%elem_of_cons; [|auto]. split.
    + apply Hmono; [|apply (attach_placed _ _ _ Htd Ea), Hfree; left].
      intros u Hu. apply Hclash; [by right|left|]. intros E'. apply Hn. rewrite <- E'. by apply list_elem_of_fmap_2.
    + apply Hkeep; [apply mark_has|done].
  - intros t Ht. rewrite not_elem_of_cons. intros [Hne Hnt]. apply Hkeep; [by apply mark_keeps|done].
  - intros t Hc Hl. apply Hmono; [set_solver|]. apply (attach_keeps _ _ _ _ _ Htd Ea); [|done]. apply Hc. left.
Qed.

Lemma detach_all_spec specs w errs w' :
  tidy w → detach_all specs w = (errs, w') →
  tidy w' ∧ (∀ c i, live w' (nic_key c i) → live w (nic_key c i)) ∧
  (errs = [] → ∀ s, s ∈ specs → ¬ nic_live w' s).
Proof.
  revert w errs. induction specs as [|s specs IH]; intros w errs Htd; simpl; [intros [= <- <-]; set_solver|].
  destruct (Detach w s) as [e w1] eqn:Ed. destruct (detach_all specs w1) as [errs1 w2] eqn:E.
  intros [= <- <-]. destruct (IH _ _ (detach_tidy _ _ _ _ Htd Ed) E) as (Ht2 & Hsub & Hgone). split_and!; [done| |].
  - intros c i H. apply (detach_shrinks _ _ _ _ _ _ Htd Ed). by apply Hsub.
  - intros [He ->]%app_nil t [->|Ht]%elem_of_cons; [|by apply Hgone]. destruct e; [done|].
    intros H. apply (detach_gone _ _ _ Htd Ed). by apply Hsub.
Qed.

Lemma run_specs_tidy pod specs store w e store' w' :
  tidy w → run_specs pod specs store w = (e, store', w') → tidy w'.
Proof.
  revert store w. induction specs as [|s specs IH]; intros store w Htd; simpl; [by intros [= _ _ <-]|].
  destruct (Attach w s) as [[er|] w1] eqn:Ea; apply attach_tidy in Ea; [|done|by apply IH|done].
  destruct (detach_all _ _) as [errs w2] eqn:Ed. intros [= _ _ <-]. by eapply detach_all_spec.
Qed.

(** Attaching the specs in order, all successfully. *)
Fixpoint attach_all (specs : list Spec) (w : W) : option W :=
  match specs with
  | [] => Some w
  | s :: specs => match Attach w s with (None, w) => attach_all specs w | _ => None end
  end.

(** When an attach fails and every detach after it works, nothing new stays plugged but
    what the failed attach itself left. *)
Lemma run_specs_fail pod specs store w x store' w' :
  tidy w → NoDup (IfaceName <$> specs) →
  run_specs pod specs store w = (Some (Joined [x]), store', w') →
  (∃ before s0 after w0 w1, specs = before ++ s0 :: after ∧ attach_all before w = Some w0 ∧
     Attach w0 s0 = (Some x, w1) ∧
     ∀ c i, nic_key c i ≠ spec_key s0 → live w' (nic_key c i) → live w (nic_key c i)) ∧
  (∀ t, t ∈ attached_of store pod → IfaceName t ∉ IfaceName <$> specs → ¬ nic_live w' t).
Proof.
  revert store w. induction specs as [|s specs IH]; intros store w; [done|].
  rewrite fmap_cons, NoDup_cons. intros Htd [Hn Hnd]. simpl.
  destruct (Attach w s) as [[e|] w1] eqn:Ea.
  - destruct (detach_all (specs_at (attached store) pod) w1) as [errs w2] eqn:Ed. intros E.
    assert (errs = []) as -> by (destruct errs; [done|by simplify_eq]). injection E as <- _ <-.
    destruct (detach_all_spec _ _ _ _ (attach_tidy _ _ _ _ Htd Ea) Ed) as (_ & Hsub & Hgone). split.
    + exists [], s, specs, w, w1. split_and!; [done..|]. intros c i Hi Hl%Hsub. by apply (attach_other _ _ _ _ _ _ Htd Ea).
    + intros t Ht _. by apply Hgone.
  - intros E. destruct (IH _ _ (attach_tidy _ _ _ _ Htd Ea) Hnd E) as [(pre & s0 & post & w0 & w2 & -> & Hpre & Hs0 & Hi0) Hgone]. split.
    + exists (s :: pre), s0, post, w0, w2. split_and!; [done|simpl; by rewrite Ea|done|]. intros c i Hi Hl.
      pose proof (Hi0 c i Hi Hl) as Hl1.
      destruct (decide (nic_key c i = spec_key s)) as [Heq|Hne]; [|by apply (attach_other _ _ _ _ _ _ Htd Ea)].
      exfalso. apply (Hgone s); [apply mark_has|done|]. unfold nic_live. by rewrite <- Heq.
    + intros t Ht. rewrite not_elem_of_cons. intros [Hne Hnt]. apply Hgone; [by apply mark_keeps|done].
Qed.

Lemma run_specs_fail_taken pod specs store w e store' w' :
  run_specs pod specs store w = (Some e, store', w') → attached_of store' pod = [].
Proof.
  revert store w. induction specs as [|s specs IH]; intros store w; simpl; [done|].
  destruct (Attach w s) as [[er|] w1]; [|apply IH]. destruct (detach_all _ _) as [errs w2].
  intros [= _ <- _]. unfold attached_of. simpl. by rewrite specs_at_delete, decide_True.
Qed.

Lemma sandboxSpecs_names store uid cid netns labels :
  IfaceName <$> sandboxSpecs store uid cid netns labels = IfaceName <$> Specs store uid.
Proof. unfold sandboxSpecs. by rewrite <- list_fmap_compose. Qed.

Lemma sandboxSpecs_container store uid cid netns labels :
  Forall (λ s, ContainerID s = cid) (sandboxSpecs store uid cid netns labels).
Proof. by apply Forall_fmap, Forall_true. Qed.

(** What the store holds for a pod, as it is attached to its sandbox. *)
Lemma OnRunPodSandbox_ok store w uid cid netns labels store' w' s :
  store_wf store → tidy w → unblocked w (sandboxSpecs store uid cid netns labels) →
  OnRunPodSandbox store w uid cid netns labels = (None, store', w') →
  s ∈ sandboxSpecs store uid cid netns labels → placed w' s ∧ s ∈ attached_of store' uid.
Proof.
  intros Hwf Htd Hub HR Hs. eapply run_specs_ok in HR as (Hall & _ & _);
    [|done|done|rewrite sandboxSpecs_names; apply Hwf]. by apply Hall.
Qed.

(** C23: starting a sandbox plugs all NICs of the pod or none: when the hook succeeds and
    nothing blocked their names, every NIC the store holds for the pod is in its place,
    in this sandbox under its interface name, and recorded for the detach. When it fails
    nothing is recorded, and when all the detaches that follow worked, so that the error
    is the one of the NIC whose attach failed, at most that NIC is newly plugged. *)
Theorem OnRunPodSandbox_all_or_nothing store w uid cid netns labels e store' w' :
  store_wf store → tidy w → OnRunPodSandbox store w uid cid netns labels = (e, store', w') →
  let specs := sandboxSpecs store uid cid netns labels in
  (e = None → unblocked w specs → ∀ s, s ∈ specs → placed w' s ∧ s ∈ attached_of store' uid) ∧
  (e ≠ None → attached_of store' uid = []) ∧
  (∀ x, e = Some (Joined [x]) →
     ∃ before s0 after w0 w1, specs = before ++ s0 :: after ∧ attach_all before w = Some w0 ∧
       Attach w0 s0 = (Some x, w1) ∧
       ∀ c i, nic_key c i ≠ spec_key s0 → live w' (nic_key c i) → live w (nic_key c i)).
Proof.
  intros Hwf Htd HR specs. split_and!.
  - intros -> Hub s. by eapply OnRunPodSandbox_ok.
  - intros He. destruct e; [by eapply run_specs_fail_taken|done].
  - intros x ->. eapply run_specs_fail in HR as [H _]; [exact H|done|rewrite sandboxSpecs_names; apply Hwf].
Qed.

(** ** Synchronize: NICs of a running sandbox *)

Lemma sync_specs_ok pod specs store w store' w' :
  sync_specs pod specs store w = ([], store', w') → run_specs pod specs store w = (None, store', w').
Proof.
  revert store w. induction specs as [|s specs IH]; intros store w; [by intros [= <- <-]|]. simpl.
  destruct (Attach w s) as [[e|] w1]; [destruct (sync_specs _ _ _ _) as [[? ?] ?]; done|]. by apply IH.
Qed.

Lemma errors_join_Some_None errs : errors_join (Some <$> errs) = None ↔ errs = [].
Proof. rewrite errors_join_None. destruct errs; simpl; [done|]. split; [by inversion 1|done]. Qed.

Lemma OnSynchronizeSandbox_ok store w uid cid netns labels store' w' s :
  store_wf store → tidy w → unblocked w (sandboxSpecs store uid cid netns labels) →
  OnSynchronizeSandbox store w uid cid netns labels = (None, store', w') →
  s ∈ sandboxSpecs store uid cid netns labels → placed w' s.
Proof.
  unfold OnSynchronizeSandbox. intros Hwf Htd Hub HS. destruct (sync_specs _ _ _ _) as [[errs st1] w1] eqn:E.
  injection HS as He%errors_join_Some_None <- <-. subst errs. apply sync_specs_ok in E.
  intros Hs. by eapply (OnRunPodSandbox_ok store w uid cid netns labels).
Qed.

(** What a synchronization of some specs, also a failing one, leaves alone: other keys,
    and the places and names of NICs none of the specs clashes with. *)
Lemma sync_specs_frame pod specs store w errs store' w' :
  tidy w → sync_specs pod specs store w = (errs, store', w') →
  tidy w' ∧
  (∀ c i, nic_key c i ∉ spec_key <$> specs → live w' (nic_key c i) ↔ live w (nic_key c i)) ∧
  (∀ t, (∀ s, s ∈ specs → ¬ clash s t) → (placed w t → placed w' t) ∧ (free_for w t → free_for w' t)).
Proof.
  revert errs store' store w. induction specs as [|s specs IH]; intros errs store' store w Htd.
  { intros [= _ _ <-]. done. }
  rewrite fmap_cons. simpl sync_specs. intros E. destruct (Attach w s) as [er w2] eqn:Ea.
  assert (∃ errs1 store1, sync_specs pod specs store1 w2 = (errs1, store', w')) as (errs1 & store1 & E').
  { destruct er; [destruct (sync_specs pod specs store w2) as [[? ?] ?] eqn:E'; injection E as _ <- <-|]; eauto. }
  destruct (IH _ _ _ _ (attach_tidy _ _ _ _ Htd Ea) E') as (Ht' & Hl & Htk). split_and!; [done| |].
  - intros c i. rewrite not_elem_of_cons. intros [Hne Hni]. rewrite Hl by done. by apply (attach_other _ _ _ _ _ _ Htd Ea).
  - intros t Hc. destruct (Htk t) as [Hp Hf]; [set_solver|]. assert (¬ clash s t) as Hs by (apply Hc; left).
    split; intros H; [apply Hp; by apply (attach_keeps _ _ _ _ _ Htd Ea)|apply Hf; by apply (attach_free _ _ _ _ _ Htd Ea)].
Qed.

Lemma sandboxSpecs_keys store uid cid netns labels :
  spec_key <$> sandboxSpecs store uid cid netns labels = (λ s, nic_key cid (IfaceName s)) <$> Specs store uid.
Proof. unfold sandboxSpecs. by rewrite <- list_fmap_compose. Qed.

(** Synchronizing a running sandbox, also in vain, touches no NIC but those of its
    pod in this container; when it succeeds and nothing blocked their names, all of them
    are in their place. *)
Theorem OnSynchronizeSandbox_keeps store w uid cid netns labels e store' w' :
  store_wf store → tidy w → OnSynchronizeSandbox store w uid cid netns labels = (e, store', w') →
  (∀ c i, (∀ s, s ∈ Specs store uid → nic_key c i ≠ nic_key cid (IfaceName s)) →
     live w' (nic_key c i) ↔ live w (nic_key c i)) ∧
  (e = None → unblocked w (sandboxSpecs store uid cid netns labels) →
   ∀ s, s ∈ sandboxSpecs store uid cid netns labels → placed w' s).
Proof.
  intros Hwf Htd HS. split.
  - intros c i Hc. unfold OnSynchronizeSandbox in HS. destruct (sync_specs _ _ _ _) as [[errs st1] w1] eqn:E.
    injection HS as _ _ <-. apply sync_specs_frame in E as (_ & Hl & _); [|done]. apply Hl.
    rewrite sandboxSpecs_keys. intros (s & Hk & Hs)%list_elem_of_fmap. by apply (Hc s).
  - intros -> Hub s. by eapply OnSynchronizeSandbox_ok.
Qed.

End handler_props.

(** ** An attacher that satisfies the laws: a set of plugged interfaces, where attaching
    the interfaces [fails] accepts does not work *)
Definition attacher_model (fails : string → bool) : Attacher (gset string) := {|
  Attach w s := if fails (IfaceName s) then (Some (External "attach"), w)
                else (None, {[ContainerID s +:+ "/" +:+ IfaceName s]} ∪ w);
  Detach w s := (None, w ∖ {[ContainerID s +:+ "/" +:+ IfaceName s]});
  DetachPodPorts w _ _ := (None, w);
|}.

#[export] Instance datapath_model : Datapath (gset string) := {|
  nic_key c i := c +:+ "/" +:+ i;
  live w k := k ∈ w;
  placed w s := ContainerID s +:+ "/" +:+ IfaceName s ∈ w;
  free_for _ _ := True;
  clash _ _ := False;
  tidy _ := True;
|}.

Lemma attacher_model_laws fails : AttacherLaws (gset string) (A := attacher_model fails).
Proof.
  split; try done; unfold nic_live, spec_key; simpl.
  - intros w s w' _. destruct (fails _); [done|]. intros [= <-]. set_solver.
  - intros w s e w' t _. destruct (fails _); intros [= <- <-]; set_solver.
  - intros w s e w' c i _. destruct (fails _); intros [= <- <-]; set_solver.
  - intros w s w' _ [= <-]. set_solver.
  - intros w s e w' c i _ [= <- <-]. set_solver.
  - intros w pod ns e w' c i _ [= <- <-]. done.
Qed.

Module example.

Definition nic (iface : string) : Spec := {|
  PodUID := "u1"; PodName := "web"; PodNamespace := "ns"; ClaimUID := "c1"; NetnsPath := ""; IfaceName := iface;
  IP := "10.0.0.5/24"; ExtraIPs := []; MAC := "00:00:00:00:00:05"; Gateway := ""; Routes := []; MTU := 0;
  ContainerID := ""; Provider := "net1.ovn"; IfaceID := "web.ns.net1.ovn"; KubeVirtVMI := false;
  OVNDHCP := false |}.

Definition store : NICStore := Add (Add NewNICStore (nic "net1")) (nic "net2").

Lemma wf : store_wf store.
Proof.
  apply (Add_claim_wf "c1" [nic "net1"; nic "net2"] NewNICStore); [apply store_wf_new| | |].
  - intros sp. rewrite !elem_of_cons. intros [->|[->|[]%not_elem_of_nil]]; done.
  - vm_compute. repeat constructor; set_solver.
  - intros sp t _ Ht. by apply not_elem_of_nil in Ht.
Qed.

End example.

Lemma OnRunPodSandbox_all_or_nothing_witness :
  placed (OnRunPodSandbox (A := attacher_model (λ _, false)) example.store ∅ "u1" "sb1" "/run/netns/a" ∅).2
    (in_sandbox "sb1" "/run/netns/a" false (example.nic "net2")).
Proof.
  refine (proj1 (proj1 (OnRunPodSandbox_all_or_nothing (AL := attacher_model_laws (λ _, false))
    example.store ∅ "u1" "sb1" "/run/netns/a" ∅ None _ _ example.wf I _) eq_refl _ _ _)).
  - vm_compute. reflexivity.
  - split; [done|]. intros; intros [].
  - vm_compute. right. left.
Defined.

Lemma OnSynchronizeSandbox_keeps_witness :
  live (OnSynchronizeSandbox (A := attacher_model (λ i, bool_decide (i = "net1"))) example.store
       {[nic_key "sb0" "eth9"]} "u1" "sb1" "/run/netns/a" ∅).2 (nic_key "sb0" "eth9").
Proof.
  refine (proj2 (proj1 (OnSynchronizeSandbox_keeps (AL := attacher_model_laws (λ i, bool_decide (i = "net1")))
    example.store {[nic_key "sb0" "eth9"]} "u1" "sb1" "/run/netns/a" ∅ _ _ _ example.wf I _) "sb0" "eth9" _) _).
  - vm_compute. reflexivity.
  - intros s _. discriminate.
  - vm_compute. reflexivity.
Defined.
