(* ===== verification/AttachProps.v ===== *)
(** * Correctness of the datapath

    The attacher of [Attach] keeps the contract of [Sandbox.AttacherLaws], given what the
    kernel and Open vSwitch promise ([Kernel.KernelLaws]): a NIC is in its place when its
    host end is a port of the bridge br-int with the NIC's identifier, and its other end is
    in the sandbox under the NIC's name; a VM's NIC has that name on its tap. *)

From S2P Require Import Prelude Netip Store StoreInv Kernel Dhcp Attach NetShape AttachLogic Sandbox.

(** ** The contract's notions *)

Section notions.
Context {Ns Id : Type}.
Implicit Types n : Net Ns Id.

(** The host has the NIC's host end, and no longer its other end. *)
Definition moved n (c i : string) : Prop := named n (home n) (vh c i) ∧ ¬ named n (home n) (vc c i).

(** The sandbox has an interface of the name. *)
Definition present n (s : Spec) : Prop := ∃ ns, paths n (NetnsPath s) = Some ns ∧ named n ns (IfaceName s).

(** The NIC of [s] is in the namespace [ns]: its other end is there under its name; or,
    for a VM, under the name the driver gives it, and a link without a peer, the tap, has
    the NIC's name. *)
Definition veth_in n (s : Spec) (ns : Ns) (nm : string) : Prop :=
  ∃ x y, tie n x y (ContainerID s) (IfaceName s) ns nm.
Definition tapped n (s : Spec) (ns : Ns) : Prop :=
  veth_in n s ns (vethRenameFor (IfaceName s)) ∧ ∃ z, lone n z ns (IfaceName s).
Definition inside_at n (s : Spec) (ns : Ns) : Prop :=
  if KubeVirtVMI s then tapped n s ns else veth_in n s ns (IfaceName s).
Definition inside n (s : Spec) : Prop := ∃ ns, paths n (NetnsPath s) = Some ns ∧ inside_at n s ns.

(** What an attach that did not finish may have left there. *)
Definition own_at n (s : Spec) (ns : Ns) : Prop :=
  veth_in n s ns (IfaceName s) ∨ KubeVirtVMI s = true ∧ tapped n s ns.

(** The name of [s] is free in its sandbox, or belongs to the NIC of [s] itself.  A VM's
    NIC does not have the name that the driver gives its other end. *)
Definition fits n (s : Spec) : Prop :=
  (∀ ns, paths n (NetnsPath s) = Some ns → named n ns (IfaceName s) → own_at n s ns) ∧
  (KubeVirtVMI s = true → IfaceName s ≠ vethRenameFor (IfaceName s)).

(** The host end is a port of the integration bridge, with the identifier of the NIC. *)
Definition bound (s : Spec) n : Prop :=
  ∃ ids, ports n !! vh (ContainerID s) (IfaceName s) = Some ("br-int", ids) ∧ ids !! "iface-id" = Some (IfaceID s).
End notions.

(** The names the driver itself uses in the sandbox for a NIC. *)
Definition own_names (s : Spec) : list string :=
  [IfaceName s; bridgeNameFor (IfaceName s); vethRenameFor (IfaceName s); vc (ContainerID s) (IfaceName s)].

(** Attaching [s] may get in the way of [t]: they share their host devices, or [s] uses a
    name of [t] in their sandbox. *)
Definition clash_spec (s t : Spec) : Prop :=
  vh (ContainerID s) (IfaceName s) = vh (ContainerID t) (IfaceName t) ∨
  NetnsPath s = NetnsPath t ∧
    (IfaceName t ∈ own_names s ∨ KubeVirtVMI t = true ∧ vethRenameFor (IfaceName t) ∈ own_names s).

Section attach.
Context {W : Type} `{KE : Kernel W} {KL : KernelLaws W} `{DH : Dhcp4} {AN : Anchor NsId}.
Abbreviation net := (Net NsId LinkId).
Implicit Types (n : net) (σ : ovsAttacher W).

Definition none : string → Prop := λ _, False.
Definition nowhere : NsId → string → Prop := λ _ _, False.
Definition host_names (s : Spec) (nm : string) : Prop :=
  nm = vh (ContainerID s) (IfaceName s) ∨ nm = vc (ContainerID s) (IfaceName s).
Definition pod_names (s : Spec) (ns : NsId) (nm : string) : Prop := pth (NetnsPath s) = Some ns ∧ nm ∈ own_names s.
Definition port_name (s : Spec) (p : string) : Prop := p = vh (ContainerID s) (IfaceName s).

(** ** What Attach may change *)

Lemma vethNames_Ok s a b :
  vethNames s = Ok (a, b) → a = vh (ContainerID s) (IfaceName s) ∧ b = vc (ContainerID s) (IfaceName s).
Proof. unfold vethNames. case_bool_decide; [done|]. by intros [= <- <-]. Qed.

Lemma Attach_guar s : guar top (Attach_ovs s) (stays (host_names s) (pod_names s) (port_name s)).
Proof.
  unfold Attach_ovs. destruct (Validate s); [apply guar_fail|].
  apply (guar_bind_post top (λ '(a, b) _, a = vh (ContainerID s) (IfaceName s) ∧ b = vc (ContainerID s) (IfaceName s))).
  { intros σ r σ' [= _ <-] _ _. apply g_refl. }
  { intros σ [a b] σ' E _ _. unfold of_names in E. destruct (vethNames s) as [[? ?]|] eqn:En; [|done].
    apply vethNames_Ok in En as [-> ->]. by injection E as <- <- _. }
  intros [a b] σ r σ' E Hr [-> ->]. revert σ r σ' E Hr. match goal with |- ∀ σ r σ', ?m σ = _ → _ =>
    assert (guar top m (stays (host_names s) (pod_names s) (port_name s))) as H;
      [|intros σ r σ' E Hr; by apply (H _ _ _ E)] end.
  assert (∀ x, host_names s x ↔ x = vh (ContainerID s) (IfaceName s) ∨ x = vc (ContainerID s) (IfaceName s)) as Hx by done.
  assert (guar top (cleanupHostVeth (vh (ContainerID s) (IfaceName s)))
            (stays (host_names s) (pod_names s) (port_name s))) as Hcl
    by (apply cleanupHostVeth_guar; [by left|by right]).
  apply guar_bind; [destruct (_ =? 0)%Z; [apply primaryMTU_guar|apply guar_ret]|]. intros mtu. cbv zeta. simpl.
  apply guar_bind; [apply createVethPair_guar; [by left|by right]|]. intros _.
  apply guar_bind.
  { apply guar_or_else; [|done]. apply moveIntoNetns_guar; [by right|].
    intros ns Hp. unfold pod_names, own_names. set_solver. }
  intros _. apply guar_bind; [apply guar_or_else; [apply configurePodIface_guar|done]|].
  intros _. apply guar_bind; [apply guar_or_else; [by apply attachToOVS_guar|done]|].
  intros _. apply guar_when, guar_or_else.
  - apply wireVMIBridge_guar. simpl. intros ns nm Hp Hn. split; [done|]. unfold own_names. set_solver.
  - apply guar_bind; [by apply guar_ignore, del_port_guar|]. done.
Qed.

(** ** A successful Attach *)

(** [ok P m Q]: when [m] succeeds from a ready node with [P], its result and the node
    satisfy [Q], and the node is ready again. *)
Definition ok {A} (P : net → Prop) (m : M A) (Q : A → net → Prop) : Prop :=
  ∀ σ a σ', m σ = (Ret a, σ') → ready (vw σ) → P (vw σ) → ready (vw σ') ∧ Q a (vw σ').

Lemma ok_conseq {A} (P P' : net → Prop) (Q Q' : A → net → Prop) m :
  (∀ n, P' n → P n) → (∀ a n, Q a n → Q' a n) → ok P m Q → ok P' m Q'.
Proof. intros HP HQ H σ a σ' E Hr Hp. destruct (H _ _ _ E Hr (HP _ Hp)). eauto. Qed.

Lemma ok_ready {A} (P P' : net → Prop) (m : M A) Q : (∀ n, ready n → P' n → P n) → ok P m Q → ok P' m Q.
Proof. intros HP H σ a σ' E Hr Hp. by apply (H σ); [..|apply HP]. Qed.

Lemma ok_ret {A} P (Q : A → net → Prop) (a : A) : (∀ n, P n → Q a n) → ok P (mret a) Q.
Proof. intros H σ x σ' [= <- <-]. auto. Qed.

Lemma ok_bind {A B} P (Q : A → net → Prop) (R : B → net → Prop) (m : M A) (f : A → M B) :
  ok P m Q → (∀ a, ok (Q a) (f a) R) → ok P (m ≫= f) R.
Proof.
  intros Hm Hf σ b σ' E Hr HP. unfold mbind, M_bind in E. destruct (m σ) as [[a|e|] σ1] eqn:Em; [|done..].
  destruct (Hm _ _ _ Em Hr HP). by eapply Hf.
Qed.

Lemma ok_wrap {A} P fmt args (m : M A) Q : ok P m Q → ok P (wrap fmt args m) Q.
Proof. intros H σ a σ' E. apply H. unfold wrap in E. by destruct (m σ) as [[x|e|] σ1]. Qed.

Lemma ok_or_else {A} P (m : M A) c Q : ok P m Q → ok P (or_else m c) Q.
Proof.
  intros H σ a σ' E. apply H. unfold or_else in E. destruct (m σ) as [[x|e|] σ1]; [done| |done].
  unfold mbind, M_bind, fail in E. destruct (ignore c σ1) as [[]]; done.
Qed.

Lemma ok_when P b (m : M ()) : ok P m (λ _, P) → ok P (when b m) (λ _, P).
Proof. destruct b; [done|]. intros _. by apply ok_ret. Qed.

(** A fact that survives the changes that a step may make. *)
Lemma ok_guar {A} G `{!Guarantee G} (P Q : net → Prop) (m : M A) :
  guar P m G → (∀ n n', ready n → P n → G n n' → Q n') → ok P m (λ _, Q).
Proof.
  intros Hg HQ σ a σ' E Hr HP. assert (G (vw σ) (vw σ')) as H by (by eapply Hg).
  split; [by eapply g_ready|by eapply HQ].
Qed.

Lemma ok_post {A} P (m : M A) Q : guar P m (stays none nowhere none) → post P m Q → ok P m Q.
Proof. intros Hg Hp σ a σ' E Hr HP. split; [|by eapply Hp]. eapply g_ready; [by eapply Hg|done]. Qed.

Lemma ok_request P r Q :
  (∀ n n', ready n → P n → effect r n n' → ready n' ∧ Q n') → ok P (request r) (λ _, Q).
Proof.
  intros H σ a σ' E Hr HP. unfold request, kernel in E. destruct (Netlink r (kern σ)) as [[[]|e] w] eqn:En; [|done].
  injection E as _ <-. apply request_ok in En. by eapply H.
Qed.

(** What holds of the host is not changed by steps elsewhere. *)
Lemma host_named X Y Z n n' nm : stays X Y Z n n' → ready n → ¬ X nm → named n' hm nm ↔ named n hm nm.
Proof. intros [Hev _] (_ & _ & <-) HX. by apply (ev_host _ _ _ _ _ Hev). Qed.

(** A fact that only depends on the links and paths, such as those below, survives a read. *)
Lemma ok_read {A} P (f : W → result A * W) : (∀ w r w', f w = (r, w') → view w' = view w) → ok P (kernel f) (λ _, P).
Proof.
  intros Hf σ a σ' E Hr HP. unfold kernel in E. destruct (f (kern σ)) as [x w] eqn:Ef. apply Hf in Ef.
  injection E as _ <-. unfold vw in *. simpl. by rewrite Ef.
Qed.
Lemma ok_attempt_read {A} P (f : W → result A * W) :
  (∀ w r w', f w = (r, w') → view w' = view w) → ok P (attempt (kernel f)) (λ _, P).
Proof.
  intros Hf σ a σ' E Hr HP. unfold attempt, kernel in E. destruct (f (kern σ)) as [x w] eqn:Ef. apply Hf in Ef.
  destruct x; injection E as _ <-; unfold vw in *; simpl; by rewrite Ef.
Qed.
Lemma ok_lookup P o name :
  ok P (kernel (LinkByName o name))
    (λ l n, P n ∧ ∃ s, links n (link_id l) = Some s ∧ ls_ns s = default hm o ∧ ls_name s = name ∧ Link_Type l = ls_type s).
Proof. apply ok_post; [apply guar_lookup|]. eapply post_conseq; [|apply post_lookup]. naive_solver. Qed.
Lemma ok_attempt_lookup P o name :
  ok P (attempt (kernel (LinkByName o name)))
    (λ r n, P n ∧ match r with
                  | Ok l => ∃ s, links n (link_id l) = Some s ∧ ls_ns s = default hm o ∧ ls_name s = name ∧
                                 Link_Type l = ls_type s
                  | Err _ => lookups_tell o name → ¬ named n (default hm o) name
                  end).
Proof. apply ok_post; [apply guar_attempt, guar_lookup|apply post_attempt_lookup]. Qed.
Lemma ok_open P path : ok P (open_netns path) (λ ns n, P n ∧ pth path = Some ns ∧ ns ≠ hm).
Proof. apply ok_post; [apply guar_open|apply post_open]. Qed.
Lemma ok_pure {A} (φ : Prop) P (m : M A) Q : (φ → ok P m Q) → ok (λ n, P n ∧ φ) m Q.
Proof. intros H σ a σ' E Hr [HP Hφ]. by apply (H Hφ σ). Qed.

Lemma ok_and {A} P (m : M A) Q R : ok P m Q → ok P m R → ok P m (λ a n, Q a n ∧ R a n).
Proof. intros H1 H2 σ a σ' E Hr HP. destruct (H1 _ _ _ E Hr HP), (H2 _ _ _ E Hr HP). done. Qed.
Lemma ok_cases {A} P P' (m : M A) Q : ok P m Q → ok P' m Q → ok (λ n, P n ∨ P' n) m Q.
Proof. intros H1 H2 σ a σ' E Hr [HP|HP]; [by apply (H1 σ)|by apply (H2 σ)]. Qed.

Lemma veth_names c i n n' mtu :
  ready n → effect (LinkAddVeth (vh c i) (vc c i) mtu) n n' → ready n' ∧ named n' hm (vh c i).
Proof.
  intros Hr He. destruct (Hr) as ((_ & _ & Hc) & _ & Hh). split.
  - apply (ready_stays (λ x, x = vh c i ∨ x = vc c i) nowhere none n); [|done].
    split; [|by rewrite (effect_fields _ _ _ He)]. eapply veth_evolves; [done|by left|by right|exact He].
  - destruct He as (_ & _ & _ & x & y & s & t & _ & _ & _ & (H1 & H2 & _) & _ & _ & H & _). exists x, s.
    by rewrite <- Hh, <- Hc.
Qed.

(** ** The place of a NIC while steps elsewhere run *)

Lemma veth_in_stays X Y Z n n' s ns nm :
  stays X Y Z n n' → ready n → ns ≠ hm → ¬ X (vh (ContainerID s) (IfaceName s)) → ¬ Y ns nm →
  veth_in n s ns nm → veth_in n' s ns nm.
Proof.
  intros [Hev _] ((Hwf & _) & _ & Hh) Hne HX HY (x & y & Ht). exists x, y.
  by apply (ev_tie _ _ _ _ _ Hev); [..|rewrite Hh| |].
Qed.

Lemma tapped_stays X Y Z n n' s ns :
  stays X Y Z n n' → ready n → ns ≠ hm → ¬ X (vh (ContainerID s) (IfaceName s)) →
  ¬ Y ns (IfaceName s) → ¬ Y ns (vethRenameFor (IfaceName s)) → tapped n s ns → tapped n' s ns.
Proof.
  intros Hst Hr Hne HX HY HY' [Hv [z Hz]]. split; [by eapply veth_in_stays|]. exists z.
  destruct Hst as [Hev _], Hr as ((Hwf & _) & _ & Hh). by apply (ev_lone _ _ _ _ _ Hev); [..|rewrite Hh| |].
Qed.

(** A step that only configures links, or changes ports. *)
Abbreviation quiet Z := (stays none nowhere Z).

Lemma own_quiet Z n n' s ns : quiet Z n n' → ready n → ns ≠ hm → own_at n s ns → own_at n' s ns.
Proof.
  intros Hst Hr Hne [H|[Hk H]]; [left; by eapply veth_in_stays; eauto|right; split; [done|]].
  by eapply tapped_stays; eauto.
Qed.
Lemma unnamed_quiet X Z n n' ns nm : stays X nowhere Z n n' → ready n → ns ≠ hm → ¬ named n ns nm → ¬ named n' ns nm.
Proof. intros [Hev _] (_ & _ & Hh) Hne Hn Hin. apply Hn, (ev_pod _ _ _ _ _ Hev); [by rewrite Hh|by intros []|done]. Qed.

Lemma tie_host n x y c i ns nm : tie n x y c i ns nm → named n (home n) (vh c i).
Proof. intros [Hy _]. rewrite named_shape. eauto. Qed.
Lemma own_host n s ns : own_at n s ns → named n (home n) (vh (ContainerID s) (IfaceName s)).
Proof. intros [(x & y & Ht)|(_ & (x & y & Ht) & _)]; by eapply tie_host. Qed.

(** The name is free in the namespace, or the NIC's own. *)
Definition fit s ns n : Prop := named n ns (IfaceName s) → own_at n s ns.

(** If the pair is created it did not exist before, so the name was free. *)
Lemma veth_free s ns n n' mtu :
  ready n → ns ≠ hm → fit s ns n →
  effect (LinkAddVeth (vh (ContainerID s) (IfaceName s)) (vc (ContainerID s) (IfaceName s)) mtu) n n' →
  ¬ named n' ns (IfaceName s).
Proof.
  intros Hr Hne Hf He. destruct (Hr) as ((_ & _ & Hc) & _ & Hh).
  assert (stays (host_names s) nowhere none n n') as Hst.
  { split; [|by rewrite (effect_fields _ _ _ He)]. eapply veth_evolves; [done|by left|by right|exact He]. }
  eapply unnamed_quiet; [exact Hst|done..|]. intros H%Hf%own_host. rewrite <- Hc in H. by destruct He as [? _].
Qed.

Lemma createVethPair_fit s ns mtu :
  ns ≠ hm →
  ok (fit s ns) (createVethPair (vh (ContainerID s) (IfaceName s)) (vc (ContainerID s) (IfaceName s)) mtu) (λ _, fit s ns).
Proof.
  intros Hne. unfold createVethPair. eapply ok_bind; [apply ok_attempt_lookup|].
  intros [l|e]; [apply ok_ret; by intros n [H _]|].
  apply (ok_bind _ (λ _ n, ¬ named n ns (IfaceName s))).
  - apply ok_wrap, ok_request. intros n n' Hr [Hf _] He. split; [by eapply veth_names|by eapply veth_free].
  - intros _. apply (ok_guar (quiet none)); [guar|]. intros n n' Hr Hn Hst Hin. by eapply unnamed_quiet in Hin.
Qed.

Lemma setns_tie c i ns n n' l st :
  ready n → ns ≠ hm → links n l = Some st → ls_ns st = hm → ls_name st = vc c i →
  effect (LinkSetNsFd l ns) n n' → ready n' ∧ ∃ y, tie n' l y c i ns (vc c i).
Proof.
  intros Hr Hne Hs Hns Hn He. destruct (Hr) as ((Hwf & _) & _ & Hh). split.
  - apply (ready_stays (λ x, x = vc c i) (λ _ _, True) none n); [|done].
    split; [|by rewrite (effect_fields _ _ _ He)]. eapply (setns_evolves _ _ _ l ns st c i); try done; congruence.
  - assert (home n' = home n) as Hh' by (by rewrite (effect_fields _ _ _ He)).
    pose proof (links_shape _ _ _ Hs) as Hsh. rewrite Hns, Hn, <- Hh in Hsh.
    destruct (wf_pod _ Hwf _ _ _ _ Hsh) as (y & Hp & Hy). exists y. destruct He as [(_ & _ & Hl & Hx) _].
    assert (y ≠ l) as Hyl by (intros ->; rewrite Hsh in Hy; apply (vh_vc c i c i); congruence).
    split; unfold shape in *; [rewrite Hx, Hh' by done; exact Hy|rewrite Hl, Hs; simpl; by rewrite Hn, <- Hp].
Qed.

Lemma rename_tie x y c i ns a b n n' :
  ready n → ns ≠ hm → tie n x y c i ns a → effect (LinkSetName x b) n n' → ready n' ∧ tie n' x y c i ns b.
Proof.
  intros Hr Hne [Hy Hx] He. destruct (Hr) as (_ & _ & Hh). split.
  - apply (ready_stays none (λ _ _, True) none n); [|done]. split; [|by rewrite (effect_fields _ _ _ He)].
    apply (rename_evolves _ _ _ ns a x b); [done..| |exact He]. split; [by rewrite Hh|eauto].
  - assert (home n' = home n) as Hh' by (by rewrite (effect_fields _ _ _ He)). destruct He as [(_ & _ & Hl & Hz) _].
    assert (y ≠ x) as Hyx by (intros ->; congruence). unfold tie. rewrite Hh'. unfold shape in *. rewrite Hz by done.
    split; [done|]. rewrite Hl. destruct (links n x) as [t|]; [|done]. injection Hx as <- _ <-. done.
Qed.

Lemma tie_found x y c i ns nm n l st :
  ready n → tie n x y c i ns nm → links n l = Some st → ls_ns st = ns → ls_name st = nm → l = x.
Proof.
  intros ((Hwf & _) & _) [_ Hx] Hs Hns Hnm. apply links_shape in Hs. rewrite Hns, Hnm in Hs. by eapply (wf_unique _ Hwf).
Qed.

(** A lookup of the NIC's end. *)
Lemma ok_lookup_tie fmt args x y c i ns nm :
  ok (λ n, tie n x y c i ns nm) (wrap fmt args (kernel (LinkByName (Some ns) nm)))
    (λ l n, tie n x y c i ns nm ∧ link_id l = x).
Proof.
  apply ok_wrap. intros σ l σ' E Hr HP. destruct (ok_lookup (λ n, tie n x y c i ns nm) _ _ _ _ _ E Hr HP) as (Hr' & HP' & st & Hs & Hns & Hnm & _).
  split; [done|]. split; [done|]. by eapply tie_found.
Qed.
Lemma ok_tie_inert fmt args r x y c i ns nm :
  inert r = true → ok (λ n, tie n x y c i ns nm) (wrap fmt args (request r)) (λ _ n, tie n x y c i ns nm).
Proof.
  intros Hi. apply ok_wrap, ok_request. intros n n' Hr Ht He. split; [by eapply inert_ready|].
  pose proof (inert_shape _ _ _ Hi He) as Hs. unfold tie. rewrite !Hs. by rewrite (effect_fields _ _ _ He).
Qed.

Lemma ok_exists {A B} (P : B → net → Prop) (m : M A) Q : (∀ b, ok (P b) m Q) → ok (λ n, ∃ b, P b n) m Q.
Proof. intros H σ a σ' E Hr [b HP]. by apply (H b σ). Qed.

(** Moving puts the other end into the sandbox under the NIC's name. *)
Lemma moveIntoNetns_ok s path ns :
  pth path = Some ns →
  ok (fit s ns) (moveIntoNetns (vc (ContainerID s) (IfaceName s)) path (IfaceName s)) (λ _ n, own_at n s ns).
Proof.
  intros Hp. set (c := ContainerID s). set (i := IfaceName s).
  unfold moveIntoNetns. eapply ok_bind; [apply ok_open|]. intros ns'. apply ok_pure. intros [Hp' Hne].
  rewrite Hp in Hp'. injection Hp' as <-. eapply ok_bind; [apply ok_attempt_read, handle_view|]. intros h.
  apply (ok_bind _ (λ (am : bool) n, fit s ns n ∧ (am = true → named n ns i))).
  { destruct h as [[]|]; [|by apply ok_ret].
    eapply ok_bind; [apply ok_attempt_lookup|]. intros [l|]; apply ok_ret; simpl.
    - intros n (HP & st & ?). split; [done|]. intros _. exists (link_id l), st. naive_solver.
    - by intros n [HP _]. }
  intros [|]; [apply ok_ret; intros n [Hf Hin]; by apply Hf, Hin|].
  eapply ok_bind; [apply ok_wrap, ok_lookup|]. intros l. simpl.
  apply (ok_bind _ (λ _ n, ∃ y, tie n (link_id l) y c i ns (vc c i))).
  { apply ok_wrap, ok_request. intros n n' Hr (_ & st & Hs & Hns & Hn & _) He. by eapply setns_tie. }
  intros []. apply ok_exists. intros y. eapply ok_bind; [apply ok_wrap, ok_read, handle_view|]. intros [].
  eapply ok_bind; [apply ok_lookup_tie|]. intros inner. apply ok_pure. intros ->.
  eapply ok_bind; [by apply ok_tie_inert|]. intros []. apply ok_wrap, ok_request. intros n n' Hr Ht He.
  destruct (rename_tie _ _ _ _ _ _ _ _ _ Hr Hne Ht He) as [Hr' Ht']. split; [done|]. left. by exists (link_id l), y.
Qed.

Lemma set_ids_first k v rest old : k ∉ rest.*1 → set_ids ((k, v) :: rest) old !! k = Some v.
Proof.
  intros Hk. unfold set_ids. simpl. apply lookup_union_Some_l. rewrite list_to_map_app.
  rewrite lookup_union_r; [apply lookup_insert_eq|]. apply not_elem_of_list_to_map_1.
  intros (x & -> & Hx)%list_elem_of_fmap. apply Hk, list_elem_of_fmap. exists x. split; [done|].
  apply list_elem_of_In, in_rev, list_elem_of_In, Hx.
Qed.

Lemma attachToOVS_ok P s host :
  host = vh (ContainerID s) (IfaceName s) → (∀ n q, P n → P (with_ports n q)) →
  ok P (attachToOVS host s) (λ _ n, P n ∧ bound s n).
Proof.
  intros Hk HP σ a σ' E Hr Hn. split.
  { eapply g_ready; [exact (attachToOVS_guar none nowhere (λ p, p = host) top _ s eq_refl _ _ _ E Hr I)|done]. }
  unfold attachToOVS, ovsVsctl, mbind, M_bind, exec in E. destruct (Exec _ _ _) as [[o [e|]] w] eqn:Ee; [done|].
  injection E as _ <-. unfold vw in *. simpl. apply exec_add in Ee as [-> | [He _]]; [|done|apply port_ids_plain].
  split; [by apply HP|]. eexists. rewrite <- Hk. simpl. rewrite lookup_insert_eq. split; [done|].
  apply (set_ids_first "iface-id" _ (tail (port_ids s))).
  change ("iface-id" ∉ ["vendor"; "kube-ovn-dra-driver"; "pod_name"; "pod_namespace"; "ip"; "pod_netns"]).
  apply (bool_decide_unpack _). reflexivity.
Qed.

Lemma path_same p w r w' : GetFromPath p w = (r, w') → view w' = view w.
Proof. by intros [-> _]%path_view. Qed.

Lemma primaryMTU_ok P path : ok P (primaryMTU path) (λ _, P).
Proof.
  unfold primaryMTU. eapply ok_bind; [apply ok_attempt_read, path_same|]. intros [ns|]; [|by apply ok_ret].
  eapply ok_bind; [apply ok_attempt_read, handle_view|]. intros [[]|]; [|by apply ok_ret].
  eapply ok_bind; [apply ok_attempt_read, lookup_view|]. intros [l|]; by apply ok_ret.
Qed.

(** ** A VM's bridge and tap *)

(** The other end has its new name, and no link with a peer has the NIC's. *)
Definition renamed s ns n : Prop :=
  veth_in n s ns (vethRenameFor (IfaceName s)) ∧ ∀ z p, shape n z = Some (ns, IfaceName s, p) → p = None.

Lemma renamed_created s ns name type n n' :
  ready n → ns ≠ hm → one_created n n' ns name type → renamed s ns n → ready n' ∧ renamed s ns n'.
Proof.
  intros Hr Hne Hc [Hv Hz]. destruct (Hr) as (_ & _ & Hh). destruct (Hc) as (_ & id & st & Hid & (Hs1 & Hs2 & _ & Hs3 & _) & E & Hn' & Hx).
  assert (stays none (λ ns' nm, ns' = ns ∧ nm = name) none n n') as Hst.
  { split; [|by rewrite E]. eapply created_evolves; [by rewrite Hh| |exact Hc]. done. }
  split; [by eapply ready_stays|]. split.
  - destruct Hv as (x & y & Ht). exists x, y. destruct Ht as [Hy Hxs].
    assert (home n' = home n) as Hh' by (by rewrite E). unfold tie. rewrite Hh'. unfold shape in *.
    rewrite !Hx; [done|intros ->; by rewrite Hid in Hxs|intros ->; by rewrite Hid in Hy].
  - intros z p. unfold shape in *. destruct (decide (z = id)) as [->|Hzi]; [rewrite Hn'; simpl; congruence|].
    rewrite Hx by done. apply Hz.
Qed.

Lemma renamed_inert s ns r n n' : inert r = true → effect r n n' → renamed s ns n → renamed s ns n'.
Proof.
  intros Hi He [(x & y & Ht) Hz]. pose proof (inert_shape _ _ _ Hi He) as Hs. split.
  - exists x, y. unfold tie in *. rewrite !Hs. by rewrite (effect_fields _ _ _ He).
  - intros z p. rewrite Hs. apply Hz.
Qed.
Lemma ok_renamed_inert fmt args s ns r :
  inert r = true → ok (renamed s ns) (wrap fmt args (request r)) (λ _, renamed s ns).
Proof.
  intros Hi. apply ok_wrap, ok_request. intros n n' Hr H He. split; [by eapply inert_ready|by eapply renamed_inert].
Qed.

Lemma ok_renamed_bridge fmt args s ns name :
  ns ≠ hm → ok (renamed s ns) (unless_exists fmt args (LinkAddBridge ns name)) (λ _, renamed s ns).
Proof.
  intros Hne σ a σ' E Hr HP. unfold unless_exists, mbind, M_bind, attempt, request, kernel in E.
  destruct (Netlink _ (kern σ)) as [[[]|e] w] eqn:En; simpl in E.
  - injection E as _ <-. apply request_ok in En. by eapply renamed_created.
  - apply request_err in En. destruct (isExists e); [|done]. injection E as _ <-. unfold vw in *. simpl. by rewrite En.
Qed.
Lemma ok_renamed_tap fmt args s ns name :
  ns ≠ hm → ok (renamed s ns) (wrap fmt args (addTuntapInNetns ns name)) (λ _, renamed s ns).
Proof.
  intros Hne. apply ok_wrap. intros σ a σ' E Hr HP. apply addTuntap_created in E as [->|Hc]; [done| |done].
  by eapply renamed_created.
Qed.

(** The tap is the link that has the NIC's name now. *)
Lemma ok_lookup_tap fmt args s ns :
  ok (renamed s ns) (wrap fmt args (kernel (LinkByName (Some ns) (IfaceName s)))) (λ _ n, tapped n s ns).
Proof.
  apply ok_wrap. eapply ok_conseq; [done| |apply ok_lookup]. intros l n ([Hv Hz] & st & Hs & Hns & Hnm & _).
  split; [done|]. exists (link_id l). apply links_shape in Hs. rewrite Hns, Hnm in Hs. unfold lone.
  by rewrite Hs, (Hz _ _ Hs).
Qed.

Lemma rename_renamed x y s ns n n' :
  ready n → ns ≠ hm → IfaceName s ≠ vethRenameFor (IfaceName s) → tie n x y (ContainerID s) (IfaceName s) ns (IfaceName s) →
  effect (LinkSetName x (vethRenameFor (IfaceName s))) n n' → ready n' ∧ renamed s ns n'.
Proof.
  intros Hr Hne Hi Ht He. destruct (rename_tie _ _ _ _ _ _ _ _ _ Hr Hne Ht He) as [Hr' Ht'].
  split; [done|]. split; [by exists x, y|]. intros z p Hz. exfalso. destruct He as [(_ & _ & Hl & Hx) _].
  destruct (decide (z = x)) as [->|Hzx].
  - destruct Ht' as [_ Hx']. rewrite Hx' in Hz. congruence.
  - unfold shape in Hz. rewrite Hx in Hz by done. destruct Hr as ((Hwf & _) & _), Ht as [_ Hxs].
    apply Hzx. by eapply (wf_unique _ Hwf).
Qed.

Lemma tapped_quiet Z n n' s ns : quiet Z n n' → ready n → ns ≠ hm → tapped n s ns → tapped n' s ns.
Proof. intros Hst Hr Hne. by eapply tapped_stays; eauto. Qed.
Lemma ok_tapped {A} s ns (m : M A) :
  ns ≠ hm → guar top m (quiet none) → ok (λ n, tapped n s ns) m (λ _ n, tapped n s ns).
Proof.
  intros Hne Hg. apply (ok_guar (quiet none)); [apply (guar_conseq top); [done|exact Hg]|]. intros n n' Hr Hn Hst. by eapply tapped_quiet.
Qed.

(** What the lookup of the NIC's name finds: a tap that is wired, or the other end. *)
Lemma own_found s ns n l st :
  ready n → own_at n s ns → links n l = Some st → ls_ns st = ns → ls_name st = IfaceName s →
  (∃ y, tie n l y (ContainerID s) (IfaceName s) ns (IfaceName s)) ∧ ls_type st = "veth" ∨ tapped n s ns.
Proof.
  intros Hr [(x & y & Ht)|[_ H]] Hs Hns Hnm; [left|by right].
  pose proof (tie_found _ _ _ _ _ _ _ _ _ Hr Ht Hs Hns Hnm) as ->. split; [by exists y|].
  destruct Ht as [_ Hx]. unfold shape in Hx. rewrite Hs in Hx. injection Hx as _ _ Hp.
  unfold ls_peer, ls_type in *. by destruct (ls_kind st).
Qed.

(** A NIC that is wired is not renamed again. *)
Lemma tapped_rename_refused {A} fmt args fmt' args' s ns l (f : () → M A) Q :
  IfaceName s ≠ vethRenameFor (IfaceName s) →
  ok (λ n, tapped n s ns ∧ ∃ p, shape n l = Some (ns, IfaceName s, p))
    (_ ← wrap fmt args (request (LinkSetDown l));
     u ← wrap fmt' args' (request (LinkSetName l (vethRenameFor (IfaceName s)))); f u) Q.
Proof.
  intros Hi. set (P := λ n : net, named n ns (vethRenameFor (IfaceName s)) ∧ ∃ p, shape n l = Some (ns, IfaceName s, p)).
  apply (ok_bind _ (λ _, P)).
  - apply ok_wrap, ok_request. intros n n' Hr [[(x & y & [_ Hx]) _] Hl] He. split; [by eapply (inert_ready (LinkSetDown l))|].
    pose proof (inert_shape _ _ _ (eq_refl : inert (LinkSetDown l) = true) He) as Hs. unfold P. rewrite named_shape, Hs.
    split; [|done]. exists x, (Some y). by rewrite Hs.
  - intros []. apply (ok_bind _ (λ _ _, False)); [|by intros [] ? ? ? ? ? []].
    apply ok_wrap, ok_request. intros n n' Hr [Hn (p & Hl)] [_ Hf]. exfalso. unfold shape in Hl.
    destruct (links n l) as [st|] eqn:Hs; [|done]. injection Hl as <- Hnm _. destruct (Hf st eq_refl); [congruence|done].
Qed.

Lemma wireVMIBridge_ok s ns :
  pth (NetnsPath s) = Some ns → IfaceName s ≠ vethRenameFor (IfaceName s) →
  ok (λ n, own_at n s ns) (wireVMIBridge s) (λ _ n, tapped n s ns).
Proof.
  intros Hp Hi. unfold wireVMIBridge. eapply ok_bind; [apply ok_open|]. intros ns'. apply ok_pure. intros [Hp' Hne].
  rewrite Hp in Hp'. injection Hp' as <-. eapply ok_bind; [apply ok_wrap, ok_read, handle_view|]. intros [].
  eapply ok_bind; [apply ok_wrap, ok_lookup|]. intros l. cbv zeta. case_bool_decide as Hty.
  { eapply ok_ready; [|apply ok_tapped; [done|apply ensure_server_guar]].
    intros n Hr (Ho & st & Hs & Hns & Hnm & Ht). destruct (own_found _ _ _ _ _ Hr Ho Hs Hns Hnm) as [[_ Hv]|]; [|done]. congruence. }
  set (i := IfaceName s) in *. set (c := ContainerID s).
  apply (ok_ready (λ n, (∃ y, tie n (link_id l) y c i ns i) ∨ tapped n s ns ∧ ∃ p, shape n (link_id l) = Some (ns, i, p))).
  { intros n Hr (Ho & st & Hs & Hns & Hnm & Ht). destruct (own_found _ _ _ _ _ Hr Ho Hs Hns Hnm) as [[H _]|H]; [by left|right].
    split; [done|]. apply links_shape in Hs. rewrite Hns, Hnm in Hs. eauto. }
  apply ok_cases; [|by apply tapped_rename_refused]. apply ok_exists. intros y.
  eapply ok_bind; [by apply ok_tie_inert|]. intros [].
  apply (ok_bind _ (λ _, renamed s ns)); [apply ok_wrap, ok_request; intros n n' Hr Ht He; by eapply rename_renamed|]. intros [].
  eapply ok_bind; [by apply ok_renamed_bridge|]. intros [].
  eapply ok_bind; [apply ok_wrap, ok_read, lookup_view|]. intros bl.
  eapply ok_bind; [by apply ok_renamed_inert|]. intros [].
  eapply ok_bind; [by apply ok_renamed_tap|]. intros [].
  eapply ok_bind; [apply ok_lookup_tap|]. intros tl. apply ok_tapped; [done|].
  guar; [apply set_spec_mac_guar|apply bridgeFdb_guar|apply ensure_server_guar].
Qed.

(** ** Attach *)

Lemma Attach_ok s ns :
  pth (NetnsPath s) = Some ns → (KubeVirtVMI s = true → IfaceName s ≠ vethRenameFor (IfaceName s)) →
  ok (fit s ns) (Attach_ovs s) (λ _ n, inside_at n s ns ∧ bound s n).
Proof.
  intros Hp Hi. set (c := ContainerID s). set (i := IfaceName s). unfold Attach_ovs. destruct (Validate s); [by intros ???|].
  apply (ok_bind _ (λ ab n, (fit s ns n ∧ ab = (vh c i, vc c i)) ∧ ns ≠ hm)).
  { intros σ [a b] σ' E (Ht & Hpt & Hh) HP. unfold of_names in E. destruct (vethNames s) as [[? ?]|] eqn:En; [|done].
    apply vethNames_Ok in En as [-> ->]. injection E as <- <- <-. split_and!; try done.
    destruct Ht as (_ & [H _] & _). rewrite Hpt, Hh in H. by eapply H. }
  intros ab. apply ok_pure. intros Hne. apply ok_pure. intros ->.
  apply (ok_bind _ (λ _, fit s ns)); [destruct (_ =? 0)%Z; [apply primaryMTU_ok|by apply ok_ret]|].
  intros mtu. cbv zeta. simpl. eapply ok_bind; [by apply createVethPair_fit|]. intros [].
  eapply ok_bind; [by apply ok_or_else, moveIntoNetns_ok|]. intros [].
  apply (ok_bind _ (λ _ n, own_at n s ns)).
  { apply ok_or_else, (ok_guar (quiet none)); [apply configurePodIface_guar|]. intros n n' Hr Ho Hst. by eapply own_quiet. }
  intros []. eapply ok_bind; [by apply ok_or_else, (attachToOVS_ok _ (with_mtu s mtu))|]. intros [].
  unfold inside_at. destruct (KubeVirtVMI s) eqn:Hk; simpl.
  - apply ok_or_else, ok_and.
    + eapply ok_conseq; [|intros ? ? H; exact H|exact (wireVMIBridge_ok (with_mtu s mtu) ns Hp (Hi eq_refl))]. by intros n [Ho _].
    + apply (ok_guar (stays none (λ _ _, True) none)); [by apply wireVMIBridge_guar|].
      intros n n' Hr [_ (ids & Hids & Hid)] [Hev _]. exists ids. by rewrite (ev_ports _ _ _ _ _ Hev _ id).
  - apply ok_ret. intros n [[H|[? _]] Hb]; [done|congruence].
Qed.

(** Without its sandbox a NIC is not attached. *)
Lemma ok_False {A} (m : M A) Q : ok (λ _, False) m Q.
Proof. by intros σ a σ' _ _ []. Qed.

Lemma Attach_no_path s : pth (NetnsPath s) = None → ok top (Attach_ovs s) (λ _ _, False).
Proof.
  intros Hp. unfold Attach_ovs. destruct (Validate s); [by intros ???|].
  apply (ok_bind _ (λ ab n, top n ∧ ab = (vh (ContainerID s) (IfaceName s), vc (ContainerID s) (IfaceName s)))).
  { intros σ [a b] σ' E Hr _. unfold of_names in E. destruct (vethNames s) as [[? ?]|] eqn:En; [|done].
    apply vethNames_Ok in En as [-> ->]. by injection E as <- <- <-. }
  intros ab. apply ok_pure. intros ->.
  apply (ok_bind _ (λ _, top)); [destruct (_ =? 0)%Z; [apply primaryMTU_ok|by apply ok_ret]|]. intros mtu. cbv zeta.
  apply (ok_bind _ (λ _, top)); [by apply (ok_guar (stays (λ _, True) nowhere none)); [apply createVethPair_guar|]|]. intros [].
  apply (ok_bind _ (λ _ _, False)); [|intros []; apply ok_False]. apply ok_or_else. unfold moveIntoNetns.
  eapply ok_bind; [apply ok_open|]. intros ns. apply ok_pure. simpl. rewrite Hp. by intros [? _].
Qed.

(** ** Detach *)

(** Nothing is plugged, no port appears, and the node stays well-formed. *)
Record shrinks n n' : Prop := {
  sh_home : home n' = home n;
  sh_paths : paths n' = paths n;
  sh_cur : cur n' = cur n;
  sh_wf : wf_net n → wf_net n';
  sh_moved : wf_net n → ∀ c i, moved n' c i → moved n c i;
  sh_ports p : is_Some (ports n' !! p) → is_Some (ports n !! p);
}.

Lemma shrinks_tidy n n' : shrinks n n' → tidy_net n → tidy_net n'.
Proof.
  intros [H1 H2 H3 H4 _ _] (Hwf & [Hp Hq] & Hc). unfold tidy_net, paths_ok. rewrite H1, H2, H3. by auto.
Qed.

#[local] Instance shrinks_guarantee : Guarantee shrinks.
Proof.
  split.
  - intros n n' Hh Hp Ho Hc Hs. pose proof (same_shape_evolves none nowhere none n n' Hh Hp Ho Hs) as Hev.
    split; [done..|apply (ev_wf _ _ _ _ _ Hev)| |by rewrite Ho].
    intros _ c i. unfold moved. rewrite Hh, !(ev_host _ _ _ _ _ Hev) by (by intros []). done.
  - intros n1 n2 n3 [H1 H2 H3 H4 H5 H6] [K1 K2 K3 K4 K5 K6]. split; try congruence; eauto.
  - intros n n' Hs (Ht & Hp & Hh). split; [by eapply shrinks_tidy|]. destruct Hs as [-> -> _ _ _ _]. done.
Qed.

Lemma del_moved n n' l c i : effect (LinkDel l) n n' → wf_net n → moved n' c i → moved n c i.
Proof.
  intros He Hwf. assert (home n' = home n) as Hh by (by rewrite (effect_fields _ _ _ He)). unfold moved. rewrite Hh.
  rewrite !named_shape. intros [(z & p & Hz) Hnot]. pose proof (del_old _ _ _ _ _ He Hz) as Hz0. split; [eauto|].
  intros (x & q & Hx). destruct (wf_pod _ Hwf _ _ _ _ Hx) as (y & -> & Hy).
  assert (z = y) as -> by (by eapply (wf_unique _ Hwf)). rewrite Hz0 in Hy. injection Hy as ->.
  pose proof (del_survives _ _ _ _ _ _ _ Hwf He Hz) as Hxs. apply Hnot. exists x. rewrite Hxs. eauto.
Qed.

Lemma effect_del_shrinks n n' l : effect (LinkDel l) n n' → shrinks n n'.
Proof.
  intros He. pose proof (effect_fields _ _ _ He) as E.
  split; [by rewrite E..|by apply del_wf with l| |by rewrite E]. intros Hwf c i. by apply (del_moved _ _ l).
Qed.

Lemma del_shrinks P fmt args l : guar P (wrap fmt args (request (LinkDel l))) shrinks.
Proof. apply guar_wrap, guar_request. intros n n' _ _. apply effect_del_shrinks. Qed.

Lemma ovsVsctl_shrinks P bridge port : guar P (ovsVsctl (del_port_args bridge port)) shrinks.
Proof.
  unfold ovsVsctl. apply guar_bind; [|intros [o [e|]]; guar].
  intros σ r σ' E _ _. unfold exec in E. destruct (Exec _ _ _) as [[o e] w] eqn:Ee. injection E as _ <-. unfold vw. simpl.
  apply exec_del in Ee as [-> | [_ ->]]; [|apply g_refl].
  split; try done; [by intros [H1 H2 H3 H4]|]. intros p. simpl. rewrite lookup_delete_is_Some. by intros [].
Qed.

Lemma cleanupHostVeth_shrinks P name : guar P (cleanupHostVeth name) shrinks.
Proof. unfold cleanupHostVeth. apply guar_bind; [guar|]. intros [l|]; [apply del_shrinks|guar]. Qed.

#[local] Hint Resolve del_shrinks ovsVsctl_shrinks cleanupHostVeth_shrinks : guar.

Lemma stop_server_shrinks P path name : guar P (stop_server path name) shrinks.
Proof.
  intros σ r σ' E _ _. unfold stop_server, stopVMIDHCPServer in E. destruct (_ !! _) as [h|].
  - unfold as_step, kernel in E. destruct (CloseListener _ _) as [[[]|e] w] eqn:Ec; simpl in E; apply close_view in Ec;
      injection E as _ <-; unfold vw; simpl; rewrite Ec; apply g_refl.
  - injection E as _ <-. apply g_refl.
Qed.

Lemma unwireVMIBridge_shrinks P spec : guar P (unwireVMIBridge spec) shrinks.
Proof.
  unfold unwireVMIBridge. cbv zeta. apply guar_bind; [apply guar_wrap, stop_server_shrinks|]. intros _.
  apply guar_bind; [apply guar_attempt, guar_read, path_same|]. intros [ns|]; guar.
Qed.

Lemma Detach_shrinks s : guar top (Detach_ovs s) shrinks.
Proof.
  unfold Detach_ovs. apply guar_bind; [apply guar_when, unwireVMIBridge_shrinks|]. intros _.
  apply guar_bind; [intros σ r σ' [= _ <-] _ _; apply g_refl|]. intros [host pod]. unfold detachFromOVS. guar.
Qed.

Lemma detach_ports_shrinks P names : guar P (detach_ports names) shrinks.
Proof.
  revert P. induction names as [|name names IH]; intros P; simpl; [guar|].
  apply guar_bind; [guar|]. intros x. apply guar_bind; [guar|]. intros e. apply guar_bind; [apply IH|]. intros errs. guar.
Qed.

Lemma DetachPodPorts_shrinks pod ns : guar top (DetachPodPorts_ovs pod ns) shrinks.
Proof.
  unfold DetachPodPorts_ovs. apply guar_bind.
  - intros σ r σ' E _ _. unfold exec in E. destruct (Exec _ _ _) as [[o e] w] eqn:Ee. injection E as _ <-.
    apply exec_find in Ee as [Hv _]; [|apply pod_ids_plain]. unfold vw. simpl. rewrite Hv. apply g_refl.
  - intros [o [e|]]; [guar|]. apply guar_bind; [apply detach_ports_shrinks|]. intros errs. guar.
Qed.

(** A successful detach leaves neither the host end nor its port. *)
Lemma del_gone n n' l s ns nm :
  wf_net n → links n l = Some s → ls_ns s = ns → ls_name s = nm → effect (LinkDel l) n n' → ¬ named n' ns nm.
Proof.
  intros Hwf Hs Hns Hnm He. rewrite named_shape. intros (x & p & Hx). pose proof (del_old _ _ _ _ _ He Hx) as Hx0.
  apply links_shape in Hs. rewrite Hns, Hnm in Hs. assert (x = l) as -> by (by eapply (wf_unique _ Hwf)).
  destruct (del_shape _ _ _ He) as (? & ? & ? & _ & _ & Hl & _). congruence.
Qed.

(** The host end is gone, unless the lookup of it failed for another reason than that it
    does not exist: the error is not looked at. *)
Definition lookup_failed name (w w' : W) : Prop := ∃ e, LinkByName None name w = (Err e, w') ∧ LinkNotFound e = false.

Lemma cleanupHostVeth_gone name σ σ' :
  cleanupHostVeth name σ = (Ret (), σ') → ready (vw σ) →
  ¬ named (vw σ') hm name ∨ lookup_failed name (kern σ) (kern σ').
Proof.
  unfold cleanupHostVeth, mbind, M_bind, attempt, kernel. intros E Hr. destruct (Hr) as ((Hwf & _ & Hc) & _ & Hh).
  destruct (LinkByName None name (kern σ)) as [[l|e] w] eqn:El; simpl in E.
  - left. pose proof (lookup_view _ _ _ _ _ El) as Hv. apply lookup_found in El as (s & Hs & Hns & Hn & _).
    unfold wrap, request, kernel in E. simpl in E. destruct (Netlink _ w) as [[[]|e] w'] eqn:En; [|done]. injection E as <-.
    apply request_ok in En. unfold vw in *. simpl in *. rewrite Hv in En. rewrite Hc, Hh in Hns. by eapply del_gone.
  - injection E as <-. destruct (LinkNotFound e) eqn:Hnf; [left|right; by exists e].
    pose proof (lookup_view _ _ _ _ _ El) as Hv. eapply lookup_missing in El; [|done]. unfold vw in *. simpl in *.
    by rewrite Hv, <- Hh, <- Hc.
Qed.

Lemma detachFromOVS_gone name : ok top (detachFromOVS name) (λ _ n, ports n !! name = None).
Proof.
  intros σ a σ' E Hr _. split; [eapply g_ready; [by eapply ovsVsctl_shrinks|done]|].
  unfold detachFromOVS, ovsVsctl, mbind, M_bind, exec in E. destruct (Exec _ _ _) as [[o [e|]] w] eqn:Ee; [done|].
  injection E as _ <-. unfold vw. simpl. apply exec_del in Ee as [-> | [He _]]; [|done]. apply lookup_delete_eq.
Qed.

Lemma cleanupHostVeth_ports port name :
  ok (λ n, ports n !! port = None) (cleanupHostVeth name) (λ _ n, ports n !! port = None).
Proof.
  apply (ok_guar shrinks); [apply cleanupHostVeth_shrinks|]. intros n n' _ Hp Hs.
  apply eq_None_not_Some. intros H. apply (sh_ports _ _ Hs) in H as [? ?]; congruence.
Qed.

Lemma of_names_Ret s σ a b σ' :
  of_names s σ = (Ret (a, b), σ') → a = vh (ContainerID s) (IfaceName s) ∧ b = vc (ContainerID s) (IfaceName s) ∧ σ' = σ.
Proof.
  unfold of_names. destruct (vethNames s) as [[? ?]|] eqn:En; [|done]. apply vethNames_Ok in En as [-> ->].
  by intros [= <- <- <-].
Qed.

Lemma bind_ret {A B} (m : M A) (f : A → M B) σ b σ' :
  (m ≫= f) σ = (Ret b, σ') → ∃ a σ1, m σ = (Ret a, σ1) ∧ f a σ1 = (Ret b, σ').
Proof. unfold mbind, M_bind. destruct (m σ) as [[a|e|] σ1]; [eauto|done..]. Qed.

Lemma Detach_ok s σ σ' :
  let k := vh (ContainerID s) (IfaceName s) in
  Detach_ovs s σ = (Ret (), σ') → ready (vw σ) →
  ready (vw σ') ∧ ports (vw σ') !! k = None ∧ (¬ named (vw σ') hm k ∨ ∃ w, lookup_failed k w (kern σ')).
Proof.
  intros k E Hr. unfold Detach_ovs in E. apply bind_ret in E as ([] & σ1 & E1 & E).
  assert (ready (vw σ1)) as Hr1.
  { eapply g_ready; [|exact Hr]. exact (guar_when _ _ _ (unwireVMIBridge_shrinks top s) _ _ _ E1 Hr I). }
  apply bind_ret in E as ([a b] & σ2 & (-> & -> & ->)%of_names_Ret & E).
  apply bind_ret in E as ([] & σ3 & E3 & E). destruct (detachFromOVS_gone _ _ _ _ E3 Hr1 I) as [Hr3 Hp3].
  destruct (cleanupHostVeth_ports k _ _ _ _ E Hr3 Hp3) as [Hr' Hp']. split_and!; [done..|].
  destruct (cleanupHostVeth_gone _ _ _ E Hr3); eauto.
Qed.

End attach.

(** ** The contract *)

Section contract.
Context {W : Type} `{KE : Kernel W} {KL : KernelLaws W} `{DH : Dhcp4}.
Abbreviation net := (Net NsId LinkId).
Implicit Types (n : net) (σ : ovsAttacher W).

(** A call of the attacher; a panic ends it in the middle, like an error. *)
Definition run_step (m : M ()) σ : option error * ovsAttacher W :=
  match m σ with
  | (Ret _, σ) => (None, σ)
  | (Throw e, σ) => (Some e, σ)
  | (Panic, σ) => (Some (External "panic"), σ)
  end.

#[export] Instance ovs_attacher : Attacher (ovsAttacher W) := {|
  Attach σ s := run_step (Attach_ovs s) σ;
  Detach σ s := run_step (Detach_ovs s) σ;
  DetachPodPorts σ pod ns := run_step (DetachPodPorts_ovs pod ns) σ;
|}.

(** A NIC is plugged, wherever its other end is: it has a port, and that end left the host. *)
Definition plugged_net n (k : string) : Prop := is_Some (ports n !! k) ∧ ∃ c i, k = vh c i ∧ moved n c i.

#[export] Instance ovs_datapath : Datapath (ovsAttacher W) := {|
  nic_key := vh;
  live σ := plugged_net (vw σ);
  placed σ s := inside (vw σ) s ∧ bound s (vw σ);
  free_for σ := fits (vw σ);
  clash := clash_spec;
  tidy σ := tidy_net (vw σ);
|}.

Definition here n : Anchor NsId := {| pth := paths n; hm := home n |}.

Lemma ready_here n : tidy_net n → ready (AN := here n) n.
Proof. by intros H. Qed.

Lemma moved_key n c i c' i' : vh c i = vh c' i' → moved n c i → moved n c' i'.
Proof. intros E. pose proof (proj1 (vh_eq_vc_eq c i c' i') E) as E'. unfold moved. by rewrite E, E'. Qed.

Lemma plugged_vh n c i : plugged_net n (vh c i) ↔ is_Some (ports n !! vh c i) ∧ moved n c i.
Proof.
  split.
  - intros (Hp & c' & i' & E & Hm). split; [done|]. by apply (moved_key _ c' i').
  - intros [Hp Hm]. split; [done|]. eauto.
Qed.

Lemma run_step_inv (m : M ()) σ e σ' : run_step m σ = (e, σ') → ∃ r, m σ = (r, σ').
Proof. unfold run_step. destruct (m σ) as [[[]|x|] σ1]; intros [= <- <-]; eauto. Qed.
Lemma run_step_ok (m : M ()) σ σ' : run_step m σ = (None, σ') → m σ = (Ret (), σ').
Proof. unfold run_step. by destruct (m σ) as [[[]|x|] σ1]; intros [= <-]. Qed.

Lemma Attach_stays s σ r σ' :
  Attach_ovs s σ = (r, σ') → tidy_net (vw σ) →
  stays (host_names s) (pod_names (AN := here (vw σ)) s) (port_name s) (vw σ) (vw σ').
Proof. intros E Ht. exact (Attach_guar (AN := here (vw σ)) s σ r σ' E (ready_here _ Ht) I). Qed.

Lemma moved_other s n n' c i Y Z :
  vh c i ≠ vh (ContainerID s) (IfaceName s) → stays (host_names s) Y Z n n' → moved n' c i ↔ moved n c i.
Proof.
  intros Hk [Hev _]. unfold moved. rewrite (ev_home _ _ _ _ _ Hev).
  rewrite !(ev_host _ _ _ _ _ Hev); [done|..]; unfold host_names.
  - intros [E|E]; [by apply eq_sym, vh_vc in E|]. by apply Hk, vh_eq_vc_eq.
  - intros [E|E]; [done|]. by apply vh_vc in E.
Qed.

Lemma Attach_plugs s σ σ' :
  Attach_ovs s σ = (Ret (), σ') → tidy_net (vw σ) → fits (vw σ) s → inside (vw σ') s ∧ bound s (vw σ').
Proof.
  intros E Ht [Hf Hi]. pose proof (Attach_stays _ _ _ _ E Ht) as [Hev _].
  destruct (paths (vw σ) (NetnsPath s)) as [ns|] eqn:Hns; cycle 1.
  { by destruct (Attach_no_path (AN := here (vw σ)) s Hns σ _ σ' E (ready_here _ Ht) I). }
  destruct (Attach_ok (AN := here (vw σ)) s ns Hns Hi σ _ σ' E (ready_here _ Ht)) as (_ & Hin & Hb); [by intros ?; apply Hf|].
  split; [|done]. exists ns. by rewrite (ev_paths _ _ _ _ _ Hev).
Qed.

(** A NIC in its place left the host. *)
Lemma tie_moved n x y c i ns nm : wf_net n → ns ≠ home n → tie n x y c i ns nm → moved n c i.
Proof.
  intros Hwf Hne Ht. split; [by eapply tie_host|]. destruct Ht as [Hy Hx]. rewrite named_shape. intros (z & p & Hz).
  destruct (wf_pod _ Hwf _ _ _ _ Hz) as (y' & -> & Hy'). assert (y' = y) as -> by (by eapply (wf_unique _ Hwf)).
  rewrite Hy in Hy'. injection Hy' as <-. congruence.
Qed.

Lemma inside_moved n s : tidy_net n → inside n s → moved n (ContainerID s) (IfaceName s).
Proof.
  intros (Hwf & [Hp _] & _) (ns & Hns & H). unfold inside_at in H.
  destruct (KubeVirtVMI s); [destruct H as [(x & y & H) _]|destruct H as (x & y & H)]; eapply tie_moved; eauto.
Qed.

(** Attaching [s] leaves the names of [t] alone, when they do not clash. *)
Lemma clash_names n s t ns :
  paths_ok n → ¬ clash_spec s t → paths n (NetnsPath t) = Some ns →
  ¬ host_names s (vh (ContainerID t) (IfaceName t)) ∧ ¬ port_name s (vh (ContainerID t) (IfaceName t)) ∧
  ¬ pod_names (AN := here n) s ns (IfaceName t) ∧
  (KubeVirtVMI t = true → ¬ pod_names (AN := here n) s ns (vethRenameFor (IfaceName t))).
Proof.
  intros [_ Hq] Hc Hns. unfold host_names, port_name, pod_names. simpl.
  assert (paths n (NetnsPath s) = Some ns → NetnsPath s = NetnsPath t) as Hs by (intros H; by eapply Hq).
  split_and!.
  - intros [E|E]; [apply Hc; left; by rewrite E|by apply vh_vc in E].
  - intros E. apply Hc. left. by rewrite E.
  - intros [H Hin]. apply Hc. right. auto.
  - intros Hk [H Hin]. apply Hc. right. auto.
Qed.

Lemma Attach_keeps s t σ r σ' :
  Attach_ovs s σ = (r, σ') → tidy_net (vw σ) → ¬ clash_spec s t →
  (inside (vw σ) t → inside (vw σ') t) ∧ (bound t (vw σ) → bound t (vw σ')) ∧ (fits (vw σ) t → fits (vw σ') t).
Proof.
  intros E Ht Hc. pose proof (Attach_stays _ _ _ _ E Ht) as Hst. pose proof (ready_here _ Ht) as Hr.
  destruct (Hst) as [Hev _], Ht as (Hwf & Hpo & _). unfold inside, fits. rewrite (ev_paths _ _ _ _ _ Hev). split_and!.
  - intros (ns & Hns & H). exists ns. split; [done|]. destruct (clash_names _ s t ns Hpo Hc Hns) as (C1 & _ & C2 & C3).
    assert (ns ≠ hm (Anchor := here (vw σ))) as Hne by (destruct Hpo as [H0 _]; by eapply H0). unfold inside_at in *.
    destruct (KubeVirtVMI t); [eapply tapped_stays; eauto|eapply veth_in_stays; eauto].
  - intros (ids & Hids & Hid). exists ids. split; [|done]. rewrite (ev_ports _ _ _ _ _ Hev); [done|].
    intros Hk. apply Hc. left. by rewrite Hk.
  - intros [Hf Hi]. split; [|done]. intros ns Hns Hn. destruct (clash_names _ s t ns Hpo Hc Hns) as (C1 & _ & C2 & C3).
    assert (ns ≠ hm (Anchor := here (vw σ))) as Hne by (destruct Hpo as [H0 _]; by eapply H0).
    destruct (Hf ns Hns) as [H|[Hk H]]; [by apply (ev_pod _ _ _ _ _ Hev)|left; by eapply veth_in_stays; eauto|].
    right. split; [done|]. eapply tapped_stays; eauto.
Qed.

Lemma Attach_other s σ r σ' c i :
  Attach_ovs s σ = (r, σ') → tidy_net (vw σ) → vh c i ≠ vh (ContainerID s) (IfaceName s) →
  plugged_net (vw σ') (vh c i) ↔ plugged_net (vw σ) (vh c i).
Proof.
  intros E Ht Hk. pose proof (Attach_stays _ _ _ _ E Ht) as Hst. rewrite !plugged_vh, (moved_other _ _ _ _ _ _ _ Hk Hst).
  destruct Hst as [Hev _]. by rewrite (ev_ports _ _ _ _ _ Hev).
Qed.

Lemma Detach_changes s σ r σ' : Detach_ovs s σ = (r, σ') → tidy_net (vw σ) → shrinks (vw σ) (vw σ').
Proof. intros E Ht. exact (Detach_shrinks (AN := here (vw σ)) s _ _ _ E (ready_here _ Ht) I). Qed.
Lemma DetachPodPorts_changes pod ns σ r σ' :
  DetachPodPorts_ovs pod ns σ = (r, σ') → tidy_net (vw σ) → shrinks (vw σ) (vw σ').
Proof. intros E Ht. exact (DetachPodPorts_shrinks (AN := here (vw σ)) pod ns _ _ _ E (ready_here _ Ht) I). Qed.

Lemma shrinks_plugged n n' c i : shrinks n n' → wf_net n → plugged_net n' (vh c i) → plugged_net n (vh c i).
Proof. rewrite !plugged_vh. intros Hs Hwf [Hp Hm]. split; [by eapply sh_ports|by eapply sh_moved]. Qed.

Lemma ovs_attacher_contract : AttacherLaws (ovsAttacher W).
Proof.
  split; unfold nic_live, spec_key; simpl.
  - intros σ s e σ' Ht (r & E)%run_step_inv. eapply tidy_stays; [by eapply Attach_stays|done].
  - intros σ s e σ' Ht (r & E)%run_step_inv. eapply shrinks_tidy; [by eapply Detach_changes|done].
  - intros σ pod ns e σ' Ht (r & E)%run_step_inv. eapply shrinks_tidy; [by eapply DetachPodPorts_changes|done].
  - intros σ s Ht [Hin (ids & Hids & _)]. apply plugged_vh. split; [by rewrite Hids|by apply inside_moved].
  - intros σ s σ' Ht E%run_step_ok. by eapply Attach_plugs.
  - intros σ s e σ' t Ht (r & E)%run_step_inv Hc [Hin Hb]. destruct (Attach_keeps _ t _ _ _ E Ht Hc) as (? & ? & _). auto.
  - intros σ s e σ' t Ht (r & E)%run_step_inv Hc. by eapply Attach_keeps.
  - intros σ s e σ' c i Ht (r & E)%run_step_inv Hk. by eapply Attach_other.
  - intros σ s σ' Ht E%run_step_ok [[? H] _]%plugged_vh.
    destruct (Detach_ok (AN := here (vw σ)) s σ σ' E (ready_here _ Ht)) as (_ & Hp & _). congruence.
  - intros σ s e σ' c i Ht (r & E)%run_step_inv. apply shrinks_plugged; [by eapply Detach_changes|by destruct Ht].
  - intros σ pod ns e σ' c i Ht (r & E)%run_step_inv.
    apply shrinks_plugged; [by eapply DetachPodPorts_changes|by destruct Ht].
Qed.

(** C4: given what the kernel and Open vSwitch promise, the attacher keeps the contract
    that the sandbox's events rely on. A successful Attach of a NIC whose interface name is
    free in its sandbox, or its own already, puts the NIC in its place: one end of its veth
    pair is in that sandbox under the interface name (a VM's NIC has it on its tap), the
    other is on the host as a port of br-int with the NIC's iface-id. An Attach, also one
    that fails, leaves the NICs it shares no names with in their place and their names
    free; a successful Detach takes the NIC's port, and no kind of detach plugs anything. *)
Theorem ovs_attacher_laws : AttacherLaws (ovsAttacher W).
Proof. apply ovs_attacher_contract. Qed.

(** ** What a Detach removes *)

Definition keeps_servers {A} (m : M A) : Prop := ∀ σ r σ', m σ = (r, σ') → dhcpServers σ' = dhcpServers σ.

Lemma keeps_bind {A B} (m : M A) (f : A → M B) : keeps_servers m → (∀ a, keeps_servers (f a)) → keeps_servers (m ≫= f).
Proof.
  intros Hm Hf σ r σ' E. unfold mbind, M_bind in E. destruct (m σ) as [[a|e|] σ1] eqn:Em; [|by injection E as _ <-; eapply Hm..].
  rewrite (Hf _ _ _ _ E). by eapply Hm.
Qed.
Lemma keeps_wrap {A} fmt args (m : M A) : keeps_servers m → keeps_servers (wrap fmt args m).
Proof. intros Hm σ r σ' E. unfold wrap in E. destruct (m σ) as [[a|e|] σ1] eqn:Em; injection E as _ <-; by eapply Hm. Qed.
Lemma keeps_attempt {A} (m : M A) : keeps_servers m → keeps_servers (attempt m).
Proof. intros Hm σ r σ' E. unfold attempt in E. destruct (m σ) as [[a|e|] σ1] eqn:Em; injection E as _ <-; by eapply Hm. Qed.
Lemma keeps_kernel {A} (f : W → result A * W) : keeps_servers (kernel f).
Proof. intros σ r σ' E. unfold kernel in E. destruct (f _). by injection E as _ <-. Qed.
Lemma keeps_exec cmd args : keeps_servers (exec cmd args).
Proof. intros σ r σ' E. unfold exec in E. destruct (Exec _ _ _). by injection E as _ <-. Qed.
Lemma keeps_ret {A} (a : A) : keeps_servers (mret a).
Proof. by intros σ r σ' [= _ <-]. Qed.
Lemma keeps_fail {A} e : keeps_servers (fail e : M A).
Proof. by intros σ r σ' [= _ <-]. Qed.

Ltac keeps :=
  repeat match goal with
    | |- keeps_servers (_ ≫= _) => apply keeps_bind; [|intros ?]
    | |- keeps_servers (match ?x with _ => _ end) => destruct x
    | |- keeps_servers (when ?b _) => destruct b; simpl
    | |- keeps_servers (wrap _ _ _) => apply keeps_wrap
    | |- keeps_servers (attempt _) => apply keeps_attempt
    | |- keeps_servers _ => first [apply keeps_kernel | apply keeps_exec | apply keeps_ret | apply keeps_fail]
    end.

Lemma unwire_stops s σ σ' :
  unwireVMIBridge s σ = (Ret (), σ') → dhcpServers σ' !! (NetnsPath s, bridgeNameFor (IfaceName s)) = None.
Proof.
  unfold unwireVMIBridge. cbv zeta. intros E.
  match type of E with (?m ≫= ?f) σ = _ => assert (∀ a, keeps_servers (f a)) as Hf end.
  { intros []. unfold open_handle, request. keeps. }
  apply bind_ret in E as ([] & σ1 & Es & E). rewrite (Hf () _ _ _ E). unfold wrap in Es.
  destruct (stop_server _ _ σ) as [[[]|e|] σ2] eqn:Es'; [|done..]. injection Es as ->. rename Es' into Es.
  unfold stop_server, stopVMIDHCPServer in Es. destruct (_ !! _).
  - destruct (as_step _ σ) as [e σ2]. injection Es as _ <-. apply lookup_delete_eq.
  - injection Es as <-. apply lookup_delete_eq.
Qed.

(** C26: after a successful Detach the NIC has no port on any bridge, and a VM's NIC has no
    DHCP server; it has no host end either, unless the lookup of the host end, the last
    call to the kernel, failed for another reason than that the link is not found. *)
Theorem Detach_clears s σ σ' :
  tidy_net (vw σ) → Detach_ovs s σ = (Ret (), σ') →
  let k := vh (ContainerID s) (IfaceName s) in
  ports (vw σ') !! k = None ∧
  (¬ named (vw σ') (home (vw σ)) k ∨
   ∃ w e, LinkByName None k w = (Err e, kern σ') ∧ LinkNotFound e = false) ∧
  (KubeVirtVMI s = true → dhcpServers σ' !! (NetnsPath s, bridgeNameFor (IfaceName s)) = None).
Proof.
  intros Ht E k. destruct (Detach_ok (AN := here (vw σ)) s σ σ' E (ready_here _ Ht)) as (_ & Hp & Hn).
  split_and!; [done..|]. intros Hk. unfold Detach_ovs in E. rewrite Hk in E. simpl in E.
  match type of E with (?m ≫= ?f) σ = _ => assert (∀ a, keeps_servers (f a)) as Hf end.
  { intros []. apply keeps_bind; [by intros ? ? ? [= _ <-]|]. intros [host pod].
    unfold detachFromOVS, ovsVsctl, cleanupHostVeth, request. keeps. }
  apply bind_ret in E as ([] & σ1 & Eu & E). rewrite (Hf () _ _ _ E). by eapply unwire_stops.
Qed.

End contract.
