(* ===== verification/Platform.v ===== *)
(** * Linux and other systems (pkg/plumbing/plumbing.go, plumbing_linux.go, plumbing_nolinux.go)

    Attach and Detach are the same on all systems; their steps are those of
    plumbing_linux.go, which [Attach] models, or the stubs of plumbing_nolinux.go. *)

From S2P Require Import Prelude Store StoreInv Kernel Dhcp Attach Sandbox AttachProps.

Definition ErrNotImplemented : error := Errorf "plumbing: not implemented yet" [].

(** The steps that depend on the system. *)
Record Platform (W : Type) := {
  p_createVethPair : string → string → Z → M (W := W) ();
  p_moveIntoNetns : string → string → string → M (W := W) ();
  p_configurePodIface : Spec → M (W := W) ();
  p_attachToOVS : string → Spec → M (W := W) ();
  p_detachFromOVS : string → M (W := W) ();
  p_cleanupHostVeth : string → M (W := W) ();
  p_wireVMIBridge : Spec → M (W := W) ();
  p_unwireVMIBridge : Spec → M (W := W) ();
  p_ensureVMIDHCPServer : Spec → string → M (W := W) ();
  p_stopVMIDHCPServer : string → string → M (W := W) ();
  p_DetachPodPorts : string → string → M (W := W) ();
  p_primaryMTU : string → M (W := W) Z;
}.
Arguments p_createVethPair {W}. Arguments p_moveIntoNetns {W}. Arguments p_configurePodIface {W}.
Arguments p_attachToOVS {W}. Arguments p_detachFromOVS {W}. Arguments p_cleanupHostVeth {W}.
Arguments p_wireVMIBridge {W}. Arguments p_unwireVMIBridge {W}. Arguments p_ensureVMIDHCPServer {W}.
Arguments p_stopVMIDHCPServer {W}. Arguments p_DetachPodPorts {W}.
Arguments p_primaryMTU {W}.

(** A new attacher serves no DHCP client. *)
Definition NewOVSAttacher {W} (w : W) : ovsAttacher W := {| kern := w; dhcpServers := ∅ |}.

(** ** Attach and Detach *)

Section platform.
Context {W : Type} (p : Platform W).

Definition Attach_on (spec : Spec) : M (W := W) () :=
  match Validate spec with
  | Some e => fail e
  | None =>
      '(hostVeth, podVeth) ← of_names spec;
      mtu ← (if (MTU spec =? 0)%Z then p_primaryMTU p (NetnsPath spec) else mret (MTU spec));
      let spec := with_mtu spec mtu in
      _ ← p_createVethPair p hostVeth podVeth (MTU spec);
      _ ← or_else (p_moveIntoNetns p podVeth (NetnsPath spec) (IfaceName spec)) (p_cleanupHostVeth p hostVeth);
      _ ← or_else (p_configurePodIface p spec) (p_cleanupHostVeth p hostVeth);
      _ ← or_else (p_attachToOVS p hostVeth spec) (p_cleanupHostVeth p hostVeth);
      when (KubeVirtVMI spec)
        (or_else (p_wireVMIBridge p spec) (_ ← ignore (p_detachFromOVS p hostVeth); p_cleanupHostVeth p hostVeth))
  end.

Definition Detach_on (spec : Spec) : M (W := W) () :=
  _ ← when (KubeVirtVMI spec) (p_unwireVMIBridge p spec);
  '(hostVeth, _) ← of_names spec;
  _ ← p_detachFromOVS p hostVeth;
  p_cleanupHostVeth p hostVeth.

Definition attacher_on : Attacher (ovsAttacher W) := {|
  Attach σ s := run_step (Attach_on s) σ;
  Detach σ s := run_step (Detach_on s) σ;
  DetachPodPorts σ pod ns := run_step (p_DetachPodPorts p pod ns) σ;
|}.
End platform.

(** ** The systems *)

Definition linux {W} `{KE : Kernel W} `{DH : Dhcp4} : Platform W := {|
  p_createVethPair := createVethPair;
  p_moveIntoNetns := moveIntoNetns;
  p_configurePodIface := configurePodIface;
  p_attachToOVS := attachToOVS;
  p_detachFromOVS := detachFromOVS;
  p_cleanupHostVeth := cleanupHostVeth;
  p_wireVMIBridge := wireVMIBridge;
  p_unwireVMIBridge := unwireVMIBridge;
  p_ensureVMIDHCPServer := ensure_server;
  p_stopVMIDHCPServer := stop_server;
  p_DetachPodPorts := DetachPodPorts_ovs;
  p_primaryMTU := primaryMTU;
|}.

(** The stubs: nothing is done, and everything but the MTU is an error. *)
Definition nolinux (W : Type) : Platform W := {|
  p_createVethPair _ _ _ := fail ErrNotImplemented;
  p_moveIntoNetns _ _ _ := fail ErrNotImplemented;
  p_configurePodIface _ := fail ErrNotImplemented;
  p_attachToOVS _ _ := fail ErrNotImplemented;
  p_detachFromOVS _ := fail ErrNotImplemented;
  p_cleanupHostVeth _ := fail ErrNotImplemented;
  p_wireVMIBridge _ := fail ErrNotImplemented;
  p_unwireVMIBridge _ := fail ErrNotImplemented;
  p_ensureVMIDHCPServer _ _ := fail ErrNotImplemented;
  p_stopVMIDHCPServer _ _ := fail ErrNotImplemented;
  p_DetachPodPorts _ _ := fail ErrNotImplemented;
  p_primaryMTU _ := mret 0%Z;
|}.

Lemma linux_attacher {W} `{KE : Kernel W} `{DH : Dhcp4} : attacher_on linux = ovs_attacher (W := W).
Proof. reflexivity. Qed.

(** ** Other systems *)

Section nolinux.
Context {W : Type}.
Implicit Types σ : ovsAttacher W.
#[local] Instance elsewhere : Attacher (ovsAttacher W) := attacher_on (nolinux W).

Lemma Attach_elsewhere s σ : ∃ e, Attach σ s = (Some e, σ).
Proof.
  simpl. unfold run_step, Attach_on. destruct (Validate s) as [e|]; [by exists e|]. unfold of_names, mbind, M_bind.
  destruct (vethNames s) as [[host pod]|e]; simpl; [|by exists e]. destruct (_ =? 0)%Z; simpl; eauto.
Qed.

Lemma Detach_elsewhere s σ : ∃ e, Detach σ s = (Some e, σ).
Proof.
  simpl. unfold run_step, Detach_on, of_names, mbind, M_bind. destruct (KubeVirtVMI s); simpl; [eauto|].
  destruct (vethNames s) as [[host pod]|e]; simpl; eauto.
Qed.

Lemma detach_all_elsewhere specs σ : (detach_all specs σ).2 = σ.
Proof.
  induction specs as [|s specs IH]; [done|]. cbn [detach_all]. destruct (Detach_elsewhere s σ) as [e ->].
  by destruct (detach_all specs σ).
Qed.

(** On a system other than Linux a sandbox starts exactly when its pod has no NIC, and
    neither a start, a synchronization nor a stop changes anything on the node. *)
Theorem nolinux_refuses store σ uid cid netns labels pod ns :
  ((OnRunPodSandbox store σ uid cid netns labels).1.1 = None ↔ Specs store uid = []) ∧
  (OnRunPodSandbox store σ uid cid netns labels).2 = σ ∧
  (OnSynchronizeSandbox store σ uid cid netns labels).2 = σ ∧
  (OnStopPodSandbox store σ uid pod ns).2 = σ ∧ (OnStopPodSandbox store σ uid pod ns).1.1 ≠ None.
Proof.
  assert (∀ specs store, (sync_specs uid specs store σ).2 = σ) as Hsync.
  { induction specs as [|s specs IH]; intros st; [done|]. cbn [sync_specs]. destruct (Attach_elsewhere s σ) as [e ->].
    specialize (IH st). by destruct (sync_specs _ _ _ _) as [[? ?] ?]. }
  split_and!.
  - unfold OnRunPodSandbox, sandboxSpecs. destruct (Specs store uid) as [|s specs]; [done|]. cbn [fmap list_fmap run_specs].
    match goal with |- context [Attach σ ?t] => destruct (Attach_elsewhere t σ) as [e ->] end.
    destruct (TakeAttached _ _) as [taken st]. destruct (detach_all taken σ) as [errs σ'].
    split; [|done]. intros H. by apply (errors_join_Some_None (e :: errs)) in H.
  - unfold OnRunPodSandbox, sandboxSpecs. destruct (Specs store uid) as [|s specs]; [done|]. cbn [fmap list_fmap run_specs].
    match goal with |- context [Attach σ ?t] => destruct (Attach_elsewhere t σ) as [e ->] end.
    destruct (TakeAttached _ _) as [taken st]. pose proof (detach_all_elsewhere taken σ) as H.
    by destruct (detach_all taken σ) as [errs σ'].
  - unfold OnSynchronizeSandbox. pose proof (Hsync (sandboxSpecs store uid cid netns labels) store) as H.
    by destruct (sync_specs _ _ _ _) as [[? ?] ?].
  - unfold OnStopPodSandbox. destruct (TakeAttached _ _) as [taken st]. pose proof (detach_all_elsewhere taken σ) as H.
    destruct (detach_all taken σ) as [errs σ']. simpl in H. subst σ'. done.
  - unfold OnStopPodSandbox. destruct (TakeAttached _ _) as [taken st]. pose proof (detach_all_elsewhere taken σ) as H.
    destruct (detach_all taken σ) as [errs σ']. simpl in H. subst σ'. simpl.
    intros H%errors_join_Some_None. by apply app_nil in H as [_ ?].
Qed.

End nolinux.
