(* ===== verification/AttachTrace.v ===== *)
(** * What every run of the attacher does

    [always R m]: the relation [R] holds between the node before [m], whether [m] panics,
    and the node after it.  Two such relations are shown of Attach: no default route is
    added to a sandbox, and only the DHCP options of a VM's NIC can make it panic. *)

From S2P Require Import Prelude Netip Store Kernel Dhcp Attach NetShape AttachLogic.

Section traces.
Context {W : Type} `{KE : Kernel W} {KL : KernelLaws W} `{DH : Dhcp4}.
Abbreviation net := (Net NsId LinkId).
Implicit Types (n : net) (σ : ovsAttacher W).

(** A relation that is closed under sequences and reads, and one that is closed under all
    requests but added routes. *)
Class Trace (R : net → bool → net → Prop) : Prop := {
  t_same n n' : links n' = links n → R n false n';
  t_trans n1 n2 n3 a b : R n1 a n2 → R n2 b n3 → R n1 (a || b) n3;
}.
Class Requests (R : net → bool → net → Prop) : Prop := {
  t_request r n n' : (∀ l dst gw, r ≠ RouteAdd l dst gw) → effect r n n' → R n false n';
}.

Definition panicked {A} (r : outcome A) : bool := match r with Panic => true | _ => false end.

Definition always {A} (R : net → bool → net → Prop) (m : M A) : Prop :=
  ∀ σ r σ', m σ = (r, σ') → R (vw σ) (panicked r) (vw σ').

Context {R : net → bool → net → Prop} `{!Trace R}.

Lemma always_ret {A} (a : A) : always R (mret a).
Proof. intros σ r σ' [= <- <-]. by apply t_same. Qed.
Lemma always_fail {A} e : always R (fail e : M A).
Proof. intros σ r σ' [= <- <-]. by apply t_same. Qed.

Lemma always_bind {A B} (m : M A) (f : A → M B) : always R m → (∀ a, always R (f a)) → always R (m ≫= f).
Proof.
  intros Hm Hf σ r σ' E. unfold mbind, M_bind in E. destruct (m σ) as [x σ1] eqn:Em. pose proof (Hm _ _ _ Em) as H1.
  destruct x as [a|e|]; simpl in H1; [|by injection E as <- <-..].
  exact (t_trans _ _ _ false _ H1 (Hf a _ _ _ E)).
Qed.

Lemma always_wrap {A} fmt args (m : M A) : always R m → always R (wrap fmt args m).
Proof.
  intros Hm σ r σ' E. unfold wrap in E. destruct (m σ) as [x σ1] eqn:Em. pose proof (Hm _ _ _ Em).
  destruct x; by injection E as <- <-.
Qed.
Lemma always_attempt {A} (m : M A) : always R m → always R (attempt m).
Proof.
  intros Hm σ r σ' E. unfold attempt in E. destruct (m σ) as [x σ1] eqn:Em. pose proof (Hm _ _ _ Em).
  destruct x; by injection E as <- <-.
Qed.
Lemma always_ignore {A} (m : M A) : always R m → always R (ignore m).
Proof. intros Hm. apply always_bind; [by apply always_attempt|]. intros a. apply always_ret. Qed.
Lemma always_when b (m : M ()) : always R m → always R (when b m).
Proof. destruct b; [done|]. intros _. apply always_ret. Qed.
Lemma always_or_else {A} (m : M A) c : always R m → always R c → always R (or_else m c).
Proof.
  intros Hm Hc σ r σ' E. unfold or_else in E. destruct (m σ) as [x σ1] eqn:Em. pose proof (Hm _ _ _ Em) as H1.
  destruct x as [a|e|]; simpl in H1; [by injection E as <- <-| |by injection E as <- <-].
  assert (always R (_ ← ignore c; fail (A := A) e)) as H2
    by (apply always_bind; [by apply always_ignore|intros _; apply always_fail]).
  exact (t_trans _ _ _ false _ H1 (H2 _ _ _ E)).
Qed.

Lemma always_read {A} (f : W → result A * W) :
  (∀ w r w', f w = (r, w') → links (view w') = links (view w)) → always R (kernel f).
Proof.
  intros Hf σ r σ' E. unfold kernel in E. destruct (f (kern σ)) as [x w] eqn:Ef. apply Hf in Ef.
  destruct x; injection E as <- <-; by apply t_same.
Qed.
Lemma always_exec cmd args :
  (∀ w o e w', Exec cmd args w = ((o, e), w') → links (view w') = links (view w)) → always R (exec cmd args).
Proof.
  intros Hf σ r σ' E. unfold exec in E. destruct (Exec cmd args (kern σ)) as [[o e] w] eqn:Ee. apply Hf in Ee.
  injection E as <- <-. by apply t_same.
Qed.
Lemma always_request_route r : (∀ n n', effect r n n' → R n false n') → always R (request r).
Proof.
  intros Hr σ x σ' E. unfold request, kernel in E. destruct (Netlink r (kern σ)) as [y w] eqn:En.
  destruct y as [[]|e]; injection E as <- <-; [apply request_ok in En; by apply Hr|].
  apply t_same. unfold vw. simpl. by rewrite (request_err _ _ _ _ En).
Qed.
Lemma always_request `{!Requests R} r : (∀ l dst gw, r ≠ RouteAdd l dst gw) → always R (request r).
Proof. intros Hr. apply always_request_route. intros n n'. by apply t_request. Qed.

Lemma always_unless_exists fmt args r : always R (request r) → always R (unless_exists fmt args r).
Proof.
  intros H. apply always_bind; [by apply always_attempt|]. intros [x|e]; [apply always_ret|].
  destruct (isExists e); [apply always_ret|apply always_fail].
Qed.

Lemma always_path p : always R (kernel (GetFromPath p)).
Proof. apply always_read. by intros w r w' [-> _]%path_view. Qed.
Lemma always_handle ns : always R (kernel (NewHandleAt ns)).
Proof. apply always_read. by intros w r w' ->%handle_view. Qed.
Lemma always_lookup o name : always R (kernel (LinkByName o name)).
Proof. apply always_read. by intros w r w' ->%lookup_view. Qed.
Lemma always_listen i : always R (kernel (Listen i)).
Proof. apply always_read. by intros w r w' ->%listen_view. Qed.

Lemma always_set ns : always R (kernel (NsSet ns)).
Proof. apply always_read. intros w r w' ->%set_view. by destruct (is_ok r). Qed.

(** The thread's way into a namespace and back. *)
Lemma always_in_netns {A} ns (body : M A) : always R body → always R (in_netns ns body).
Proof.
  intros Hb. unfold in_netns. apply always_bind.
  { apply always_wrap, always_read. by intros w r w' [-> _]%get_view. }
  intros o σ r σ' (σ1 & E & ->)%finally_inv.
  assert (R (vw σ) (panicked r) (vw σ1)) as H1.
  { match goal with E : ?m σ = _ |- _ => assert (always R m) as Hm; [|by apply Hm] end.
    apply always_bind; [apply always_wrap, always_set|done]. }
  destruct (kernel (NsSet o) σ1) as [x σ2] eqn:Es. simpl.
  assert (panicked x = false) as Hx by (unfold kernel in Es; destruct (NsSet _ _) as [[]]; by injection Es as <- _).
  pose proof (t_trans _ _ _ _ _ H1 (always_set _ _ _ _ Es)) as H. by rewrite Hx, orb_false_r in H.
Qed.

End traces.

(** ** Automation *)

Create HintDb trace.
#[export] Hint Resolve always_ret always_fail always_path always_handle always_lookup always_listen : trace.
#[export] Hint Extern 0 (Trace _) => apply _ : trace.
#[export] Hint Extern 0 (Requests _) => apply _ : trace.

(** Runs through a step; what remains is added routes, commands and the DHCP server. *)
Ltac trace :=
  repeat match goal with
    | |- always _ (_ ≫= _) => apply always_bind; [|intros ?]
    | |- always _ (match ?x with _ => _ end) => destruct x
    | |- always _ (if ?x then _ else _) => destruct x
    | |- always _ (let _ := _ in _) => cbv zeta
    | |- always _ (wrap _ _ _) => apply always_wrap
    | |- always _ (attempt _) => apply always_attempt
    | |- always _ (ignore _) => apply always_ignore
    | |- always _ (when _ _) => apply always_when
    | |- always _ (or_else _ _) => apply always_or_else
    | |- always _ (unless_exists _ _ _) => apply always_unless_exists
    | |- always _ (in_netns _ _) => apply always_in_netns
    | |- always _ (request _) => apply always_request; done
    | |- always _ _ => solve [eauto with trace]
    end.

(** A panic only with [φ]. *)
Definition panics_if (φ : Prop) {Ns Id} (n : Net Ns Id) (b : bool) (n' : Net Ns Id) : Prop := b = true → φ.

#[export] Instance panics_if_trace φ {W} `{KE : Kernel W} {KL : KernelLaws W} : Trace (panics_if φ).
Proof. split; unfold panics_if; [done|]. intros _ _ _ [|] b; auto. Qed.
#[export] Instance panics_if_requests φ {W} `{KE : Kernel W} {KL : KernelLaws W} : Requests (panics_if φ).
Proof. by split. Qed.

Lemma listener_returns {W} `{KE : Kernel W} {KL : KernelLaws W} path name : always (panics_if False) (newNetnsUDP4FilterListener path name).
Proof. unfold newNetnsUDP4FilterListener, open_netns. trace. Qed.

Section attach.
Context {W : Type} `{KE : Kernel W} {KL : KernelLaws W} `{DH : Dhcp4}.
Abbreviation net := (Net NsId LinkId).
Implicit Types (n : net) (σ : ovsAttacher W).
Context {R : net → bool → net → Prop} `{!Trace R, !Requests R}.

Lemma always_add_port bridge port spec : always R (exec "ovs-vsctl" (add_port_args bridge port (port_ids spec))).
Proof. apply always_exec. intros w o e w' H. by apply exec_add in H as [-> | [_ ->]]; [..|apply port_ids_plain]. Qed.
Lemma always_del_port bridge port : always R (exec "ovs-vsctl" (del_port_args bridge port)).
Proof. apply always_exec. by intros w o e w' [-> | [_ ->]]%exec_del. Qed.
Lemma always_bridge args : always R (exec "bridge" args).
Proof. apply always_exec. by intros w o e w' ->%exec_bridge. Qed.
#[local] Hint Resolve always_add_port always_del_port always_bridge : trace.

Lemma always_addresses spec id addresses : always R (add_addresses spec id addresses).
Proof. induction addresses; simpl; trace. Qed.

Lemma always_routes spec id routes :
  (∀ r dst gw, r ∈ routes → Route_parse r (Gateway spec) = Ok (dst, gw) → always R (request (RouteAdd id dst gw))) →
  always R (add_routes spec id routes).
Proof.
  intros H. induction routes as [|r routes IH]; simpl; [trace|].
  destruct (Route_parse r (Gateway spec)) as [[dst gw]|] eqn:Er; [|trace].
  apply always_bind; [apply always_unless_exists; eapply H; [left|done]|]. intros _. apply IH.
  intros r' dst' gw' Hin. apply H. by right.
Qed.

(** Attach, up to its routes and its DHCP server. *)
Lemma always_Attach spec :
  (∀ id r dst gw, r ∈ Routes spec → Route_parse r (Gateway spec) = Ok (dst, gw) → always R (request (RouteAdd id dst gw))) →
  (∀ mtu bridge, KubeVirtVMI spec = true → always R (ensure_server (with_mtu spec mtu) bridge)) →
  always R (Attach_ovs spec).
Proof.
  intros Hroutes Hserver. unfold Attach_ovs. destruct (Validate spec); [trace|].
  apply always_bind; [intros σ r σ' [= <- <-]; destruct (vethNames spec); by apply t_same|]. intros [host pod].
  apply always_bind; [unfold primaryMTU; trace|]. intros mtu. cbv zeta.
  assert (always R (cleanupHostVeth host)) as Hcl by (unfold cleanupHostVeth; trace).
  apply always_bind; [unfold createVethPair; trace|]. intros _.
  apply always_bind; [unfold moveIntoNetns, open_netns, open_handle; trace|]. intros _.
  apply always_bind.
  { apply always_or_else; [|done]. unfold configurePodIface, set_spec_mac, open_netns, open_handle. trace;
      [apply always_addresses..|by apply always_routes; eauto]. }
  intros _. apply always_bind; [unfold attachToOVS, ovsVsctl; trace|]. intros _.
  destruct (KubeVirtVMI (with_mtu spec mtu)) eqn:Hk; [|apply always_ret].
  apply always_or_else; [|unfold detachFromOVS, ovsVsctl; trace].
  unfold wireVMIBridge, addTuntapInNetns, bridgeFdbReplaceStatic, set_spec_mac, open_netns, open_handle.
  trace; by apply Hserver.
Qed.

(** The DHCP server panics before it changes anything. *)
Lemma always_ensure_server spec bridge :
  ((∃ mask, vmiDHCPOptions spec mask = None) → OVNDHCP spec = false → ∀ n, R n true n) →
  always R (ensure_server spec bridge).
Proof.
  intros HR σ r σ' E. unfold ensure_server, ensureVMIDHCPServer in E.
  assert (always R (newNetnsUDP4FilterListener (NetnsPath spec) bridge)) as Hl
    by (unfold newNetnsUDP4FilterListener, open_netns; trace).
  assert (∀ σ1 e, as_step (newNetnsUDP4FilterListener (NetnsPath spec) bridge) σ = (e, σ1) → R (vw σ) false (vw σ1)) as Hs.
  { intros σ1 e El. unfold as_step in El. destruct (newNetnsUDP4FilterListener _ _ σ) as [x σ2] eqn:Ex.
    pose proof (Hl _ _ _ Ex) as H. assert (panicked x = false) as Hx by (apply not_true_is_false; by eapply listener_returns).
    rewrite Hx in H. destruct x; by injection El as <- <-. }
  assert (R (vw σ) false (vw σ)) as Hid by (by apply t_same).
  destruct (OVNDHCP spec) eqn:Ho; [by injection E as <- <-|].
  destruct (_ !! _); [by injection E as <- <-|].
  destruct (ParseCIDR _) as [[ip n]|]; [|by injection E as <- <-].
  destruct (To4 ip); [|by injection E as <- <-].
  destruct (ParseMAC _); [|by injection E as <- <-].
  destruct (vmiDHCPOptions _ _) as [[o|e]|] eqn:Ev; simpl in E; [|by injection E as <- <-|].
  - destruct (as_step _ σ) as [[e|] σ1] eqn:Ea; injection E as <- <-; by apply (Hs _ _ eq_refl).
  - injection E as <- <-. apply HR; eauto.
Qed.

End attach.

(** ** No default route *)

Section default.
Context {W : Type} `{KE : Kernel W} {KL : KernelLaws W} `{DH : Dhcp4}.
Abbreviation net := (Net NsId LinkId).
Implicit Types (n : net) (σ : ovsAttacher W).

(** Every route of a link to one of the destinations [φ] was there before, in the link's
    namespace. *)
Definition no_new (φ : IPNet → Prop) n (_ : bool) n' : Prop :=
  ∀ x s' dst gw, links n' x = Some s' → (dst, gw) ∈ ls_routes s' → φ dst →
  ∃ s, links n x = Some s ∧ ls_ns s = ls_ns s' ∧ (dst, gw) ∈ ls_routes s.

Section new.
Context (φ : IPNet → Prop).

Lemma changed_no_new n n' l f b :
  (∀ s dst gw, (dst, gw) ∈ ls_routes (f s) → φ dst → ls_ns s = ls_ns (f s) ∧ (dst, gw) ∈ ls_routes s) →
  changed n n' l f → no_new φ n b n'.
Proof.
  intros Hf (_ & [s Hs] & Hl & Hx) x s' dst gw Hs' Hin H0. destruct (decide (x = l)) as [->|Hne]; [|rewrite Hx in Hs'; eauto].
  rewrite Hl, Hs in Hs'. injection Hs' as <-. destruct (Hf _ _ _ Hin H0). eauto.
Qed.

Lemma created_no_new n n' ns name type b : one_created n n' ns name type → no_new φ n b n'.
Proof.
  intros (_ & id & s & _ & (_ & _ & _ & _ & _ & _ & Hr & _) & _ & Hid & Hx) x s' dst gw Hs' Hin H0.
  destruct (decide (x = id)) as [->|Hne]; [|rewrite Hx in Hs'; eauto].
  rewrite Hid in Hs'. injection Hs' as <-. rewrite Hr in Hin. by apply not_elem_of_nil in Hin.
Qed.

Lemma veth_no_new n n' a b mtu c : effect (LinkAddVeth a b mtu) n n' → no_new φ n c n'.
Proof.
  intros (_ & _ & _ & i & j & s & t & _ & _ & _ & (_ & _ & _ & _ & _ & _ & Hi & _) & (_ & _ & _ & _ & _ & _ & Hj & _)
    & _ & Li & Lj & Hx) x s' dst gw Hs' Hin H0.
  destruct (decide (x = i)) as [->|Hxi].
  { rewrite Li in Hs'. injection Hs' as <-. rewrite Hi in Hin. by apply not_elem_of_nil in Hin. }
  destruct (decide (x = j)) as [->|Hxj]; [|rewrite Hx in Hs'; eauto].
  rewrite Lj in Hs'. injection Hs' as <-. rewrite Hj in Hin. by apply not_elem_of_nil in Hin.
Qed.

Lemma del_no_new n n' l b : effect (LinkDel l) n n' → no_new φ n b n'.
Proof.
  intros (_ & s & Hs & Hl & Hp & Hx) x s' dst gw Hs' Hin H0.
  destruct (decide (x = l)) as [->|Hne]; [congruence|].
  destruct (decide (ls_peer s = Some x)) as [Hpx|Hnp]; [rewrite Hp in Hs'; congruence|].
  destruct (Hx x Hne Hnp) as [E|E]; rewrite E in Hs'; [eauto|].
  destruct (links n x) as [t|]; [|done]. injection Hs' as <-. eauto.
Qed.

#[export] Instance no_new_trace : Trace (no_new φ).
Proof.
  split.
  - intros n n' E x s' dst gw. rewrite E. eauto.
  - intros n1 n2 n3 a b H1 H2 x s' dst gw Hs Hin H0. destruct (H2 _ _ _ _ Hs Hin H0) as (s & Hs2 & <- & Hin2). by eapply H1.
Qed.
#[export] Instance no_new_requests : Requests (no_new φ).
Proof.
  split. intros r n n' Hr He. destruct r; simpl in He;
    try (destruct He as [He' _]; eapply changed_no_new; [|exact He']; by intros s ? ?);
    try (eapply changed_no_new; [|exact He]; by intros s ? ?);
    try (by eapply created_no_new).
  - exact (veth_no_new n n' name peer mtu false He).
  - eapply changed_no_new; [|exact He]. by intros s dst gw ?%not_elem_of_nil.
  - destruct He as [He _]. eapply changed_no_new; [|exact He]. by intros s dst gw ?%not_elem_of_nil.
  - by eapply del_no_new.
  - by destruct (Hr l dst gw).
Qed.
End new.

(** C25: however Attach ends, every default route on the node was there before it, on the
    same link: a secondary NIC never takes the default route of its pod. *)
Theorem Attach_no_default s σ r σ' x t dst gw :
  Attach_ovs s σ = (r, σ') → links (vw σ') x = Some t → (dst, gw) ∈ ls_routes t → mask_ones dst = 0%Z →
  ∃ t0, links (vw σ) x = Some t0 ∧ (dst, gw) ∈ ls_routes t0.
Proof.
  intros E Ht Hin H0. assert (always (no_new (λ d, mask_ones d = 0%Z)) (Attach_ovs s)) as H.
  - apply always_Attach.
    + intros id rt d g _ (H1 & _)%Route_parse_inv. apply always_request_route. intros n n' He.
      eapply changed_no_new; [|exact He]. intros st d' g' Hin' Hd. apply list_elem_of_In in Hin' as [[= -> ->]|Hin']; [lia|].
      split; [done|]. by apply list_elem_of_In.
    + intros mtu bridge _. apply always_ensure_server. intros _ _ n y u d g Hu Hin' _. eauto.
  - destruct (H _ _ _ E _ _ _ _ Ht Hin H0) as (t0 & ? & _ & ?). eauto.
Qed.

(** C28: Attach panics only for a VM's NIC with its own DHCP server and a route whose IPv6
    destination lies in the IPv4-mapped block. *)
Theorem Attach_panics s σ σ' :
  Attach_ovs s σ = (Panic, σ') →
  KubeVirtVMI s = true ∧ OVNDHCP s = false ∧ ∃ rt, rt ∈ Routes s ∧ mapped_route (Gateway s) rt = true.
Proof.
  intros E. set (φ := KubeVirtVMI s = true ∧ OVNDHCP s = false ∧ classlessStaticRoutes (Routes s) (Gateway s) [] = None).
  assert (φ) as (Hk & Ho & Hc).
  { assert (always (panics_if φ) (Attach_ovs s)) as H; [|by apply (H _ _ _ E)].
    apply always_Attach.
    - intros id rt d g _ _. by apply always_request_route.
    - intros mtu bridge Hk. apply always_ensure_server. intros [mask Hm] Ho _ _. split_and!; [done..|].
      unfold vmiDHCPOptions in Hm. simpl in Hm.
      destruct (if decide (Gateway s = "") then _ else _); [|done]. by destruct (classlessStaticRoutes _ _ _). }
  split_and!; [done..|]. apply classlessStaticRoutes_panics in Hc as (pre & rt & post & -> & _ & Hr).
  exists rt. split; [set_solver|done].
Qed.

End default.
