(* ===== verification/AttachConfig.v ===== *)
(** * The NIC that a fresh Attach leaves

    When the node has no device for a NIC, a successful Attach of a pod's NIC leaves a veth
    pair: one end is up on the host and a port of br-int, the other is in the sandbox under
    the NIC's name, up and configured as the Spec says. *)

From S2P Require Import Prelude Netip Store Kernel Dhcp Attach NetShape AttachLogic Sandbox AttachProps AttachTrace.

Section config.
Context {W : Type} `{KE : Kernel W} {KL : KernelLaws W} `{DH : Dhcp4} {AN : Anchor NsId}.
Abbreviation net := (Net NsId LinkId).
Abbreviation link := (LinkState NsId LinkId).
Implicit Types (n : net) (σ : ovsAttacher W) (s t : link).

Definition place s : NsId * string * option LinkId := (ls_ns s, ls_name s, ls_peer s).

(** The links [x] and [y] are the two ends of a veth pair; [x] is at [a] with [Φ], and [y]
    on the host under [host] with [Ψ]. *)
Definition pair (x y : LinkId) (a : NsId * string) (host : string) (Φ Ψ : link → Prop) n : Prop :=
  x ≠ y ∧ (∃ s, links n x = Some s ∧ place s = (a, Some y) ∧ Φ s) ∧
  (∃ t, links n y = Some t ∧ place t = (hm, host, Some x) ∧ Ψ t).

Definition any : link → Prop := λ _, True.

Lemma pair_mono x y a host (Φ Φ' Ψ Ψ' : link → Prop) n :
  (∀ s, Φ s → Φ' s) → (∀ t, Ψ t → Ψ' t) → pair x y a host Φ Ψ n → pair x y a host Φ' Ψ' n.
Proof. intros HΦ HΨ (Hne & (s & ? & ? & ?) & (t & ? & ? & ?)). split; [done|]. split; eauto. Qed.

(** A change of one link, whatever it is. *)
Lemma pair_changed x y a host (Φ Φ' Ψ Ψ' : link → Prop) l f n n' :
  (∀ s, place (f s) = place s) →
  (∀ s, Φ s → l = x → Φ' (f s)) → (∀ s, Φ s → l ≠ x → Φ' s) →
  (∀ t, Ψ t → l = y → Ψ' (f t)) → (∀ t, Ψ t → l ≠ y → Ψ' t) →
  changed n n' l f → pair x y a host Φ Ψ n → pair x y a host Φ' Ψ' n'.
Proof.
  intros Hf H1 H2 H3 H4 (_ & _ & Hl & Hx) (Hne & (s & Hs & Ps & Hφ) & (t & Ht & Pt & Hψ)). split; [done|]. split.
  - destruct (decide (x = l)) as [->|Hxl].
    + exists (f s). rewrite Hl, Hs, Hf. eauto.
    + exists s. rewrite Hx by done. eauto.
  - destruct (decide (y = l)) as [->|Hyl].
    + exists (f t). rewrite Hl, Ht, Hf. eauto.
    + exists t. rewrite Hx by done. eauto.
Qed.

(** The link a lookup finds is the one of the pair. *)
Lemma found_pod x y ns nm host Φ Ψ n l s :
  ready n → pair x y (ns, nm) host Φ Ψ n → links n l = Some s → ls_ns s = ns → ls_name s = nm → l = x.
Proof.
  intros ((Hwf & _) & _) (_ & (s0 & Hs0 & [= <- <- Hp] & _) & _) Hs Hns Hnm.
  apply links_shape in Hs, Hs0. rewrite Hns, Hnm in Hs. by eapply (wf_unique _ Hwf).
Qed.
Lemma found_host x y a host Φ Ψ n l s :
  ready n → pair x y a host Φ Ψ n → links n l = Some s → ls_ns s = hm → ls_name s = host → l = y.
Proof.
  intros ((Hwf & _) & _) (_ & _ & (t & Ht & [= Hh Hn Hp] & _)) Hs Hns Hnm.
  apply links_shape in Hs, Ht. rewrite Hns, Hnm in Hs. rewrite Hh, Hn in Ht. by eapply (wf_unique _ Hwf).
Qed.

(** A request that configures an end of the pair, or some link. *)
Lemma ok_pod x y a host (Φ Φ' Ψ : link → Prop) r f :
  inert r = true → (∀ n n', effect r n n' → changed n n' x f) → (∀ s, place (f s) = place s) →
  (∀ s, Φ s → Φ' (f s)) → ok (pair x y a host Φ Ψ) (request r) (λ _, pair x y a host Φ' Ψ).
Proof.
  intros Hi Hc Hf HΦ. apply ok_request. intros n n' Hr HP He. split; [by eapply inert_ready|].
  eapply (pair_changed _ _ _ _ Φ Φ' Ψ Ψ x f n); eauto; [done|]. intros t _ ->. by destruct HP.
Qed.
Lemma ok_host x y a host (Φ Ψ Ψ' : link → Prop) r f :
  inert r = true → (∀ n n', effect r n n' → changed n n' y f) → (∀ s, place (f s) = place s) →
  (∀ t, Ψ t → Ψ' (f t)) → ok (pair x y a host Φ Ψ) (request r) (λ _, pair x y a host Φ Ψ').
Proof.
  intros Hi Hc Hf HΨ. apply ok_request. intros n n' Hr HP He. split; [by eapply inert_ready|].
  eapply (pair_changed _ _ _ _ Φ Φ Ψ Ψ' y f n); eauto; [|done]. intros t _ ->. by destruct HP.
Qed.
Lemma ok_some x y a host (Φ Ψ : link → Prop) r l f :
  inert r = true → (∀ n n', effect r n n' → changed n n' l f) → (∀ s, place (f s) = place s) →
  (∀ s, Φ s → Φ (f s)) → (∀ t, Ψ t → Ψ (f t)) → ok (pair x y a host Φ Ψ) (request r) (λ _, pair x y a host Φ Ψ).
Proof.
  intros Hi Hc Hf HΦ HΨ. apply ok_request. intros n n' Hr HP He. split; [by eapply inert_ready|].
  eapply (pair_changed _ _ _ _ Φ Φ Ψ Ψ l f n); eauto.
Qed.

Lemma ok_ignore {A} P (m : M A) : ok P m (λ _, P) →
  (∀ σ e σ', m σ = (Throw e, σ') → vw σ' = vw σ) → ok P (ignore m) (λ _, P).
Proof.
  intros Hm He σ a σ' E Hr HP. unfold ignore, mbind, M_bind, attempt in E.
  destruct (m σ) as [[x|e|] σ1] eqn:Em; [| |done]; injection E as _ <-; [by eapply Hm|]. by rewrite (He _ _ _ Em).
Qed.

Lemma request_failed r σ e σ' : request r σ = (Throw e, σ') → vw σ' = vw σ.
Proof.
  unfold request, kernel. destruct (Netlink r (kern σ)) as [[[]|x] w] eqn:En; [done|]. intros [= _ <-].
  by apply request_err in En.
Qed.

(** ** The host's end *)

Definition up s : Prop := ls_up s = true.
Definition veth s : Prop := ls_type s = "veth".
(** A link that came into a namespace: it has no addresses and no routes. *)
Definition blank s : Prop := veth s ∧ ls_addrs s = [] ∧ ls_routes s = [].

Lemma veth_pair c i mtu n n' :
  ready n → effect (LinkAddVeth (vh c i) (vc c i) mtu) n n' →
  ready n' ∧ ∃ x y, pair x y (hm, vc c i) (vh c i) veth any n'.
Proof.
  intros Hr He. split; [by eapply veth_names|]. destruct Hr as ((_ & _ & Hc) & _ & Hh).
  destruct He as (_ & _ & _ & y & x & t & s & Hne & _ & _ & (T1 & T2 & _ & T3 & _) & (S1 & S2 & S4 & S3 & _) & _ & Ht & Hs & _).
  exists x, y. split; [done|]. rewrite Hc, Hh in *. unfold place. split; [exists s|exists t]; split_and!; congruence || done.
Qed.

Lemma createVethPair_fresh c i mtu :
  ok (λ n, ¬ named n hm (vh c i)) (createVethPair (vh c i) (vc c i) mtu)
    (λ _ n, ∃ x y, pair x y (hm, vc c i) (vh c i) veth up n).
Proof.
  unfold createVethPair. eapply ok_bind; [apply ok_attempt_lookup|]. intros [l|e].
  { intros σ a σ' _ _ [Hn (s & Hs & Hns & Hnm & _)]. destruct Hn. exists (link_id l), s. done. }
  apply (ok_bind _ (λ _ n, ∃ x y, pair x y (hm, vc c i) (vh c i) veth any n)).
  { apply ok_wrap, ok_request. intros n n' Hr _. by apply veth_pair. }
  intros _. apply ok_exists. intros x. apply ok_exists. intros y.
  apply (ok_bind _ (λ hl n, pair x y (hm, vc c i) (vh c i) veth any n ∧ link_id hl = y)).
  { apply ok_wrap. intros σ l σ' E Hr HP. destruct (ok_lookup _ _ _ _ _ _ E Hr HP) as (Hr' & HP' & s & Hs & Hns & Hnm & _).
    split; [done|]. split; [done|]. by eapply found_host. }
  intros hl. apply ok_pure. intros ->.
  apply (ok_bind _ (λ _, pair x y (hm, vc c i) (vh c i) veth any)).
  { apply ok_when. eapply ok_bind; [apply ok_attempt_read, lookup_view|]. intros [p|]; [|by apply ok_ret].
    apply ok_ignore; [|apply request_failed]. by eapply (ok_some _ _ _ _ veth any _ (link_id p)); [|intros n n' He; exact He|..]. }
  intros _. apply ok_wrap. eapply ok_conseq; [done| |eapply (ok_host x y _ _ veth any up); [done|by intros n n' He; exact He|done..]].
  intros [] n H. by exists x, y.
Qed.

(** ** The sandbox's end *)

(** The sandbox has no interface of the name. *)
Definition vacant path iface n : Prop := ∀ ns, pth path = Some ns → ¬ named n ns iface.

Lemma createVethPair_vacant c i mtu path iface :
  ok (vacant path iface) (createVethPair (vh c i) (vc c i) mtu) (λ _, vacant path iface).
Proof.
  set (X := λ x, x = vh c i ∨ x = vc c i). apply (ok_guar (stays X nowhere none)).
  - apply (guar_conseq top); [done|]. apply createVethPair_guar; [by left|by right].
  - intros n n' (Ht & Hp & Hh) Hf [Hev _] ns Hns Hin. apply (Hf ns Hns).
    destruct Ht as (_ & [Hne _] & _). rewrite Hp in Hne. apply (ev_pod _ _ _ _ _ Hev); [by eapply Hne|by intros []|done].
Qed.

Lemma pair_moved x y a b host (Φ Φ' : link → Prop) Ψ f n n' :
  (∀ s, place s = (a, Some y) → place (f s) = (b, Some y)) → (∀ s, Φ s → Φ' (f s)) →
  changed n n' x f → pair x y a host Φ Ψ n → pair x y b host Φ' Ψ n'.
Proof.
  intros Hf HΦ (_ & _ & Hl & Hx) (Hne & (s & Hs & Ps & Hs') & (t & Ht & Pt & Hψ)). split; [done|]. split.
  - exists (f s). rewrite Hl, Hs. split_and!; auto.
  - exists t. rewrite Hx by done. auto.
Qed.

Lemma pair_host x y a host Φ Ψ n : pair x y a host Φ Ψ n → named n hm host.
Proof. intros (_ & _ & (t & Ht & [= Hh Hn _] & _)). by exists y, t. Qed.

Lemma setns_pair x y c i ns n n' :
  ready n → ns ≠ hm → pair x y (hm, vc c i) (vh c i) veth up n → effect (LinkSetNsFd x ns) n n' →
  ready n' ∧ pair x y (ns, vc c i) (vh c i) blank up n'.
Proof.
  intros Hr Hne HP He. pose proof HP as (_ & (s & Hs & [= Hsn Hsm _] & _) & _).
  split; [by eapply (setns_tie c i ns n n' x s Hr Hne Hs Hsn Hsm)|].
  destruct He as [Hch _]. eapply pair_moved; [| |exact Hch|exact HP]; [|done]. intros s0 [= H1 H2 H3]. unfold place.
  change (ls_peer (set_ns s0 ns)) with (ls_peer s0). by rewrite H3, <- H2.
Qed.

Lemma rename_pair x y ns a b host Φ n n' :
  (∀ s, Φ s → Φ (set_name s b)) →
  ready n → ns ≠ hm → pair x y (ns, a) host Φ up n → effect (LinkSetName x b) n n' →
  ready n' ∧ pair x y (ns, b) host Φ up n'.
Proof.
  intros HΦ Hr Hne HP He. destruct (Hr) as (_ & _ & Hh). split.
  - eapply (g_ready (G := stays none (λ _ _, True) none)); [|exact Hr]. split; [|by rewrite (effect_fields _ _ _ He)].
    apply (rename_evolves _ _ _ ns a x b); [done..| |exact He]. split; [by rewrite Hh|].
    destruct HP as (_ & (s & Hs & [= Hsn Hsm _] & _) & _). apply links_shape in Hs. rewrite Hsn, Hsm in Hs. eauto.
  - destruct He as [Hch _]. eapply pair_moved; [| |exact Hch|exact HP]; [|done]. intros s [= H1 H2 H3]. unfold place.
    change (ls_peer (set_name s b)) with (ls_peer s). by rewrite H3, <- H1.
Qed.

(** A lookup of the sandbox's end. *)
Lemma ok_lookup_pod fmt args x y ns nm o host Φ Ψ :
  default hm o = ns →
  ok (pair x y (ns, nm) host Φ Ψ) (wrap fmt args (kernel (LinkByName o nm)))
    (λ l n, pair x y (ns, nm) host Φ Ψ n ∧ link_id l = x ∧ ∃ s, Φ s ∧ Link_Type l = ls_type s).
Proof.
  intros Ho. apply ok_wrap. intros σ l σ' E Hr HP.
  destruct (ok_lookup _ _ _ _ _ _ E Hr HP) as (Hr' & HP' & s & Hs & Hns & Hnm & Hty).
  split; [done|]. assert (link_id l = x) as Hx by (eapply found_pod; eauto; congruence).
  split; [done|]. split; [done|]. destruct HP' as (_ & (s' & Hs' & _ & HΦ) & _). exists s'. split; [done|]. congruence.
Qed.

Lemma moveIntoNetns_fresh x y c i path iface ns :
  pth path = Some ns →
  ok (λ n, pair x y (hm, vc c i) (vh c i) veth up n ∧ vacant path iface n) (moveIntoNetns (vc c i) path iface)
    (λ _, pair x y (ns, iface) (vh c i) blank up).
Proof.
  intros Hp. set (P := λ n, pair x y (hm, vc c i) (vh c i) veth up n ∧ vacant path iface n).
  unfold moveIntoNetns. eapply ok_bind; [apply ok_open|]. intros ns'. apply ok_pure. intros [Hp' Hne].
  rewrite Hp in Hp'. injection Hp' as <-.
  eapply ok_bind; [apply ok_attempt_read, handle_view|]. intros h.
  apply (ok_bind _ (λ (am : bool) n, P n ∧ am = false)).
  { destruct h as [[]|]; [|by apply ok_ret]. eapply ok_bind; [apply ok_attempt_lookup|].
    intros [l|]; apply ok_ret; simpl; [|by intros n [HP _]].
    intros n (HP & s & Hs & Hns & Hnm & _). destruct (proj2 HP ns Hp). exists (link_id l), s. done. }
  intros am. apply ok_pure. intros ->.
  apply (ok_bind _ (λ l n, pair x y (hm, vc c i) (vh c i) veth up n ∧ link_id l = x ∧ ∃ s, veth s ∧ Link_Type l = ls_type s)).
  { eapply ok_conseq; [|intros a n H; exact H|by apply (ok_lookup_pod _ _ x y hm (vc c i) None (vh c i) veth up)].
    by intros n [HP _]. }
  intros l. apply ok_pure. intros [-> _].
  apply (ok_bind _ (λ _, pair x y (ns, vc c i) (vh c i) blank up)).
  { apply ok_wrap, ok_request. intros n n' Hr HP He. by apply (setns_pair x y c i ns n n'). }
  intros _. eapply ok_bind; [apply ok_wrap, ok_read, handle_view|]. intros [].
  eapply ok_bind; [by apply (ok_lookup_pod _ _ x y ns _ (Some ns) _ blank up)|]. intros inner. apply ok_pure. intros [-> _].
  apply (ok_bind _ (λ _, pair x y (ns, vc c i) (vh c i) blank up)).
  { apply ok_wrap. eapply (ok_pod _ _ _ _ blank blank up); [done|by intros n n' He; exact He|done|].
    intros s (Hv & Ha & Hro). split_and!; [done| |done]. simpl. by rewrite Ha. }
  intros _. apply ok_wrap, ok_request. intros n n' Hr HP He. by apply (rename_pair x y ns (vc c i) iface (vh c i) blank n n').
Qed.

(** ** The configuration *)

Definition has_mac (spec : Spec) s : Prop := MAC spec ≠ "" → ParseMAC (MAC spec) = Some (ls_mac s).
Definition has_mtu (spec : Spec) s : Prop := (0 < MTU spec)%Z → ls_mtu s = MTU spec.

(** An address as the driver adds it: IPv6 addresses without duplicate address detection. *)
Definition added (a : NlAddr) : NlAddr * bool := (a, negb (is_v4 (Addr_IP a))).

(** The link has exactly the addresses [ips]; of two with the same IP it has the first. *)
Definition has_addrs (ips : list string) s : Prop :=
  (∀ ip, ip ∈ ips → ∃ a ip' a', ParseAddr ip = Ok a ∧ ip' ∈ ips ∧ ParseAddr ip' = Ok a' ∧ Addr_IP a' = Addr_IP a ∧
     added a' ∈ ls_addrs s) ∧
  (∀ x, x ∈ ls_addrs s → ∃ ip a, ip ∈ ips ∧ ParseAddr ip = Ok a ∧ x = added a).

(** The namespace has a route. *)
Definition has_route (ns : NsId) (dst : IPNet) n : Prop :=
  ∃ l s gw, links n l = Some s ∧ ls_ns s = ns ∧ (dst, gw) ∈ ls_routes s.

(** The link has exactly the routes [rs], each with its gateway, less those to destinations
    [old] accepts; of two with the same destination it has the first. *)
Definition has_routes (old : IPNet → Prop) (spec : Spec) (rs : list Route) s : Prop :=
  (∀ r, r ∈ rs → ∃ dst gw, Route_parse r (Gateway spec) = Ok (dst, gw) ∧
     (old dst ∨ ∃ r' gw', r' ∈ rs ∧ Route_parse r' (Gateway spec) = Ok (dst, gw') ∧ (dst, gw') ∈ ls_routes s)) ∧
  (∀ q, q ∈ ls_routes s → ∃ r, r ∈ rs ∧ Route_parse r (Gateway spec) = Ok q).

Lemma has_addrs_nil s : ls_addrs s = [] → has_addrs [] s.
Proof. intros E. split; [by intros ip ?%not_elem_of_nil|]. rewrite E. by intros x ?%not_elem_of_nil. Qed.
Lemma has_routes_nil old spec s : ls_routes s = [] → has_routes old spec [] s.
Proof. intros E. split; [by intros ip ?%not_elem_of_nil|]. rewrite E. by intros x ?%not_elem_of_nil. Qed.

Lemma has_addrs_snoc pre ip addr s :
  ParseAddr ip = Ok addr → has_addrs pre s → has_addrs (pre ++ [ip]) (add_addr s (added addr)).
Proof.
  intros Hp [H1 H2]. split.
  - intros q [Hq| ->%list_elem_of_singleton]%elem_of_app.
    + destruct (H1 q Hq) as (a & ip' & a' & ? & ? & ? & ? & ?). exists a, ip', a'.
      split_and!; [done|set_solver|done|done|by right].
    + exists addr, ip, addr. split_and!; [done|set_solver|done|done|by left].
  - intros z [->|Hz]%elem_of_cons; [exists ip, addr; set_solver|].
    destruct (H2 z Hz) as (ip' & a & ? & ? & ->). exists ip', a. set_solver.
Qed.
Lemma has_addrs_again pre ip addr s z b :
  ParseAddr ip = Ok addr → (z, b) ∈ ls_addrs s → Addr_IP z = Addr_IP addr → has_addrs pre s → has_addrs (pre ++ [ip]) s.
Proof.
  intros Hp Hz Hi [H1 H2]. split.
  - intros q [Hq| ->%list_elem_of_singleton]%elem_of_app.
    + destruct (H1 q Hq) as (a & ip' & a' & ? & ? & ? & ? & ?). exists a, ip', a'. set_solver.
    + destruct (H2 _ Hz) as (ip' & a' & ? & ? & [= -> ->]). exists addr, ip', a'. set_solver.
  - intros x Hx. destruct (H2 x Hx) as (ip' & a & ? & ? & ->). exists ip', a. set_solver.
Qed.

Lemma has_routes_snoc old spec pre r dst gw s :
  Route_parse r (Gateway spec) = Ok (dst, gw) → has_routes old spec pre s →
  has_routes old spec (pre ++ [r]) (add_route s (dst, gw)).
Proof.
  intros Hp [H1 H2]. split.
  - intros q [Hq| ->%list_elem_of_singleton]%elem_of_app.
    + destruct (H1 q Hq) as (d & g & Hd & [Ho|(r' & g' & ? & ? & ?)]); exists d, g; split; try done; [by left|right].
      exists r', g'. split_and!; [set_solver|done|by right].
    + exists dst, gw. split; [done|]. right. exists r, gw. split_and!; [set_solver|done|by left].
  - intros z [->|Hz]%elem_of_cons; [exists r; set_solver|].
    destruct (H2 z Hz) as (r' & ? & ?). exists r'. set_solver.
Qed.
Lemma has_routes_again old spec pre r dst gw s :
  Route_parse r (Gateway spec) = Ok (dst, gw) → (old dst ∨ ∃ gw', (dst, gw') ∈ ls_routes s) →
  has_routes old spec pre s → has_routes old spec (pre ++ [r]) s.
Proof.
  intros Hp Hd [H1 H2]. split.
  - intros q [Hq| ->%list_elem_of_singleton]%elem_of_app.
    + destruct (H1 q Hq) as (d & g & Hd' & [Ho|(r' & g' & ? & ? & ?)]); exists d, g; split; try done; [by left|right].
      exists r', g'. set_solver.
    + exists dst, gw. split; [done|]. destruct Hd as [?|[gw' Hin]]; [by left|right].
      destruct (H2 _ Hin) as (r' & ? & ?). exists r', gw'. set_solver.
  - intros z Hz. destruct (H2 z Hz) as (r' & ? & ?). exists r'. set_solver.
Qed.

Section pod.
Context (x y : LinkId) (a : NsId * string) (host : string) (Ψ : link → Prop).
Abbreviation P := (λ Φ, pair x y a host Φ Ψ).

Lemma set_spec_mac_ok spec bad fmt args : ok (P blank) (set_spec_mac spec x bad fmt args) (λ _, P (λ s, blank s ∧ has_mac spec s)).
Proof.
  unfold set_spec_mac. case_bool_decide as Hm.
  - apply ok_ret. intros n. apply pair_mono; [|done]. by intros s Hv; split; [|intros ?].
  - destruct (ParseMAC (MAC spec)) as [mac|] eqn:Em; [|by intros ???]. apply ok_wrap.
    eapply ok_pod; [done|by intros n n' He; exact He|done|]. intros s Hv. split; [done|]. by intros _.
Qed.

Lemma mtu_ok spec fmt args :
  ok (P (λ s, blank s ∧ has_mac spec s)) (when (0 <? MTU spec)%Z (wrap fmt args (request (LinkSetMTU x (MTU spec)))))
    (λ _, P (λ s, (blank s ∧ has_mac spec s) ∧ has_mtu spec s)).
Proof.
  destruct (0 <? MTU spec)%Z eqn:Hm; simpl.
  - apply ok_wrap. eapply ok_pod; [done|by intros n n' He; exact He|done|]. by intros s Hs.
  - apply ok_ret. intros n. apply pair_mono; [|done]. intros s Hs. split; [done|]. intros ?. lia.
Qed.

(** What a request does that may find what it adds. *)
Lemma unless_exists_inv fmt args r σ σ' :
  unless_exists fmt args r σ = (Ret (), σ') →
  request r σ = (Ret (), σ') ∨
  ∃ e w, Netlink r (kern σ) = (Err e, w) ∧ isExists e = true ∧ vw σ' = vw σ.
Proof.
  unfold unless_exists, mbind, M_bind, attempt. intros E. destruct (request r σ) as [[[]|e|] σ1] eqn:Er; simpl in E; [| |done].
  - injection E as ->. by left.
  - destruct (isExists e) eqn:Hex; [|done]. injection E as <-. right. rewrite (request_failed _ _ _ _ Er).
    unfold request, kernel in Er. destruct (Netlink _ _) as [[[]|e'] w]; [by simplify_eq|]. injection Er as -> _. eauto.
Qed.

Lemma add_addr_ok (Φ : link → Prop) ip addr pre fmt args :
  (∀ s a, Φ s → Φ (add_addr s a)) → ParseAddr ip = Ok addr →
  ok (P (λ s, Φ s ∧ has_addrs pre s)) (unless_exists fmt args (AddrAdd x addr (negb (is_v4 (Addr_IP addr)))))
    (λ _, P (λ s, Φ s ∧ has_addrs (pre ++ [ip]) s)).
Proof.
  intros HΦ Hp σ [] σ' [Er|(e & w & En & Hex & V)]%unless_exists_inv Hr HP.
  - revert Er Hr HP. apply (ok_pod _ _ _ _ _ _ _ _ (λ s, add_addr s (added addr)));
      [reflexivity|by intros n n' He; exact He|reflexivity|].
    intros s [Hs Hd]. split; [by apply HΦ|by apply has_addrs_snoc].
  - destruct (addr_exists _ _ _ _ _ _ En Hex) as (s & z & b & Hs & Hz & Hi). rewrite V. split; [done|].
    destruct HP as (Hne & (s' & Hs' & Ps & HΦs & Hd) & Hy). split; [done|]. split; [|done]. exists s'.
    unfold vw in Hs'. rewrite Hs in Hs'. injection Hs' as <-. split_and!; [done..|]. by eapply has_addrs_again.
Qed.

Lemma add_addresses_ok spec (Φ : link → Prop) ips pre :
  (∀ s a, Φ s → Φ (add_addr s a)) →
  ok (P (λ s, Φ s ∧ has_addrs pre s)) (add_addresses spec x ips) (λ _, P (λ s, Φ s ∧ has_addrs (pre ++ ips) s)).
Proof.
  intros HΦ. revert pre. induction ips as [|ip ips IH]; intros pre; simpl; [apply ok_ret; by rewrite app_nil_r|].
  destruct (ParseAddr ip) as [addr|] eqn:Ha; [|by intros ???].
  eapply ok_bind; [by apply (add_addr_ok Φ ip addr pre)|]. intros [].
  rewrite (cons_middle ip pre ips), app_assoc. apply IH.
Qed.

(** All routes of the namespace's other links lead to destinations [old] accepts. *)
Definition elsewhere (old : IPNet → Prop) n : Prop :=
  ∀ l s q, l ≠ x → links n l = Some s → ls_ns s = a.1 → q ∈ ls_routes s → old q.1.

Lemma add_route_ok spec old (Φ : link → Prop) r dst gw pre fmt args :
  (∀ s q, Φ s → Φ (add_route s q)) → Route_parse r (Gateway spec) = Ok (dst, gw) →
  ok (λ n, P (λ s, Φ s ∧ has_routes old spec pre s) n ∧ elsewhere old n) (unless_exists fmt args (RouteAdd x dst gw))
    (λ _ n, P (λ s, Φ s ∧ has_routes old spec (pre ++ [r]) s) n ∧ elsewhere old n).
Proof.
  intros HΦ Hp σ [] σ' [Er|(e & w & En & Hex & V)]%unless_exists_inv Hr [HP He].
  - assert (elsewhere old (vw σ')) as He'.
    { unfold request, kernel in Er. destruct (Netlink _ _) as [[[]|e] w] eqn:En; [|done]. injection Er as <-.
      apply request_ok in En as (_ & _ & _ & Hx). intros l s q Hl. unfold vw. simpl. rewrite Hx by done. by apply He. }
    split; [|split; [|exact He']].
    all: revert Er Hr HP; intros Er Hr HP;
      destruct (ok_pod x y a host _ (λ s, Φ s ∧ has_routes old spec (pre ++ [r]) s) Ψ (RouteAdd x dst gw)
        (λ s, add_route s (dst, gw)) eq_refl (λ n n' He, He) (λ s, eq_refl) (λ s H, conj (HΦ s _ (proj1 H))
        (has_routes_snoc _ _ _ _ _ _ _ Hp (proj2 H))) _ _ _ Er Hr HP); done.
  - destruct (route_exists _ _ _ _ _ _ En Hex) as (s & l' & s' & gw' & Hs & Hs' & Hns & Hin). rewrite V. split; [done|].
    split; [|done]. destruct HP as (Hne & (s0 & Hs0 & Ps & HΦs & Hd) & Hy). split; [done|]. split; [|done]. exists s0.
    unfold vw in Hs0. rewrite Hs in Hs0. injection Hs0 as <-. split_and!; [done..|]. eapply has_routes_again; [done| |done].
    destruct (decide (l' = x)) as [->|Hl]; [rewrite Hs in Hs'; injection Hs' as <-; eauto|left].
    apply (He l' s' (dst, gw')); [done..| |done]. rewrite Hns. unfold place in Ps. by injection Ps as <- _.
Qed.

Lemma add_routes_ok spec old (Φ : link → Prop) rs pre :
  (∀ s q, Φ s → Φ (add_route s q)) →
  ok (λ n, P (λ s, Φ s ∧ has_routes old spec pre s) n ∧ elsewhere old n) (add_routes spec x rs)
    (λ _ n, P (λ s, Φ s ∧ has_routes old spec (pre ++ rs) s) n).
Proof.
  intros HΦ. revert pre. induction rs as [|r rs IH]; intros pre; simpl; [apply ok_ret; rewrite app_nil_r; by intros n []|].
  destruct (Route_parse r (Gateway spec)) as [[dst gw]|] eqn:Hr; [|by intros ???].
  eapply ok_bind; [by apply (add_route_ok spec old Φ r dst gw pre)|]. intros [].
  rewrite (cons_middle r pre rs), app_assoc. apply IH.
Qed.

End pod.

(** The addresses that a pod's interface gets. *)
Definition pod_addresses (spec : Spec) : list string := IP spec :: (if KubeVirtVMI spec then [] else ExtraIPs spec).

(** The interface is a veth, has the MAC address, the MTU, the addresses and the routes, and is up. *)
Definition configured (old : IPNet → Prop) (spec : Spec) s : Prop :=
  veth s ∧ up s ∧ has_mac spec s ∧ has_mtu spec s ∧ has_addrs (pod_addresses spec) s ∧
  has_routes old spec (Routes spec) s.

(** Every route of a namespace was there before. *)
Definition old_routes (n0 : net) n : Prop :=
  ∀ l s dst gw, links n l = Some s → (dst, gw) ∈ ls_routes s → has_route (ls_ns s) dst n0.

Lemma ok_old_routes {A} n0 P (m : M A) Q :
  always (no_new (λ _, True)) m → ok P m Q → ok (λ n, P n ∧ old_routes n0 n) m (λ a n, Q a n ∧ old_routes n0 n).
Proof.
  intros Ha Hm σ r σ' E Hr [HP Hn]. destruct (Hm _ _ _ E Hr HP). split; [done|]. split; [done|].
  intros l s dst gw Hs Hin. destruct (Ha _ _ _ E _ _ _ _ Hs Hin I) as (s0 & Hs0 & <- & Hin0). by eapply Hn.
Qed.

Lemma configurePodIface_ok x y ns host spec n0 :
  pth (NetnsPath spec) = Some ns →
  ok (λ n, pair x y (ns, IfaceName spec) host blank up n ∧ old_routes n0 n) (configurePodIface spec)
    (λ _, pair x y (ns, IfaceName spec) host (configured (λ d, has_route ns d n0) spec) up).
Proof.
  intros Hp. unfold configurePodIface. eapply ok_bind; [apply ok_open|]. intros ns'. apply ok_pure. intros [Hp' Hne].
  rewrite Hp in Hp'. injection Hp' as <-. eapply ok_bind; [apply ok_wrap, ok_read, handle_view|]. intros [].
  eapply ok_bind; [apply ok_old_routes; [trace|by apply (ok_lookup_pod _ _ x y ns _ (Some ns))]|]. intros l.
  apply (ok_conseq (λ n, (pair x y (ns, IfaceName spec) host blank up n ∧ old_routes n0 n) ∧
    (link_id l = x ∧ ∃ s, blank s ∧ Link_Type l = ls_type s)) _ (λ _, pair x y (ns, IfaceName spec) host (configured (λ d, has_route ns d n0) spec) up));
    [naive_solver|done|].
  apply ok_pure. intros (-> & s & [Hs _] & ->). rewrite bool_decide_eq_false_2 by (by rewrite Hs).
  eapply ok_bind; [apply ok_old_routes; [unfold set_spec_mac; trace|apply set_spec_mac_ok]|]. intros [].
  eapply ok_bind; [apply ok_old_routes; [trace|apply mtu_ok]|]. intros [].
  set (Φ := λ s : link, (veth s ∧ ls_routes s = []) ∧ has_mac spec s ∧ has_mtu spec s).
  apply (ok_bind _ (λ _ n, pair x y (ns, IfaceName spec) host (λ s, Φ s ∧ has_addrs (pod_addresses spec) s) up n ∧ old_routes n0 n)).
  { apply ok_old_routes; [apply always_addresses|].
    eapply ok_conseq; [| |apply (add_addresses_ok x y (ns, IfaceName spec) host up spec Φ _ []); by intros s0 q Hs0]; [|done].
    intros n. apply pair_mono; [|done]. intros s0 [[(? & ? & ?) ?] ?]. split; [done|]. by apply has_addrs_nil. }
  intros []. set (old := λ d, has_route ns d n0).
  set (Φ' := λ s : link, veth s ∧ up s ∧ has_mac spec s ∧ has_mtu spec s ∧ has_addrs (pod_addresses spec) s).
  apply (ok_bind _ (λ _ n, pair x y (ns, IfaceName spec) host (λ s, Φ' s ∧ has_routes old spec [] s) up n ∧ old_routes n0 n)).
  { apply ok_old_routes; [trace|]. apply ok_wrap. eapply ok_pod; [done|by intros n n' He; exact He|done|].
    intros s0 [[[? ?] [? ?]] ?]. split; [by split_and!|]. by apply has_routes_nil. }
  intros []. eapply ok_conseq; [| |apply (add_routes_ok x y (ns, IfaceName spec) host up spec old Φ' _ []); by intros s0 q Hs0].
  - intros n [HP Hn]. split; [done|]. intros l' s' [d g] _ Hs' Hns Hin. simpl in *. unfold old. rewrite <- Hns. by eapply Hn.
  - intros [] n. apply pair_mono; [|done]. intros s0 [(? & ? & ? & ? & ?) ?]. by split_and!.
Qed.

(** ** A fresh Attach *)

Lemma attachToOVS_links P host spec :
  (∀ n q, P n → P (with_ports n q)) → ok P (attachToOVS host spec) (λ _, P).
Proof.
  intros HP σ a σ' E Hr Hn. split.
  { eapply g_ready; [exact (attachToOVS_guar none nowhere (λ p, p = host) top _ spec eq_refl _ _ _ E Hr I)|done]. }
  unfold attachToOVS, ovsVsctl, mbind, M_bind, exec in E. destruct (Exec _ _ _) as [[o [e|]] w] eqn:Ee; [done|].
  injection E as _ <-. unfold vw in *. simpl. apply exec_add in Ee as [-> | [_ ->]]; auto using port_ids_plain.
Qed.

(** What is known of the NIC's ends in the end. *)
Definition wired (n0 : net) (host : string) ns (spec : Spec) n : Prop :=
  ∃ x y, pair x y (ns, IfaceName spec) host (configured (λ d, has_route ns d n0) spec) up n.

(** The names [B] are free in a namespace. *)
Definition unused ns (B : list string) n : Prop := ∀ b, b ∈ B → ¬ named n ns b.

Lemma unused_stays X Y Z ns B n n' :
  ready n → ns ≠ hm → (∀ b, b ∈ B → ¬ Y ns b) → stays X Y Z n n' → unused ns B n → unused ns B n'.
Proof.
  intros (_ & _ & Hh) Hne HY [Hev _] Hu b Hb Hn. apply (Hu b Hb), (ev_pod _ _ _ _ _ Hev); [by rewrite Hh|by apply HY|done].
Qed.

Lemma ok_unused {A} X Y Z ns B P (m : M A) Q :
  ns ≠ hm → (∀ b, b ∈ B → ¬ Y ns b) → guar top m (stays X Y Z) → ok P m Q →
  ok (λ n, P n ∧ unused ns B n) m (λ a n, Q a n ∧ unused ns B n).
Proof.
  intros Hne HY Hg Hm σ a σ' E Hr [HP Hu]. destruct (Hm _ _ _ E Hr HP). split; [done|]. split; [done|].
  eapply (unused_stays X Y Z); [exact Hr|done|done| |done]. by eapply Hg.
Qed.

Lemma Attach_fresh (s : Spec) ns B n0 (Q : net → Prop) :
  let c := ContainerID s in let i := IfaceName s in
  pth (NetnsPath s) = Some ns → i ∉ B → vc c i ∉ B →
  (∀ mtu cleanup, ((0 < MTU s)%Z → mtu = MTU s) →
     ok (λ n, wired n0 (vh c i) ns (with_mtu s mtu) n ∧ unused ns B n)
       (when (KubeVirtVMI s) (or_else (wireVMIBridge (with_mtu s mtu)) cleanup)) (λ _, Q)) →
  ok (λ n, ((¬ named n hm (vh c i) ∧ vacant (NetnsPath s) i n) ∧ old_routes n0 n) ∧ unused ns B n) (Attach_ovs s) (λ _, Q).
Proof.
  intros c i Hp HBi HBv HQ. unfold Attach_ovs. destruct (Validate s); [by intros ???|].
  set (P := λ n, ((¬ named n hm (vh c i) ∧ vacant (NetnsPath s) i n) ∧ old_routes n0 n) ∧ unused ns B n).
  apply (ok_bind _ (λ ab n, (P n ∧ ab = (vh c i, vc c i)) ∧ ns ≠ hm)).
  { intros σ [a b] σ' E Hr HP. apply of_names_Ret in E as (-> & -> & ->). split_and!; try done.
    destruct Hr as ((_ & [H _] & _) & Hpt & Hh). rewrite Hpt, Hh in H. by eapply H. }
  intros ab. apply ok_pure. intros Hne. apply ok_pure. intros ->.
  apply (ok_bind _ (λ mtu n, P n ∧ ((0 < MTU s)%Z → mtu = MTU s))).
  { destruct (Z.eqb_spec (MTU s) 0) as [E|E]; [|by apply ok_ret].
    eapply ok_conseq; [by intros n H; exact H| |apply primaryMTU_ok]. intros m n HP. split; [done|]. lia. }
  intros mtu. apply ok_pure. intros Hmtu. cbv zeta. simpl.
  eapply ok_bind.
  { apply (ok_unused (host_names s) nowhere none); [done|by intros ? ? []|apply createVethPair_guar; [by left|by right]|].
    apply ok_old_routes; [unfold createVethPair; trace|].
    apply ok_and; [eapply ok_conseq; [|by intros ? ? H; exact H|apply createVethPair_fresh]; by intros n []|].
    eapply ok_conseq; [|by intros ? ? H; exact H|apply createVethPair_vacant]. by intros n []. }
  intros []. apply (ok_bind _ (λ _ n, ((∃ x y, pair x y (ns, i) (vh c i) blank up n) ∧ old_routes n0 n) ∧ unused ns B n)).
  { apply ok_or_else, (ok_unused (host_names s) (λ _ b, b ∉ B) none); [done|by intros ? ? []| |].
    { apply moveIntoNetns_guar; [by right|done]. }
    apply ok_old_routes; [unfold moveIntoNetns, open_netns, open_handle; trace|].
    intros σ a σ' E Hr [(x & y & HP) Hv].
    destruct (moveIntoNetns_fresh x y c i _ i ns Hp _ _ _ E Hr (conj HP Hv)). eauto. }
  intros []. apply (ok_bind _ (λ _ n, wired n0 (vh c i) ns (with_mtu s mtu) n ∧ unused ns B n)).
  { apply ok_or_else, (ok_unused none nowhere none); [done|by intros ? ? []|apply configurePodIface_guar|].
    intros σ a σ' E Hr [(x & y & HP) Hn].
    destruct (configurePodIface_ok x y ns (vh c i) (with_mtu s mtu) n0 Hp _ _ _ E Hr (conj HP Hn)) as [? H]. split; [done|].
    by exists x, y. }
  intros []. apply (ok_bind _ (λ _ n, wired n0 (vh c i) ns (with_mtu s mtu) n ∧ unused ns B n)); [|intros []; by apply HQ].
  apply ok_or_else, (ok_unused none nowhere (λ p, p = vh c i)); [done|by intros ? ? []|by apply attachToOVS_guar|].
  by apply attachToOVS_links.
Qed.

Lemma wired_mtu n0 host ns (s : Spec) mtu n :
  ((0 < MTU s)%Z → mtu = MTU s) → wired n0 host ns (with_mtu s mtu) n → wired n0 host ns s n.
Proof.
  intros Hm (x & y & HP). exists x, y. revert HP. apply pair_mono; [|done].
  intros t (H0 & H1 & H2 & H3 & H4 & H5). split_and!; [done..| |done|done]. intros H. rewrite <- (Hm H). apply H3. simpl. by rewrite Hm.
Qed.

End config.

(** ** A name that is taken *)

Section taken.
Context {W : Type} `{KE : Kernel W} {KL : KernelLaws W} `{DH : Dhcp4} {AN : Anchor NsId}.
Abbreviation net := (Net NsId LinkId).
Implicit Types (n : net) (σ : ovsAttacher W).
Context (ns : NsId) (iface : string) (Hne : ns ≠ hm).
Abbreviation held := (λ n, named n ns iface).

Lemma inert_held r n n' : inert r = true → effect r n n' → held n → held n'.
Proof. intros Hi He. rewrite !named_shape. by setoid_rewrite (inert_shape r n n' Hi He). Qed.

Lemma held_other n n' l :
  (∀ x, x ≠ l → links n' x = links n x) → (∀ s, links n l = Some s → ls_ns s ≠ ns) → held n → held n'.
Proof.
  intros Hx Hl (x & s & Hs & Hns & Hn). exists x, s. rewrite Hx; [done|]. intros ->. by apply (Hl s).
Qed.

Lemma ok_inert_held r : inert r = true → ok held (request r) (λ _, held).
Proof.
  intros Hi. apply ok_request. intros n n' Hr Hh He. split; [by eapply inert_ready|]. by eapply inert_held.
Qed.

Lemma createVethPair_held c i mtu : ok held (createVethPair (vh c i) (vc c i) mtu) (λ _, held).
Proof.
  unfold createVethPair. eapply ok_bind; [apply ok_attempt_read, lookup_view|]. intros [l|e]; [by apply ok_ret|].
  apply (ok_bind _ (λ _, held)).
  { apply ok_wrap, ok_request. intros n n' Hr (x & s & Hs & Hns & Hn) He. split; [by eapply veth_names|].
    destruct He as (_ & _ & _ & i1 & i2 & ? & ? & _ & N1 & N2 & _ & _ & _ & _ & _ & Hx). exists x, s.
    rewrite Hx; [done|congruence..]. }
  intros _. eapply ok_bind; [apply ok_wrap, ok_read, lookup_view|]. intros hl.
  apply (ok_bind _ (λ _, held)).
  { apply ok_when. eapply ok_bind; [apply ok_attempt_read, lookup_view|]. intros [p|]; [|by apply ok_ret].
    apply ok_ignore; [by apply ok_inert_held|apply request_failed]. }
  intros _. by apply ok_wrap, ok_inert_held.
Qed.

(** Moving does nothing: where it does not see the name, it cannot rename the interface. *)
Lemma moveIntoNetns_held c i path name :
  name = iface → pth path = Some ns →
  ok (λ n, named n hm (vc c i) ∧ held n) (moveIntoNetns (vc c i) path name) (λ _ n, named n hm (vc c i)).
Proof.
  intros -> Hp. set (P := λ n, named n hm (vc c i) ∧ held n).
  unfold moveIntoNetns. eapply ok_bind; [apply ok_open|]. intros ns'. apply ok_pure. intros [Hp' _].
  rewrite Hp in Hp'. injection Hp' as <-.
  eapply ok_bind; [apply ok_attempt_read, handle_view|]. intros h.
  apply (ok_bind _ (λ _, P)).
  { destruct h as [[]|]; [|by apply ok_ret]. eapply ok_bind; [apply ok_attempt_read, lookup_view|].
    intros x. by apply ok_ret. }
  intros [|]; [apply ok_ret; by intros n []|].
  eapply ok_bind; [apply ok_wrap, ok_lookup|]. intros l. simpl.
  apply (ok_bind _ (λ _ n, held n ∧ vc c i ≠ iface)).
  { apply ok_wrap, ok_request. intros n n' Hr ((_ & Hh) & s & Hs & Hns & Hn & _) He. split.
    - eapply (g_ready (G := stays (λ x, x = vc c i) (λ _ _, True) none)); [|exact Hr].
      split; [|by rewrite (effect_fields _ _ _ He)]. destruct (Hr) as (_ & _ & Hh').
      eapply (setns_evolves (λ x, x = vc c i) (λ _ _, True) none (link_id l) ns s c i); try done; congruence.
    - destruct He as [(_ & _ & _ & Hx) Hfree]. split.
      + eapply held_other; [exact Hx| |done]. intros s0. rewrite Hs. intros [= <-]. congruence.
      + intros E. apply (Hfree s Hs); [congruence|]. by rewrite Hn, E. }
  intros _. apply ok_pure. intros Hvc. eapply ok_bind; [apply ok_wrap, ok_read, handle_view|]. intros [].
  apply (ok_bind _ (λ l n, held n ∧ ∃ s, links n (link_id l) = Some s ∧ ls_ns s = ns ∧ ls_name s = vc c i)).
  { apply ok_wrap. eapply ok_conseq; [by intros n H; exact H| |apply ok_lookup]. naive_solver. }
  intros inner.
  apply (ok_bind _ (λ _ n, held n ∧ ∃ s, links n (link_id inner) = Some s ∧ ls_ns s = ns ∧ ls_name s = vc c i)).
  { apply ok_wrap, ok_request. intros n n' Hr (Hh & s & Hs & Hns & Hn) He. split; [by eapply (inert_ready (LinkSetDown _))|].
    split; [by eapply (inert_held (LinkSetDown _))|]. destruct He as (_ & _ & Hl & _). exists (set_up s false). by rewrite Hl, Hs. }
  intros _. apply ok_wrap, ok_request. intros n n' Hr (Hh & s & Hs & Hns & Hn) [_ He]. exfalso.
  destruct (He s Hs) as [E|Hno]; [congruence|by rewrite Hns in Hno].
Qed.

Lemma Attach_held (s : Spec) :
  let c := ContainerID s in let i := IfaceName s in
  i = iface → pth (NetnsPath s) = Some ns →
  ok (λ n, ¬ named n hm (vh c i) ∧ held n) (Attach_ovs s) (λ _ n, named n hm (vc c i)).
Proof.
  intros c i Hi Hp. unfold Attach_ovs. destruct (Validate s); [by intros ???|].
  set (P := λ n, ¬ named n hm (vh c i) ∧ held n).
  apply (ok_bind _ (λ ab n, P n ∧ ab = (vh c i, vc c i))).
  { intros σ [a b] σ' E Hr HP. unfold of_names in E. destruct (vethNames s) as [[? ?]|] eqn:En; [|done].
    apply vethNames_Ok in En as [-> ->]. by injection E as <- <- <-. }
  intros ab. apply ok_pure. intros ->.
  apply (ok_bind _ (λ _, P)); [destruct (_ =? 0)%Z; [apply primaryMTU_ok|by apply ok_ret]|].
  intros mtu. cbv zeta. simpl.
  apply (ok_bind _ (λ _ n, named n hm (vc c i) ∧ held n)).
  { apply ok_and; [eapply ok_conseq; [| |apply createVethPair_fresh]|
      eapply ok_conseq; [|by intros ? ? H; exact H|apply createVethPair_held]]; [by intros n []| |by intros n []].
    intros _ n (x & y & _ & (t & Ht & [= H1 H2 _] & _) & _). by exists x, t. }
  assert (∀ (n n' : net) Z, ready n → named n hm (vc c i) → stays none (λ _ _, True) Z n n' → named n' hm (vc c i)) as Hk.
  { intros n n' Z Hr Hn Hst. eapply (host_named _ _ _ _ _ _ Hst Hr); [by intros []|done]. }
  intros []. eapply ok_bind; [by apply ok_or_else, moveIntoNetns_held|]. intros [].
  apply (ok_bind _ (λ _ n, named n hm (vc c i))).
  { apply ok_or_else, (ok_guar (stays none (λ _ _, True) none)); [apply configurePodIface_guar|]. intros n n'. apply Hk. }
  intros _. apply (ok_bind _ (λ _ n, named n hm (vc c i))).
  { apply ok_or_else, (ok_guar (stays none (λ _ _, True) (λ p, p = vh c i))); [by apply attachToOVS_guar|]. intros n n'. apply Hk. }
  intros _. apply ok_when, ok_or_else, (ok_guar (stays none (λ _ _, True) none)); [by apply wireVMIBridge_guar|].
  intros n n'. apply Hk.
Qed.

End taken.

Section wires.
Context {W : Type} `{KE : Kernel W} {KL : KernelLaws W} `{DH : Dhcp4}.
Implicit Types σ : ovsAttacher W.

Lemma old_routes_here n : old_routes n n.
Proof. intros l s dst gw Hs Hin. by exists l, s, gw. Qed.


(** C27: when the sandbox already has an interface of the NIC's name that is not this NIC's,
    such as eth0 or a tap device left by a failed attempt, a successful Attach leaves the
    NIC unplugged: its other end is still on the host. *)
Theorem Attach_taken_unplugged s σ σ' ns :
  tidy_net (vw σ) → paths (vw σ) (NetnsPath s) = Some ns →
  ¬ named (vw σ) (home (vw σ)) (vh (ContainerID s) (IfaceName s)) → named (vw σ) ns (IfaceName s) →
  Attach_ovs s σ = (Ret (), σ') →
  named (vw σ') (home (vw σ')) (vc (ContainerID s) (IfaceName s)) ∧ ¬ nic_live σ' s.
Proof.
  intros Ht Hns Hh Hn E. pose proof (ready_here _ Ht) as Hr.
  assert (ns ≠ home (vw σ)) as Hne by (destruct Ht as (_ & [H _] & _); by eapply H).
  destruct (Attach_held (AN := here (vw σ)) ns (IfaceName s) Hne s eq_refl Hns _ _ _ E Hr (conj Hh Hn)) as [(_ & _ & Hhm) Hvc].
  simpl in *. rewrite Hhm. split; [done|]. intros [_ [_ Hnot]]%plugged_vh. apply Hnot. by rewrite Hhm.
Qed.

End wires.
