(* ===== verification/AttachVM.v ===== *)
(** * The NIC of a VM that a fresh Attach leaves

    For a VM the sandbox's end of the veth pair is renamed and wrapped in a bridge with a
    tap device that takes the NIC's name. *)

From S2P Require Import Prelude Netip Store Kernel Dhcp Attach NetShape AttachLogic Sandbox AttachProps AttachTrace AttachConfig.

Section grows.
Context {W : Type} `{KE : Kernel W} {KL : KernelLaws W} `{DH : Dhcp4}.
Abbreviation net := (Net NsId LinkId).
Implicit Types (n : net) (σ : ovsAttacher W).

(** Links are only added. *)
Definition grows n (_ : bool) n' : Prop := ∀ x s, links n x = Some s → links n' x = Some s.

#[export] Instance grows_trace : Trace grows.
Proof. split; [by intros n n' E x s; rewrite E|]. unfold grows. eauto. Qed.

Lemma created_grows n n' ns name type b : one_created n n' ns name type → grows n b n'.
Proof. intros (_ & id & s & Hid & _ & _ & _ & Hx) x t Ht. rewrite Hx; [done|]. intros ->. congruence. Qed.

Lemma addTuntap_grows ns name : always grows (addTuntapInNetns ns name).
Proof.
  unfold addTuntapInNetns. trace. apply always_request_route. intros n n' He. by eapply created_grows.
Qed.
Lemma bridgeFdb_grows ns mac name : always grows (bridgeFdbReplaceStatic ns mac name).
Proof. unfold bridgeFdbReplaceStatic. trace. apply always_exec. by intros w o e w' ->%exec_bridge. Qed.
Lemma ensure_server_grows spec name : always grows (ensure_server spec name).
Proof. apply always_ensure_server. intros _ _ n x s Hs. done. Qed.

End grows.

Section vm.
Context {W : Type} `{KE : Kernel W} {KL : KernelLaws W} `{DH : Dhcp4} {AN : Anchor NsId}.
Abbreviation net := (Net NsId LinkId).
Abbreviation link := (LinkState NsId LinkId).
Implicit Types (n : net) (σ : ovsAttacher W) (s : link).

Definition has (x : LinkId) (Φ : link → Prop) n : Prop := ∃ s, links n x = Some s ∧ Φ s.

(** The links of a VM's NIC: the two ends, the bridge and the tap. *)
Definition vm (x y b t : LinkId) (Φx Φy Φb Φt : link → Prop) n : Prop :=
  has x Φx n ∧ has y Φy n ∧ has b Φb n ∧ has t Φt n.

Lemma has_mono x (Φ Φ' : link → Prop) n : (∀ s, Φ s → Φ' s) → has x Φ n → has x Φ' n.
Proof. intros H (s & ? & ?). exists s. auto. Qed.

Lemma has_changed x l (Φ Φ' : link → Prop) f n n' :
  (x = l → ∀ s, Φ s → Φ' (f s)) → (x ≠ l → ∀ s, Φ s → Φ' s) → changed n n' l f → has x Φ n → has x Φ' n'.
Proof.
  intros H1 H2 (_ & _ & Hl & Hx) (s & Hs & HΦ). destruct (decide (x = l)) as [->|Hne].
  - exists (f s). rewrite Hl, Hs. auto.
  - exists s. rewrite Hx; auto.
Qed.

Lemma has_grows x Φ b n n' : grows n b n' → has x Φ n → has x Φ n'.
Proof. intros H (s & Hs & HΦ). exists s. auto. Qed.
Lemma vm_grows x y b t Φx Φy Φb Φt c n n' : grows n c n' → vm x y b t Φx Φy Φb Φt n → vm x y b t Φx Φy Φb Φt n'.
Proof. intros H (? & ? & ? & ?). split_and!; by eapply has_grows. Qed.

Lemma ok_grows {A} P Y Z (m : M A) :
  (∀ n b n', grows n b n' → P n → P n') → guar P m (stays none Y Z) → always grows m → ok P m (λ _, P).
Proof.
  intros HP Hg Ha σ a σ' E Hr Hn. split; [|by eapply HP, Hn; eapply Ha]. eapply g_ready; [by eapply Hg|done].
Qed.

(** A configuring request on one of the links. *)
Section request.
Context (x y b t : LinkId) (Hxb : x ≠ b) (Hxt : x ≠ t) (Hbt : b ≠ t) (Hyx : y ≠ x) (Hyb : y ≠ b) (Hyt : y ≠ t).
Context (Φx Φy Φb Φt : link → Prop).

Lemma ok_veth fmt args r f (Φ' : link → Prop) :
  inert r = true → (∀ n n', effect r n n' → changed n n' x f) → (∀ s, Φx s → Φ' (f s)) →
  ok (vm x y b t Φx Φy Φb Φt) (wrap fmt args (request r)) (λ _, vm x y b t Φ' Φy Φb Φt).
Proof.
  intros Hi Hc HΦ. apply ok_wrap, ok_request. intros n n' Hr (H1 & H2 & H3 & H4) He. split; [by eapply inert_ready|].
  apply Hc in He. split_and!; eapply has_changed; eauto; congruence.
Qed.
Lemma ok_bridge fmt args r f (Φ' : link → Prop) :
  inert r = true → (∀ n n', effect r n n' → changed n n' b f) → (∀ s, Φb s → Φ' (f s)) →
  ok (vm x y b t Φx Φy Φb Φt) (wrap fmt args (request r)) (λ _, vm x y b t Φx Φy Φ' Φt).
Proof.
  intros Hi Hc HΦ. apply ok_wrap, ok_request. intros n n' Hr (H1 & H2 & H3 & H4) He. split; [by eapply inert_ready|].
  apply Hc in He. split_and!; eapply has_changed; eauto; congruence.
Qed.
Lemma ok_tap fmt args r f (Φ' : link → Prop) :
  inert r = true → (∀ n n', effect r n n' → changed n n' t f) → (∀ s, Φt s → Φ' (f s)) →
  ok (vm x y b t Φx Φy Φb Φt) (wrap fmt args (request r)) (λ _, vm x y b t Φx Φy Φb Φ').
Proof.
  intros Hi Hc HΦ. apply ok_wrap, ok_request. intros n n' Hr (H1 & H2 & H3 & H4) He. split; [by eapply inert_ready|].
  apply Hc in He. split_and!; eapply has_changed; eauto; congruence.
Qed.
End request.

(** ** The links at the end *)

Section ends.
Context (spec : Spec) (ns : NsId) (x y b t : LinkId) (bmac : list Z).

(** The sandbox's end, renamed, in the bridge. *)
Definition veth_end s : Prop :=
  place s = (ns, vethRenameFor (IfaceName spec), Some y) ∧ ls_up s = true ∧ ls_master s = Some b ∧
  ls_learning s = false ∧ ls_mac s = bmac.
(** The host's end. *)
Definition host_end s : Prop := place s = (hm, vh (ContainerID spec) (IfaceName spec), Some x) ∧ ls_up s = true.
Definition bridge_end s : Prop :=
  ls_ns s = ns ∧ ls_name s = bridgeNameFor (IfaceName spec) ∧ ls_type s = "bridge" ∧ ls_up s = true ∧ ls_mac s = bmac.
(** The tap under the NIC's name, with its MAC address, in the bridge. *)
Definition tap_end s : Prop :=
  ls_ns s = ns ∧ ls_name s = IfaceName spec ∧ ls_type s = "tuntap" ∧ has_mac spec s ∧ ls_master s = Some b ∧ ls_up s = true.

End ends.

Definition vm_wired spec ns n : Prop :=
  ∃ x y b t bmac, vm x y b t (veth_end spec ns y b bmac) (host_end spec x) (bridge_end spec ns bmac) (tap_end spec ns b) n.

Lemma vethRename_bridge i : vethRenameFor i ≠ bridgeNameFor i.
Proof. unfold vethRenameFor, bridgeNameFor. rewrite !shortHashName_app. done. Qed.

Lemma has_neq x z (Φ Ψ : link → Prop) n : (∀ s, Φ s → Ψ s → False) → has x Φ n → has z Ψ n → x ≠ z.
Proof. intros H (s & Hs & HΦ) (s' & Hs' & HΨ) ->. rewrite Hs in Hs'. injection Hs' as <-. eauto. Qed.

(** A lookup, with the MAC address it tells. *)
Lemma ok_lookup_hw P ns name fmt args :
  ok P (wrap fmt args (kernel (LinkByName (Some ns) name)))
    (λ l n, P n ∧ has (link_id l) (λ s, (ls_ns s = ns ∧ ls_name s = name) ∧ ls_mac s = Attrs_HardwareAddr l) n).
Proof.
  apply ok_wrap. intros σ l σ' E Hr HP. destruct (ok_read P _ (lookup_view (Some ns) name) _ _ _ E Hr HP) as [Hr' HP'].
  split; [done|]. split; [done|]. unfold kernel in E. destruct (LinkByName _ _ _) as [r w] eqn:El. injection E as E <-.
  destruct r as [l'|]; [|done]. injection E as ->. pose proof (lookup_view _ _ _ _ _ El) as Hv.
  apply lookup_found in El as (s & Hs & Hns & Hn & _ & _ & _ & Hm). unfold vw. simpl. rewrite Hv. by exists s.
Qed.

Section wire.
Context (spec : Spec) (ns : NsId) (x y : LinkId) (Hne : ns ≠ hm).
Let i : string := IfaceName spec.
Let at_veth s : Prop := place s = (ns, vethRenameFor i, Some y).
Let at_bridge (bmac : list Z) s : Prop :=
  ls_ns s = ns ∧ ls_name s = bridgeNameFor i ∧ ls_type s = "bridge" ∧ ls_mac s = bmac.
Let at_tap s : Prop := ls_ns s = ns ∧ ls_name s = i ∧ ls_type s = "tuntap".

Lemma at_host s : host_end spec x s → ls_ns s = hm.
Proof. by intros [[= H _ _] _]. Qed.

(** Pinning the bridge's MAC address keeps it. *)
Lemma pin_ok fmt args b bmac :
  ok (λ n, pair x y (ns, vethRenameFor i) (vh (ContainerID spec) i) veth up n ∧ has b (at_bridge bmac) n)
    (wrap fmt args (request (LinkSetHardwareAddr b bmac)))
    (λ _ n, has x at_veth n ∧ has y (host_end spec x) n ∧ has b (at_bridge bmac) n).
Proof.
  apply ok_wrap, ok_request. intros n n' Hr ((_ & (sx & Hx & Px & _) & (sy & Hy & Py & Uy)) & Hb) He.
  split; [by eapply (inert_ready (LinkSetHardwareAddr _ _))|]. split_and!.
  - apply (has_changed x b at_veth at_veth (λ s, set_mac s bmac) n); [done|done|exact He|by exists sx].
  - apply (has_changed y b (host_end spec x) (host_end spec x) (λ s, set_mac s bmac) n);
      [by intros _ s [? ?]|done|exact He|by exists sy].
  - apply (has_changed b b (at_bridge bmac) (at_bridge bmac) (λ s, set_mac s bmac) n); [|done|exact He|exact Hb].
    by intros _ s (? & ? & ? & ?).
Qed.

(** The distinct links of a NIC whose name is none of the driver's own. *)
Lemma vm_distinct b t bmac n :
  i ≠ vethRenameFor i → i ≠ bridgeNameFor i →
  vm x y b t at_veth (host_end spec x) (at_bridge bmac) at_tap n →
  x ≠ b ∧ x ≠ t ∧ b ≠ t ∧ y ≠ x ∧ y ≠ b ∧ y ≠ t.
Proof.
  intros Hv Hb (Hx & Hy & Hbr & Ht). unfold at_veth, at_bridge, at_tap in *.
  split_and!; (eapply has_neq; [|eassumption|eassumption]); cbv beta; intros s.
  - intros [= _ H _] (_ & H' & _). rewrite H in H'. by apply vethRename_bridge in H'.
  - intros [= _ H _] (_ & H' & _). congruence.
  - intros (_ & H & _) (_ & H' & _). congruence.
  - intros H%at_host [= H' _ _]. congruence.
  - intros H%at_host (H' & _). congruence.
  - intros H%at_host (H' & _). congruence.
Qed.

Context (b t : LinkId) (bmac : list Z).
Context (Hd : x ≠ b ∧ x ≠ t ∧ b ≠ t ∧ y ≠ x ∧ y ≠ b ∧ y ≠ t).

Lemma tap_mac_ok bad fmt args :
  ok (vm x y b t at_veth (host_end spec x) (at_bridge bmac) at_tap) (set_spec_mac spec t bad fmt args)
    (λ _, vm x y b t at_veth (host_end spec x) (at_bridge bmac) (λ s, at_tap s ∧ has_mac spec s)).
Proof.
  destruct Hd as (D1 & D2 & D3 & D4 & D5 & D6). unfold set_spec_mac. case_bool_decide as Hm.
  - apply ok_ret. intros n (? & ? & ? & H4). split_and!; [done..|]. revert H4. apply has_mono. intros s Hs. split; [done|by intros ?].
  - destruct (ParseMAC (MAC spec)) as [mac|] eqn:Em; [|by intros ???].
    eapply ok_tap; [done..|by intros n n' He; exact He|]. intros s Hs. split; [done|]. by intros _.
Qed.

(** The links get their MAC addresses, masters and states. *)
Lemma links_ok {A} (rest : () → M A) (Q : A → net → Prop) e1 f1 a1 f2 a2 f3 a3 f4 a4 f5 a5 f6 a6 f7 a7 f8 a8 :
  (∀ u, ok (vm x y b t (veth_end spec ns y b bmac) (host_end spec x) (bridge_end spec ns bmac) (tap_end spec ns b)) (rest u) Q) →
  ok (vm x y b t at_veth (host_end spec x) (at_bridge bmac) at_tap)
    (_ ← set_spec_mac spec t e1 f1 a1;
     _ ← wrap f2 a2 (request (LinkSetHardwareAddr x bmac));
     _ ← wrap f3 a3 (request (LinkSetMaster x b));
     _ ← wrap f4 a4 (request (LinkSetMaster t b));
     _ ← wrap f5 a5 (request (LinkSetUp x));
     _ ← wrap f6 a6 (request (LinkSetUp t));
     _ ← wrap f7 a7 (request (LinkSetUp b));
     u ← wrap f8 a8 (request (LinkSetLearning x false));
     rest u) Q.
Proof.
  intros Hrest. destruct Hd as (D1 & D2 & D3 & D4 & D5 & D6).
  eapply ok_bind; [apply tap_mac_ok|]. intros [].
  eapply ok_bind; [eapply (ok_veth x y b t) with (Φ' := λ s, at_veth s ∧ ls_mac s = bmac); [done..|by intros n n' He; exact He|done]|].
  intros []. eapply ok_bind; [eapply (ok_veth x y b t) with (Φ' := λ s, (at_veth s ∧ ls_mac s = bmac) ∧ ls_master s = Some b);
    [done..|by intros n n' He; exact He|done]|].
  intros []. eapply ok_bind; [eapply (ok_tap x y b t) with (Φ' := λ s, (at_tap s ∧ has_mac spec s) ∧ ls_master s = Some b);
    [done..|by intros n n' He; exact He|done]|].
  intros []. eapply ok_bind; [eapply (ok_veth x y b t) with
    (Φ' := λ s, ((at_veth s ∧ ls_mac s = bmac) ∧ ls_master s = Some b) ∧ ls_up s = true);
    [done..|by intros n n' He; exact He|done]|].
  intros []. eapply ok_bind; [eapply (ok_tap x y b t) with (Φ' := tap_end spec ns b);
    [done..|by intros n n' He; exact He|]|].
  { intros s (((? & ? & ?) & ?) & ?). by split_and!. }
  intros []. eapply ok_bind; [eapply (ok_bridge x y b t) with (Φ' := bridge_end spec ns bmac);
    [done..|by intros n n' He; exact He|]|].
  { intros s (? & ? & ? & ?). by split_and!. }
  intros []. eapply ok_bind; [eapply (ok_veth x y b t) with (Φ' := veth_end spec ns y b bmac);
    [done..|by intros n n' He; exact He|]|].
  { intros s (((? & ?) & ?) & ?). by split_and!. }
  intros []. apply Hrest.
Qed.

End wire.

Lemma pair_grows x y a host Φ Ψ c n n' : grows n c n' → pair x y a host Φ Ψ n → pair x y a host Φ Ψ n'.
Proof. intros H (Hne & (s & ? & ?) & (t & ? & ?)). split; [done|]. split; [exists s|exists t]; auto. Qed.

(** All links of the name are of the type, in a namespace. *)
Definition typed ns name type n : Prop := ∀ l s, links n l = Some s → ls_ns s = ns → ls_name s = name → ls_type s = type.

Lemma typed_unnamed ns name type n : ¬ named n ns name → typed ns name type n.
Proof. intros Hn l s Hs Hns Hnm. destruct Hn. by exists l, s. Qed.

Lemma typed_created ns type nm n n' :
  one_created n n' ns nm type → typed ns nm type n → typed ns nm type n'.
Proof.
  intros (_ & id & s & _ & (_ & _ & Ht & _) & _ & Hid & Hx) H l t Hl. destruct (decide (l = id)) as [->|Hne].
  - rewrite Hid in Hl. injection Hl as <-. done.
  - rewrite Hx in Hl by done. by eapply H.
Qed.
Lemma typed_other ns ns' name type nm type' n n' :
  name ≠ nm → one_created n n' ns' nm type' → typed ns name type n → typed ns name type n'.
Proof.
  intros Hne (_ & id & s & _ & (_ & Hn & _) & _ & Hid & Hx) H l t Hl Hns Hnm. destruct (decide (l = id)) as [->|Hli].
  - rewrite Hid in Hl. injection Hl as <-. congruence.
  - rewrite Hx in Hl by done. by eapply H.
Qed.

(** A mac address changes no types. *)
Lemma typed_mac ns name type l mac n n' :
  effect (LinkSetHardwareAddr l mac) n n' → typed ns name type n → typed ns name type n'.
Proof.
  intros (_ & [s Hs] & Hl & Hx) H z t Hz. destruct (decide (z = l)) as [->|Hne]; [|rewrite Hx in Hz by done; by eapply H].
  rewrite Hl, Hs in Hz. injection Hz as <-. by eapply (H l s).
Qed.

(** Two devices that are created, or exist. *)
Lemma ok_bridge_created P fmt args ns name :
  ns ≠ hm → (∀ n n', one_created n n' ns name "bridge" → P n → P n') →
  ok P (unless_exists fmt args (LinkAddBridge ns name)) (λ _, P).
Proof.
  intros Hne HP σ [] σ' E Hr HPn. split.
  { eapply (g_ready (G := stays none (λ _ _, True) none)); [|exact Hr]. revert E Hr HPn. generalize (Ret ()). intros r E Hr HPn.
    refine (guar_unless_exists P _ _ _ _ _ _ _ E Hr HPn). apply guar_request_stays.
    intros n n' (_ & _ & Hh) _ He. eapply created_evolves; [| |exact He]; [by rewrite Hh|done]. }
  apply unless_exists_inv in E as [E|(e & w & _ & _ & ->)]; [|done]. unfold request, kernel in E.
  destruct (Netlink _ _) as [[[]|e] w] eqn:En; [|done]. injection E as <-. apply request_ok in En. by eapply HP.
Qed.
Lemma ok_tap_created P fmt args ns name :
  ns ≠ hm → (∀ n n', one_created n n' ns name "tuntap" → P n → P n') →
  ok P (wrap fmt args (addTuntapInNetns ns name)) (λ _, P).
Proof.
  intros Hne HP. apply ok_wrap. intros σ [] σ' E Hr HPn. split.
  - eapply (g_ready (G := stays none (λ _ _, True) none)); [|exact Hr].
    exact (addTuntap_guar none (λ _ _, True) none P ns name Hne I _ _ _ E Hr HPn).
  - apply addTuntap_created in E as [->|Hc]; [done|by eapply HP|done].
Qed.

(** The name of the NIC is none of the driver's own names for it. *)
Definition own_named (i : string) : Prop := i = vethRenameFor i ∨ i = bridgeNameFor i.

Lemma rename_vacates x y ns a b host Φ Ψ n n' :
  ready n → a ≠ b → pair x y (ns, a) host Φ Ψ n → effect (LinkSetName x b) n n' → ¬ named n' ns a.
Proof.
  intros Hr Hab HP [(_ & _ & Hl & Hx) _] (z & s & Hz & Hns & Hnm). destruct (decide (z = x)) as [->|Hne].
  - rewrite Hl in Hz. destruct (links n x); [|done]. injection Hz as <-. by simpl in Hnm.
  - rewrite Hx in Hz by done. apply Hne. by eapply found_pod.
Qed.

Section wiring.
Context (spec : Spec) (ns : NsId) (x y : LinkId) (Hne : ns ≠ hm).
Abbreviation i := (IfaceName spec).
Abbreviation host := (vh (ContainerID spec) i).
Context (Hi : ¬ own_named i).

Definition devices n : Prop := typed ns (bridgeNameFor i) "bridge" n ∧ typed ns i "tuntap" n.

Lemma rename_wires Φ n n' :
  (∀ s, Φ s → Φ (set_name s (vethRenameFor i))) →
  ready n → pair x y (ns, i) host Φ up n ∧ unused ns [bridgeNameFor i] n → effect (LinkSetName x (vethRenameFor i)) n n' →
  ready n' ∧ pair x y (ns, vethRenameFor i) host Φ up n' ∧ devices n'.
Proof.
  intros HΦ Hr [HP Hu] He. destruct (rename_pair x y ns i (vethRenameFor i) host Φ n n' HΦ Hr Hne HP He) as [Hr' HP'].
  split; [done|]. split; [done|]. split; apply typed_unnamed.
  - apply (unused_stays none (λ _ nm, nm = i ∨ nm = vethRenameFor i) none ns [bridgeNameFor i] n); [done|done| | |done|left].
    { intros b ->%list_elem_of_singleton [E|E]; [apply Hi; by right|by apply eq_sym, vethRename_bridge in E]. }
    split; [|by rewrite (effect_fields _ _ _ He)]. destruct Hr as (_ & _ & Hh).
    apply (rename_evolves _ _ _ ns i x (vethRenameFor i)); [by left|by right| |exact He]. split; [by rewrite Hh|].
    destruct HP as (_ & (s & Hs & [= Hsn Hsm _] & _) & _). apply links_shape in Hs. rewrite Hsn, Hsm in Hs. eauto.
  - apply (rename_vacates x y ns i (vethRenameFor i) host Φ up n); [done| |done|done]. intros E. apply Hi. by left.
Qed.

Lemma bridge_devices fmt args Φ :
  ok (λ n, pair x y (ns, vethRenameFor i) host Φ up n ∧ devices n)
    (unless_exists fmt args (LinkAddBridge ns (bridgeNameFor i)))
    (λ _ n, pair x y (ns, vethRenameFor i) host Φ up n ∧ devices n).
Proof.
  apply ok_bridge_created; [done|]. intros n n' Hc (HP & H1 & H2). split; [|split].
  - eapply pair_grows; [by eapply (created_grows _ _ _ _ _ false)|done].
  - by eapply typed_created.
  - eapply typed_other; [|done|done]. intros E. apply Hi. by right.
Qed.

Lemma tap_devices fmt args P :
  (∀ n c n', grows n c n' → P n → P n') →
  ok (λ n, P n ∧ typed ns i "tuntap" n) (wrap fmt args (addTuntapInNetns ns i)) (λ _ n, P n ∧ typed ns i "tuntap" n).
Proof.
  intros HP. apply ok_tap_created; [done|]. intros n n' Hc [H1 H2].
  split; [eapply HP; [by eapply (created_grows _ _ _ _ _ false)|done]|by eapply typed_created].
Qed.

(** A lookup of a name, all of whose links are of the type. *)
Lemma ok_lookup_typed P name type fmt args :
  ok (λ n, P n ∧ typed ns name type n) (wrap fmt args (kernel (LinkByName (Some ns) name)))
    (λ l n, (P n ∧ typed ns name type n) ∧
       has (link_id l) (λ s, ls_ns s = ns ∧ ls_name s = name ∧ ls_type s = type ∧ ls_mac s = Attrs_HardwareAddr l) n).
Proof.
  eapply ok_conseq; [by intros n H; exact H| |apply ok_lookup_hw]. intros l n ([HP Ht] & s & Hs & [Hns Hnm] & Hm).
  split; [done|]. exists s. split; [done|]. split_and!; [done..|by eapply Ht|done].
Qed.
End wiring.

Lemma wireVMIBridge_wires spec ns x y old :
  let i := IfaceName spec in
  pth (NetnsPath spec) = Some ns → ¬ own_named i →
  ok (λ n, pair x y (ns, i) (vh (ContainerID spec) i) (configured old spec) up n ∧ unused ns [bridgeNameFor i] n)
    (wireVMIBridge spec) (λ _, vm_wired spec ns).
Proof.
  intros i Hp Hi. set (host := vh (ContainerID spec) i).
  unfold wireVMIBridge. eapply ok_bind; [apply ok_open|]. intros ns'. apply ok_pure. intros [Hp' Hne].
  rewrite Hp in Hp'. injection Hp' as <-. eapply ok_bind; [apply ok_wrap, ok_read, handle_view|]. intros [].
  eapply ok_bind; [apply (ok_unused none nowhere none); [done|by intros ? ? []|guar|by apply (ok_lookup_pod _ _ x y ns _ (Some ns))]|].
  intros l. apply (ok_conseq (λ n, (pair x y (ns, i) host (configured old spec) up n ∧ unused ns [bridgeNameFor i] n) ∧
    (link_id l = x ∧ ∃ s, configured old spec s ∧ Link_Type l = ls_type s)) _ (λ _, vm_wired spec ns)); [naive_solver|done|].
  apply ok_pure. intros (-> & s & Hs & ->). rewrite bool_decide_eq_false_2 by (destruct Hs as [-> _]; done).
  apply (ok_bind _ (λ _ n, pair x y (ns, i) host veth up n ∧ unused ns [bridgeNameFor i] n)).
  { apply (ok_unused none nowhere none); [done|by intros ? ? []|guar|].
    apply ok_wrap. eapply ok_pod; [done|by intros n n' He; exact He|done|]. by intros s0 [? _]. }
  intros []. apply (ok_bind _ (λ _ n, pair x y (ns, vethRenameFor i) host veth up n ∧ devices spec ns n)).
  { apply ok_wrap, ok_request. intros n n' Hr HP He. by apply (rename_wires spec ns x y Hne Hi veth n n'). }
  intros []. eapply ok_bind; [by apply bridge_devices|]. intros [].
  eapply ok_bind; [eapply ok_conseq; [| |apply (ok_lookup_typed ns
    (λ n, pair x y (ns, vethRenameFor i) host veth up n ∧ typed ns i "tuntap" n) (bridgeNameFor i) "bridge")]|].
  { intros n (? & ? & ?). exact (conj (conj H H1) H0). }
  { intros bl n H. exact H. }
  intros bl. cbv beta. set (bmac := Attrs_HardwareAddr bl). set (b := link_id bl).
  set (Px := λ s0 : link, place s0 = (ns, vethRenameFor i, Some y)).
  set (Pb := λ s0 : link, ls_ns s0 = ns ∧ ls_name s0 = bridgeNameFor i ∧ ls_type s0 = "bridge" ∧ ls_mac s0 = bmac).
  apply (ok_bind _ (λ _ n, (has x Px n ∧ has y (host_end spec x) n ∧ has b Pb n) ∧ typed ns i "tuntap" n)).
  { apply ok_and; [eapply ok_conseq; [|by intros ? ? H; exact H|apply (pin_ok spec ns x y)]; by intros n (((? & ?) & ?) & ?)|].
    apply ok_wrap, ok_request. intros n n' Hr (((_ & Ht) & _) & _) He.
    split; [by eapply (inert_ready (LinkSetHardwareAddr _ _))|by eapply typed_mac]. }
  intros []. eapply ok_bind; [apply tap_devices; [done|]|].
  { intros n c n' Hg (H1 & H2 & H3). split_and!; by eapply has_grows. }
  intros []. set (Pt := λ s0 : link, ls_ns s0 = ns ∧ ls_name s0 = i ∧ ls_type s0 = "tuntap").
  apply (ok_bind _ (λ tl n, vm x y b (link_id tl) Px (host_end spec x) Pb Pt n ∧
    x ≠ b ∧ x ≠ link_id tl ∧ b ≠ link_id tl ∧ y ≠ x ∧ y ≠ b ∧ y ≠ link_id tl)).
  { eapply ok_conseq; [by intros n H; exact H| |apply ok_lookup_typed]. intros tl n (((H1 & H2 & H3) & _) & H4).
    assert (vm x y b (link_id tl) Px (host_end spec x) Pb Pt n) as HV.
    { refine (conj H1 (conj H2 (conj H3 _))). revert H4. apply has_mono. by intros s0 (? & ? & ? & _). }
    split; [exact HV|]. eapply (vm_distinct spec ns x y Hne); [| |exact HV]; intros ?; apply Hi; [by left|by right]. }
  intros tl. apply ok_pure. intros Hd. apply links_ok; [done|]. intros _.
  apply (ok_bind _ (λ _, vm_wired spec ns)).
  { eapply ok_conseq; [|by intros ? ? H; exact H|]; cycle 1.
    - destruct (bool_decide (MAC spec = "")); [by apply ok_ret|]. destruct (ParseMAC _) as [mac|]; [|by intros ???].
      apply ok_wrap. eapply (ok_grows (vm_wired spec ns) (λ _ _, True) none); [|apply bridgeFdb_guar|apply bridgeFdb_grows].
      intros n c n' Hg (x' & y' & b' & t' & m' & HV). exists x', y', b', t', m'. by eapply vm_grows.
    - intros n HV. by exists x, y, b, (link_id tl), bmac. }
  intros _. eapply (ok_grows (vm_wired spec ns) (λ _ _, True) none); [|apply ensure_server_guar|apply ensure_server_grows].
  intros n c n' Hg (x' & y' & b' & t' & m' & HV). exists x', y', b', t', m'. by eapply vm_grows.
Qed.

End vm.

Section wires.
Context {W : Type} `{KE : Kernel W} {KL : KernelLaws W} `{DH : Dhcp4}.
Implicit Types σ : ovsAttacher W.


End wires.
