(* ===== verification/AttachSteps.v ===== *)
(** * The datapath, one call of the kernel at a time (pkg/plumbing/plumbing.go, plumbing_linux.go)

    The hooks and the retries attach and detach NICs side by side, and between two calls
    of the kernel, Open vSwitch or the table of DHCP servers anything may happen.  This file
    splits the operations of [Attach] at these calls: each one is an action of a [prog],
    which fails, panics or goes on.  A thread that switches its namespace has locked its
    OS thread and makes one call there; the switch is nobody else's business, so that the
    call, the way there and the way back are one action.  Run alone, the programs are the
    operations of [Attach]; [AttachParallel] runs them side by side. *)

From S2P Require Import Prelude Netip Sha256 Store Prog Kernel Dhcp Attach.

Section steps.
Context {W : Type} `{KE : Kernel W} `{DH : Dhcp4}.

(** ** Interruptible steps *)

Definition T (A : Type) : Type := prog (ovsAttacher W) (outcome A).

#[export] Instance T_ret : MRet T := λ A a, Prog.Ret (Ret a).
#[export] Instance T_bind : MBind T := λ A B f p,
  Prog.bind p (λ r,
    match r with
    | Ret a => f a
    | Throw e => Prog.Ret (Throw e)
    | Panic => Prog.Ret Panic
    end).

(** A step of [Attach] that nothing interrupts. *)
Definition once {A} (m : M A) : T A := act Acting m.

Definition t_fail {A} (e : error) : T A := Prog.Ret (Throw e).
Definition t_panic {A} : T A := Prog.Ret Panic.

Definition t_wrap {A} (format : string) (args : list string) (p : T A) : T A :=
  Prog.bind p (λ r, Prog.Ret (match r with Throw e => Throw (Wrapf format args e) | r => r end)).

Definition t_attempt {A} (p : T A) : T (result A) :=
  Prog.bind p (λ r, Prog.Ret (match r with Ret a => Ret (Ok a) | Throw e => Ret (Err e) | Panic => Panic end)).
Definition t_ignore {A} (p : T A) : T () := _ ← t_attempt p; mret ().

Definition t_or_else {A} (p : T A) (cleanup : T ()) : T A :=
  Prog.bind p (λ r, match r with Throw e => _ ← t_ignore cleanup; t_fail e | r => Prog.Ret r end).

Definition t_when (b : bool) (p : T ()) : T () := if b then p else mret ().

Definition t_request (r : Req NsId LinkId) : T () := once (request r).
Definition t_lookup (ns : option NsId) (name : string) : T (Link LinkId) := once (kernel (LinkByName ns name)).

Definition t_unless_exists (format : string) (args : list string) (r : Req NsId LinkId) : T () :=
  x ← t_attempt (t_request r);
  match x with
  | Ok _ => mret ()
  | Err e => if isExists e then mret () else t_fail (Wrapf format args e)
  end.

(** ** The host's end *)

Definition t_createVethPair (host pod : string) (mtu : Z) : T () :=
  existing ← t_attempt (t_lookup None host);
  match existing with
  | Ok _ => mret ()
  | Err _ =>
      _ ← t_wrap "create veth %s<->%s: %w" [host; pod]
            (t_request (LinkAddVeth host pod (if (0 <? mtu)%Z then mtu else 0%Z)));
      hostLink ← t_wrap "look up host veth %s: %w" [host] (t_lookup None host);
      _ ← t_when (0 <? mtu)%Z
            (peer ← t_attempt (t_lookup None pod);
             match peer with
             | Ok peerLink => t_ignore (t_request (LinkSetMTU (link_id peerLink) mtu))
             | Err _ => mret ()
             end);
      t_wrap "set host veth %s up: %w" [host] (t_request (LinkSetUp (link_id hostLink)))
  end.

Definition t_cleanupHostVeth (hostVeth : string) : T () :=
  l ← t_attempt (t_lookup None hostVeth);
  match l with
  | Err _ => mret ()
  | Ok link => t_wrap "delete host veth %s: %w" [hostVeth] (t_request (LinkDel (link_id link)))
  end.

(** ** The sandbox's end *)

Definition t_open_netns (path : string) : T NsId := once (open_netns path).
Definition t_open_handle (ns : NsId) (path : string) : T () := once (open_handle ns path).

Definition t_moveIntoNetns (pod netnsPath ifaceName : string) : T () :=
  ns ← t_open_netns netnsPath;
  h ← t_attempt (once (kernel (NewHandleAt ns)));
  alreadyMoved ← match h with
                 | Ok _ => x ← t_attempt (t_lookup (Some ns) ifaceName); mret (is_ok x)
                 | Err _ => mret false
                 end;
  if alreadyMoved : bool then mret ()
  else
    link ← t_wrap "look up pod veth %s: %w" [pod] (t_lookup None pod);
    _ ← t_wrap "move %s into netns %s: %w" [pod; netnsPath] (t_request (LinkSetNsFd (link_id link) ns));
    _ ← t_open_handle ns netnsPath;
    inner ← t_wrap "look up moved veth %s in netns: %w" [pod] (t_lookup (Some ns) pod);
    _ ← t_wrap "set %s down before rename: %w" [pod] (t_request (LinkSetDown (link_id inner)));
    t_wrap "rename %s -> %s in netns: %w" [pod; ifaceName] (t_request (LinkSetName (link_id inner) ifaceName)).

Definition t_primaryMTU (netnsPath : string) : T Z :=
  ns ← t_attempt (once (kernel (GetFromPath netnsPath)));
  match ns with
  | Err _ => mret 0%Z
  | Ok ns =>
      h ← t_attempt (once (kernel (NewHandleAt ns)));
      match h with
      | Err _ => mret 0%Z
      | Ok _ =>
          link ← t_attempt (t_lookup (Some ns) primaryIface);
          match link with Err _ => mret 0%Z | Ok link => mret (Attrs_MTU link) end
      end
  end.

Definition t_set_spec_mac (spec : Spec) (id : LinkId) (bad : error) (format : string) (args : list string) : T () :=
  if bool_decide (MAC spec = EmptyString) then mret ()
  else match ParseMAC (MAC spec) with
       | None => t_fail bad
       | Some mac => t_wrap format args (t_request (LinkSetHardwareAddr id mac))
       end.

Fixpoint t_add_addresses (spec : Spec) (id : LinkId) (addresses : list string) : T () :=
  match addresses with
  | [] => mret ()
  | ip :: addresses =>
      match ParseAddr ip with
      | Err e => t_fail (Wrapf "parse IP %q: %w" [ip] e)
      | Ok addr =>
          _ ← t_unless_exists "add address %s to %s: %w" [ip; IfaceName spec]
                (AddrAdd id addr (negb (is_v4 (Addr_IP addr))));
          t_add_addresses spec id addresses
      end
  end.

Fixpoint t_add_routes (spec : Spec) (id : LinkId) (routes : list Route) : T () :=
  match routes with
  | [] => mret ()
  | r :: routes =>
      match Route_parse r (Gateway spec) with
      | Err e => t_fail (Wrapf "NIC %s: %w" [IfaceName spec] e)
      | Ok (dst, gw) =>
          _ ← t_unless_exists "add route %s on %s: %w" [Destination r; IfaceName spec] (RouteAdd id dst gw);
          t_add_routes spec id routes
      end
  end.

Definition t_configurePodIface (spec : Spec) : T () :=
  ns ← t_open_netns (NetnsPath spec);
  _ ← t_open_handle ns (NetnsPath spec);
  link ← t_wrap "look up %s in netns: %w" [IfaceName spec] (t_lookup (Some ns) (IfaceName spec));
  if bool_decide (Link_Type link = "tuntap") then mret ()
  else
    _ ← t_set_spec_mac spec (link_id link) (Errorf "parse MAC %q: %w" [MAC spec]) "set MAC on %s: %w" [IfaceName spec];
    _ ← t_when (0 <? MTU spec)%Z
          (t_wrap "set MTU on %s: %w" [IfaceName spec] (t_request (LinkSetMTU (link_id link) (MTU spec))));
    _ ← t_add_addresses spec (link_id link) (IP spec :: if KubeVirtVMI spec then [] else ExtraIPs spec);
    _ ← t_wrap "set %s up: %w" [IfaceName spec] (t_request (LinkSetUp (link_id link)));
    t_add_routes spec (link_id link) (Routes spec).

(** ** Open vSwitch *)

Definition t_attachToOVS (hostVeth : string) (spec : Spec) : T () := once (attachToOVS hostVeth spec).
Definition t_detachFromOVS (hostVeth : string) : T () := once (detachFromOVS hostVeth).

Fixpoint t_detach_ports (names : list string) : T (list error) :=
  match names with
  | [] => mret []
  | name :: names =>
      x ← t_attempt (once (ovsVsctl (del_port_args None name)));
      e ← match x with
          | Err e => mret [e]
          | Ok _ => y ← t_attempt (t_cleanupHostVeth name); mret (option_list (err_of y))
          end;
      errs ← t_detach_ports names;
      mret (e ++ errs)
  end.

Definition t_DetachPodPorts (podName podNamespace : string) : T () :=
  r ← once (exec "ovs-vsctl" (find_args (pod_ids podName podNamespace)));
  match r with
  | (out, Some e) => t_fail (Wrapf "find ovs ports of pod %s/%s: %w: %s" [podNamespace; podName; trim_space out] e)
  | (out, None) =>
      errs ← t_detach_ports (Fields out);
      match errors_join (Some <$> errs) with Some e => t_fail e | None => mret () end
  end.

(** ** A VM's bridge and tap *)

Definition t_newNetnsUDP4FilterListener (netnsPath ifaceName : string) : T () :=
  ns ← t_open_netns netnsPath;
  once (in_netns ns (kernel (Listen ifaceName))).

(** The lock of the table is held for one look or one change, not in between. *)
Definition running (key : string * string) : M bool := λ σ : ovsAttacher W, (Ret (bool_decide (is_Some (dhcpServers σ !! key))), σ).
Definition record_server (key : string * string) (h : singleClientDHCPHandler) : M () := λ σ : ovsAttacher W,
  (Ret (), {| kern := kern σ; dhcpServers := <[key := h]> (dhcpServers σ) |}).
Definition forget_server (key : string * string) : M bool := λ σ : ovsAttacher W,
  (Ret (bool_decide (is_Some (dhcpServers σ !! key))),
   {| kern := kern σ; dhcpServers := delete key (dhcpServers σ) |}).

Definition t_ensure_server (spec : Spec) (bridgeName : string) : T () :=
  let key := (NetnsPath spec, bridgeName) in
  if OVNDHCP spec then mret ()
  else
    r ← once (running key);
    if r : bool then mret ()
    else match ParseCIDR (IP spec) with
    | None => t_fail (Errorf "parse Spec.IP %q for DHCP server: %w" [IP spec])
    | Some (ip, ipNet) =>
        match To4 ip with
        | None => mret ()
        | Some ip4 =>
            match ParseMAC (MAC spec) with
            | None => t_fail (Errorf "parse Spec.MAC %q for DHCP server: %w" [MAC spec])
            | Some mac =>
                match vmiDHCPOptions spec (net_mask ipNet) with
                | None => t_panic
                | Some (Err e) => t_fail e
                | Some (Ok opts) =>
                    _ ← t_wrap "start DHCP listener on %s: %w" [bridgeName]
                          (t_newNetnsUDP4FilterListener (NetnsPath spec) bridgeName);
                    once (record_server key {| serverIP := fakeDHCPServerIP; clientIP := ip4;
                                               clientMAC := mac; options := opts |})
                end
            end
        end
    end.

Definition t_stop_server (netnsPath bridgeName : string) : T () :=
  r ← once (forget_server (netnsPath, bridgeName));
  if r : bool then once (kernel (CloseListener (netnsPath, bridgeName))) else mret ().

Definition t_wireVMIBridge (spec : Spec) : T () :=
  ns ← t_open_netns (NetnsPath spec);
  _ ← t_open_handle ns (NetnsPath spec);
  let ifaceName := IfaceName spec in
  existing ← t_wrap "look up %s to wrap in a bridge: %w" [ifaceName] (t_lookup (Some ns) ifaceName);
  let bridgeName := bridgeNameFor ifaceName in
  if bool_decide (Link_Type existing = "tuntap") then t_ensure_server spec bridgeName
  else
    let vethName := vethRenameFor ifaceName in
    _ ← t_wrap "set %s down before rename: %w" [ifaceName] (t_request (LinkSetDown (link_id existing)));
    _ ← t_wrap "rename %s -> %s: %w" [ifaceName; vethName] (t_request (LinkSetName (link_id existing) vethName));
    _ ← t_unless_exists "create bridge %s: %w" [bridgeName] (LinkAddBridge ns bridgeName);
    bridgeLink ← t_wrap "look up bridge %s: %w" [bridgeName] (t_lookup (Some ns) bridgeName);
    let bridgeMAC := Attrs_HardwareAddr bridgeLink in
    _ ← t_wrap "pin bridge %s MAC: %w" [bridgeName] (t_request (LinkSetHardwareAddr (link_id bridgeLink) bridgeMAC));
    _ ← t_wrap "create tap %s: %w" [ifaceName] (once (addTuntapInNetns ns ifaceName));
    tapLink ← t_wrap "look up tap %s: %w" [ifaceName] (t_lookup (Some ns) ifaceName);
    _ ← t_set_spec_mac spec (link_id tapLink) (Errorf "parse MAC %q for tap %s: %w" [MAC spec; ifaceName])
          "set MAC %s on tap %s: %w" [MAC spec; ifaceName];
    _ ← t_wrap "copy bridge MAC onto %s: %w" [vethName] (t_request (LinkSetHardwareAddr (link_id existing) bridgeMAC));
    _ ← t_wrap "enslave %s to bridge %s: %w" [vethName; bridgeName]
          (t_request (LinkSetMaster (link_id existing) (link_id bridgeLink)));
    _ ← t_wrap "enslave tap %s to bridge %s: %w" [ifaceName; bridgeName]
          (t_request (LinkSetMaster (link_id tapLink) (link_id bridgeLink)));
    _ ← t_wrap "set %s up: %w" [vethName] (t_request (LinkSetUp (link_id existing)));
    _ ← t_wrap "set tap %s up: %w" [ifaceName] (t_request (LinkSetUp (link_id tapLink)));
    _ ← t_wrap "set bridge %s up: %w" [bridgeName] (t_request (LinkSetUp (link_id bridgeLink)));
    _ ← t_wrap "disable FDB learning on %s: %w" [vethName] (t_request (LinkSetLearning (link_id existing) false));
    _ ← (if bool_decide (MAC spec = EmptyString) then mret ()
         else match ParseMAC (MAC spec) with
              | None => t_fail (Errorf "parse MAC %q for tap %s: %w" [MAC spec; ifaceName])
              | Some mac =>
                  t_wrap "replace auto-created self FDB entry for %s on tap %s with a forwarding one: %w"
                    [MAC spec; ifaceName] (once (bridgeFdbReplaceStatic ns mac (Attrs_Name tapLink)))
              end);
    t_ensure_server spec bridgeName.

Definition t_unwireVMIBridge (spec : Spec) : T () :=
  let bridgeName := bridgeNameFor (IfaceName spec) in
  _ ← t_wrap "stop DHCP server of %s in netns %s: %w" [bridgeName; NetnsPath spec]
        (t_stop_server (NetnsPath spec) bridgeName);
  ns ← t_attempt (once (kernel (GetFromPath (NetnsPath spec))));
  match ns with
  | Err _ => mret ()
  | Ok ns =>
      _ ← t_open_handle ns (NetnsPath spec);
      tap ← t_attempt (t_lookup (Some ns) (IfaceName spec));
      _ ← match tap with
          | Ok tapLink =>
              t_when (bool_decide (Link_Type tapLink = "tuntap"))
                (t_wrap "delete tap %s: %w" [IfaceName spec] (t_request (LinkDel (link_id tapLink))))
          | Err _ => mret ()
          end;
      bridge ← t_attempt (t_lookup (Some ns) bridgeName);
      match bridge with
      | Ok bridgeLink => t_wrap "delete bridge %s: %w" [bridgeName] (t_request (LinkDel (link_id bridgeLink)))
      | Err _ => mret ()
      end
  end.

(** ** Attach and Detach *)

Definition t_names (spec : Spec) : T (string * string) := Prog.Ret (of_result (vethNames spec)).

Definition t_Attach (spec : Spec) : T () :=
  match Validate spec with
  | Some e => t_fail e
  | None =>
      '(hostVeth, podVeth) ← t_names spec;
      mtu ← (if (MTU spec =? 0)%Z then t_primaryMTU (NetnsPath spec) else mret (MTU spec));
      let spec := with_mtu spec mtu in
      _ ← t_createVethPair hostVeth podVeth (MTU spec);
      _ ← t_or_else (t_moveIntoNetns podVeth (NetnsPath spec) (IfaceName spec)) (t_cleanupHostVeth hostVeth);
      _ ← t_or_else (t_configurePodIface spec) (t_cleanupHostVeth hostVeth);
      _ ← t_or_else (t_attachToOVS hostVeth spec) (t_cleanupHostVeth hostVeth);
      t_when (KubeVirtVMI spec)
        (t_or_else (t_wireVMIBridge spec) (_ ← t_ignore (t_detachFromOVS hostVeth); t_cleanupHostVeth hostVeth))
  end.

Definition t_Detach (spec : Spec) : T () :=
  _ ← t_when (KubeVirtVMI spec) (t_unwireVMIBridge spec);
  '(hostVeth, _) ← t_names spec;
  _ ← t_detachFromOVS hostVeth;
  t_cleanupHostVeth hostVeth.

(** ** A program run alone is the operation *)

(** [p] run without interruption is [m]. *)
Definition runs {A} (p : T A) (m : M A) : Prop := ∀ σ, alone p σ = m σ.

Lemma runs_ret {A} (a : A) : runs (mret a) (mret a).
Proof. done. Qed.
Lemma runs_fail {A} e : runs (t_fail e : T A) (fail e).
Proof. done. Qed.
Lemma runs_once {A} (m : M A) : runs (once m) m.
Proof. intros σ. apply alone_act. Qed.

Lemma alone_step {A B} (p : T A) (k : outcome A → prog (ovsAttacher W) B) m σ :
  runs p m → alone (Prog.bind p k) σ = alone (k (m σ).1) (m σ).2.
Proof. intros H. rewrite <- (H σ). apply alone_bind. Qed.

Lemma runs_bind {A B} (p : T A) (f : A → T B) m (g : A → M B) :
  runs p m → (∀ a, runs (f a) (g a)) → runs (p ≫= f) (m ≫= g).
Proof.
  intros Hp Hf σ. unfold mbind, T_bind, M_bind. rewrite (alone_step _ _ _ _ Hp).
  destruct (m σ) as [[a|e|] σ1]; [apply Hf|done..].
Qed.
Lemma runs_wrap {A} format args (p : T A) m : runs p m → runs (t_wrap format args p) (wrap format args m).
Proof. intros Hp σ. unfold t_wrap, wrap. rewrite (alone_step _ _ _ _ Hp). by destruct (m σ) as [[a|e|] σ1]. Qed.
Lemma runs_attempt {A} (p : T A) m : runs p m → runs (t_attempt p) (attempt m).
Proof. intros Hp σ. unfold t_attempt, attempt. rewrite (alone_step _ _ _ _ Hp). by destruct (m σ) as [[a|e|] σ1]. Qed.
Lemma runs_ignore {A} (p : T A) m : runs p m → runs (t_ignore p) (ignore m).
Proof. intros Hp. apply runs_bind; [by apply runs_attempt|]. intros a. apply runs_ret. Qed.
Lemma runs_when b p m : runs p m → runs (t_when b p) (when b m).
Proof. by destruct b. Qed.
Lemma runs_or_else {A} (p : T A) m c d : runs p m → runs c d → runs (t_or_else p c) (or_else m d).
Proof.
  intros Hp Hc σ. unfold t_or_else, or_else. rewrite (alone_step _ _ _ _ Hp). destruct (m σ) as [[a|e|] σ1]; [done| |done].
  apply (runs_bind _ _ (ignore d) (λ _, fail e)); [by apply runs_ignore|]. intros []. apply runs_fail.
Qed.
Lemma runs_names s : runs (t_names s) (of_names s).
Proof. done. Qed.

Create HintDb runs.
#[local] Hint Resolve runs_ret runs_fail runs_names : runs.
#[local] Hint Extern 1 (runs _ _) => apply runs_once : runs.

(** Goes through a program and the operation side by side. *)
Ltac runs :=
  repeat match goal with
    | |- runs (let _ := _ in _) _ => cbv zeta
    | |- runs (_ ≫= _) (_ ≫= _) => apply runs_bind; [|intros ?]
    | |- runs (t_wrap _ _ _) _ => apply runs_wrap
    | |- runs (t_attempt _) _ => apply runs_attempt
    | |- runs (t_ignore _) _ => apply runs_ignore
    | |- runs (t_when _ _) _ => apply runs_when
    | |- runs (t_or_else _ _) _ => apply runs_or_else
    | |- runs _ _ => solve [eauto with runs]
    | |- runs (match ?x with _ => _ end) _ => destruct x
    end.

Lemma runs_unless_exists format args r : runs (t_unless_exists format args r) (unless_exists format args r).
Proof. unfold t_unless_exists, unless_exists. runs. Qed.
#[local] Hint Resolve runs_unless_exists : runs.

Lemma runs_createVethPair host pod mtu : runs (t_createVethPair host pod mtu) (createVethPair host pod mtu).
Proof. unfold t_createVethPair, createVethPair. runs. Qed.
Lemma runs_cleanupHostVeth host : runs (t_cleanupHostVeth host) (cleanupHostVeth host).
Proof. unfold t_cleanupHostVeth, cleanupHostVeth. runs. Qed.
Lemma runs_moveIntoNetns pod path iface : runs (t_moveIntoNetns pod path iface) (moveIntoNetns pod path iface).
Proof. unfold t_moveIntoNetns, moveIntoNetns. runs. Qed.
Lemma runs_primaryMTU path : runs (t_primaryMTU path) (primaryMTU path).
Proof. unfold t_primaryMTU, primaryMTU. runs. Qed.
Lemma runs_set_spec_mac s id bad format args : runs (t_set_spec_mac s id bad format args) (set_spec_mac s id bad format args).
Proof. unfold t_set_spec_mac, set_spec_mac. runs. Qed.
Lemma runs_add_addresses s id ips : runs (t_add_addresses s id ips) (add_addresses s id ips).
Proof. induction ips as [|ip ips IH]; cbn [t_add_addresses add_addresses]; runs. Qed.
Lemma runs_add_routes s id rs : runs (t_add_routes s id rs) (add_routes s id rs).
Proof.
  induction rs as [|r rs IH]; cbn [t_add_routes add_routes]; [runs|].
  destruct (Route_parse r (Gateway s)) as [[dst gw]|]; runs.
Qed.
#[local] Hint Resolve runs_createVethPair runs_cleanupHostVeth runs_moveIntoNetns runs_primaryMTU runs_set_spec_mac
  runs_add_addresses runs_add_routes : runs.

Lemma runs_configurePodIface s : runs (t_configurePodIface s) (configurePodIface s).
Proof. unfold t_configurePodIface, configurePodIface. runs. Qed.
Lemma runs_detach_ports names : runs (t_detach_ports names) (detach_ports names).
Proof. induction names as [|x names IH]; cbn [t_detach_ports detach_ports]; runs. Qed.
#[local] Hint Resolve runs_configurePodIface runs_detach_ports : runs.

Lemma runs_DetachPodPorts pod ns : runs (t_DetachPodPorts pod ns) (DetachPodPorts_ovs pod ns).
Proof.
  unfold t_DetachPodPorts, DetachPodPorts_ovs. apply runs_bind; [runs|]. intros [out [e|]]; runs.
Qed.

Lemma runs_listener path iface : runs (t_newNetnsUDP4FilterListener path iface) (newNetnsUDP4FilterListener path iface).
Proof. unfold t_newNetnsUDP4FilterListener, newNetnsUDP4FilterListener. runs. Qed.

(** Opening a listener neither panics nor touches the table of servers. *)
Lemma listener_plain path iface σ :
  (newNetnsUDP4FilterListener path iface σ).1 ≠ Panic ∧
  dhcpServers (newNetnsUDP4FilterListener path iface σ).2 = dhcpServers σ.
Proof.
  unfold newNetnsUDP4FilterListener, open_netns, in_netns, wrap, finally, kernel, mbind, M_bind.
  destruct (GetFromPath _ _) as [[ns|e] w0]; simpl; [|done].
  destruct (NsGet _) as [[o|e] w1]; simpl; [|done].
  destruct (NsSet ns _) as [[[]|e] w2]; simpl; [|by destruct (NsSet o _)].
  destruct (Listen _ _) as [[[]|e] w3]; simpl; by destruct (NsSet o _).
Qed.

Lemma runs_ensure_server s bridge : runs (t_ensure_server s bridge) (ensure_server s bridge).
Proof.
  intros σ. unfold t_ensure_server, ensure_server, ensureVMIDHCPServer. destruct σ as [w m]. cbn [dhcpServers kern].
  destruct (OVNDHCP s); [done|].
  unfold mbind at 1, T_bind at 1. rewrite (alone_step _ _ _ _ (runs_once _)). unfold running. cbn [dhcpServers fst snd].
  destruct (m !! _) as [h|] eqn:Em; [by rewrite bool_decide_eq_true_2 by eauto|].
  rewrite bool_decide_eq_false_2 by (by intros [? [=]]).
  destruct (ParseCIDR _) as [[ip n]|]; [|done]. destruct (To4 ip) as [ip4|]; [|done].
  destruct (ParseMAC _) as [mac|]; [|done]. destruct (vmiDHCPOptions _ _) as [[o|e]|]; [|done..].
  unfold mbind at 1, T_bind at 1. rewrite (alone_step _ _ _ _ (runs_wrap _ _ _ _ (runs_listener _ _))).
  unfold mbind, option_bind, as_step, wrap. destruct (listener_plain (NetnsPath s) bridge {| kern := w; dhcpServers := m |}) as [Hp Hd].
  destruct (newNetnsUDP4FilterListener _ _ _) as [[[]|e|] [w' m']]; [| |done]; simpl in Hd; by subst m'.
Qed.

Lemma runs_stop_server path bridge : runs (t_stop_server path bridge) (stop_server path bridge).
Proof.
  intros [w m]. unfold t_stop_server, stop_server, stopVMIDHCPServer. cbn [dhcpServers kern].
  unfold mbind, T_bind. rewrite (alone_step _ _ _ _ (runs_once _)). unfold forget_server. cbn [dhcpServers kern fst snd].
  destruct (m !! _) as [h|] eqn:Em.
  - rewrite bool_decide_eq_true_2 by eauto. rewrite (runs_once _ _). unfold as_step, kernel. cbn [kern dhcpServers].
    by destruct (CloseListener _ _) as [[[]|e] w'].
  - by rewrite bool_decide_eq_false_2 by (by intros [? [=]]).
Qed.
#[local] Hint Resolve runs_ensure_server runs_stop_server : runs.

Lemma runs_wireVMIBridge s : runs (t_wireVMIBridge s) (wireVMIBridge s).
Proof. unfold t_wireVMIBridge, wireVMIBridge. runs. Qed.
Lemma runs_unwireVMIBridge s : runs (t_unwireVMIBridge s) (unwireVMIBridge s).
Proof. unfold t_unwireVMIBridge, unwireVMIBridge. runs. Qed.
#[local] Hint Resolve runs_wireVMIBridge runs_unwireVMIBridge : runs.

Lemma runs_Attach s : runs (t_Attach s) (Attach_ovs s).
Proof. unfold t_Attach, Attach_ovs. runs. Qed.
Lemma runs_Detach s : runs (t_Detach s) (Detach_ovs s).
Proof. unfold t_Detach, Detach_ovs. runs. Qed.

(** Split at every call of the kernel, of Open vSwitch and of the table of DHCP servers,
    and run without interruption, Attach, Detach and DetachPodPorts have the outcome and
    the effect of the operations. *)
Theorem steps_alone s pod ns σ :
  alone (t_Attach s) σ = Attach_ovs s σ ∧ alone (t_Detach s) σ = Detach_ovs s σ ∧
  alone (t_DetachPodPorts pod ns) σ = DetachPodPorts_ovs pod ns σ.
Proof. split_and!; [apply runs_Attach|apply runs_Detach|apply runs_DetachPodPorts]. Qed.

End steps.
