(* ===== verification/AttachRely.v ===== *)
(** * What threads for different NICs may rely on

    Each NIC has names of its own on the host and in its sandbox.  What a thread that
    attaches or detaches it does is a change of links with these names, and of its port
    ([does]); what it found out about them stays true whatever is done to links with other
    names ([spares]).  This file gives the logic of such threads: [triple P p Q] says that
    the program [p] of [AttachSteps], started with [P], makes only changes of its own, and
    ends with [Q], whatever the others do between its actions. *)

From S2P Require Import Prelude Netip Store Prog Kernel Dhcp Attach NetShape AttachLogic Sandbox AttachProps AttachSteps.

(** ** What is one's own *)

Section own.
Context {W : Type} `{KE : Kernel W} {KL : KernelLaws W} {AN : Anchor NsId}.
Abbreviation net := (Net NsId LinkId).
Implicit Types n : net.

(** Links with a name in [own] and ports in [Z] may change, others stay where they are. *)
Record frame (own : NsId → string → Prop) (Z : string → Prop) n n' : Prop := {
  fr_home : home n' = home n;
  fr_paths : paths n' = paths n;
  fr_cur : cur n' = cur n;
  fr_wf : wf_net n → wf_net n';
  fr_links x ns nm p : ¬ own ns nm → shape n' x = Some (ns, nm, p) ↔ shape n x = Some (ns, nm, p);
  fr_ports p : ¬ Z p → ports n' !! p = ports n !! p;
}.

Lemma frame_mono (own own' : NsId → string → Prop) (Z Z' : string → Prop) n n' :
  (∀ ns nm, own ns nm → own' ns nm) → (∀ p, Z p → Z' p) → frame own Z n n' → frame own' Z' n n'.
Proof. intros Ho HZ [H1 H2 H3 H4 H5 H6]. split; try done; intros; (apply H5 || apply H6); eauto. Qed.

Lemma frame_ready own Z n n' : frame own Z n n' → ready n → ready n'.
Proof.
  intros [H1 H2 H3 H4 _ _] ((Hwf & [Hp Hq] & Hc) & Hpth & Hh). unfold ready, tidy_net, paths_ok.
  rewrite H1, H2, H3. auto.
Qed.

#[export] Instance frame_guarantee own Z : Guarantee (frame own Z).
Proof.
  split; [|intros n1 n2 n3 [H1 H2 H3 H4 H5 H6] [K1 K2 K3 K4 K5 K6]|apply frame_ready].
  - intros n n' Hh Hp Ho Hc Hs. split; try done; [|by intros; rewrite Hs|by rewrite Ho].
    by apply (ev_wf _ _ _ _ _ (same_shape_evolves none nowhere none n n' Hh Hp Ho Hs)).
  - split; try congruence; try tauto.
    + intros x ns nm p Hn. by rewrite K5, H5.
    + intros p Hn. by rewrite K6, H6.
Qed.

Lemma frame_named own Z n n' ns nm : frame own Z n n' → ¬ own ns nm → named n' ns nm ↔ named n ns nm.
Proof.
  intros Hf Hn. rewrite !named_shape. split; intros (x & p & Hx); exists x, p; by apply (fr_links _ _ _ _ Hf).
Qed.

(** A change of links is within bounds when each link that changes was and is one's own. *)
Definition owned (own : NsId → string → Prop) (o : option (NsId * string * option LinkId)) : Prop :=
  match o with Some (ns, nm, _) => own ns nm | None => True end.

Lemma frame_intro own Z n n' :
  n' = with_links n (links n') → (wf_net n → wf_net n') →
  (∀ x, shape n' x = shape n x ∨ owned own (shape n x) ∧ owned own (shape n' x)) → frame own Z n n'.
Proof.
  intros E Hwf Hx. split; [by rewrite E..|done| |by rewrite E]. intros x ns nm p Hn.
  destruct (Hx x) as [->|[H1 H2]]; [done|]. split; intros H; [rewrite H in H2|rewrite H in H1]; done.
Qed.

Lemma frame_ports own Z n q : (∀ p, ¬ Z p → q !! p = ports n !! p) → frame own Z n (with_ports n q).
Proof. intros H. split; try done. by intros [H1 H2 H3 H4]. Qed.

(** What the driver may have named for a NIC, on the host and in the sandbox. *)
Definition mine (s : Spec) (ns : NsId) (nm : string) : Prop :=
  ns = hm ∧ host_names s nm ∨ ns ≠ hm ∧ pod_names s ns nm.

(** The peer of a device of the NIC is a device of the NIC. *)
Definition tethered (s : Spec) n : Prop :=
  ∀ x y ns nm ns' nm' p, mine s ns nm → shape n x = Some (ns, nm, Some y) → shape n y = Some (ns', nm', p) →
    mine s ns' nm'.

(** What a thread for the NIC does, and what it expects of the others. *)
Definition does (s : Spec) n n' : Prop :=
  frame (mine s) (port_name s) n n' ∧ (ready n → tethered s n → tethered s n').
Definition spares (s : Spec) : net → net → Prop := frame (λ ns nm, ¬ mine s ns nm) (λ p, ¬ port_name s p).

#[export] Instance does_guarantee s : Guarantee (does s).
Proof.
  split.
  - intros n n' Hh Hp Ho Hc Hs. split; [by apply g_config|]. intros _ Ht x y. rewrite !Hs. apply Ht.
  - intros n1 n2 n3 [F1 T1] [F2 T2]. split; [by eapply g_trans|]. intros Hr Ht. apply T2; [by eapply frame_ready|auto].
  - intros n n' [F _]. by apply frame_ready with (own := mine s) (Z := port_name s).
Qed.

(** NICs with nothing in common but the node. *)
Definition unrelated (s t : Spec) : Prop :=
  vh (ContainerID s) (IfaceName s) ≠ vh (ContainerID t) (IfaceName t) ∧
  (NetnsPath s = NetnsPath t → ∀ nm, nm ∈ own_names s → nm ∉ own_names t).

Definition single_paths : Prop := ∀ p q ns, pth p = Some ns → pth q = Some ns → p = q.

Lemma unrelated_mine s t ns nm : single_paths → unrelated s t → mine s ns nm → ¬ mine t ns nm.
Proof.
  intros Hsp [Hk Hn] [[-> H]|[Hne [Hp H]]] [[E H']|[E [Hp' H']]]; try done.
  - destruct H as [->| ->], H' as [E'|E']; [done|by apply vh_vc in E'|by apply eq_sym, vh_vc in E'|by apply Hk, vh_eq_vc_eq].
  - by apply (Hn (Hsp _ _ _ Hp Hp') nm).
Qed.

Lemma does_spares s t n n' : single_paths → unrelated s t → does s n n' → spares t n n'.
Proof.
  intros Hsp Ha [F _]. eapply frame_mono; [| |exact F]; [intros ns nm; by apply unrelated_mine|].
  intros p -> Hp. destruct Ha as [Hk _]. by apply Hk.
Qed.

Lemma ready_single n : ready n → single_paths.
Proof. intros ((_ & [_ H] & _) & Hp & _). unfold single_paths. by rewrite <- Hp. Qed.

Lemma spares_named s n n' ns nm : spares s n n' → mine s ns nm → named n' ns nm ↔ named n ns nm.
Proof. intros H Hm. apply (frame_named _ _ _ _ _ _ H). by intros ?. Qed.

Lemma spares_shape s n n' x ns nm p : spares s n n' → mine s ns nm → shape n' x = Some (ns, nm, p) ↔ shape n x = Some (ns, nm, p).
Proof. intros H Hm. apply (fr_links _ _ _ _ H). by intros ?. Qed.

Lemma mine_vh s : mine s hm (vh (ContainerID s) (IfaceName s)).
Proof. left. split; [done|]. by left. Qed.
Lemma mine_vc s : mine s hm (vc (ContainerID s) (IfaceName s)).
Proof. left. split; [done|]. by right. Qed.

(** The peer is there, and one's own. *)
Lemma peer_mine s n x y ns nm :
  ready n → tethered s n → mine s ns nm → shape n x = Some (ns, nm, Some y) →
  ∃ ns' nm', shape n y = Some (ns', nm', Some x) ∧ mine s ns' nm'.
Proof.
  intros ((Hwf & _) & _) Ht Hm Hx. destruct (wf_mutual _ Hwf _ _ _ _ Hx) as (ns' & nm' & Hy). exists ns', nm'.
  split; [done|]. by eapply Ht.
Qed.

Lemma tethered_spares s n n' : ready n → spares s n n' → tethered s n → tethered s n'.
Proof.
  intros Hr Hs Ht x y ns nm ns' nm' p Hm Hx Hy. apply (spares_shape _ _ _ _ _ _ _ Hs Hm) in Hx.
  destruct (peer_mine _ _ _ _ _ _ Hr Ht Hm Hx) as (a & b & Hy' & Hm'). apply (spares_shape _ _ _ _ _ _ _ Hs Hm') in Hy'.
  rewrite Hy in Hy'. by injection Hy' as -> -> ->.
Qed.

(** ** What the requests of a thread do *)

Lemma shape_links n x ns nm p :
  shape n x = Some (ns, nm, p) → ∃ st, links n x = Some st ∧ ls_ns st = ns ∧ ls_name st = nm ∧ ls_peer st = p.
Proof. unfold shape. intros (st & Hs & [= -> -> ->])%fmap_Some. eauto. Qed.

(** A request that changes links: the well-formedness is that of [evolves]. *)
Lemma does_intro s n n' X Y Z :
  ready n → n' = with_links n (links n') → evolves X Y Z n n' →
  (∀ x, shape n' x = shape n x ∨ owned (mine s) (shape n x) ∧ owned (mine s) (shape n' x)) →
  (tethered s n → tethered s n') → does s n n'.
Proof.
  intros Hr E Hev Hx Ht. split; [|auto]. apply frame_intro; [done|apply (ev_wf _ _ _ _ _ Hev)|done].
Qed.

Lemma does_veth s n n' mtu :
  let c := ContainerID s in let i := IfaceName s in
  ready n → effect (LinkAddVeth (vh c i) (vc c i) mtu) n n' → does s n n'.
Proof.
  intros c i Hr He. destruct (Hr) as ((_ & _ & Hc) & _ & Hh). eapply does_intro; [done|exact (effect_fields _ _ _ He)| | |].
  { apply (veth_evolves (λ _, True) nowhere none n n' c i mtu); done. }
  all: destruct He as (Ha & _ & _ & x1 & x2 & u & v & Hne & H1 & H2 & (U1 & U2 & _ & U3 & _) & (V1 & V2 & _ & V3 & _) & _ & L1 & L2 & Hx);
    rewrite Hc, Hh in *.
  - intros x. unfold shape. destruct (decide (x = x1)) as [->|N1].
    { right. rewrite H1, L1. simpl. rewrite U1, U2. split; [done|apply mine_vh]. }
    destruct (decide (x = x2)) as [->|N2]; [|left; by rewrite Hx].
    right. rewrite H2, L2. simpl. rewrite V1, V2. split; [done|apply mine_vc].
  - intros Ht x y ns nm ns' nm' p Hm Hsx Hsy.
    assert (y = x1 ∨ y = x2 ∨ shape n' y = shape n y ∧ y ≠ x1 ∧ y ≠ x2) as Hy.
    { destruct (decide (y = x1)), (decide (y = x2)); auto. right; right. split; [|done]. unfold shape. by rewrite Hx. }
    destruct Hy as [->|[->|(Hy & Hy1 & Hy2)]].
    + unfold shape in Hsy. rewrite L1 in Hsy. simpl in Hsy. rewrite U1, U2 in Hsy. injection Hsy as <- <- _. apply mine_vh.
    + unfold shape in Hsy. rewrite L2 in Hsy. simpl in Hsy. rewrite V1, V2 in Hsy. injection Hsy as <- <- _. apply mine_vc.
    + rewrite Hy in Hsy. eapply Ht; [exact Hm| |exact Hsy]. unfold shape in *.
      destruct (decide (x = x1)) as [->|]; [rewrite L1 in Hsx; simpl in Hsx; congruence|].
      destruct (decide (x = x2)) as [->|]; [rewrite L2 in Hsx; simpl in Hsx; congruence|]. by rewrite Hx in Hsx.
Qed.

(** One link changes its place, to a name of one's own off the host. *)
Lemma does_move s r n n' l ns nm p ns' nm' X Y Z :
  ready n → effect r n n' → evolves X Y Z n n' → shape n l = Some (ns, nm, p) → mine s ns nm →
  ns' ≠ hm → pod_names s ns' nm' → shape n' l = Some (ns', nm', p) → (∀ x, x ≠ l → shape n' x = shape n x) → does s n n'.
Proof.
  intros Hr He Hev Hl Hm Hne Hn' Hl' Hx. eapply does_intro; [done|exact (effect_fields _ _ _ He)|exact Hev| |].
  - intros x. destruct (decide (x = l)) as [->|]; [|left; by apply Hx]. right. rewrite Hl, Hl'. split; [done|]. by right.
  - intros Ht x y a b a' b' q Hab Hsx Hsy.
    destruct (decide (y = l)) as [->|Hyl]; [rewrite Hl' in Hsy; injection Hsy as <- <- _; by right|]. rewrite Hx in Hsy by done.
    destruct (decide (x = l)) as [->|Hxl]; [|rewrite Hx in Hsx by done; by apply (Ht x y a b a' b' q)].
    rewrite Hl' in Hsx. injection Hsx as _ _ ->. by apply (Ht l y ns nm a' b' q).
Qed.

Lemma does_setns s n n' l ns p :
  ready n → shape n l = Some (hm, vc (ContainerID s) (IfaceName s), p) → pth (NetnsPath s) = Some ns → ns ≠ hm →
  effect (LinkSetNsFd l ns) n n' → does s n n'.
Proof.
  intros Hr Hl Hp Hne He. destruct (Hr) as (_ & _ & Hh). destruct (shape_links _ _ _ _ _ Hl) as (st & Hst & H1 & H2 & H3).
  assert (evolves (λ _, True) (λ _ _, True) none n n') as Hev.
  { eapply (setns_evolves (λ _, True) (λ _ _, True) none l ns st (ContainerID s) (IfaceName s)); try done; congruence. }
  destruct (He) as [(_ & _ & Hl' & Hx) _]. rewrite Hst in Hl'.
  eapply (does_move s _ n n' l _ _ _ ns (vc (ContainerID s) (IfaceName s))); [done|exact He|exact Hev|exact Hl|apply mine_vc|done| | |].
  - split; [done|]. unfold own_names. set_solver.
  - unfold shape. rewrite Hl'. rewrite <- H2, <- H3. done.
  - intros x Hxl. unfold shape. by rewrite Hx.
Qed.

Lemma does_rename s n n' l ns nm p nm' :
  ready n → shape n l = Some (ns, nm, p) → ns ≠ hm → pod_names s ns nm → pod_names s ns nm' →
  effect (LinkSetName l nm') n n' → does s n n'.
Proof.
  intros Hr Hl Hne Hn Hn' He. destruct (Hr) as (_ & _ & Hh). destruct (shape_links _ _ _ _ _ Hl) as (st & Hst & H1 & H2 & H3).
  assert (evolves none (λ _ _, True) none n n') as Hev.
  { eapply (rename_evolves none (λ _ _, True) none ns nm l nm'); [done|done| |done]. split; [by rewrite Hh|eauto]. }
  destruct (He) as [(_ & _ & Hl' & Hx) _]. rewrite Hst in Hl'.
  eapply (does_move s _ n n' l _ _ _ ns nm'); [done|exact He|exact Hev|exact Hl|by right|done|done| |].
  - unfold shape. rewrite Hl'. rewrite <- H1, <- H3. done.
  - intros x Hxl. unfold shape. by rewrite Hx.
Qed.

Lemma does_del s n n' l ns nm p :
  ready n → tethered s n → mine s ns nm → shape n l = Some (ns, nm, p) → effect (LinkDel l) n n' → does s n n'.
Proof.
  intros Hr Ht Hm Hl He. destruct (del_shape _ _ _ He) as (a & b & q & Hl0 & E & Hl' & Hp & Hx).
  rewrite Hl in Hl0. injection Hl0 as <- <- <-. split; [apply frame_intro; [done|by apply del_wf with l|]|].
  - intros x. destruct (decide (x = l)) as [->|Hxl]; [right; by rewrite Hl, Hl'|].
    destruct (decide (p = Some x)) as [->|Hxp]; [|left; by apply Hx]. right. rewrite Hp by done.
    destruct (peer_mine _ _ _ _ _ _ Hr Ht Hm Hl) as (ns' & nm' & -> & Hm'). done.
  - intros _ _ x y a b a' b' r Hab Hsx%(del_old _ _ _ _ _ He) Hsy%(del_old _ _ _ _ _ He). by apply (Ht x y a b a' b' r).
Qed.

Lemma does_created s n n' ns nm type :
  ready n → tethered s n → ns ≠ hm → pod_names s ns nm → one_created n n' ns nm type → does s n n'.
Proof.
  intros Hr Ht Hne Hn Hc. destruct (Hr) as (_ & _ & Hh).
  assert (evolves none (λ _ _, True) none n n') as Hev by (eapply created_evolves; [|done|exact Hc]; by rewrite Hh).
  destruct Hc as (_ & id & st & Hid & (C1 & C2 & _ & C3 & _) & E & Hn' & Hx).
  assert (∀ x, x ≠ id → shape n' x = shape n x) as Hsame by (intros x ?; unfold shape; by rewrite Hx).
  eapply does_intro; [done|exact E|exact Hev| |].
  - intros x. destruct (decide (x = id)) as [->|]; [|left; by apply Hsame].
    right. unfold shape. rewrite Hid, Hn'. simpl. rewrite C1, C2. split; [done|]. by right.
  - intros _ x y a b a' b' q Hab Hsx Hsy. destruct (decide (x = id)) as [->|Hxi].
    { unfold shape in Hsx. rewrite Hn' in Hsx. simpl in Hsx. rewrite C3 in Hsx. congruence. }
    rewrite Hsame in Hsx by done. destruct (decide (y = id)) as [->|Hyi]; [|rewrite Hsame in Hsy by done; by apply (Ht x y a b a' b' q)].
    destruct (peer_mine _ _ _ _ _ _ Hr Ht Hab Hsx) as (a2 & b2 & Hy & _). unfold shape in Hy. by rewrite Hid in Hy.
Qed.

Lemma does_ports s n q : (∀ p, ¬ port_name s p → q !! p = ports n !! p) → does s n (with_ports n q).
Proof. intros H. split; [by apply frame_ports|]. by intros _ Ht. Qed.

End own.

(** ** A logic for interruptible steps *)

(** Nothing but configuration changes. *)
Section still.
Context {W : Type} `{KE : Kernel W} {KL : KernelLaws W} `{DH : Dhcp4} {AN : Anchor NsId}.
Abbreviation net := (Net NsId LinkId).
Implicit Types (n : net) (σ : ovsAttacher W).

Definition still n n' : Prop :=
  home n' = home n ∧ paths n' = paths n ∧ ports n' = ports n ∧ cur n' = cur n ∧ ∀ x, shape n' x = shape n x.

Lemma still_any (G : net → net → Prop) `{!Guarantee G} n n' : still n n' → G n n'.
Proof. intros (H1 & H2 & H3 & H4 & H5). by apply g_config. Qed.

#[export] Instance still_guarantee : Guarantee still.
Proof.
  split; [done| |].
  - intros n1 n2 n3 (H1 & H2 & H3 & H4 & H5) (K1 & K2 & K3 & K4 & K5). split_and!; try congruence.
  - intros n n' H. apply (g_ready (G := frame nowhere none)). exact (still_any (frame nowhere none) _ _ H).
Qed.

(** The steps in another namespace that leave the links alone. *)
Lemma away_still {A} P ns (body : M A) :
  (∀ σ r σ', body σ = (r, σ') → vw σ' = vw σ) → guar P (in_netns ns body) still.
Proof.
  intros Hb σ r σ' E Hr _. destruct (in_netns_view _ _ _ _ _ E Hr) as [->|(σ1 & x & σ2 & E1 & H1 & H2)]; [apply g_refl|].
  apply Hb in E1. rewrite E1, H1 in H2. rewrite (H2 eq_refl). destruct Hr as ((_ & _ & Hc) & _). by split_and!.
Qed.

Lemma fdb_still P ns mac name : guar P (bridgeFdbReplaceStatic ns mac name) still.
Proof.
  apply away_still. intros σ r σ' E. unfold mbind, M_bind, exec in E. destruct (Exec _ _ _) as [[out e] w] eqn:Ee.
  apply exec_bridge in Ee. by destruct e; injection E as _ <-.
Qed.

Lemma listen_still P ns name : guar P (in_netns ns (kernel (Listen name))) still.
Proof.
  apply away_still. intros σ r σ' E. unfold kernel in E. destruct (Listen _ _) as [x w] eqn:El. apply listen_view in El.
  by injection E as _ <-.
Qed.

Lemma running_still P key : guar P (running key) still.
Proof. intros σ r σ' [= _ <-] _ _. apply g_refl. Qed.
Lemma record_still P key h : guar P (record_server key h) still.
Proof. intros σ r σ' [= _ <-] _ _. apply g_refl. Qed.

Lemma forget_still P key : guar P (forget_server key) still.
Proof. intros σ r σ' [= _ <-] _ _. apply g_refl. Qed.

(** The namespace of a path, if it can be opened. *)
Lemma post_attempt_path P path :
  post P (attempt (kernel (GetFromPath path)))
    (λ r n, P n ∧ match r with Ok ns => pth path = Some ns ∧ ns ≠ hm | Err _ => True end).
Proof.
  intros σ a σ' E (Ht & Hp & Hh) HP. unfold attempt, kernel in E.
  destruct (GetFromPath path (kern σ)) as [[ns|e] w] eqn:Er; apply path_view in Er as [Hv Hns];
    injection E as <- <-; unfold vw in *; simpl; rewrite Hv; (split; [done|]); [|done].
  specialize (Hns ns eq_refl). rewrite <- Hp. split; [done|]. rewrite <- Hh. destruct Ht as (_ & [H _] & _). by apply (H path).
Qed.

End still.

Section triples.
Context {W : Type} `{KE : Kernel W} {KL : KernelLaws W} `{DH : Dhcp4} {AN : Anchor NsId} (s : Spec).
Abbreviation net := (Net NsId LinkId).
Implicit Types (n : net) (σ : ovsAttacher W) (P : net → Prop).

(** What a thread for [s] always knows. *)
Definition sane n : Prop := ready n ∧ tethered s n.

Lemma sane_does n n' : does s n n' → sane n → sane n'.
Proof. intros Hd [Hr Ht]. split; [by apply (g_ready (G := does s) n)|]. by apply (proj2 Hd). Qed.
Lemma sane_spares n n' : spares s n n' → sane n → sane n'.
Proof. intros Hd [Hr Ht]. split; [by eapply frame_ready|by eapply tethered_spares]. Qed.

(** What the others leave true. *)
Definition stable P : Prop := ∀ n n', sane n → spares s n n' → P n → P n'.

(** Each action of the program is one a thread for [s] may make, whatever the others did
    before, and at its end [Q] holds. *)
Fixpoint safe {A} (p : prog (ovsAttacher W) A) (Q : A → net → Prop) σ : Prop :=
  match p with
  | Prog.Ret a => Q a (vw σ)
  | Act _ f next => does s (vw σ) (vw (f σ)) ∧ ∀ σ1, spares s (vw (f σ)) (vw σ1) → safe (next σ) Q σ1
  end.

Definition triple {A} P (p : T A) (Q : outcome A → net → Prop) : Prop :=
  ∀ σ, sane (vw σ) → P (vw σ) → safe p (λ o n, sane n ∧ Q o n) σ.

(** A postcondition of success only. *)
Definition yields {A} (Q : A → net → Prop) (o : outcome A) n : Prop :=
  match o with Ret a => Q a n | _ => True end.

Lemma safe_bind {A B} (p : prog (ovsAttacher W) A) (k : A → prog (ovsAttacher W) B) Q R σ :
  safe p Q σ → (∀ a σ', Q a (vw σ') → safe (k a) R σ') → safe (Prog.bind p k) R σ.
Proof.
  intros Hp Hk. revert σ Hp. induction p as [a|l f next IH]; intros σ Hp; [by apply Hk|].
  destruct Hp as [Hd Hn]. split; [done|]. intros σ1 Hs. apply IH, Hn, Hs.
Qed.

Lemma safe_mono {A} (p : prog (ovsAttacher W) A) (Q Q' : A → net → Prop) σ :
  (∀ a n, Q a n → Q' a n) → safe p Q σ → safe p Q' σ.
Proof.
  intros HQ. revert σ. induction p as [a|l f next IH]; intros σ; [apply HQ|].
  intros [Hd Hn]. split; [done|]. intros σ1 H1. by apply IH, Hn.
Qed.

Lemma triple_conseq {A} P P' (p : T A) Q Q' :
  (∀ n, P' n → P n) → (∀ o n, Q o n → Q' o n) → triple P p Q → triple P' p Q'.
Proof. intros HP HQ H σ Hs Hp. eapply safe_mono; [|by apply H, HP]. intros o n [? ?]. auto. Qed.

Lemma triple_ret {A} P (a : A) (Q : A → net → Prop) : (∀ n, P n → Q a n) → triple P (mret a) (yields Q).
Proof. intros H σ Hs HP. split; [done|]. by apply H. Qed.
Lemma triple_fail {A} P e (Q : A → net → Prop) : triple P (t_fail e) (yields Q).
Proof. by intros σ Hs HP. Qed.
Lemma triple_panic {A} P (Q : A → net → Prop) : triple P t_panic (yields Q).
Proof. by intros σ Hs HP. Qed.

Lemma triple_bind {A B} P (p : T A) (f : A → T B) Q R :
  triple P p (yields Q) → (∀ a, triple (Q a) (f a) (yields R)) → triple P (p ≫= f) (yields R).
Proof.
  intros Hp Hf σ Hs HP. eapply safe_bind; [by apply Hp|]. intros [a|e|] σ' [Hs' H]; [by apply Hf|done..].
Qed.

Lemma triple_wrap {A} P fmt args (p : T A) Q : triple P p (yields Q) → triple P (t_wrap fmt args p) (yields Q).
Proof. intros Hp σ Hs HP. eapply safe_bind; [by apply Hp|]. by intros [a|e|] σ' H. Qed.

Lemma triple_attempt {A} P (p : T A) Q :
  triple P p (λ o n, match o with Ret a => Q (Ok a) n | Throw e => Q (Err e) n | Panic => True end) →
  triple P (t_attempt p) (yields Q).
Proof. intros Hp σ Hs HP. eapply safe_bind; [by apply Hp|]. by intros [a|e|] σ' H. Qed.

Lemma triple_or_else {A} P (p : T A) c Q :
  triple P p (yields Q) → triple top c (yields (λ _, top)) → triple P (t_or_else p c) (yields Q).
Proof.
  intros Hp Hc σ Hs HP. eapply safe_bind; [by apply Hp|]. intros [a|e|] σ' [Hs' H]; [done| |done].
  eapply (triple_bind _ _ _ (λ _, top)); [|by intros; apply triple_fail|done|done].
  apply (triple_bind _ _ _ (λ _, top)); [|intros; by apply triple_ret]. apply triple_attempt.
  eapply triple_conseq; [done| |exact Hc]. by intros [].
Qed.

Lemma triple_when P b (p : T ()) : triple P p (yields (λ _, P)) → triple P (t_when b p) (yields (λ _, P)).
Proof. destruct b; [done|]. intros _. by apply triple_ret. Qed.

Lemma triple_pure {A} (φ : Prop) P (p : T A) Q : (φ → triple P p Q) → triple (λ n, P n ∧ φ) p Q.
Proof. intros H σ Hs [HP Hφ]. by apply H. Qed.

(** A step of [Attach]: the logic of [AttachLogic] tells what it does. *)
Lemma triple_once {A} P (m : M A) (Q : A → net → Prop) :
  guar (λ n, P n ∧ tethered s n) m (does s) → post (λ n, P n ∧ tethered s n) m Q → (∀ a, stable (Q a)) →
  triple P (once m) (yields Q).
Proof.
  intros Hg Hp Hst σ [Hr Ht] HP. destruct (m σ) as [o σ'] eqn:E.
  assert (does s (vw σ) (vw σ')) as Hd by (by eapply Hg). simpl. rewrite E. simpl. split; [done|].
  assert (sane (vw σ')) as Hs' by (eapply sane_does; [exact Hd|by split]). intros σ1 H1. split; [by eapply sane_spares|].
  destruct o as [a|e|]; [|done..]. eapply Hst; [done..|]. by eapply Hp.
Qed.

(** A step whose error is inspected is one action, too. *)
Lemma triple_attempt_once {A} P (m : M A) Q : triple P (once (attempt m)) (yields Q) → triple P (t_attempt (once m)) (yields Q).
Proof.
  intros H σ Hs HP. specialize (H σ Hs HP). revert H. unfold t_attempt, once. simpl. unfold attempt.
  by destruct (m σ) as [[a|e|] σ'].
Qed.

Lemma triple_read {A} P (m : M A) Q :
  guar P m still → post P m Q → (∀ a, stable (Q a)) → triple P (once m) (yields Q).
Proof.
  intros Hg Hp HQ. apply triple_once; [| |done].
  - intros σ r σ' E Hr [H _]. apply still_any; [apply _|]. by eapply Hg.
  - intros σ a σ' E Hr [H _]. by eapply Hp.
Qed.

(** *** Programs that only read and configure *)

(** What the others leave true such a program leaves true, however it ends. *)
Definition calm {A} (p : T A) : Prop := ∀ P, stable P → triple P p (λ _, P).

Lemma calm_ret {A} (a : A) : calm (mret a).
Proof. by intros P _ σ Hs HP. Qed.
Lemma calm_fail {A} e : calm (t_fail e : T A).
Proof. by intros P _ σ Hs HP. Qed.
Lemma calm_panic {A} : calm (t_panic : T A).
Proof. by intros P _ σ Hs HP. Qed.

Lemma calm_once {A} (m : M A) : guar top m still → calm (once m).
Proof.
  intros Hg P HP σ Hs H. destruct (m σ) as [o σ'] eqn:E. assert (still (vw σ) (vw σ')) as Hd by (by eapply Hg; [|destruct Hs|]).
  simpl. rewrite E. simpl. assert (does s (vw σ) (vw σ')) as Hd' by (by apply still_any; [apply _|]). split; [done|].
  assert (sane (vw σ')) as Hs' by (by eapply sane_does). intros σ1 H1. split; [by eapply sane_spares|].
  eapply HP; [exact Hs'|done|]. eapply HP; [exact Hs| |done]. apply still_any; [apply _|done].
Qed.

Lemma calm_then {A B} (p : T A) (k : outcome A → prog (ovsAttacher W) (outcome B)) :
  calm p → (∀ o, calm (k o : T B)) → calm (Prog.bind p k : T B).
Proof. intros Hp Hk P HP σ Hs H. eapply safe_bind; [by apply Hp|]. intros o σ' [Hs' H']. by apply Hk. Qed.

Lemma calm_bind {A B} (p : T A) (f : A → T B) : calm p → (∀ a, calm (f a)) → calm (p ≫= f).
Proof. intros Hp Hf. apply calm_then; [done|]. intros [a|e|]; [done|apply calm_fail|apply calm_panic]. Qed.
Lemma calm_wrap {A} fmt args (p : T A) : calm p → calm (t_wrap fmt args p).
Proof. intros Hp. apply calm_then; [done|]. by intros o P HP σ Hs H. Qed.
Lemma calm_attempt {A} (p : T A) : calm p → calm (t_attempt p).
Proof. intros Hp. apply calm_then; [done|]. by intros o P HP σ Hs H. Qed.
Lemma calm_ignore {A} (p : T A) : calm p → calm (t_ignore p).
Proof. intros Hp. apply calm_bind; [by apply calm_attempt|]. intros a. apply calm_ret. Qed.
Lemma calm_when b p : calm p → calm (t_when b p).
Proof. destruct b; [done|]. intros _. apply calm_ret. Qed.

Lemma calm_triple {A} P (p : T A) : stable P → calm p → triple P p (yields (λ _, P)).
Proof. intros HP Hp. eapply triple_conseq; [done| |by apply Hp]. by intros [a|e|] n. Qed.

Lemma calm_lookup o name : calm (t_lookup o name).
Proof. apply calm_once, guar_lookup. Qed.
Lemma calm_open path : calm (t_open_netns path).
Proof. apply calm_once, guar_open. Qed.
Lemma calm_handle ns path : calm (t_open_handle ns path).
Proof. apply calm_once, guar_handle. Qed.
Lemma calm_request r : inert r = true → calm (t_request r).
Proof. intros H. by apply calm_once, guar_inert. Qed.
Lemma calm_unless_exists fmt args r : inert r = true → calm (t_unless_exists fmt args r).
Proof.
  intros H. apply calm_bind; [by apply calm_attempt, calm_request|]. intros [x|e]; [apply calm_ret|].
  destruct (isExists e); [apply calm_ret|apply calm_fail].
Qed.

End triples.

Create HintDb calm.
Create HintDb stable.
#[export] Hint Resolve calm_ret calm_fail calm_panic calm_lookup calm_open calm_handle : calm.
#[export] Hint Extern 1 (calm _ (t_request _)) => apply calm_request; reflexivity : calm.
#[export] Hint Extern 1 (calm _ (t_unless_exists _ _ _)) => apply calm_unless_exists; reflexivity : calm.
#[export] Hint Extern 1 (calm _ (once (kernel (NewHandleAt _)))) => apply calm_once, guar_read, handle_view : calm.
#[export] Hint Extern 1 (calm _ (once (kernel (GetFromPath _)))) => apply calm_once, guar_read, path_same : calm.

(** Runs through a program that reads and configures. *)
Ltac calm :=
  repeat match goal with
    | |- calm _ (let _ := _ in _) => cbv zeta
    | |- calm _ (_ ≫= _) => apply calm_bind; [|intros]
    | |- calm _ (t_wrap _ _ _) => apply calm_wrap
    | |- calm _ (t_attempt _) => apply calm_attempt
    | |- calm _ (t_ignore _) => apply calm_ignore
    | |- calm _ (t_when _ _) => apply calm_when
    | |- calm _ _ => solve [eauto with calm]
    | |- calm _ (match ?x with _ => _ end) => destruct x
    end.

(** ** The steps of Attach *)

Section attach.
Context {W : Type} `{KE : Kernel W} {KL : KernelLaws W} `{DH : Dhcp4} {AN : Anchor NsId} (s : Spec).
Abbreviation net := (Net NsId LinkId).
Implicit Types (n : net) (σ : ovsAttacher W) (P : net → Prop).

Lemma primaryMTU_calm path : calm s (t_primaryMTU path).
Proof. unfold t_primaryMTU. calm. Qed.
Lemma set_spec_mac_calm t id bad fmt args : calm s (t_set_spec_mac t id bad fmt args).
Proof. unfold t_set_spec_mac. calm. Qed.
Lemma add_addresses_calm t id ips : calm s (t_add_addresses t id ips).
Proof. induction ips as [|ip ips IH]; cbn [t_add_addresses]; calm. Qed.
Lemma add_routes_calm t id rs : calm s (t_add_routes t id rs).
Proof.
  induction rs as [|r rs IH]; cbn [t_add_routes]; [calm|]. destruct (Route_parse r (Gateway t)) as [[dst gw]|]; calm.
Qed.
#[local] Hint Resolve set_spec_mac_calm add_addresses_calm add_routes_calm : calm.

Lemma configurePodIface_calm t : calm s (t_configurePodIface t).
Proof. unfold t_configurePodIface. calm. Qed.

Lemma ensure_server_calm t bridge : calm s (t_ensure_server t bridge).
Proof.
  unfold t_ensure_server. cbv zeta. destruct (OVNDHCP t); [calm|]. apply calm_bind; [apply calm_once, running_still|].
  intros [|]; [calm|]. destruct (ParseCIDR _) as [[ip m]|]; [|calm]. destruct (To4 ip); [|calm].
  destruct (ParseMAC _); [|calm]. destruct (vmiDHCPOptions _ _) as [[o|e]|]; [|calm..].
  apply calm_bind; [|intros; apply calm_once, record_still]. apply calm_wrap. unfold t_newNetnsUDP4FilterListener.
  apply calm_bind; [calm|]. intros ns. apply calm_once, listen_still.
Qed.

Lemma stop_server_calm path bridge : calm s (t_stop_server path bridge).
Proof.
  unfold t_stop_server. apply calm_bind; [apply calm_once, forget_still|]. intros [|]; [|calm].
  apply calm_once, guar_read, close_view.
Qed.

(** *** What the others leave true *)

Abbreviation c := (ContainerID s).
Abbreviation i := (IfaceName s).
Abbreviation stable := (AttachRely.stable s).

Lemma stable_and P Q : stable P → stable Q → stable (λ n, P n ∧ Q n).
Proof. intros HP HQ n n' Hs H [? ?]. split; [by eapply HP|by eapply HQ]. Qed.
Lemma stable_const (φ : Prop) : stable (λ _, φ).
Proof. by intros n n' Hs H ?. Qed.
Lemma stable_top : stable top.
Proof. by intros n n' Hs H ?. Qed.
Lemma stable_named ns nm : mine s ns nm → stable (λ n, named n ns nm).
Proof. intros Hm n n' Hs H. by rewrite (spares_named _ _ _ _ _ H Hm). Qed.
Lemma stable_unnamed ns nm : mine s ns nm → stable (λ n, ¬ named n ns nm).
Proof. intros Hm n n' Hs H. by rewrite (spares_named _ _ _ _ _ H Hm). Qed.

(** A link that was looked up by a name of the NIC is still there. *)
Definition is_link (l : LinkId) (ns : NsId) (nm : string) n : Prop := ∃ p, shape n l = Some (ns, nm, p).

Lemma stable_link l ns nm : mine s ns nm → stable (is_link l ns nm).
Proof. intros Hm n n' Hs H [p Hp]. exists p. by apply (spares_shape _ _ _ _ _ _ _ H Hm). Qed.
Lemma link_named l ns nm n : is_link l ns nm n → named n ns nm.
Proof. intros [p Hp]. apply named_shape. eauto. Qed.

Lemma mine_pod ns nm : pth (NetnsPath s) = Some ns → ns ≠ hm → nm ∈ own_names s → mine s ns nm.
Proof. intros Hp Hne Hn. right. by split. Qed.

Lemma own_iface : IfaceName s ∈ own_names s.
Proof. unfold own_names. set_solver. Qed.

(** Where the NIC is. *)
Lemma stable_exists {A} (P : A → net → Prop) : (∀ a, stable (P a)) → stable (λ n, ∃ a, P a n).
Proof. intros H n n' Hs Hsp [a HP]. exists a. by eapply H. Qed.

Lemma stable_tie x y ns nm : mine s ns nm → stable (λ n, tie n x y c i ns nm).
Proof.
  intros Hm n n' [(_ & _ & Hh) _] H [Hy Hx]. pose proof (fr_home _ _ _ _ H) as Hh'. unfold tie. rewrite Hh', Hh.
  rewrite Hh in Hy. split; [by apply (spares_shape _ _ _ _ _ _ _ H (mine_vh s))|by apply (spares_shape _ _ _ _ _ _ _ H Hm)].
Qed.
Lemma stable_veth_in ns nm : mine s ns nm → stable (λ n, veth_in n s ns nm).
Proof. intros Hm. apply stable_exists. intros x. apply stable_exists. intros y. by apply stable_tie. Qed.

Lemma own_rename : vethRenameFor i ∈ own_names s.
Proof. unfold own_names. set_solver. Qed.

Section inside.
Context (ns : NsId) (Hp : pth (NetnsPath s) = Some ns) (Hne : ns ≠ hm).

Lemma mine_iface : mine s ns i.
Proof. apply mine_pod; [done..|apply own_iface]. Qed.
Lemma mine_rename : mine s ns (vethRenameFor i).
Proof. apply mine_pod; [done..|apply own_rename]. Qed.

Lemma stable_tapped : stable (λ n, tapped n s ns).
Proof.
  apply stable_and; [apply stable_veth_in, mine_rename|]. apply stable_exists. intros z n n' _ H Hz.
  by apply (spares_shape _ _ _ _ _ _ _ H mine_iface).
Qed.
Lemma stable_own : stable (λ n, own_at n s ns).
Proof.
  intros n n' Hs H [Hv|[Hk Ht]]; [left; by eapply (stable_veth_in ns i mine_iface n)|right].
  split; [done|]. by eapply (stable_tapped n).
Qed.
Lemma stable_renamed : stable (renamed s ns).
Proof.
  apply stable_and; [apply stable_veth_in, mine_rename|]. intros n n' _ H Hz z p Hn.
  apply (Hz z), (spares_shape _ _ _ _ _ _ _ H mine_iface), Hn.
Qed.
Lemma stable_fit_at : stable (fit s ns).
Proof.
  intros n n' Hs H Hf Hn. eapply stable_own; [exact Hs|exact H|]. apply Hf.
  by apply (spares_named _ _ _ _ _ H mine_iface).
Qed.
End inside.

(** The name is free, or the NIC's own. *)
Definition fit_any n : Prop := ∀ ns, pth (NetnsPath s) = Some ns → fit s ns n.

Lemma pth_away n p ns : ready n → pth p = Some ns → ns ≠ hm.
Proof. intros ((_ & [Hne _] & _) & Hpth & Hh) Hp. rewrite <- Hh. apply (Hne p). by rewrite Hpth. Qed.

Lemma stable_fit : stable fit_any.
Proof. intros n n' Hs H Hf ns Hp. eapply stable_fit_at; [exact Hp|by eapply pth_away, Hp; destruct Hs|exact Hs|exact H|by apply Hf]. Qed.

Lemma stable_bound : stable (bound s).
Proof. intros n n' Hs H (ids & Hids & Hid). exists ids. split; [|done]. rewrite (fr_ports _ _ _ _ H); [done|]. by intros ?. Qed.

Lemma stable_unported : stable (λ n, ports n !! vh c i = None).
Proof. intros n n' Hs H Hn. rewrite (fr_ports _ _ _ _ H); [done|]. by intros ?. Qed.

End attach.

#[export] Hint Resolve stable_and stable_const stable_top stable_named stable_unnamed stable_link stable_exists stable_fit
  stable_tie stable_veth_in stable_tapped stable_own stable_renamed
  stable_bound stable_unported mine_vh mine_vc mine_pod : stable.
