(* ===== verification/AttachParallel.v ===== *)
(** * NICs attached and detached side by side (pkg/plumbing/plumbing.go, plumbing_linux.go)

    The programs of [AttachSteps] for different NICs, interleaved call by call: each does
    to its NIC what it does alone. *)

From S2P Require Import Prelude Netip Store Prog Kernel Dhcp Attach NetShape AttachLogic Sandbox AttachProps AttachSteps AttachRely.

Section attach.
Context {W : Type} `{KE : Kernel W} {KL : KernelLaws W} `{DH : Dhcp4} {AN : Anchor NsId} (s : Spec).
Abbreviation net := (Net NsId LinkId).
Implicit Types (n : net) (σ : ovsAttacher W) (P : net → Prop).
Abbreviation c := (ContainerID s).
Abbreviation i := (IfaceName s).
Abbreviation triple := (AttachRely.triple s).
Abbreviation stable := (AttachRely.stable s).

(** ** Lookups *)

Lemma triple_lookup P o name :
  stable P → mine s (default hm o) name →
  triple P (t_lookup o name) (yields (λ l n, P n ∧ is_link (link_id l) (default hm o) name n)).
Proof.
  intros HP Hm. apply triple_read; [apply guar_lookup| |intros l; eauto with stable].
  eapply post_conseq; [|apply post_lookup]. intros l n (H & _ & st & Hst & H1 & H2 & _). split; [done|].
  exists (ls_peer st). by rewrite (links_shape _ _ _ Hst), H1, H2.
Qed.

Lemma triple_attempt_lookup P o name :
  stable P → mine s (default hm o) name →
  triple P (t_attempt (t_lookup o name))
    (yields (λ r n, P n ∧ match r with
                          | Ok l => is_link (link_id l) (default hm o) name n
                          | Err _ => lookups_tell o name → ¬ named n (default hm o) name
                          end)).
Proof.
  intros HP Hm. apply triple_attempt_once, triple_read; [apply guar_attempt, guar_lookup| |].
  2: { intros [l|e]; [eauto with stable|]. apply stable_and; [done|]. intros n n' Hs H Hn Ht. by eapply stable_unnamed; [exact Hm|..|apply Hn]. }
  eapply post_conseq; [|apply post_attempt_lookup]. intros [l|e] n; [|done]. intros (H & st & Hst & H1 & H2 & _).
  split; [done|]. exists (ls_peer st). by rewrite (links_shape _ _ _ Hst), H1, H2.
Qed.

Lemma triple_open P path :
  stable P → triple P (t_open_netns path) (yields (λ ns n, P n ∧ pth path = Some ns ∧ ns ≠ hm)).
Proof. intros HP. apply triple_read; [apply guar_open|apply post_open|]. intros ns. eauto with stable. Qed.

Lemma triple_ready {A} P P' (p : T A) Q : (∀ n, sane s n → P' n → P n) → triple P p Q → triple P' p Q.
Proof. intros HP H σ Hs Hp. by apply H, HP. Qed.
Lemma triple_exists {A B} (P : B → net → Prop) (p : T A) Q : (∀ b, triple (P b) p Q) → triple (λ n, ∃ b, P b n) p Q.
Proof. intros H σ Hs [b HP]. by apply (H b). Qed.
Lemma triple_cases {A} P P' (p : T A) Q : triple P p Q → triple P' p Q → triple (λ n, P n ∨ P' n) p Q.
Proof. intros H1 H2 σ Hs [HP|HP]; auto. Qed.

(** A request: what it does when it takes effect. *)
Lemma triple_request P r Q :
  stable Q →
  (∀ n n', ready n → tethered s n → P n → effect r n n' → does s n n' ∧ Q n') →
  triple P (t_request r) (yields (λ _, Q)).
Proof.
  intros HQ H. apply triple_once; [| |done].
  - apply guar_request. intros n n' Hr [HP Ht] He. by apply H.
  - intros σ a σ' E Hr [HP Ht]. unfold request, kernel in E. destruct (Netlink r (kern σ)) as [[[]|e] w] eqn:En; [|done].
    injection E as _ <-. apply request_ok in En. by eapply (H (vw σ)).
Qed.

(** ** The host's end *)

Lemma triple_createVethPair mtu :
  triple (fit_any s) (t_createVethPair (vh c i) (vc c i) mtu) (yields (λ _, fit_any s)).
Proof.
  unfold t_createVethPair. eapply triple_bind; [apply triple_attempt_lookup; simpl; eauto with stable|].
  intros [l|e]; cbn [default]; [apply triple_ret; by intros n [Hf _]|].
  eapply triple_bind.
  { apply triple_wrap, (triple_request _ _ (fit_any s)); [eauto with stable|].
    intros n n' Hr Ht [Hf _] He. split; [by eapply does_veth|]. intros ns Hp Hn. exfalso.
    eapply (veth_free s ns n n'); [done|by eapply pth_away|by apply Hf|exact He|done]. }
  intros []. apply calm_triple; [eauto with stable|]. calm.
Qed.

Lemma triple_cleanupHostVeth P Q :
  stable P → (∀ n n', P n → ports n' = ports n → (lookups_tell None (vh c i) → ¬ named n' hm (vh c i)) → Q n') → stable Q →
  triple P (t_cleanupHostVeth (vh c i)) (yields (λ _, Q)).
Proof.
  intros HP HQ Hst. unfold t_cleanupHostVeth. eapply triple_bind; [apply triple_attempt_lookup; simpl; eauto with stable|].
  intros [l|e]; cbn [default]; [|apply triple_ret; intros n [? ?]; by apply (HQ n)].
  apply triple_wrap, triple_request; [done|]. intros n n' Hr Ht [Hp [q Hq]] He.
  split; [eapply (does_del s n n' (link_id l)); [done|done|apply mine_vh|exact Hq|exact He]|].
  destruct (shape_links _ _ _ _ _ Hq) as (st & Hs & H1 & H2 & _). destruct (Hr) as ((Hwf & _) & _).
  apply (HQ n); [done|by rewrite (effect_fields _ _ _ He)|]. intros _. by eapply del_gone.
Qed.

Lemma triple_cleanup : triple top (t_cleanupHostVeth (vh c i)) (yields (λ _, top)).
Proof. by apply (triple_cleanupHostVeth top). Qed.

(** ** The sandbox's end *)

(** Facts about the host that steps inside a sandbox keep. *)
Definition host_fact P : Prop := ∀ n n', ready n → stays none (λ _ _, True) none n n' → P n → P n'.

Lemma host_bound : host_fact (bound s).
Proof. intros n n' Hr [Hev _] (ids & Hids & Hid). exists ids. by rewrite (ev_ports _ _ _ _ _ Hev _ id). Qed.

(** The NIC's end in the sandbox gets another of the NIC's names. *)
Lemma rename_own P ns x y nm nm' n n' :
  host_fact P → pth (NetnsPath s) = Some ns → ns ≠ hm → nm ∈ own_names s → nm' ∈ own_names s → ready n →
  tie n x y c i ns nm → P n → effect (LinkSetName x nm') n n' → does s n n' ∧ P n'.
Proof.
  intros HF Hp Hne Hn Hn' Hr [_ Hx] HP He. split; [by eapply (does_rename s n n' x ns nm (Some y))|]. apply (HF n); [done| |done].
  split; [|by rewrite (effect_fields _ _ _ He)]. destruct (Hr) as (_ & _ & Hh).
  eapply (rename_evolves none (λ _ _, True) none ns nm x nm'); [done|done| |done]. split; [by rewrite Hh|eauto].
Qed.

(** A lookup of the NIC's end. *)
Lemma triple_lookup_tie fmt args x y ns nm :
  mine s ns nm →
  triple (λ n, tie n x y c i ns nm) (t_wrap fmt args (t_lookup (Some ns) nm)) (yields (λ l n, tie n x y c i ns nm ∧ link_id l = x)).
Proof.
  intros Hm. apply triple_wrap, triple_read; [apply guar_lookup| |intros l; eauto with stable].
  intros σ l σ' E Hr HP. pose proof (ok_lookup_tie fmt args x y c i ns nm σ l σ') as H. unfold wrap in H. rewrite E in H.
  by destruct (H eq_refl Hr HP).
Qed.

(** The NIC has its name in its sandbox. *)
Definition moved_in ns n : Prop := own_at n s ns ∧ pth (NetnsPath s) = Some ns ∧ ns ≠ hm.

Lemma stable_moved_in ns : stable (moved_in ns).
Proof. intros n n' Hs H (Ho & Hp & Hne). split; [|done]. by eapply (stable_own s ns Hp Hne n). Qed.

Lemma triple_moveIntoNetns :
  triple (fit_any s) (t_moveIntoNetns (vc c i) (NetnsPath s) i) (yields (λ _ n, ∃ ns, moved_in ns n)).
Proof.
  assert (stable (fit_any s)) as HP by eauto with stable. unfold t_moveIntoNetns.
  eapply triple_bind; [by apply triple_open|]. intros ns. apply triple_pure. intros [Hp Hne].
  pose proof (mine_iface s ns Hp Hne) as Hm.
  eapply triple_bind; [apply calm_triple; [done|calm]|]. intros h.
  apply (triple_bind _ _ _ _ (λ (am : bool) n, fit_any s n ∧ (am = true → named n ns i))).
  { destruct h as [[]|]; [|by apply triple_ret]. eapply triple_bind; [by apply triple_attempt_lookup|].
    intros [l|e]; cbn [default]; apply triple_ret; [|by intros n [? _]]. intros n [? ?%link_named]. done. }
  intros [|]; [apply triple_ret; intros n [Hf Hin]; exists ns; split; [by apply (Hf ns Hp), Hin|done]|].
  apply (triple_conseq _ (fit_any s) _ _ (yields (λ _ n, ∃ ns, moved_in ns n))); [by intros n [? _]|done|].
  eapply triple_bind; [apply triple_wrap, triple_lookup; [done|apply mine_vc]|]. intros l. cbn [default].
  assert (vc c i ∈ own_names s) as Hvc by (unfold own_names; set_solver).
  assert (mine s ns (vc c i)) as Hmv by (by apply mine_pod).
  apply (triple_bind _ _ _ _ (λ _ n, ∃ y, tie n (link_id l) y c i ns (vc c i))).
  { apply triple_wrap, triple_request; [eauto with stable|].
    intros n n' Hr Ht [_ [q Hl]] He. split; [by eapply does_setns|].
    destruct (shape_links _ _ _ _ _ Hl) as (st & Hst & H1 & H2 & _). by eapply setns_tie. }
  intros []. apply triple_exists. intros y. eapply triple_bind; [apply calm_triple; [by apply stable_tie|calm]|]. intros [].
  eapply triple_bind; [by apply triple_lookup_tie|]. intros inner. apply triple_pure. intros ->.
  eapply triple_bind; [apply calm_triple; [by apply stable_tie|calm]|].
  intros []. apply triple_wrap, triple_request; [apply stable_exists, stable_moved_in|]. intros n n' Hr Ht Htie He.
  destruct (rename_own (λ _, True) ns _ _ _ i n n' (λ _ _ _ _ _, I) Hp Hne Hvc (own_iface s) Hr Htie I He) as [Hd _].
  split; [done|]. exists ns. split; [|done]. left. exists (link_id l), y. by eapply rename_tie.
Qed.

(** ** Open vSwitch *)

Lemma attachToOVS_does P t : ContainerID t = c → IfaceName t = i → guar P (attachToOVS (vh c i) t) (does s).
Proof.
  intros Hc Hi. unfold attachToOVS, ovsVsctl. apply guar_bind; [|intros [o [e|]]; guar].
  intros σ r σ' E _ _. unfold exec in E. destruct (Exec _ _ _) as [[o e] w] eqn:Ee. injection E as _ <-. unfold vw. simpl.
  apply exec_add in Ee as [-> | [_ ->]]; [|apply g_refl|apply port_ids_plain].
  apply does_ports. intros p Hp. apply lookup_insert_ne. by intros <-.
Qed.

Lemma triple_attachToOVS P t :
  ContainerID t = c → IfaceName t = i → IfaceID t = IfaceID s → stable P → (∀ n q, P n → P (with_ports n q)) →
  triple P (t_attachToOVS (vh c i) t) (yields (λ _ n, P n ∧ bound s n)).
Proof.
  intros Hc Hi Hid HP HQ. apply triple_once; [by apply attachToOVS_does| |intros []; eauto with stable].
  intros σ a σ' E Hr [Ho _]. assert (vh c i = vh (ContainerID t) (IfaceName t)) as Hk by (by rewrite Hc, Hi).
  destruct (attachToOVS_ok P t _ Hk HQ _ _ _ E Hr Ho) as [_ [H1 H2]]. split; [done|]. unfold bound in *. by rewrite Hc, Hi, Hid in H2.
Qed.

Lemma detachFromOVS_does P : guar P (detachFromOVS (vh c i)) (does s).
Proof.
  unfold detachFromOVS, ovsVsctl. apply guar_bind; [|intros [o [e|]]; guar].
  intros σ r σ' E _ _. unfold exec in E. destruct (Exec _ _ _) as [[o e] w] eqn:Ee. injection E as _ <-. unfold vw. simpl.
  apply exec_del in Ee as [-> | [_ ->]]; [|apply g_refl]. apply does_ports. intros p Hp. apply lookup_delete_ne. by intros <-.
Qed.

Lemma triple_detachFromOVS :
  triple top (t_detachFromOVS (vh c i)) (yields (λ _ n, ports n !! vh c i = None)).
Proof.
  apply triple_once; [apply detachFromOVS_does| |eauto with stable].
  intros σ a σ' E Hr _. by destruct (detachFromOVS_gone (vh c i) _ _ _ E Hr I).
Qed.

(** ** A VM's bridge and tap *)

(** A device is created in the sandbox, under one of the NIC's names. *)
Section wire.
Context (ns : NsId) (Hp : pth (NetnsPath s) = Some ns) (Hne : ns ≠ hm) (Hi : i ≠ vethRenameFor i).
Context (P : net → Prop) (HP : stable P) (HF : host_fact P).

Lemma created_host nm type n n' : ready n → one_created n n' ns nm type → P n → P n'.
Proof.
  intros Hr Hc. apply HF; [done|]. destruct (Hr) as (_ & _ & Hh). destruct (Hc) as (_ & ? & ? & _ & _ & E & _).
  split; [|by rewrite E]. eapply created_evolves; [|done|exact Hc]. by rewrite Hh.
Qed.

Lemma triple_bridge fmt args nm :
  nm ∈ own_names s →
  triple (λ n, renamed s ns n ∧ P n) (t_unless_exists fmt args (LinkAddBridge ns nm)) (yields (λ _ n, renamed s ns n ∧ P n)).
Proof.
  intros Hn. unfold t_unless_exists. apply (triple_bind _ _ _ _ (λ _ n, renamed s ns n ∧ P n)).
  - apply triple_attempt_once, triple_once; [| |intros _; eauto with stable].
    + apply guar_attempt, guar_request. intros n n' Hr [_ Ht] He. by eapply does_created.
    + intros σ a σ' E Hr [[H1 H2] Ht]. unfold attempt, request, kernel in E.
      destruct (Netlink _ (kern σ)) as [[[]|e] w] eqn:En; injection E as _ <-.
      * apply request_ok in En. split; [by eapply renamed_created|by eapply created_host].
      * apply request_err in En. unfold vw in *. simpl. by rewrite En.
  - intros [x|e]; [by apply triple_ret|]. destruct (isExists e); [by apply triple_ret|apply triple_fail].
Qed.

Lemma triple_tap nm :
  nm ∈ own_names s →
  triple (λ n, renamed s ns n ∧ P n) (once (addTuntapInNetns ns nm)) (yields (λ _ n, renamed s ns n ∧ P n)).
Proof.
  intros Hn. apply triple_once; [| |intros _; eauto with stable].
  - intros σ r σ' E Hr [H Ht]. destruct (addTuntap_created _ _ _ _ _ E Hr) as [->|Hc]; [apply g_refl|].
    by eapply does_created.
  - intros σ a σ' E Hr [[H1 H2] Ht]. destruct (addTuntap_created _ _ _ _ _ E Hr) as [->|Hc]; [done|].
    split; [by eapply renamed_created|by eapply created_host].
Qed.

(** The tap is the link that has the NIC's name. *)
Lemma triple_lookup_tap fmt args :
  triple (λ n, renamed s ns n ∧ P n) (t_wrap fmt args (t_lookup (Some ns) i)) (yields (λ _ n, tapped n s ns ∧ P n)).
Proof.
  apply triple_wrap, triple_read; [apply guar_lookup| |intros l; eauto with stable].
  intros σ l σ' E Hr [H1 H2]. pose proof (ok_lookup_tap fmt args s ns σ l σ') as H. unfold wrap in H. rewrite E in H.
  destruct (H eq_refl Hr H1) as [_ H']. split; [done|]. unfold kernel in E. destruct (LinkByName _ _ _) as [r w] eqn:El.
  injection E as _ <-. apply lookup_view in El. unfold vw in *. simpl. by rewrite El.
Qed.

(** What has the NIC's name: its other end, or a tap that is wired already. *)
Lemma triple_lookup_own fmt args :
  triple (λ n, own_at n s ns ∧ P n) (t_wrap fmt args (t_lookup (Some ns) i))
    (yields (λ l n, (if decide (Link_Type l = "tuntap") then tapped n s ns
                     else (∃ y, tie n (link_id l) y c i ns i) ∨ tapped n s ns ∧ is_link (link_id l) ns i n) ∧ P n)).
Proof.
  pose proof (mine_iface s ns Hp Hne) as Hm. apply triple_wrap, triple_read; [apply guar_lookup| |].
  - intros σ l σ' E Hr [H1 H2]. destruct (ok_lookup (λ n, own_at n s ns ∧ P n) _ _ _ _ _ E Hr (conj H1 H2)) as (Hr' & [H1' H2'] & st & Hs & Hns & Hnm & Hty).
    split; [|done]. simpl in Hns. destruct (own_found _ _ _ _ _ Hr' H1' Hs Hns Hnm) as [[Ht Hv]|Ht]; destruct (decide _); try done.
    + congruence.
    + by left.
    + right. split; [done|]. exists (ls_peer st). by rewrite (links_shape _ _ _ Hs), Hns, Hnm.
  - intros l. apply stable_and; [|done]. destruct (decide _) as [_|_]; [eauto with stable|].
    intros n n' Hs H [H1|H1]; [left|right].
    + revert H1. apply (stable_exists s (λ y n, tie n (link_id l) y c i ns i)); [by intros y; apply stable_tie|done|done].
    + revert H1. apply (stable_and s (λ n, tapped n s ns) (is_link (link_id l) ns i)); [eauto with stable|by apply stable_link|done|done].
Qed.

(** A NIC that is wired is not renamed again. *)
Lemma triple_rename_refused fmt args fmt' args' l {A} (f : () → T A) Q :
  triple (λ n, tapped n s ns ∧ is_link l ns i n)
    (_ ← t_wrap fmt args (t_request (LinkSetDown l)); u ← t_wrap fmt' args' (t_request (LinkSetName l (vethRenameFor i))); f u) (yields Q).
Proof.
  pose proof (mine_iface s ns Hp Hne) as Hm.
  eapply triple_bind; [apply calm_triple; [apply stable_and; [eauto with stable|by apply stable_link]|calm]|]. intros [].
  apply (triple_bind _ _ _ _ (λ _ _, False)); [|by intros [] ? ? []].
  apply triple_wrap, triple_request; [by apply stable_const|]. intros n n' Hr Ht [[(x & y & [_ Hx]) _] [q Hl]] [_ Hf]. exfalso.
  destruct (shape_links _ _ _ _ _ Hl) as (st & Hst & H1 & H2 & _). destruct (Hf st Hst) as [E|Hn]; [congruence|].
  apply Hn. rewrite H1, named_shape. eauto.
Qed.

Lemma triple_wireVMIBridge t :
  NetnsPath t = NetnsPath s → IfaceName t = i →
  triple (λ n, own_at n s ns ∧ P n) (t_wireVMIBridge t) (yields (λ _ n, tapped n s ns ∧ P n)).
Proof.
  intros Hpt Hit. unfold t_wireVMIBridge. rewrite Hpt, Hit. cbv zeta.
  assert (stable (λ n, own_at n s ns ∧ P n)) as S1 by eauto with stable.
  assert (stable (λ n, renamed s ns n ∧ P n)) as S2 by eauto with stable.
  assert (stable (λ n, tapped n s ns ∧ P n)) as S3 by eauto with stable.
  pose proof (ensure_server_calm s t (bridgeNameFor i)) as Hd.
  eapply triple_bind; [by apply triple_open|]. intros ns'. apply triple_pure. intros [Hp' _].
  rewrite Hp in Hp'. injection Hp' as <-. eapply triple_bind; [apply calm_triple; [done|calm]|]. intros [].
  eapply triple_bind; [apply triple_lookup_own|]. intros l. cbn beta. case_bool_decide as Hty.
  { destruct (decide _) as [_|]; [|done]. by apply calm_triple. }
  destruct (decide _) as [|_]; [done|].
  apply (triple_conseq s (λ n, (∃ y, tie n (link_id l) y c i ns i ∧ P n) ∨ tapped n s ns ∧ is_link (link_id l) ns i n) _ _
    (yields (λ _ n, tapped n s ns ∧ P n))); [intros n [[[y ?]|?] ?]; [left; by exists y|by right]|done|].
  apply triple_cases; [|apply triple_rename_refused]. apply triple_exists. intros y.
  pose proof (mine_iface s ns Hp Hne) as Hm.
  eapply triple_bind; [apply calm_triple; [apply stable_and; [by apply stable_tie|done]|calm]|]. intros [].
  apply (triple_bind _ _ _ _ (λ _ n, renamed s ns n ∧ P n)).
  { apply triple_wrap, triple_request; [done|]. intros n n' Hr Ht [Htie HPn] He.
    destruct (rename_own P ns _ _ _ _ n n' HF Hp Hne (own_iface s) (own_rename s) Hr Htie HPn He). split; [done|].
    split; [by eapply rename_renamed|done]. }
  intros []. eapply triple_bind; [apply triple_bridge; unfold own_names; set_solver|].
  intros []. eapply triple_bind; [apply calm_triple; [done|calm]|]. intros bridge.
  eapply triple_bind; [apply calm_triple; [done|calm]|]. intros [].
  eapply triple_bind; [apply triple_wrap, triple_tap, own_iface|]. intros [].
  eapply triple_bind; [apply triple_lookup_tap|]. intros tl. apply calm_triple; [done|].
  pose proof (set_spec_mac_calm s t). calm. apply calm_once, fdb_still.
Qed.
End wire.

(** ** Attach and Detach *)

(** Attach among others: if it succeeds the NIC is in its place and known to OVN. *)
Lemma triple_Attach :
  (KubeVirtVMI s = true → i ≠ vethRenameFor i) →
  triple (fit_any s) (t_Attach s) (yields (λ _ n, (∃ ns, pth (NetnsPath s) = Some ns ∧ inside_at n s ns) ∧ bound s n)).
Proof.
  intros Hi. unfold t_Attach. destruct (Validate s); [apply triple_fail|]. unfold t_names.
  destruct (vethNames s) as [[a b]|e] eqn:En; [|by intros σ Hs HP]. apply vethNames_Ok in En as [-> ->].
  cbn [of_result]. change (Prog.Ret (Ret (vh c i, vc c i))) with (mret (M := T (W := W)) (vh c i, vc c i)).
  apply (triple_bind _ _ _ _ (λ ab n, fit_any s n ∧ ab = (vh c i, vc c i))); [by apply triple_ret|].
  intros ab. apply triple_pure. intros ->.
  eapply triple_bind.
  { apply calm_triple; [apply stable_fit|]. destruct (_ =? 0)%Z; [apply primaryMTU_calm|apply calm_ret]. }
  intros mtu. cbv zeta. cbn [with_mtu NetnsPath IfaceName KubeVirtVMI].
  eapply triple_bind; [apply triple_createVethPair|]. intros [].
  eapply triple_bind; [apply triple_or_else; [apply triple_moveIntoNetns|apply triple_cleanup]|]. intros [].
  apply triple_exists. intros ns. apply triple_pure. intros [Hp Hne].
  assert (stable (λ n, own_at n s ns)) as So by eauto with stable.
  eapply triple_bind; [apply triple_or_else; [apply calm_triple; [exact So|apply configurePodIface_calm]|apply triple_cleanup]|].
  intros []. eapply triple_bind; [apply triple_or_else; [by apply (triple_attachToOVS (λ n, own_at n s ns))|apply triple_cleanup]|].
  intros []. unfold inside_at. destruct (KubeVirtVMI s) eqn:Hk; cbn [t_when].
  - apply triple_or_else.
    + eapply triple_conseq; [by intros n H; exact H| |apply (triple_wireVMIBridge ns Hp Hne (Hi eq_refl) (bound s))];
        [|apply stable_bound|apply host_bound|done..].
      intros [[]|e|] n; [|done..]. intros [? ?]. split; [by exists ns|done].
    + apply (triple_bind _ _ _ _ (λ _, top)); [|intros; apply triple_cleanup].
      apply (triple_bind _ _ _ _ (λ _, top)); [|intros; by apply triple_ret]. apply triple_attempt.
      eapply triple_conseq; [done| |apply triple_detachFromOVS]. by intros [].
  - apply triple_ret. intros n [[H|[? _]] Hb]; [split; [by exists ns|done]|congruence].
Qed.

Lemma triple_delete fmt args l ns nm :
  mine s ns nm → triple (λ n, top n ∧ is_link l ns nm n) (t_wrap fmt args (t_request (LinkDel l))) (yields (λ _, top)).
Proof.
  intros Hm. apply triple_wrap, triple_request; [apply stable_top|]. intros n n' Hr Ht [_ [q Hq]] He. split; [|done].
  by eapply (does_del s n n' l ns nm).
Qed.

Lemma triple_unwireVMIBridge : triple top (t_unwireVMIBridge s) (yields (λ _, top)).
Proof.
  unfold t_unwireVMIBridge. cbv zeta. pose proof (stable_top s) as HT.
  eapply triple_bind; [apply calm_triple; [done|apply calm_wrap, stop_server_calm]|]. intros [].
  eapply triple_bind; [apply triple_attempt_once, triple_read|].
  1: apply guar_attempt, guar_read, path_same.
  1: apply (post_attempt_path top). 1: intros [ns|e]; eauto with stable.
  intros [ns|e]; [|by apply triple_ret]. apply triple_pure. intros [Hp Hne].
  assert (∀ nm, nm ∈ [i; bridgeNameFor i] → mine s ns nm) as Hm.
  { intros nm Hnm. apply mine_pod; [done..|]. unfold own_names. set_solver. }
  eapply triple_bind; [apply calm_triple; [done|calm]|]. intros [].
  eapply triple_bind; [apply triple_attempt_lookup; [done|apply Hm; set_solver]|]. intros tap. cbn [default].
  apply (triple_bind _ _ _ _ (λ _, top)).
  { destruct tap as [l|e]; [|by apply triple_ret]. destruct (bool_decide _); [|by apply triple_ret].
    apply (triple_delete _ _ _ ns i). apply Hm. set_solver. }
  intros []. eapply triple_bind; [apply triple_attempt_lookup; [done|apply Hm; set_solver]|].
  intros [l|e]; cbn [default]; [|by apply triple_ret]. apply (triple_delete _ _ _ ns (bridgeNameFor i)). apply Hm. set_solver.
Qed.

(** Detach among others: if it succeeds nothing is left of the NIC on the host. *)
Lemma stable_gone : stable (λ n, ports n !! vh c i = None ∧ (lookups_tell None (vh c i) → ¬ named n hm (vh c i))).
Proof.
  apply stable_and; [apply stable_unported|]. intros n n' Hs H Hn Ht.
  eapply (stable_unnamed s hm (vh c i) (mine_vh s) n); [done..|by apply Hn].
Qed.

Lemma triple_Detach :
  triple top (t_Detach s)
    (yields (λ _ n, ports n !! vh c i = None ∧ (lookups_tell None (vh c i) → ¬ named n hm (vh c i)))).
Proof.
  unfold t_Detach. apply (triple_bind _ _ _ _ (λ _, top)); [apply triple_when, triple_unwireVMIBridge|].
  intros []. unfold t_names. destruct (vethNames s) as [[a b]|e] eqn:En; [|by intros σ Hs HP]. apply vethNames_Ok in En as [-> ->].
  cbn [of_result]. change (Prog.Ret (Ret (vh c i, vc c i))) with (mret (M := T (W := W)) (vh c i, vc c i)).
  apply (triple_bind _ _ _ _ (λ ab n, top n ∧ ab = (vh c i, vc c i))); [by apply triple_ret|].
  intros ab. apply triple_pure. intros ->. eapply triple_bind; [apply triple_detachFromOVS|]. intros [].
  apply triple_cleanupHostVeth; [eauto with stable| |apply stable_gone]. intros n n' Hp ->. done.
Qed.

End attach.

(** ** Side by side *)

(** What a thread is to do for a NIC. *)
Inductive job := AttachJob (s : Spec) | DetachJob (s : Spec).
Definition job_spec (j : job) : Spec := match j with AttachJob s | DetachJob s => s end.

Section fleet.
Context {W : Type} `{KE : Kernel W} {KL : KernelLaws W} `{DH : Dhcp4}.
Abbreviation net := (Net NsId LinkId).
Implicit Types (n : net) (σ : ovsAttacher W).

Definition job_prog (j : job) : prog (ovsAttacher W) (outcome ()) := match j with AttachJob s => t_Attach s | DetachJob s => t_Detach s end.

(** What a job has achieved when it ends without an error. *)
Definition job_done (j : job) n : Prop :=
  match j with
  | AttachJob s => inside n s ∧ bound s n
  | DetachJob s =>
      let k := vh (ContainerID s) (IfaceName s) in
      ports n !! k = None ∧ (lookups_tell None k → ¬ named n (home n) k)
  end.

(** What it finds: the NIC's devices, if there are any, are those of an earlier attach of it,
    and the interface name of one to attach is free or its own. *)
Definition job_ready (j : job) n : Prop :=
  tethered (AN := here n) (job_spec j) n ∧
  match j with AttachJob s => fits n s | DetachJob _ => True end.

Abbreviation thread := (prog (ovsAttacher W) (outcome ())).
Abbreviation fleet := (list (job * thread)).

Definition start_jobs (jobs : list job) : fleet := (λ j, (j, job_prog j)) <$> jobs.

(** One thread acts, or something happens on the node that has nothing to do with these NICs. *)
Inductive fleet_step : fleet * ovsAttacher W → fleet * ovsAttacher W → Prop :=
  | fleet_act fl σ k j l f next :
      fl !! k = Some (j, Act l f next) → fleet_step (fl, σ) (<[k := (j, next σ)]> fl, f σ)
  | fleet_other fl σ σ' :
      (∀ j p, (j, p) ∈ fl → spares (AN := here (vw σ)) (job_spec j) (vw σ) (vw σ')) → fleet_step (fl, σ) (fl, σ').

(** Runs by a schedule: which thread acts next. *)
Fixpoint run_fleet (ks : list nat) (fl : fleet) σ : fleet * ovsAttacher W :=
  match ks with
  | [] => (fl, σ)
  | k :: ks =>
      match fl !! k with
      | Some (j, Act l f next) => run_fleet ks (<[k := (j, next σ)]> fl) (f σ)
      | _ => run_fleet ks fl σ
      end
  end.

Lemma run_fleet_steps ks fl σ : rtc fleet_step (fl, σ) (run_fleet ks fl σ).
Proof.
  revert fl σ. induction ks as [|k ks IH]; intros fl σ; [apply rtc_refl|]. simpl.
  destruct (fl !! k) as [[j [o|l f next]]|] eqn:E; [apply IH| |apply IH].
  eapply rtc_l; [by eapply fleet_act|]. apply IH.
Qed.

(** A run keeps the jobs. *)
Lemma start_jobs_jobs jobs : (start_jobs jobs).*1 = jobs.
Proof. unfold start_jobs. rewrite <- list_fmap_compose. by rewrite (list_fmap_ext _ id), list_fmap_id. Qed.

Lemma run_fleet_jobs ks fl σ : (run_fleet ks fl σ).1.*1 = fl.*1.
Proof.
  revert fl σ. induction ks as [|k ks IH]; intros fl σ; [done|]. simpl.
  destruct (fl !! k) as [[j [o|l f next]]|] eqn:E; [apply IH| |apply IH].
  rewrite IH, list_fmap_insert. apply list_insert_id. by rewrite list_lookup_fmap, E.
Qed.

Definition all_unrelated (jobs : list job) : Prop :=
  ∀ k k' j j', jobs !! k = Some j → jobs !! k' = Some j' → k ≠ k' → unrelated (job_spec j) (job_spec j').

Section invariant.
Context (n0 : net).
#[local] Instance anchor : Anchor NsId := here n0.

(** What is left of each program is safe, whatever the others do next. *)
Definition fleet_inv (fl : fleet) σ : Prop :=
  all_unrelated fl.*1 ∧
  ∀ k j p, fl !! k = Some (j, p) → ready (vw σ) ∧ ∀ σ1, spares (job_spec j) (vw σ) (vw σ1) →
    safe (job_spec j) p (λ o n, sane (job_spec j) n ∧ yields (λ _, job_done j) o n) σ1.

Lemma ready_anchor n : ready n → here n = anchor.
Proof. intros (_ & Hp & Hh). unfold here. by rewrite Hp, Hh. Qed.

Lemma spares_refl s n : spares s n n.
Proof. apply g_refl. Qed.
Lemma spares_trans s n1 n2 n3 : spares s n1 n2 → spares s n2 n3 → spares s n1 n3.
Proof. apply g_trans. Qed.

Lemma fleet_inv_step fl σ fl' σ' : fleet_step (fl, σ) (fl', σ') → fleet_inv fl σ → fleet_inv fl' σ'.
Proof.
  intros Hstep (Ha & Hi). inversion Hstep as [? ? k j l f next Hk|? ? ? Ho]; subst; clear Hstep.
  - destruct (Hi k j _ Hk) as [Hr Hs]. destruct (Hs σ (spares_refl _ _)) as [Hd Hn].
    assert (fl.*1 !! k = Some j) as Hk1 by (by rewrite list_lookup_fmap, Hk). split.
    { rewrite list_fmap_insert. simpl. by rewrite list_insert_id. }
    intros k' j' p' Hk'. split; [by apply (g_ready (G := does (job_spec j)) (vw σ))|].
    destruct (decide (k = k')) as [<-|Hne].
    + rewrite list_lookup_insert_eq in Hk' by (by eapply lookup_lt_Some). injection Hk' as <- <-. exact Hn.
    + rewrite list_lookup_insert_ne in Hk' by done. intros σ1 H1. apply (Hi k' j' p' Hk').
      eapply spares_trans; [|exact H1]. eapply does_spares; [by eapply ready_single| |exact Hd].
      apply (Ha k k'); [done| |done]. by rewrite list_lookup_fmap, Hk'.
  - split; [done|]. intros k j p Hk. destruct (Hi k j p Hk) as [Hr Hs].
    assert (spares (job_spec j) (vw σ) (vw σ')) as H.
    { specialize (Ho j p (list_elem_of_lookup_2 _ _ _ Hk)). by rewrite (ready_anchor _ Hr) in Ho. }
    split; [by eapply frame_ready|]. intros σ1 H1. apply Hs. by eapply spares_trans.
Qed.

Lemma fleet_inv_steps c c' : rtc fleet_step c c' → fleet_inv c.1 c.2 → fleet_inv c'.1 c'.2.
Proof. induction 1 as [|[fl σ] [fl1 σ1] c' Hs _ IH]; [done|]. intros H. by apply IH, (fleet_inv_step fl σ). Qed.

End invariant.

Lemma job_safe j σ σ1 :
  let _ := here (vw σ) in
  tidy_net (vw σ) → job_ready j (vw σ) → spares (job_spec j) (vw σ) (vw σ1) →
  safe (job_spec j) (job_prog j) (λ o n, sane (job_spec j) n ∧ yields (λ _, job_done j) o n) σ1.
Proof.
  intros AN Ht [Hte Hf] H1. pose proof (ready_here _ Ht) as Hr.
  assert (sane (job_spec j) (vw σ1)) as Hs by (by eapply sane_spares; [exact H1|]).
  destruct j as [s|s]; cbn [job_spec job_prog job_done] in *.
  - destruct Hf as [Hf Hv]. eapply safe_mono; [|apply triple_Attach; [exact Hv|exact Hs|]].
    + intros [[]|e|] n; [|done..]. intros [Hsn [(ns & Hp & Hin) Hb]]. destruct (Hsn) as [(_ & Hpt & _) _].
      split; [done|]. split; [|done]. exists ns. by rewrite Hpt.
    + eapply (stable_fit s (vw σ)); [by split|exact H1|]. intros ns Hns Hn. by apply Hf.
  - eapply safe_mono; [|apply triple_Detach; [exact Hs|done]].
    intros [[]|e|] n; [|done..]. intros [Hsn [Hp Hn]]. destruct (Hsn) as [(_ & _ & Hh) _]. split; [done|]. split; [done|]. by rewrite Hh.
Qed.

Lemma fleet_inv_start jobs σ :
  tidy_net (vw σ) → all_unrelated jobs → Forall (λ j, job_ready j (vw σ)) jobs → fleet_inv (vw σ) (start_jobs jobs) σ.
Proof.
  intros Ht Ha Hj. pose proof (ready_here _ Ht) as Hr. split.
  { by rewrite start_jobs_jobs. }
  intros k j p Hk. split; [done|]. unfold start_jobs in Hk. rewrite list_lookup_fmap in Hk.
  apply fmap_Some in Hk as (j' & Hk & [= -> ->]). rewrite Forall_lookup in Hj. intros σ1 H1. by eapply job_safe; [|eapply Hj|].
Qed.

(** C7: attaches and detaches of different NICs may be interleaved call by call, with each
    other and with whatever is done to other devices of the node. If at the start each NIC's
    devices have only each other as peers, and the interface names of the NICs to attach
    are free in their sandboxes or their own, then an attach that ends without an error has
    put its NIC in its place, in the sandbox under its name and on br-int, and a detach
    that does has removed the NIC's port, and its host end if lookups of that fail only when
    it does not exist: at that moment, and for as long as the others go on. *)
Theorem jobs_in_parallel jobs σ fl σ' k j :
  tidy_net (vw σ) → all_unrelated jobs → Forall (λ j, job_ready j (vw σ)) jobs →
  rtc fleet_step (start_jobs jobs, σ) (fl, σ') → fl !! k = Some (j, Prog.Ret (Ret ())) →
  job_done j (vw σ').
Proof.
  intros Ht Ha Hj Hsteps Hk. destruct (fleet_inv_steps (vw σ) _ _ Hsteps (fleet_inv_start jobs σ Ht Ha Hj)) as [_ Hi].
  destruct (Hi k j _ Hk) as [Hr Hs]. by destruct (Hs σ' (spares_refl _ _ _)) as [_ H].
Qed.

End fleet.
