(* ===== verification/Node.v ===== *)
(** * A node that runs

    A concrete network of a node, with namespaces and links numbered, that gives the
    operations of [Kernel] and satisfies its laws.  Some requests may be made to fail.
    The witnesses of the datapath's theorems, and the runs that show where it goes wrong,
    are evaluated on it. *)

From S2P Require Import Prelude Netip Store Kernel.

Record Node := {
  n_links : gmap nat (LinkState nat nat);
  n_ports : gmap string (string * gmap string string);
  n_paths : gmap string nat;
  n_cur : nat;
  (** the next identifier, and whether the next requests fail *)
  n_next : nat;
  n_faults : list bool;
}.

Definition node_view (w : Node) : Net nat nat := {|
  links x := n_links w !! x; ports := n_ports w; paths p := n_paths w !! p; cur := n_cur w; home := 0%nat |}.

Definition put_links (w : Node) (m : gmap nat (LinkState nat nat)) : Node := {|
  n_links := m; n_ports := n_ports w; n_paths := n_paths w; n_cur := n_cur w; n_next := n_next w; n_faults := n_faults w |}.
Definition put_ports (w : Node) (p : gmap string (string * gmap string string)) : Node := {|
  n_links := n_links w; n_ports := p; n_paths := n_paths w; n_cur := n_cur w; n_next := n_next w; n_faults := n_faults w |}.
Definition put_cur (w : Node) (c : nat) : Node := {|
  n_links := n_links w; n_ports := n_ports w; n_paths := n_paths w; n_cur := c; n_next := n_next w; n_faults := n_faults w |}.
Definition put_faults (w : Node) (f : list bool) : Node := {|
  n_links := n_links w; n_ports := n_ports w; n_paths := n_paths w; n_cur := n_cur w; n_next := n_next w; n_faults := f |}.
Definition skip_ids (w : Node) (k : nat) : Node := {|
  n_links := n_links w; n_ports := n_ports w; n_paths := n_paths w; n_cur := n_cur w; n_next := n_next w + k; n_faults := n_faults w |}.

(** ** Links *)

Definition is_at (ns : nat) (name : string) (x : nat * LinkState nat nat) : Prop := ls_ns x.2 = ns ∧ ls_name x.2 = name.
#[export] Instance is_at_dec ns name x : Decision (is_at ns name x).
Proof. unfold is_at. apply _. Defined.

Definition find_link (w : Node) (ns : nat) (name : string) : option (nat * LinkState nat nat) :=
  head (filter (is_at ns name) (map_to_list (n_links w))).

Definition in_use (w : Node) (ns : nat) (name : string) : bool :=
  match find_link w ns name with Some _ => true | None => false end.

Definition exists_error : error := External "file exists".
Definition missing_error : error := External "no such device".

Definition new_link (ns : nat) (name : string) (kind : LinkKind nat) (mtu : Z) (mac : list Z) : LinkState nat nat := {|
  ls_ns := ns; ls_name := name; ls_kind := kind; ls_up := false; ls_mac := mac; ls_mtu := mtu;
  ls_addrs := []; ls_routes := []; ls_master := None; ls_learning := true |}.

Definition hw (x : nat) : list Z := [2%Z; 0%Z; 0%Z; 0%Z; 0%Z; Z.of_nat x].

Definition change (w : Node) (l : nat) (f : LinkState nat nat → LinkState nat nat) : result () * Node :=
  match n_links w !! l with
  | Some s => (Ok (), put_links w (<[l := f s]> (n_links w)))
  | None => (Err missing_error, w)
  end.

Definition refuse (w : Node) : result () * Node := (Err exists_error, w).

Definition create_one (w : Node) (ns : nat) (name type : string) : result () * Node :=
  if in_use w ns name then refuse w
  else match n_links w !! n_next w with
       | Some _ => (Err missing_error, w)
       | None => (Ok (), skip_ids (put_links w (<[n_next w := new_link ns name (Other type) 1500 (hw (n_next w))]> (n_links w))) 1)
       end.

Definition create_veth (w : Node) (a b : string) (mtu : Z) : result () * Node :=
  let i := n_next w in
  let j := S i in
  let m := if (0 <? mtu)%Z then mtu else 1500%Z in
  if in_use w (n_cur w) a then refuse w
  else if in_use w (n_cur w) b then refuse w
  else if bool_decide (a = b) then refuse w
  else match n_links w !! i, n_links w !! j with
       | None, None =>
           (Ok (), skip_ids (put_links w (<[i := new_link (n_cur w) a (Veth j) m (hw i)]>
                     (<[j := new_link (n_cur w) b (Veth i) m (hw j)]> (n_links w)))) 2)
       | _, _ => (Err missing_error, w)
       end.

Definition unslave (l : nat) (s : LinkState nat nat) : LinkState nat nat :=
  if decide (ls_master s = Some l) then set_master s None else s.

Definition remove (w : Node) (l : nat) : result () * Node :=
  match n_links w !! l with
  | None => (Err missing_error, w)
  | Some s =>
      let m := unslave l <$> delete l (n_links w) in
      (Ok (), put_links w (match ls_peer s with Some p => delete p m | None => m end))
  end.

Definition has_ip (s : LinkState nat nat) (ip : list Z) : bool := bool_decide (Exists (λ x, Addr_IP x.1 = ip) (ls_addrs s)).

#[export] Instance IPNet_eq_dec : EqDecision IPNet.
Proof. solve_decision. Defined.

Definition routed (ns : nat) (dst : IPNet) (x : nat * LinkState nat nat) : Prop :=
  ls_ns x.2 = ns ∧ Exists (λ r, r.1 = dst) (ls_routes x.2).
#[export] Instance routed_dec ns dst x : Decision (routed ns dst x).
Proof. unfold routed. apply _. Defined.

Definition perform (r : Req nat nat) (w : Node) : result () * Node :=
  match r with
  | LinkAddVeth a b mtu => create_veth w a b mtu
  | LinkAddBridge ns name => create_one w ns name "bridge"
  | LinkAddTuntap name _ _ => create_one w (n_cur w) name "tuntap"
  | LinkSetUp l => change w l (λ s, set_up s true)
  | LinkSetDown l => change w l (λ s, set_up s false)
  | LinkSetName l name =>
      match n_links w !! l with
      | Some s => if decide (ls_name s = name) then change w l (λ s, set_name s name)
                  else if in_use w (ls_ns s) name then refuse w else change w l (λ s, set_name s name)
      | None => (Err missing_error, w)
      end
  | LinkSetMTU l mtu => change w l (λ s, set_mtu s mtu)
  | LinkSetHardwareAddr l mac => change w l (λ s, set_mac s mac)
  | LinkSetMaster l m => change w l (λ s, set_master s (Some m))
  | LinkSetLearning l on => change w l (λ s, set_learning s on)
  | LinkSetNsFd l ns =>
      match n_links w !! l with
      | Some s => if decide (ls_ns s = ns) then change w l (λ s, set_ns s ns)
                  else if in_use w ns (ls_name s) then refuse w else change w l (λ s, set_ns s ns)
      | None => (Err missing_error, w)
      end
  | LinkDel l => remove w l
  | AddrAdd l a nodad =>
      match n_links w !! l with
      | Some s => if has_ip s (Addr_IP a) then refuse w else change w l (λ s, add_addr s (a, nodad))
      | None => (Err missing_error, w)
      end
  | RouteAdd l dst gw =>
      match n_links w !! l with
      | Some s => match filter (routed (ls_ns s) dst) (map_to_list (n_links w)) with
                  | [] => change w l (λ s, add_route s (dst, gw))
                  | _ => refuse w
                  end
      | None => (Err missing_error, w)
      end
  end.

Definition with_faults (r : Req nat nat) (w : Node) : result () * Node :=
  match n_faults w with
  | true :: fs => (Err (External "fault"), put_faults w fs)
  | false :: fs => perform r (put_faults w fs)
  | [] => perform r w
  end.

(** ** Open vSwitch *)

Definition is_word (s : string) : bool := negb (bool_decide (s = EmptyString)) && str_forall (λ c, negb (is_space c)) s.

Definition matches (ids : list (string * string)) (x : string * (string * gmap string string)) : Prop :=
  Forall (λ kv, x.2.2 !! kv.1 = Some kv.2) ids.
#[export] Instance matches_dec ids x : Decision (matches ids x).
Proof. unfold matches. apply _. Defined.

(** The port is on another bridge. *)
Definition on_other (w : Node) (bridge port : string) : bool :=
  match n_ports w !! port with Some (b, _) => negb (bool_decide (b = bridge)) | None => false end.

Definition run_command (cmd : string) (args : list string) (w : Node) : (string * option error) * Node :=
  let bad := ((EmptyString, Some (External "exit status 1")), w) in
  if bool_decide (cmd = "bridge") then ((EmptyString, None), w)
  else match args with
  | "--may-exist" :: "add-port" :: bridge :: port :: "--" :: "set" :: "interface" :: _ :: kvs =>
      match mapM parse_external_id kvs with
      | Some ids =>
          if on_other w bridge port then bad
          else ((EmptyString, None),
                put_ports w (<[port := (bridge, set_ids ids (default ∅ (snd <$> n_ports w !! port)))]> (n_ports w)))
      | None => bad
      end
  | ["--if-exists"; "del-port"; _; port] | ["--if-exists"; "del-port"; port] =>
      ((EmptyString, None), put_ports w (delete port (n_ports w)))
  | "--bare" :: "--columns=name" :: "find" :: "interface" :: kvs =>
      match mapM parse_external_id kvs with
      | Some ids =>
          let names := (filter (matches ids) (map_to_list (n_ports w))).*1 in
          if forallb is_word names then ((join " " names, None), w) else bad
      | None => bad
      end
  | _ => bad
  end.

#[export] Instance node_kernel : Kernel Node := {|
  NsId := nat;
  LinkId := nat;
  GetFromPath p w := (match n_paths w !! p with Some ns => Ok ns | None => Err missing_error end, w);
  NewHandleAt _ w := (Ok (), w);
  NsGet w := (Ok (n_cur w), w);
  NsSet ns w := (Ok (), put_cur w ns);
  LinkByName p name w :=
    (match find_link w (default (n_cur w) p) name with
     | Some (x, s) => Ok {| link_id := x; Link_Type := ls_type s; Attrs_Name := ls_name s; Attrs_MTU := ls_mtu s;
                            Attrs_HardwareAddr := ls_mac s |}
     | None => Err missing_error
     end, w);
  LinkNotFound e := match e with External msg => bool_decide (msg = "no such device") | _ => false end;
  Netlink := with_faults;
  ParseAddr s := match ParseCIDR s with
                 | Some (ip, n) => Ok {| Addr_IP := ip; Addr_Mask := net_mask n |}
                 | None => Err (External "invalid address")
                 end;
  Exec := run_command;
  Listen _ w := match n_faults w with
                | true :: fs => (Err (External "fault"), put_faults w fs)
                | _ :: fs => (Ok (), put_faults w fs)
                | [] => (Ok (), w)
                end;
  CloseListener _ w := (Ok (), w);
|}.

(** ** The laws *)

Lemma find_link_Some w ns name x s :
  find_link w ns name = Some (x, s) → n_links w !! x = Some s ∧ ls_ns s = ns ∧ ls_name s = name.
Proof.
  unfold find_link. intros H%head_Some_elem_of. apply list_elem_of_filter in H as [[H1 H2] H%elem_of_map_to_list]. done.
Qed.

Lemma find_link_None w ns name : find_link w ns name = None → ¬ named (node_view w) ns name.
Proof.
  unfold find_link. intros H%head_None (x & s & Hs & H1 & H2).
  assert ((x, s) ∈ filter (is_at ns name) (map_to_list (n_links w))) as Hin.
  { apply list_elem_of_filter. split; [done|]. by apply elem_of_map_to_list. }
  rewrite H in Hin. by apply not_elem_of_nil in Hin.
Qed.

Lemma in_use_false w ns name : in_use w ns name = false → ¬ named (node_view w) ns name.
Proof. unfold in_use. destruct (find_link w ns name) eqn:E; [done|]. intros _. by apply find_link_None. Qed.

Lemma change_Ok w l f w' : change w l f = (Ok (), w') → changed (node_view w) (node_view w') l f.
Proof.
  unfold change. destruct (n_links w !! l) as [s|] eqn:E; [|done]. intros [= <-].
  split; [done|]. simpl. rewrite E, lookup_insert_eq. split_and!; [done..|]. intros x Hx. by rewrite lookup_insert_ne.
Qed.
Lemma change_Err w l f e w' : change w l f = (Err e, w') → w' = w ∧ isExists e = false.
Proof. unfold change. destruct (n_links w !! l); [done|]. by intros [= <- <-]. Qed.

Lemma create_one_Ok w ns name type w' :
  create_one w ns name type = (Ok (), w') → one_created (node_view w) (node_view w') ns name type.
Proof.
  unfold create_one. destruct (in_use w ns name) eqn:E; [done|]. destruct (n_links w !! n_next w) eqn:En; [done|].
  intros [= <-]. split; [by apply in_use_false|]. eexists (n_next w), _. split; [done|]. simpl. rewrite lookup_insert_eq.
  split; [|split; [done|split; [done|intros x Hx; by rewrite lookup_insert_ne]]]. by split_and!.
Qed.
Lemma create_one_Err w ns name type e w' : create_one w ns name type = (Err e, w') → w' = w.
Proof. unfold create_one. destruct (in_use _ _ _); [by intros [= _ <-]|]. destruct (_ !! _); by intros [= _ <-]. Qed.

Lemma create_veth_Ok w a b mtu w' :
  create_veth w a b mtu = (Ok (), w') → effect (LinkAddVeth a b mtu) (node_view w) (node_view w').
Proof.
  unfold create_veth. destruct (in_use w (n_cur w) a) eqn:Ea; [done|]. destruct (in_use w (n_cur w) b) eqn:Eb; [done|].
  case_bool_decide as Hab; [done|]. destruct (n_links w !! n_next w) eqn:Ei; [done|].
  destruct (n_links w !! S (n_next w)) eqn:Ej; [done|]. intros [= <-].
  split_and!; [by apply in_use_false..|done|]. eexists (n_next w), (S (n_next w)), _, _. simpl.
  rewrite lookup_insert_eq, lookup_insert_ne, lookup_insert_eq by lia. split_and!; [lia|done..| | |done|done|done|].
  - by split_and!.
  - by split_and!.
  - intros x Hi Hj. by rewrite !lookup_insert_ne.
Qed.

Lemma remove_Ok w l w' : remove w l = (Ok (), w') → effect (LinkDel l) (node_view w) (node_view w').
Proof.
  unfold remove. destruct (n_links w !! l) as [s|] eqn:E; [|done]. intros [= <-]. split; [done|]. exists s. simpl.
  assert (∀ x, (unslave l <$> delete l (n_links w)) !! x = if decide (x = l) then None else unslave l <$> n_links w !! x) as Hm.
  { intros x. rewrite lookup_fmap. destruct (decide (x = l)) as [->|]; [by rewrite lookup_delete_eq|by rewrite lookup_delete_ne]. }
  assert (∀ x, unslave l <$> n_links w !! x = n_links w !! x ∨
               unslave l <$> n_links w !! x = (λ t, set_master t None) <$> n_links w !! x) as Hu.
  { intros x. unfold unslave. destruct (n_links w !! x) as [t|]; [|auto]. simpl. destruct (decide _); auto. }
  split; [done|]. destruct (ls_peer s) as [p|]; split_and!.
  - destruct (decide (l = p)) as [->|]; [apply lookup_delete_eq|]. rewrite lookup_delete_ne, Hm by done. by rewrite decide_True.
  - intros x [= ->]. apply lookup_delete_eq.
  - intros x Hx Hp. rewrite lookup_delete_ne, Hm, decide_False by congruence. apply Hu.
  - by rewrite Hm, decide_True.
  - done.
  - intros x Hx _. rewrite Hm, decide_False by done. apply Hu.
Qed.

Lemma perform_Ok r w w' : perform r w = (Ok (), w') → effect r (node_view w) (node_view w').
Proof.
  destruct r; try (apply change_Ok); try (apply create_one_Ok).
  - apply create_veth_Ok.
  - simpl. destruct (n_links w !! l) as [s|] eqn:E; [|done]. destruct (decide (ls_name s = name)) as [Hn|Hn].
    + intros H. split; [by apply change_Ok|]. intros ? [= <-]. auto.
    + destruct (in_use w (ls_ns s) name) eqn:Eu; [done|]. intros H. split; [by apply change_Ok|].
      intros ? [= <-]. right. by apply in_use_false.
  - simpl. destruct (n_links w !! l) as [s|] eqn:E; [|done]. destruct (decide (ls_ns s = ns)) as [Hn|Hn].
    + intros H. split; [by apply change_Ok|]. by intros ? [= <-].
    + destruct (in_use w ns (ls_name s)) eqn:Eu; [done|]. intros H. split; [by apply change_Ok|].
      intros ? [= <-] _. by apply in_use_false.
  - apply remove_Ok.
  - simpl. destruct (n_links w !! l) as [s|]; [|done]. destruct (has_ip _ _); [done|]. apply change_Ok.
  - simpl. destruct (n_links w !! l) as [s|]; [|done]. destruct (filter _ _); [apply change_Ok|done].
Qed.

Lemma change_same w l f e w' : change w l f = (Err e, w') → w' = w.
Proof. by intros [-> _]%change_Err. Qed.

Lemma perform_Err r w e w' : perform r w = (Err e, w') → w' = w.
Proof.
  destruct r; simpl; try apply change_same; try apply create_one_Err.
  - unfold create_veth, refuse. repeat case_match; congruence.
  - destruct (n_links w !! l); [|by intros [= _ <-]]. destruct (decide _); [apply change_same|].
    destruct (in_use _ _ _); [by intros [= _ <-]|apply change_same].
  - destruct (n_links w !! l); [|by intros [= _ <-]]. destruct (decide _); [apply change_same|].
    destruct (in_use _ _ _); [by intros [= _ <-]|apply change_same].
  - unfold remove. destruct (n_links w !! l); [done|by intros [= _ <-]].
  - destruct (n_links w !! l); [|by intros [= _ <-]]. destruct (has_ip _ _); [by intros [= _ <-]|apply change_same].
  - destruct (n_links w !! l); [|by intros [= _ <-]]. destruct (filter _ _); [apply change_same|by intros [= _ <-]].
Qed.

Lemma has_ip_true s ip : has_ip s ip = true → ∃ x b, (x, b) ∈ ls_addrs s ∧ Addr_IP x = ip.
Proof. unfold has_ip. rewrite bool_decide_eq_true, Exists_exists. intros ([x b] & Hin & <-). eauto. Qed.

Lemma routed_some w ns dst x s rest :
  filter (routed ns dst) (map_to_list (n_links w)) = (x, s) :: rest →
  n_links w !! x = Some s ∧ ls_ns s = ns ∧ ∃ gw, (dst, gw) ∈ ls_routes s.
Proof.
  intros H. assert ((x, s) ∈ filter (routed ns dst) (map_to_list (n_links w))) as Hin by (rewrite H; left).
  apply list_elem_of_filter in Hin as [[H1 H2] Hin%elem_of_map_to_list]. split_and!; [done..|].
  apply Exists_exists in H2 as ([d gw] & Hd & <-). eauto.
Qed.

(** A fault is not taken for something that exists. *)
Lemma with_faults_exists r w e w' :
  with_faults r w = (Err e, w') → isExists e = true → ∃ w0, n_links w0 = n_links w ∧ perform r w0 = (Err e, w').
Proof. unfold with_faults. destruct (n_faults w) as [|[|] fs]; [eauto|intros [= <- _] H; by vm_compute in H|]. intros H _. by exists (put_faults w fs). Qed.

Lemma with_faults_Ok r w w' : with_faults r w = (Ok (), w') → effect r (node_view w) (node_view w').
Proof. unfold with_faults. destruct (n_faults w) as [|[|] fs]; [apply perform_Ok|done|]. apply (perform_Ok r (put_faults w fs)). Qed.
Lemma with_faults_Err r w e w' : with_faults r w = (Err e, w') → node_view w' = node_view w.
Proof.
  unfold with_faults. destruct (n_faults w) as [|[|] fs]; [by intros ->%perform_Err|by intros [= _ <-]|].
  by intros ->%perform_Err.
Qed.

(** *** Words *)

Lemma fields_word s word rest :
  str_forall (λ c, negb (is_space c)) s = true → fields_from (s +:+ rest) word = fields_from rest (word +:+ s).
Proof.
  revert word. induction s as [|c s IH]; intros word; simpl.
  - intros _. by rewrite str_app_nil_r.
  - intros [Hc Hs]%andb_true_iff. destruct (is_space c); [done|]. rewrite IH by done. by rewrite str_app_assoc.
Qed.

Lemma Fields_join names : forallb is_word names = true → Fields (join " " names) = names.
Proof.
  unfold Fields, join. induction names as [|a names IH]; [done|].
  intros Hall. simpl in Hall. apply andb_true_iff in Hall as [[Ha Hs]%andb_true_iff Hn].
  assert (bool_decide (a = "") = false) as Hne by (by destruct (bool_decide _)).
  assert (∀ rest, fields_from (a +:+ String " " rest) "" = a :: fields_from rest "") as Hcons.
  { intros rest. rewrite fields_word by done. simpl. by rewrite str_app_nil, Hne. }
  destruct names as [|b names].
  - assert (fields_from (a +:+ "") "" = [a]) as Hone by (rewrite fields_word by done; simpl; by rewrite str_app_nil, Hne).
    by rewrite str_app_nil_r in Hone.
  - change (String.concat " " (a :: b :: names)) with (a +:+ String " " (String.concat " " (b :: names))).
    by rewrite Hcons, IH.
Qed.

(** *** Commands *)

Lemma mapM_plain ids : plain_ids ids → mapM parse_external_id (external_id <$> ids) = Some ids.
Proof.
  intros H. apply mapM_Some_2, Forall2_fmap_l, Forall_Forall2_diag, Forall_forall. intros kv. apply H.
Qed.

Lemma run_add bridge port ids w out e w' :
  plain_ids ids → run_command "ovs-vsctl" (add_port_args bridge port ids) w = ((out, e), w') →
  w' = put_ports w (<[port := (bridge, set_ids ids (default ∅ (snd <$> n_ports w !! port)))]> (n_ports w)) ∨
  e ≠ None ∧ w' = w.
Proof.
  intros Hp. unfold run_command, add_port_args. simpl. rewrite mapM_plain by done.
  destruct (on_other w bridge port); intros [= _ <- <-]; auto.
Qed.

Lemma run_del bridge port w out e w' :
  run_command "ovs-vsctl" (del_port_args bridge port) w = ((out, e), w') → w' = put_ports w (delete port (n_ports w)).
Proof. destruct bridge; by intros [= _ _ <-]. Qed.

Lemma run_find ids w out e w' :
  plain_ids ids → run_command "ovs-vsctl" (find_args ids) w = ((out, e), w') →
  w' = w ∧ (e = None → ∀ port, port ∈ Fields out ↔ ∃ b m, n_ports w !! port = Some (b, m) ∧ ∀ k v, (k, v) ∈ ids → m !! k = Some v).
Proof.
  intros Hp. unfold run_command, find_args. simpl. rewrite mapM_plain by done.
  destruct (forallb is_word _) eqn:Hw; intros [= <- <- <-]; [|done]. split; [done|]. intros _ port.
  rewrite Fields_join by done. rewrite list_elem_of_fmap. split.
  - intros ([p [b m]] & -> & [Hm Hin%elem_of_map_to_list]%list_elem_of_filter). exists b, m. split; [done|].
    intros k v Hkv. by apply (proj1 (Forall_forall _ _) Hm (k, v)).
  - intros (b & m & Hin & Hm). exists (port, (b, m)). split; [done|]. apply list_elem_of_filter.
    split; [|by apply elem_of_map_to_list]. apply Forall_forall. intros [k v] Hkv. by apply Hm.
Qed.

#[export] Instance node_laws : KernelLaws Node.
Proof.
  refine {| view := node_view |}; simpl.
  - intros p w r w' [= <- <-]. split; [done|]. intros ns. by destruct (n_paths w !! p); intros [= <-].
  - by intros ns w r w' [= _ <-].
  - intros w r w' [= <- <-]. split; [done|]. by intros ns [= <-].
  - by intros p name w r w' [= _ <-].
  - intros p name w l w' [= H <-]. destruct (find_link _ _ _) as [[x s]|] eqn:E; [|done]. injection H as <-.
    apply find_link_Some in E as (Hs & Hns & Hn). by exists s.
  - intros p name w e w' [= H <-]. destruct (find_link _ _ _) as [[x s]|] eqn:E; [done|]. intros _. by apply find_link_None.
  - by intros ns w r w' [= <- <-].
  - by intros w r w' [= <- <-].
  - apply with_faults_Ok.
  - apply with_faults_Err.
  - intros l a nodad w e w' H He. apply with_faults_exists in H as (w0 & <- & H); [|done]. simpl in H.
    destruct (n_links w0 !! l) as [s|]; [|injection H as <- _; by vm_compute in He].
    destruct (has_ip s _) eqn:Hip; [|apply change_Err in H as [_ H]; congruence].
    apply has_ip_true in Hip as (x & b & Hx & Hi). by exists s, x, b.
  - intros l dst gw w e w' H He. apply with_faults_exists in H as (w0 & <- & H); [|done]. simpl in H.
    destruct (n_links w0 !! l) as [s|] eqn:E; [|injection H as <- _; by vm_compute in He].
    destruct (filter _ _) as [|[x s'] rest] eqn:Hf; [apply change_Err in H as [_ H]; congruence|].
    apply routed_some in Hf as (Hx & Hns & gw' & Hg). by exists s, x, s', gw'.
  - intros bridge port ids w out e w' Hp H. destruct (run_add _ _ _ _ _ _ _ Hp H) as [->|[? ->]]; auto.
  - intros bridge port w out e w' H. left. by rewrite (run_del _ _ _ _ _ _ H).
  - intros ids w out e w' Hp H. destruct (run_find _ _ _ _ _ Hp H) as [-> Hf]. done.
  - by intros args w out e w' [= _ _ <-].
  - intros i w r w'. by destruct (n_faults w) as [|[|] fs]; intros [= _ <-].
  - by intros k w r w' [= _ <-].
Defined.
