(* ===== verification/NodeExample.v ===== *)
(** * The datapath on a concrete node

    Witnesses of the datapath's theorems on the node of [Node], and runs that show how a
    name that is taken leaves a NIC unplugged. *)

From S2P Require Import Prelude Netip Store Kernel Dhcp Attach NetShape AttachLogic Sandbox AttachProps AttachTrace.
From S2P Require Import AttachConfig AttachVM Node.

#[export] Instance dhcp4 : Dhcp4 := {|
  OptionSubnetMask := 1; OptionRouter := 3; OptionInterfaceMTU := 26; OptionClasslessRouteFormat := 121;
  Packet := list Z; CHAddr p := p; ReplyPacket p _ _ _ _ _ := p |}.

(** ** Quiet nodes are tidy *)

(** No link has a peer, none on the host has a name like the driver's, and names and paths
    are unique. *)
Definition quiet (w : Node) : Prop :=
  map_Forall (λ _ s, ls_peer s = None ∧ (ls_ns s = 0%nat → trim_prefix_opt "v" (ls_name s) = None)) (n_links w) ∧
  map_Forall (λ x s, map_Forall (λ y t, (ls_ns s, ls_name s) = (ls_ns t, ls_name t) → x = y) (n_links w)) (n_links w) ∧
  map_Forall (λ p a, a ≠ 0%nat ∧ map_Forall (λ q b, a = b → p = q) (n_paths w)) (n_paths w) ∧
  n_cur w = 0%nat.
#[export] Instance quiet_dec w : Decision (quiet w).
Proof. unfold quiet. apply _. Defined.

Lemma vh_prefix c i : ∃ r, trim_prefix_opt "v" (vh c i) = Some r.
Proof. unfold vh. rewrite shortHashName_app. by eexists. Qed.
Lemma vc_prefix c i : ∃ r, trim_prefix_opt "v" (vc c i) = Some r.
Proof. unfold vc. rewrite shortHashName_app. by eexists. Qed.

Lemma quiet_tidy w : quiet w → tidy_net (node_view w).
Proof.
  intros (Hp & Hu & Hq & Hc).
  assert (∀ x ns nm p, shape (node_view w) x = Some (ns, nm, p) →
    ∃ s, n_links w !! x = Some s ∧ ns = ls_ns s ∧ nm = ls_name s ∧ p = None ∧
         (ns = 0%nat → trim_prefix_opt "v" nm = None)) as Hsh.
  { intros x ns nm p (s & Hs & [= -> -> ->])%fmap_Some. simpl in Hs. exists s. destruct (Hp _ _ Hs) as [-> ?]. done. }
  split; [split|split; [split|done]].
  - intros x y ns nm p q (s & Hs & -> & -> & _)%Hsh (t & Ht & E1 & E2 & _)%Hsh. apply (Hu _ _ Hs _ _ Ht). congruence.
  - intros x ns nm y (s & _ & _ & _ & ? & _)%Hsh. done.
  - intros x c i y nm p (s & _ & _ & _ & ? & _)%Hsh. done.
  - intros x c i p (s & _ & _ & _ & _ & H)%Hsh. destruct (vc_prefix c i) as [r Hr]. rewrite H in Hr; done.
  - simpl. intros p ns H. by destruct (Hq _ _ H).
  - simpl. intros p q ns H1 H2. destruct (Hq _ _ H1) as [_ H]. by apply (H _ _ H2).
Qed.

(** ** A node with one sandbox *)

Definition default_net : IPNet := {| net_IP := [0; 0; 0; 0]%Z; mask_ones := 0; mask_bits := 32 |}.

Definition eth0 : LinkState nat nat := {|
  ls_ns := 1; ls_name := "eth0"; ls_kind := Other "macvlan"; ls_up := true; ls_mac := [2; 0; 0; 0; 0; 1]%Z;
  ls_mtu := 1400; ls_addrs := []; ls_routes := [(default_net, Some [10; 16; 0; 1]%Z)]; ls_master := None;
  ls_learning := true |}.

Definition node : Node := {|
  n_links := {[1%nat := eth0; 2%nat := new_link 0 "ovn0" (Other "openvswitch") 1500 (hw 2)]};
  n_ports := ∅; n_paths := {["/run/netns/a" := 1%nat]}; n_cur := 0; n_next := 10; n_faults := [] |}.

Definition start : ovsAttacher Node := {| kern := node; dhcpServers := ∅ |}.

Definition nic (iface : string) (vm : bool) (routes : list Route) : Spec := {|
  PodUID := "u1"; PodName := "web"; PodNamespace := "ns"; ClaimUID := "c1"; NetnsPath := "/run/netns/a"; IfaceName := iface;
  IP := "172.23.0.5/20"; ExtraIPs := ["fd00::5/64"]; MAC := "02:00:00:00:00:05"; Gateway := "172.23.0.1"; Routes := routes;
  MTU := 0; ContainerID := "sb1"; Provider := "net1.ovn"; IfaceID := "web.ns.net1.ovn"; KubeVirtVMI := vm;
  OVNDHCP := false |}.

Definition route : Route := {| Destination := "10.1.0.0/16"; Route_Gateway := "" |}.

Lemma start_tidy : tidy_net (vw start).
Proof. apply quiet_tidy. apply (bool_decide_unpack _). vm_compute. exact I. Qed.

(** A name is free on the node when no link has it. *)
Lemma node_vacant w ns name : in_use w ns name = false → ¬ named (node_view w) ns name.
Proof. apply in_use_false. Qed.

Lemma run_eq {A} (m : M A) (σ : ovsAttacher Node) r : (m σ).1 = r → m σ = (r, (m σ).2).
Proof. intros <-. apply surjective_pairing. Qed.

(** ** Witnesses *)

Definition pod_nic : Spec := nic "net1" false [route].
Definition vm_nic : Spec := nic "net1" true [route].



Lemma Attach_no_default_witness :
  ∃ t0, links (vw start) 1%nat = Some t0 ∧ (default_net, Some [10; 16; 0; 1]%Z) ∈ ls_routes t0.
Proof.
  refine (Attach_no_default (KE := node_kernel) pod_nic start _ (Attach_ovs pod_nic start).2 1%nat eth0 default_net _ (run_eq _ _ _ eq_refl) _ _ eq_refl).
  - vm_compute. reflexivity.
  - left.
Defined.

(** A route into the IPv4-mapped block. *)
Definition mapped : Route := {| Destination := "::ffff:10.0.0.0/104"; Route_Gateway := "10.0.0.1" |}.

Lemma Attach_panics_witness : ∃ rt, rt ∈ [mapped] ∧ mapped_route "172.23.0.1" rt = true.
Proof.
  refine (proj2 (proj2 (Attach_panics (nic "net1" true [mapped]) start (Attach_ovs (nic "net1" true [mapped]) start).2 _))).
  apply run_eq. vm_compute. reflexivity.
Defined.

Lemma Detach_clears_witness :
  let σ := (Attach_ovs vm_nic start).2 in
  ports (vw (Detach_ovs vm_nic σ).2) !! vh "sb1" "net1" = None.
Proof.
  intros σ. refine (proj1 (Detach_clears vm_nic σ (Detach_ovs vm_nic σ).2 _ _)).
  - eapply tidy_stays; [apply (Attach_stays vm_nic start (Attach_ovs vm_nic start).1 σ); [apply surjective_pairing|exact start_tidy]|exact start_tidy].
  - apply run_eq. vm_compute. reflexivity.
Defined.

Lemma ovs_attacher_laws_witness : AttacherLaws (ovsAttacher Node).
Proof. apply ovs_attacher_laws. Defined.

(** ** A name that is taken *)

(** A NIC that asks for the name of the pod's primary interface: Attach succeeds, changes the
    MAC address of eth0, and the NIC's other end stays on the host. *)
Lemma Attach_taken_unplugged_witness :
  let s := nic "eth0" false [] in
  let σ := (Attach_ovs s start).2 in
  named (vw σ) (home (vw σ)) (vc "sb1" "eth0") ∧
  (λ t, (ls_name t, ls_mac t)) <$> links (vw σ) 1%nat = Some ("eth0", [2; 0; 0; 0; 0; 5]%Z).
Proof.
  intros s σ. split.
  - refine (proj1 (Attach_taken_unplugged (KE := node_kernel) s start σ 1%nat start_tidy _ _ _ _)).
    + reflexivity.
    + apply in_use_false. vm_compute. reflexivity.
    + exists 1%nat, eth0. split_and!; reflexivity.
    + refine (run_eq (Attach_ovs s) start (Ret ()) _). vm_compute. reflexivity.
  - vm_compute. reflexivity.
Defined.

(** ** Retries *)

Definition again (σ : ovsAttacher Node) (faults : list bool) : ovsAttacher Node :=
  {| kern := put_faults (kern σ) faults; dhcpServers := ∅ |}.
Definition succeeds (m : M ()) (σ : ovsAttacher Node) : bool := match (m σ).1 with Ret _ => true | _ => false end.
Definition after (m : M ()) (σ : ovsAttacher Node) : ovsAttacher Node := (m σ).2.
Definition on_host (σ : ovsAttacher Node) (name : string) : bool := in_use (kern σ) 0 name.

(** The host's end of the NIC is up. *)
Definition host_up (σ : ovsAttacher Node) (name : string) : bool :=
  match find_link (kern σ) 0 name with Some (_, s) => ls_up s | None => false end.

(** The process restarts while a VM runs, and its DHCP listener cannot be opened: the attach
    at synchronisation fails and deletes the veth pair of the running NIC.  The next one
    succeeds, as the tap still has the NIC's name, but the new pair is not connected. *)
Example failed_reattach_unplugs :
  let m := Attach_ovs vm_nic in
  let σ1 := after m start in
  let σ2 := after m (again σ1 [true]) in
  let σ3 := after m (again σ2 []) in
  succeeds m start = true ∧ on_host σ1 (vc "sb1" "net1") = false ∧
  succeeds m (again σ1 [true]) = false ∧ on_host σ2 (vh "sb1" "net1") = false ∧
  succeeds m (again σ2 []) = true ∧ on_host σ3 (vc "sb1" "net1") = true.
Proof. vm_compute. split_and!; reflexivity. Qed.

(** Setting the host's end up fails: the veth pair stays, and the next attach reuses it as
    it is and succeeds, with the host's end down. *)
Example failed_create_leaves_down :
  let m := Attach_ovs pod_nic in
  let σ1 := after m (again start [false; false; true]) in
  let σ2 := after m (again σ1 []) in
  succeeds m (again start [false; false; true]) = false ∧
  succeeds m (again σ1 []) = true ∧ host_up σ2 (vh "sb1" "net1") = false.
Proof. vm_compute. split_and!; reflexivity. Qed.
