(* ===== verification/ParallelExample.v ===== *)
(** * NICs attached side by side on a concrete node

    Two NICs of a sandbox, one of them a VM's, attached call by call in turns. *)

From S2P Require Import Prelude Netip Store Prog Kernel Dhcp Attach NetShape AttachLogic Sandbox AttachProps AttachSteps.
From S2P Require Import AttachRely AttachParallel Node NodeExample.

Definition other_nic : Spec := nic "net2" true [].
Definition two_jobs : list job := [AttachJob pod_nic; AttachJob other_nic].

(** Taking turns. *)
Definition turns : list nat := concat (repeat [0; 1]%nat 60).

Definition ended (c : list (job * prog (ovsAttacher Node) (outcome ())) * ovsAttacher Node) (k : nat) : bool :=
  match c.1 !! k with Some (_, Prog.Ret (Ret _)) => true | _ => false end.

(** Two NICs have nothing in common when their names differ. *)
Lemma unrelated_intro s t :
  bool_decide (vh (ContainerID s) (IfaceName s) ≠ vh (ContainerID t) (IfaceName t)) = true →
  bool_decide (Forall (λ nm, nm ∉ own_names t) (own_names s)) = true → unrelated s t.
Proof.
  intros H1%bool_decide_eq_true H2%bool_decide_eq_true. split; [done|]. intros _ nm. rewrite Forall_forall in H2. apply H2.
Qed.

Lemma two_unrelated : all_unrelated two_jobs.
Proof.
  intros [|[|k]] [|[|k']] j j' Hk Hk' Hne; try done; injection Hk as <-; injection Hk' as <-;
    apply unrelated_intro; vm_compute; reflexivity.
Qed.

(** On a quiet node no device has a peer. *)
Lemma quiet_tethered s w : quiet w → tethered (KE := node_kernel) (AN := here (node_view w)) s (node_view w).
Proof.
  intros (Hp & _) x y ns nm ns' nm' p _ (t & Ht & [= _ _ E])%fmap_Some. destruct (Hp _ _ Ht) as [E' _]. congruence.
Qed.

Lemma start_quiet : quiet node.
Proof. apply (bool_decide_unpack _). vm_compute. exact I. Qed.

Lemma start_fits iface vm routes :
  in_use node 1 iface = false → bool_decide (iface ≠ vethRenameFor iface) = true → fits (vw start) (nic iface vm routes).
Proof.
  intros H Hi%bool_decide_eq_true. split; [|done]. intros ns [= <-] Hn. by apply (in_use_false _ _ _ H) in Hn.
Qed.

Lemma ended_job ks jobs σ k j :
  jobs !! k = Some j → ended (run_fleet ks (start_jobs jobs) σ) k = true →
  (run_fleet ks (start_jobs jobs) σ).1 !! k = Some (j, Prog.Ret (Ret ())).
Proof.
  pose proof (run_fleet_jobs ks (start_jobs jobs) σ) as Hf. rewrite start_jobs_jobs in Hf. rewrite <- Hf at 1.
  generalize (run_fleet ks (start_jobs jobs) σ). intros c. unfold ended. rewrite list_lookup_fmap.
  by destruct (c.1 !! k) as [[j' [[[]|e|]|l f next]]|]; intros [= ->].
Qed.

Lemma jobs_in_parallel_witness :
  let c := run_fleet turns (start_jobs two_jobs) start in
  (inside (vw c.2) pod_nic ∧ bound pod_nic (vw c.2)) ∧ inside (vw c.2) other_nic ∧ bound other_nic (vw c.2).
Proof.
  assert (rtc fleet_step (start_jobs two_jobs, start) (run_fleet turns (start_jobs two_jobs) start)) as Hrun by apply run_fleet_steps.
  assert (ended (run_fleet turns (start_jobs two_jobs) start) 0 = true) as H0 by (vm_compute; reflexivity).
  assert (ended (run_fleet turns (start_jobs two_jobs) start) 1 = true) as H1 by (vm_compute; reflexivity).
  apply (ended_job _ _ _ _ (AttachJob pod_nic)) in H0; [|reflexivity].
  apply (ended_job _ _ _ _ (AttachJob other_nic)) in H1; [|reflexivity].
  revert Hrun H0 H1. generalize (run_fleet turns (start_jobs two_jobs) start). intros [fl σ] Hrun H0 H1.
  assert (Forall (λ j, job_ready j (vw start)) two_jobs) as Hready.
  { apply Forall_cons. split; [|apply Forall_cons; split; [|apply Forall_nil_2]];
      (split; [apply quiet_tethered, start_quiet|apply start_fits; vm_compute; reflexivity]). }
  split.
  - exact (jobs_in_parallel two_jobs start fl σ 0 (AttachJob pod_nic) start_tidy two_unrelated Hready Hrun H0).
  - exact (jobs_in_parallel two_jobs start fl σ 1 (AttachJob other_nic) start_tidy two_unrelated Hready Hrun H1).
Defined.
