(* ===== verification/Nri.v ===== *)
(** * The NRI plugin (cmd/kube-ovn-dra-kubeletplugin/nri.go)

    It adapts the runtime's sandbox events to the handler, remembers the running
    sandboxes whose NICs could not be attached when the plugin connected, and is ready
    only between a synchronization and the end of the connection. *)

From S2P Require Import Prelude Store StoreInv Sandbox.

Record LinuxNamespace := { Ns_Type : string; Ns_Path : string }.

Record PodSandbox := {
  Sb_Id : string;
  Sb_Name : string;
  Sb_Uid : string;
  Sb_Namespace : string;
  Sb_Labels : gmap string string;
  Sb_Linux : option (list LinuxNamespace);
}.

Definition networkNamespaceType : string := "network".

Fixpoint first_network (namespaces : list LinuxNamespace) : string :=
  match namespaces with
  | [] => EmptyString
  | ns :: namespaces =>
      if bool_decide (Ns_Type ns = networkNamespaceType) then Ns_Path ns else first_network namespaces
  end.

Definition networkNamespacePath (sb : PodSandbox) : string :=
  match Sb_Linux sb with None => EmptyString | Some l => first_network l end.

(** The plugin with the store and the node's network its handler works on. *)
Record nriPlugin (W : Type) := {
  nri_store : NICStore;
  nri_world : W;
  ready : bool;
  failed : gmap string PodSandbox;
}.
Arguments nri_store {W}. Arguments nri_world {W}. Arguments ready {W}. Arguments failed {W}.
Arguments Build_nriPlugin {W}.

Section plugin.
Context {W : Type} `{A : Attacher W} `{G : GoImpl}.
Implicit Types p : nriPlugin W.

Definition with_failed p (f : gmap string PodSandbox) : nriPlugin W :=
  {| nri_store := nri_store p; nri_world := nri_world p; ready := ready p; failed := f |}.
Definition with_ready p (r : bool) : nriPlugin W :=
  {| nri_store := nri_store p; nri_world := nri_world p; ready := r; failed := failed p |}.
Definition with_node p (store : NICStore) (w : W) : nriPlugin W :=
  {| nri_store := store; nri_world := w; ready := ready p; failed := failed p |}.

Definition Ready p : bool := ready p.

Definition syncSandbox p (sb : PodSandbox) : nriPlugin W :=
  let netnsPath := networkNamespacePath sb in
  if bool_decide (netnsPath = EmptyString) then p
  else
    let '(err, store, w) :=
      OnSynchronizeSandbox (nri_store p) (nri_world p) (Sb_Uid sb) (Sb_Id sb) netnsPath (Sb_Labels sb) in
    let p := with_node p store w in
    match err with
    | Some _ => with_failed p (<[Sb_Uid sb := sb]> (failed p))
    | None => with_failed p (delete (Sb_Uid sb) (failed p))
    end.

Definition Synchronize p (pods : list PodSandbox) : nriPlugin W :=
  with_ready (foldl syncSandbox p pods) true.

(** One tick of the retry loop: the sandboxes are copied first, then retried. *)
Definition retryFailed p : nriPlugin W :=
  foldl syncSandbox p (snd <$> map_range 40 (failed p)).

Definition RunPodSandbox p (sb : PodSandbox) : option error * nriPlugin W :=
  let netnsPath := networkNamespacePath sb in
  if bool_decide (netnsPath = EmptyString) then (None, p)
  else
    let '(err, store, w) :=
      OnRunPodSandbox (nri_store p) (nri_world p) (Sb_Uid sb) (Sb_Id sb) netnsPath (Sb_Labels sb) in
    (err, with_node p store w).

Definition StopPodSandbox p (sb : PodSandbox) : option error * nriPlugin W :=
  let p := with_failed p (delete (Sb_Uid sb) (failed p)) in
  let '(err, store, w) :=
    OnStopPodSandbox (nri_store p) (nri_world p) (Sb_Uid sb) (Sb_Name sb) (Sb_Namespace sb) in
  (err, with_node p store w).

(** The connection ended: the stub's OnClose and the end of its Run. *)
Definition onClose p : nriPlugin W := with_ready p false.

End plugin.

(** The delay before the next reconnect, in nanoseconds. *)
Definition nriMinBackoff : Z := 1000000000.
Definition nriMaxBackoff : Z := 30000000000.
Definition next_backoff (backoff : Z) : Z := Z.min (i64 (2 * backoff)) nriMaxBackoff.

Lemma next_backoff_bounds b :
  (nriMinBackoff <= b <= nriMaxBackoff)%Z → (nriMinBackoff <= next_backoff b <= nriMaxBackoff)%Z.
Proof.
  unfold next_backoff, nriMinBackoff, nriMaxBackoff. intros Hb.
  rewrite i64_id by (unfold i64_min, i64_max; lia). lia.
Qed.

Lemma backoff_bounds n :
  (nriMinBackoff <= Nat.iter n next_backoff nriMinBackoff <= nriMaxBackoff)%Z.
Proof.
  induction n as [|n IH]; [unfold nriMinBackoff, nriMaxBackoff; simpl; lia|].
  exact (next_backoff_bounds _ IH).
Qed.

(** ** Properties *)

Section props.
Context {W : Type} `{AL : AttacherLaws W} `{G : GoImpl}.
Implicit Types p : nriPlugin W.

Lemma syncSandbox_byPod p sb : byPod (nri_store (syncSandbox p sb)) = byPod (nri_store p).
Proof.
  unfold syncSandbox. case_bool_decide; [done|]. unfold OnSynchronizeSandbox.
  destruct (sync_specs _ _ _ _) as [[errs store] w] eqn:E. apply sync_specs_byPod in E.
  by destruct (errors_join _).
Qed.

Lemma syncAll_byPod p pods : byPod (nri_store (foldl syncSandbox p pods)) = byPod (nri_store p).
Proof.
  revert p. induction pods as [|sb pods IH]; intros p; simpl; [done|]. by rewrite IH, syncSandbox_byPod.
Qed.

Lemma byPod_Specs s s' pod : byPod s' = byPod s → Specs s' pod = Specs s pod.
Proof. unfold Specs. by intros ->. Qed.

Lemma byPod_wf s s' : byPod s' = byPod s → store_wf s → store_wf s'.
Proof. unfold store_wf. intros E Hwf pod. rewrite (byPod_Specs s s' pod E). apply Hwf. Qed.

(** The NICs of a sandbox's pod, as they are attached to it. *)
Definition nics p (sb : PodSandbox) : list Spec :=
  sandboxSpecs (nri_store p) (Sb_Uid sb) (Sb_Id sb) (networkNamespacePath sb) (Sb_Labels sb).

(** A NIC of the store as the hooks give it to the attacher: with the container and the
    network namespace of the sandbox, and whether its pod runs a VM. *)
Definition at_sandbox (sb : PodSandbox) (s : Spec) : Spec :=
  in_sandbox (Sb_Id sb) (networkNamespacePath sb)
    (bool_decide (default EmptyString (Sb_Labels sb !! kubevirtLabelKey) = kubevirtVirtLauncherLabel)) s.

Lemma nics_at p sb s : s ∈ Specs (nri_store p) (Sb_Uid sb) → at_sandbox sb s ∈ nics p sb.
Proof. apply list_elem_of_fmap_2. Qed.

(** They are all in their place in it. *)
Definition plugged p (sb : PodSandbox) : Prop := ∀ s, s ∈ nics p sb → placed (nri_world p) s.

(** The sandbox is dealt with, or remembered for a retry. *)
Definition handled p (sb : PodSandbox) : Prop :=
  networkNamespacePath sb = EmptyString ∨ failed p !! Sb_Uid sb = Some sb ∨ plugged p sb.

(** Nothing blocks the NICs of the sandbox. *)
Definition sandbox_free p (sb : PodSandbox) : Prop := unblocked (nri_world p) (nics p sb).

(** Two sandboxes do not meet: they are of different pods, the host devices of their NICs
    have different names, and attaching to one does not take a name in the other. *)
Definition apart p (sb sb' : PodSandbox) : Prop :=
  Sb_Uid sb' ≠ Sb_Uid sb ∧
  (∀ s t, s ∈ nics p sb → t ∈ nics p sb' → spec_key s ≠ spec_key t ∧ ¬ clash s t).

Lemma nics_byPod p p' sb : byPod (nri_store p') = byPod (nri_store p) → nics p' sb = nics p sb.
Proof. unfold nics, sandboxSpecs, Specs. by intros ->. Qed.

Lemma syncSandbox_frame p sb :
  tidy (nri_world p) →
  tidy (nri_world (syncSandbox p sb)) ∧
  (∀ t, (∀ s, s ∈ nics p sb → ¬ clash s t) →
     (placed (nri_world p) t → placed (nri_world (syncSandbox p sb)) t) ∧
     (free_for (nri_world p) t → free_for (nri_world (syncSandbox p sb)) t)).
Proof.
  intros Htd. unfold syncSandbox, OnSynchronizeSandbox. case_bool_decide; [done|].
  destruct (sync_specs _ _ _ _) as [[errs store] w] eqn:E. apply sync_specs_frame in E as (? & _ & ?); [|done].
  by destruct (errors_join _).
Qed.

Lemma syncSandbox_handled p sb :
  store_wf (nri_store p) → tidy (nri_world p) → sandbox_free p sb → handled (syncSandbox p sb) sb.
Proof.
  intros Hwf Htd Hfree. unfold handled, syncSandbox. case_bool_decide as Hn; [by left|]. right.
  destruct (OnSynchronizeSandbox _ _ _ _ _ _) as [[[e|] store] w] eqn:E; simpl.
  - left. by rewrite lookup_insert_eq.
  - right. intros s Hs. simpl in *.
    eapply OnSynchronizeSandbox_ok; [exact Hwf|exact Htd|exact Hfree|exact E|].
    unfold OnSynchronizeSandbox in E. destruct (sync_specs _ _ _ _) as [[errs st1] w1] eqn:E'.
    injection E as _ <- <-. apply sync_specs_byPod in E'. by rewrite (nics_byPod p) in Hs.
Qed.

Lemma syncSandbox_failed_other p sb uid :
  uid ≠ Sb_Uid sb → failed (syncSandbox p sb) !! uid = failed p !! uid.
Proof.
  intros Hne. unfold syncSandbox. case_bool_decide; [done|].
  destruct (OnSynchronizeSandbox _ _ _ _ _ _) as [[[e|] store] w]; simpl;
    by rewrite ?lookup_insert_ne, ?lookup_delete_ne by done.
Qed.

Lemma syncSandbox_other p sb sb' :
  tidy (nri_world p) → apart p sb sb' → handled p sb' → handled (syncSandbox p sb) sb'.
Proof.
  intros Htd [Hu Hap]. pose proof (syncSandbox_byPod p sb) as Hb. unfold handled, plugged.
  intros [H|[H|H]]; [by left| |]; right; [left; by rewrite syncSandbox_failed_other|right].
  intros t. rewrite (nics_byPod p) by done. intros Ht. destruct (syncSandbox_frame p sb Htd) as (_ & Hl).
  apply Hl; [|by apply H]. intros s Hs. by apply (Hap s t).
Qed.

Lemma syncSandbox_free p sb sb' :
  tidy (nri_world p) → apart p sb sb' → sandbox_free p sb' → sandbox_free (syncSandbox p sb) sb'.
Proof.
  intros Htd [_ Hap] [Hf Hc]. unfold sandbox_free. rewrite (nics_byPod p) by apply syncSandbox_byPod.
  split; [|done]. intros t Ht. destruct (syncSandbox_frame p sb Htd) as (_ & H).
  apply H; [|by apply Hf]. intros s Hs. by apply (Hap s t).
Qed.

Lemma apart_byPod p p' sb sb' : byPod (nri_store p') = byPod (nri_store p) → apart p sb sb' → apart p' sb sb'.
Proof. unfold apart. intros Hb. by rewrite !(nics_byPod p p') by done. Qed.

Lemma syncAll_tidy p pods : tidy (nri_world p) → tidy (nri_world (foldl syncSandbox p pods)).
Proof.
  revert p. induction pods as [|sb pods IH]; intros p Htd; simpl; [done|]. by apply IH, syncSandbox_frame.
Qed.

(** Every two of the sandboxes are apart. *)
Fixpoint all_apart p (pods : list PodSandbox) : Prop :=
  match pods with
  | [] => True
  | sb :: pods => (∀ sb', sb' ∈ pods → apart p sb sb' ∧ apart p sb' sb) ∧ all_apart p pods
  end.

Lemma all_apart_byPod p p' pods : byPod (nri_store p') = byPod (nri_store p) → all_apart p pods → all_apart p' pods.
Proof.
  intros Hb. induction pods as [|sb pods IH]; [done|]. intros [H Hp]. split; [|auto].
  intros sb' Hin. destruct (H sb' Hin). split; by eapply apart_byPod.
Qed.

Lemma syncAll_other p pods sb :
  tidy (nri_world p) → (∀ x, x ∈ pods → apart p x sb) → handled p sb → handled (foldl syncSandbox p pods) sb.
Proof.
  revert p. induction pods as [|x pods IH]; intros p Htd Hap Hh; simpl; [done|]. apply IH.
  - by apply syncSandbox_frame.
  - intros y Hy. eapply apart_byPod; [apply syncSandbox_byPod|]. apply Hap. by right.
  - apply syncSandbox_other; [done|apply Hap; left|done].
Qed.

Lemma syncAll_handled p pods :
  store_wf (nri_store p) → tidy (nri_world p) → all_apart p pods → (∀ sb, sb ∈ pods → sandbox_free p sb) →
  ∀ sb, sb ∈ pods → handled (foldl syncSandbox p pods) sb.
Proof.
  revert p. induction pods as [|x pods IH]; intros p Hwf Htd Hap Hfree sb; [set_solver|]. simpl.
  destruct Hap as [Hx Hap]. intros [->|Hsb]%elem_of_cons.
  - apply syncAll_other; [by apply syncSandbox_frame| |].
    + intros y Hy. eapply apart_byPod; [apply syncSandbox_byPod|]. by apply Hx.
    + apply syncSandbox_handled; [done..|]. apply Hfree. left.
  - apply IH; [|by apply syncSandbox_frame| | |done].
    + eapply byPod_wf; [apply syncSandbox_byPod|done].
    + eapply all_apart_byPod; [apply syncSandbox_byPod|done].
    + intros y Hy. apply syncSandbox_free; [done|by apply Hx|]. apply Hfree. by right.
Qed.


(** A retry round drops a sandbox only once all NICs of its pod are plugged, as long
    as the sandboxes are apart and nothing blocks the names of their NICs. *)
Theorem retryFailed_complete p uid sb :
  store_wf (nri_store p) → tidy (nri_world p) → all_apart p (snd <$> map_range 40 (failed p)) →
  (∀ u sb, failed p !! u = Some sb → sandbox_free p sb) →
  failed p !! uid = Some sb →
  handled (retryFailed p) sb.
Proof.
  intros Hwf Htd Ha Hf Hsb. unfold retryFailed. apply syncAll_handled; [done..| |].
  - intros x ([u y] & -> & Hin)%list_elem_of_fmap. apply map_range_elem in Hin. by eapply Hf.
  - apply list_elem_of_fmap. exists (uid, sb). by rewrite map_range_elem.
Qed.

(** A sandbox that starts while the plugin handles its event has all NICs of its pod
    plugged, or its start fails, or something blocked their names. *)
Lemma RunPodSandbox_plugs p sb p' :
  store_wf (nri_store p) → tidy (nri_world p) → sandbox_free p sb →
  RunPodSandbox p sb = (None, p') → networkNamespacePath sb ≠ EmptyString →
  plugged p' sb.
Proof.
  unfold RunPodSandbox, plugged. intros Hwf Htd Hf HR Hn. rewrite bool_decide_false in HR by done.
  destruct (OnRunPodSandbox _ _ _ _ _ _) as [[e store] w] eqn:E. injection HR as -> <-. simpl.
  pose proof E as Hb. apply run_specs_byPod in Hb. intros s. rewrite (nics_byPod p) by done. intros Hs.
  eapply OnRunPodSandbox_ok; [exact Hwf|exact Htd|exact Hf|exact E|done].
Qed.

Lemma RunPodSandbox_tidy p sb e p' : tidy (nri_world p) → RunPodSandbox p sb = (e, p') → tidy (nri_world p').
Proof.
  intros Htd. unfold RunPodSandbox. case_bool_decide; [by intros [= _ ->]|].
  destruct (OnRunPodSandbox _ _ _ _ _ _) as [[er store] w] eqn:E. apply run_specs_tidy in E; [|done].
  by intros [= _ <-].
Qed.

Lemma StopPodSandbox_tidy p sb e p' : tidy (nri_world p) → StopPodSandbox p sb = (e, p') → tidy (nri_world p').
Proof.
  intros Htd. unfold StopPodSandbox, OnStopPodSandbox. simpl. destruct (detach_all _ _) as [errs w] eqn:Ed.
  destruct (DetachPodPorts w _ _) as [e' w'] eqn:Ep. intros [= _ <-].
  apply detach_all_spec in Ed as [Ht _]; [|done]. by eapply ports_tidy.
Qed.

Lemma RunPodSandbox_byPod p sb e p' :
  RunPodSandbox p sb = (e, p') → byPod (nri_store p') = byPod (nri_store p).
Proof.
  unfold RunPodSandbox. case_bool_decide; [by intros [= _ ->]|].
  destruct (OnRunPodSandbox _ _ _ _ _ _) as [[er store] w] eqn:E. apply run_specs_byPod in E.
  by intros [= _ <-].
Qed.

Lemma StopPodSandbox_byPod p sb e p' :
  StopPodSandbox p sb = (e, p') → byPod (nri_store p') = byPod (nri_store p).
Proof.
  unfold StopPodSandbox, OnStopPodSandbox. simpl. destruct (detach_all _ _) as [errs w].
  destruct (DetachPodPorts w _ _) as [e' w']. by intros [= _ <-].
Qed.

(** Stopping any sandbox of a pod unplugs the NICs recorded for the pod, whichever
    sandbox they were plugged into: the event of a stale sandbox takes them from a
    running one. *)
Theorem StopPodSandbox_takes_all p sb p' t :
  tidy (nri_world p) → StopPodSandbox p sb = (None, p') → t ∈ attached_of (nri_store p) (Sb_Uid sb) →
  ¬ nic_live (nri_world p') t.
Proof.
  intros Htd. unfold StopPodSandbox, OnStopPodSandbox. simpl.
  destruct (detach_all _ _) as [errs w] eqn:Ed. destruct (DetachPodPorts w _ _) as [e w'] eqn:Ep.
  intros [= He <-] Ht. apply errors_join_Some_None, app_nil in He as [-> _]. simpl.
  destruct (detach_all_spec _ _ _ _ Htd Ed) as (Htw & _ & Hgone). intros Hl. apply (Hgone eq_refl t Ht).
  by apply (ports_shrinks _ _ _ _ _ _ _ Htw Ep).
Qed.

End props.
