(* ===== verification/Hooks.v ===== *)
(** * The hooks of the runtime as programs (cmd/kube-ovn-dra-kubeletplugin/nri.go, pkg/plumbing/nri.go)

    The hooks and the retries are sequences of smaller operations: attaching or detaching
    one NIC, a look at the store or a change of it, a look at the table of failed sandboxes
    or a change of it.  This file gives them as programs over these operations
    ([Primitives]), and shows that they are the operations of [Nri] when run alone if the
    smaller ones are.  [Threads] makes each of these one action on the state of the whole
    plugin; [HookSteps] splits attaching and detaching further, down to the calls of the
    kernel. *)

From S2P Require Import Prelude Store StoreInv Prog Sandbox Nri.

Class Primitives (S : Type) := {
  h_attach : Spec → prog S (option error);
  h_detach : Spec → prog S (option error);
  h_ports : string → string → prog S (option error);
  h_specs : string → prog S (list Spec);
  h_mark : string → Spec → prog S unit;
  h_take : string → prog S (list Spec);
  h_failed : (gmap string PodSandbox → gmap string PodSandbox) → prog S unit;
  h_copy_failed : prog S (list PodSandbox);
  h_ready : bool → prog S unit;
}.

Section hooks.
Context {S : Type} `{PR : Primitives S}.

(** ** The hooks *)

Fixpoint t_detach_all (specs : list Spec) : prog S (list error) :=
  match specs with
  | [] => mret []
  | s :: specs => e ← h_detach s; errs ← t_detach_all specs; mret (option_list e ++ errs)
  end.

Definition fill_in (containerID netnsPath : string) (labels : gmap string string) (specs : list Spec) : list Spec :=
  let isVMI := bool_decide (default EmptyString (labels !! kubevirtLabelKey) = kubevirtVirtLauncherLabel) in
  in_sandbox containerID netnsPath isVMI <$> specs.

Definition t_sandboxSpecs (podUID containerID netnsPath : string) (labels : gmap string string) :
    prog S (list Spec) :=
  specs ← h_specs podUID;
  mret (fill_in containerID netnsPath labels specs).

Fixpoint t_run_specs (podUID : string) (specs : list Spec) : prog S (option error) :=
  match specs with
  | [] => mret None
  | s :: specs =>
      e ← h_attach s;
      match e with
      | Some e =>
          taken ← h_take podUID;
          errs ← t_detach_all taken;
          mret (errors_join (Some <$> (e :: errs)))
      | None => _ ← h_mark podUID s; t_run_specs podUID specs
      end
  end.

Definition t_OnRunPodSandbox (podUID containerID netnsPath : string) (labels : gmap string string) :
    prog S (option error) :=
  specs ← t_sandboxSpecs podUID containerID netnsPath labels;
  t_run_specs podUID specs.

Fixpoint t_sync_specs (podUID : string) (specs : list Spec) : prog S (list error) :=
  match specs with
  | [] => mret []
  | s :: specs =>
      e ← h_attach s;
      match e with
      | Some e => errs ← t_sync_specs podUID specs; mret (e :: errs)
      | None => _ ← h_mark podUID s; t_sync_specs podUID specs
      end
  end.

Definition t_OnSynchronizeSandbox (podUID containerID netnsPath : string) (labels : gmap string string) :
    prog S (option error) :=
  specs ← t_sandboxSpecs podUID containerID netnsPath labels;
  errs ← t_sync_specs podUID specs;
  mret (errors_join (Some <$> errs)).

Definition t_OnStopPodSandbox (podUID podName podNamespace : string) : prog S (option error) :=
  taken ← h_take podUID;
  errs ← t_detach_all taken;
  e ← h_ports podName podNamespace;
  mret (errors_join (Some <$> (errs ++ option_list e))).

Definition t_syncSandbox (sb : PodSandbox) : prog S unit :=
  let netnsPath := networkNamespacePath sb in
  if bool_decide (netnsPath = EmptyString) then mret ()
  else
    err ← t_OnSynchronizeSandbox (Sb_Uid sb) (Sb_Id sb) netnsPath (Sb_Labels sb);
    match err with
    | Some _ => h_failed (λ m, <[Sb_Uid sb := sb]> m)
    | None => h_failed (λ m, delete (Sb_Uid sb) m)
    end.

Fixpoint t_sync_all (pods : list PodSandbox) : prog S unit :=
  match pods with
  | [] => mret ()
  | sb :: pods => _ ← t_syncSandbox sb; t_sync_all pods
  end.

Definition t_Synchronize (pods : list PodSandbox) : prog S (option error) :=
  _ ← t_sync_all pods; _ ← h_ready true; mret None.

(** One tick of the retries. *)
Definition t_retryFailed : prog S unit := sandboxes ← h_copy_failed; t_sync_all sandboxes.

Definition t_RunPodSandbox (sb : PodSandbox) : prog S (option error) :=
  let netnsPath := networkNamespacePath sb in
  if bool_decide (netnsPath = EmptyString) then mret None
  else t_OnRunPodSandbox (Sb_Uid sb) (Sb_Id sb) netnsPath (Sb_Labels sb).

Definition t_StopPodSandbox (sb : PodSandbox) : prog S (option error) :=
  _ ← h_failed (λ m, delete (Sb_Uid sb) m);
  t_OnStopPodSandbox (Sb_Uid sb) (Sb_Name sb) (Sb_Namespace sb).

End hooks.

(** ** A program run alone is the operation *)

Section alone.
Context {W : Type} `{A : Attacher W} `{G : GoImpl} {S X : Type} `{PR : Primitives S}.

(** The state, as something around the plugin. *)
Context (around : X → nriPlugin W → S).

(** What a program on the plugin does alone, as a function of the plugin. *)
Definition computes {B} (p : prog S B) (g : nriPlugin W → B * nriPlugin W) : Prop :=
  ∀ x q, alone p (around x q) = ((g q).1, around x (g q).2).

Definition at_world {B} (g : W → B * W) (q : nriPlugin W) : B * nriPlugin W :=
  let '(b, w) := g (nri_world q) in (b, with_node q (nri_store q) w).

Class PrimitiveLaws := {
  attach_alone s : computes (h_attach s) (at_world (λ w, Attach w s));
  detach_alone s : computes (h_detach s) (at_world (λ w, Detach w s));
  ports_alone pod ns : computes (h_ports pod ns) (at_world (λ w, DetachPodPorts w pod ns));
  specs_alone uid : computes (h_specs uid) (λ q, (Specs (nri_store q) uid, q));
  mark_alone uid s : computes (h_mark uid s) (λ q, ((), with_node q (MarkAttached (nri_store q) uid s) (nri_world q)));
  take_alone uid : computes (h_take uid) (λ q, let '(taken, store) := TakeAttached (nri_store q) uid in
                                               (taken, with_node q store (nri_world q)));
  failed_alone f : computes (h_failed f) (λ q, ((), with_failed q (f (failed q))));
  copy_alone : computes h_copy_failed (λ q, (snd <$> map_range 40 (failed q), q));
  ready_alone r : computes (h_ready r) (λ q, ((), with_ready q r));
}.

Context `{PL : !PrimitiveLaws}.

#[local] Ltac alone_run :=
  repeat first [rewrite alone_bind | rewrite attach_alone | rewrite detach_alone | rewrite ports_alone | rewrite specs_alone
    | rewrite mark_alone | rewrite take_alone | rewrite failed_alone | rewrite copy_alone | rewrite ready_alone
    | rewrite alone_ret | progress (unfold at_world) | progress (cbn [fst snd])].

Lemma with_node_id (q : nriPlugin W) : with_node q (nri_store q) (nri_world q) = q.
Proof. by destruct q. Qed.

Lemma t_detach_all_alone specs :
  computes (t_detach_all specs)
    (λ q, let '(errs, w) := detach_all specs (nri_world q) in (errs, with_node q (nri_store q) w)).
Proof.
  induction specs as [|s specs IH]; intros x q; simpl detach_all; [simpl; by rewrite with_node_id|].
  cbn [t_detach_all]. alone_run. rewrite IH. destruct (Detach (nri_world q) s) as [e w]. simpl.
  by destruct (detach_all specs w).
Qed.

Definition of_handler {B} (q : nriPlugin W) (r : B * NICStore * W) : B * nriPlugin W :=
  let '(b, store, w) := r in (b, with_node q store w).

Lemma t_run_specs_alone uid specs :
  computes (t_run_specs uid specs) (λ q, of_handler q (run_specs uid specs (nri_store q) (nri_world q))).
Proof.
  induction specs as [|s specs IH]; intros x q; [simpl; by rewrite with_node_id|].
  cbn [t_run_specs run_specs]. alone_run. destruct (Attach (nri_world q) s) as [[e|] w]; cbn [fst snd]; alone_run.
  - rewrite t_detach_all_alone. simpl. by destruct (detach_all _ w).
  - rewrite IH. simpl. by destruct (run_specs _ _ _ _) as [[? ?] ?].
Qed.

Lemma t_sync_specs_alone uid specs :
  computes (t_sync_specs uid specs) (λ q, of_handler q (sync_specs uid specs (nri_store q) (nri_world q))).
Proof.
  induction specs as [|s specs IH]; intros x q; [simpl; by rewrite with_node_id|].
  cbn [t_sync_specs sync_specs]. alone_run. destruct (Attach (nri_world q) s) as [[e|] w]; cbn [fst snd]; alone_run;
    rewrite IH; simpl; by destruct (sync_specs _ _ _ _) as [[? ?] ?].
Qed.

Lemma t_syncSandbox_alone sb : computes (t_syncSandbox sb) (λ q, ((), syncSandbox q sb)).
Proof.
  intros x q. unfold t_syncSandbox, syncSandbox, OnSynchronizeSandbox, t_OnSynchronizeSandbox, t_sandboxSpecs.
  case_bool_decide; [done|]. alone_run. rewrite t_sync_specs_alone. unfold sandboxSpecs, fill_in. simpl.
  destruct (sync_specs _ _ _ _) as [[errs store] w]. simpl. destruct (errors_join _); by alone_run.
Qed.

Lemma t_sync_all_alone pods : computes (t_sync_all pods) (λ q, ((), foldl syncSandbox q pods)).
Proof.
  induction pods as [|sb pods IH]; intros x q; [done|]. cbn [t_sync_all]. alone_run.
  rewrite t_syncSandbox_alone. apply IH.
Qed.

Lemma t_retryFailed_alone : computes t_retryFailed (λ q, ((), retryFailed q)).
Proof. intros x q. unfold t_retryFailed. alone_run. by rewrite t_sync_all_alone. Qed.

Lemma t_Synchronize_alone pods : computes (t_Synchronize pods) (λ q, (None, Synchronize q pods)).
Proof. intros x q. unfold t_Synchronize. alone_run. rewrite t_sync_all_alone. by alone_run. Qed.

Lemma t_RunPodSandbox_alone sb : computes (t_RunPodSandbox sb) (λ q, RunPodSandbox q sb).
Proof.
  intros x q. unfold t_RunPodSandbox, RunPodSandbox, OnRunPodSandbox, t_OnRunPodSandbox, t_sandboxSpecs.
  case_bool_decide; [done|]. alone_run. rewrite t_run_specs_alone. unfold sandboxSpecs, fill_in. simpl.
  by destruct (run_specs _ _ _ _) as [[errs store] w].
Qed.

Lemma t_StopPodSandbox_alone sb : computes (t_StopPodSandbox sb) (λ q, StopPodSandbox q sb).
Proof.
  intros x q. unfold t_StopPodSandbox, StopPodSandbox, OnStopPodSandbox, t_OnStopPodSandbox. alone_run.
  rewrite t_detach_all_alone. simpl. destruct (detach_all _ _) as [errs w]. cbn [fst snd]. alone_run. simpl.
  by destruct (DetachPodPorts w _ _).
Qed.

End alone.
