(* ===== verification/HookSteps.v ===== *)
(** * The hooks, one call of the kernel at a time (cmd/kube-ovn-dra-kubeletplugin/nri.go, pkg/plumbing/nri.go)

    The hooks of [Hooks] over the programs of [AttachSteps]: a hook or a retry may be
    interrupted at every call of the kernel, of Open vSwitch or of a table with a lock. *)

From S2P Require Import Prelude Netip Store StoreInv Prog Kernel Dhcp Attach NetShape AttachLogic Sandbox AttachProps.
From S2P Require Import AttachSteps AttachRely AttachParallel Nri Hooks.

Section steps.
Context {W : Type} `{KE : Kernel W} {KL : KernelLaws W} `{DH : Dhcp4} `{G : GoImpl}.
Abbreviation plugin := (nriPlugin (ovsAttacher W)).
Implicit Types (p : plugin) (σ : ovsAttacher W).

(** A program on the node, as one on the plugin. *)
Fixpoint on_node {A} (m : prog (ovsAttacher W) A) : prog plugin A :=
  match m with
  | Prog.Ret a => Prog.Ret a
  | Act l f next => Act l (λ q, with_node q (nri_store q) (f (nri_world q))) (λ q, on_node (next (nri_world q)))
  end.

Definition error_of (o : outcome ()) : option error :=
  match o with Ret _ => None | Throw e => Some e | Panic => Some (External "panic") end.

Definition k_attach (s : Spec) : prog plugin (option error) := o ← on_node (t_Attach s); mret (error_of o).
Definition k_detach (s : Spec) : prog plugin (option error) := o ← on_node (t_Detach s); mret (error_of o).
Definition k_ports (podName podNamespace : string) : prog plugin (option error) :=
  o ← on_node (t_DetachPodPorts podName podNamespace); mret (error_of o).

#[export] Instance plugin_primitives : Primitives plugin := {|
  h_attach := k_attach;
  h_detach := k_detach;
  h_ports := k_ports;
  h_specs uid := act Acting (λ q, (Specs (nri_store q) uid, q));
  h_mark uid s := act Acting (λ q, ((), with_node q (MarkAttached (nri_store q) uid s) (nri_world q)));
  h_take uid := act Acting (λ q, let '(taken, store) := TakeAttached (nri_store q) uid in
                                 (taken, with_node q store (nri_world q)));
  h_failed f := act Acting (λ q, ((), with_failed q (f (failed q))));
  h_copy_failed := act Acting (λ q, (snd <$> map_range 40 (failed q), q));
  h_ready r := act Acting (λ q, ((), with_ready q r));
|}.

(** ** Run alone *)

Lemma alone_on_node {A} (m : prog (ovsAttacher W) A) p :
  alone (on_node m) p = ((alone m (nri_world p)).1, with_node p (nri_store p) (alone m (nri_world p)).2).
Proof. revert p. induction m as [a|l f next IH]; intros p; [simpl; by rewrite with_node_id|]. simpl. by rewrite IH. Qed.

(** The plugin and nothing around it. *)
Definition bare (_ : ()) (q : plugin) : plugin := q.

Lemma steps_computes (m : T ()) (n : M ()) :
  runs m n → computes bare (o ← on_node m; mret (error_of o)) (at_world (run_step n)).
Proof.
  intros H [] q. unfold bare. rewrite alone_bind, alone_on_node, (H (nri_world q)). cbn [fst snd]. rewrite alone_ret.
  unfold at_world, run_step. by destruct (n _) as [[[]|e|] σ].
Qed.

#[export] Instance plugin_laws : PrimitiveLaws bare.
Proof.
  split.
  1: intros s; apply (steps_computes (t_Attach s)), runs_Attach.
  1: intros s; apply (steps_computes (t_Detach s)), runs_Detach.
  1: intros pod ns; apply (steps_computes (t_DetachPodPorts pod ns)), runs_DetachPodPorts.
  all: intros; intros [] q; unfold bare; cbn [h_specs h_mark h_take h_failed h_copy_failed h_ready plugin_primitives];
    rewrite alone_act; apply surjective_pairing.
Qed.

(** Split at every call of the kernel, of Open vSwitch and of the tables with a lock, and
    run without interruption, the hooks of the runtime and the retry of failed sandboxes
    have the result and the effect of the operations. *)
Theorem hooks_alone p :
  (∀ pods, alone (t_Synchronize pods) p = (None, Synchronize p pods)) ∧
  alone t_retryFailed p = ((), retryFailed p) ∧
  (∀ sb, alone (t_RunPodSandbox sb) p = RunPodSandbox p sb) ∧
  (∀ sb, alone (t_StopPodSandbox sb) p = StopPodSandbox p sb).
Proof.
  split_and!.
  - intros pods. exact (t_Synchronize_alone bare pods () p).
  - exact (t_retryFailed_alone bare () p).
  - intros sb. pose proof (t_RunPodSandbox_alone bare sb () p) as H. unfold bare in H. rewrite H. symmetry. apply surjective_pairing.
  - intros sb. pose proof (t_StopPodSandbox_alone bare sb () p) as H. unfold bare in H. rewrite H. symmetry. apply surjective_pairing.
Qed.

End steps.
