(* ===== verification/HookParallel.v ===== *)
(** * Sandboxes started, synchronized and retried side by side

    The hook for the start of a sandbox, the synchronization of others and the retries
    interleaved call by call: as long as they are about different pods, each does for its
    sandbox what it does alone.  [AttachRely] is lifted from one NIC to the NICs of a
    sandbox, and from the node to the whole plugin. *)

From S2P Require Import Prelude Netip Store StoreInv Prog Kernel Dhcp Attach NetShape AttachLogic Sandbox AttachProps.
From S2P Require Import AttachSteps AttachRely AttachParallel Nri Hooks HookSteps.

Section crew.
Context {W : Type} `{KE : Kernel W} {KL : KernelLaws W} `{DH : Dhcp4} `{G : GoImpl} {AN : Anchor NsId}.
Abbreviation net := (Net NsId LinkId).
Abbreviation plugin := (nriPlugin (ovsAttacher W)).
Implicit Types (n : net) (σ : ovsAttacher W) (q : plugin).

(** The pod a thread works for, and the NICs it may touch. *)
Context (u : string) (L : list Spec).
Context (mates : ∀ s t, s ∈ L → t ∈ L → s = t ∨ unrelated s t).

Definition wv q : net := vw (nri_world q).

(** What the thread knows, expects of the others, and does. *)
Record crew_sane q : Prop := {
  cs_ready : AttachLogic.ready (wv q);
  cs_tethered s : s ∈ L → tethered s (wv q);
  cs_attached s : s ∈ attached_of (nri_store q) u → s ∈ L;
}.

Record lets q q' : Prop := {
  lt_kept : frame (λ _ _, True) (λ _, True) (wv q) (wv q');
  lt_spares s : s ∈ L → spares s (wv q) (wv q');
  lt_specs : Specs (nri_store q') u = Specs (nri_store q) u;
  lt_attached : attached_of (nri_store q') u = attached_of (nri_store q) u;
  lt_failed : failed q' !! u = failed q !! u;
}.

Record works q q' : Prop := {
  wk_node : still (wv q) (wv q') ∨ ∃ s, s ∈ L ∧ does s (wv q) (wv q');
  wk_byPod : byPod (nri_store q') = byPod (nri_store q);
  wk_attached v : v ≠ u → attached_of (nri_store q') v = attached_of (nri_store q) v;
  wk_failed v : v ≠ u → failed q' !! v = failed q !! v;
}.

Lemma lets_refl q : lets q q.
Proof. split; try done; intros; apply g_refl. Qed.
Lemma lets_trans q q1 q2 : lets q q1 → lets q1 q2 → lets q q2.
Proof. intros [A1 A2 A3 A4 A5] [B1 B2 B3 B4 B5]. split; try congruence; [by eapply g_trans|]. intros s Hs. eapply g_trans; eauto. Qed.

Lemma crew_sane_lets q q' : lets q q' → crew_sane q → crew_sane q'.
Proof.
  intros [H1 H2 _ H4 _] [K1 K2 K3]. split; [by eapply frame_ready| |by rewrite H4].
  intros s Hs. eapply tethered_spares; eauto.
Qed.

Lemma sane_mate q s : crew_sane q → s ∈ L → sane s (wv q).
Proof. intros [H1 H2 _] Hs. split; auto. Qed.

(** Work on one NIC spares the others of the sandbox. *)
Lemma mate_spares s t n n' : AttachLogic.ready n → s ∈ L → t ∈ L → s ≠ t → does s n n' → spares t n n'.
Proof. intros Hr Hs Ht Hne Hd. destruct (mates s t Hs Ht) as [|Ha]; [done|]. eapply does_spares; [by eapply ready_single|done..]. Qed.

Lemma crew_sane_does q σ s :
  s ∈ L → does s (wv q) (vw σ) → crew_sane q → crew_sane (with_node q (nri_store q) σ).
Proof.
  intros Hs Hd [K1 K2 K3]. split; [by apply (g_ready (G := does s) (wv q))| |done]. intros t Ht.
  destruct (mates s t Hs Ht) as [<-|Ha]; [by apply (proj2 Hd); [|apply K2]|].
  eapply tethered_spares; [done| |by apply K2]. eapply does_spares; [by eapply ready_single|done..].
Qed.

(** Each action is work, whatever the others did before, and at the end [Q] holds. *)
Fixpoint csafe {A} (p : prog plugin A) (Q : A → plugin → Prop) q : Prop :=
  match p with
  | Prog.Ret a => Q a q
  | Act _ f next => works q (f q) ∧ ∀ q1, lets (f q) q1 → csafe (next q) Q q1
  end.

Lemma csafe_bind {A B} (p : prog plugin A) (k : A → prog plugin B) Q R q :
  csafe p Q q → (∀ a q', Q a q' → csafe (k a) R q') → csafe (p ≫= k) R q.
Proof.
  intros Hp Hk. revert q Hp. induction p as [a|l f next IH]; intros q Hp; [by apply Hk|].
  destruct Hp as [Hd Hn]. split; [done|]. intros q1 H1. by apply IH, Hn.
Qed.

Lemma csafe_mono {A} (p : prog plugin A) (Q R : A → plugin → Prop) q :
  (∀ a q', Q a q' → R a q') → csafe p Q q → csafe p R q.
Proof.
  intros HQ. revert q. induction p as [a|l f next IH]; intros q; [apply HQ|].
  intros [Hd Hn]. split; [done|]. intros q1 H1. by apply IH, Hn.
Qed.

(** Facts on the plugin that the others leave true, and those that work on [s] does. *)
Definition lasting (F : plugin → Prop) : Prop := ∀ q q', crew_sane q → lets q q' → F q → F q'.
Definition beside (s : Spec) (F : plugin → Prop) : Prop :=
  ∀ q σ, crew_sane q → does s (wv q) (vw σ) → F q → F (with_node q (nri_store q) σ).

(** A program for one NIC, on the plugin. *)
Lemma csafe_node {A} s (m : prog (ovsAttacher W) A) Q F q :
  s ∈ L → lasting F → beside s F → crew_sane q → F q → safe s m Q (nri_world q) →
  csafe (on_node m) (λ a q', crew_sane q' ∧ Q a (wv q') ∧ F q') q.
Proof.
  intros Hs HL HB. revert q. induction m as [a|l f next IH]; intros q Hq HF; [by intros|]. intros [Hd Hn].
  assert (crew_sane (with_node q (nri_store q) (f (nri_world q)))) as Hq' by (by eapply crew_sane_does).
  split; [split; [right; eauto|done..]|]. intros q1 H1.
  apply IH; [by eapply crew_sane_lets|eapply HL; [exact Hq'|done|by apply HB]|].
  apply Hn. by apply (lt_spares _ _ H1).
Qed.

(** An action on the tables. *)
Lemma csafe_table {A} (g : plugin → A * plugin) q (Q : A → plugin → Prop) :
  nri_world (g q).2 = nri_world q → byPod (nri_store (g q).2) = byPod (nri_store q) →
  (∀ v, v ≠ u → attached_of (nri_store (g q).2) v = attached_of (nri_store q) v) →
  (∀ v, v ≠ u → failed (g q).2 !! v = failed q !! v) →
  (∀ q', lets (g q).2 q' → Q (g q).1 q') → csafe (act Acting g) Q q.
Proof.
  intros H1 H2 H3 H4 HQ. split; [split; [|done..]|exact HQ]. left. unfold wv. rewrite H1. apply g_refl.
Qed.

(** ** The NICs of a sandbox *)

Definition plugged_in (s : Spec) n : Prop := (∃ ns, pth (NetnsPath s) = Some ns ∧ inside_at n s ns) ∧ bound s n.
Definition open_for (s : Spec) n : Prop :=
  fit_any s n ∧ (KubeVirtVMI s = true → IfaceName s ≠ vethRenameFor (IfaceName s)).

(** Some NICs are plugged, others may be attached. *)
Definition so_far (got todo : list Spec) q : Prop :=
  (∀ t, t ∈ got → plugged_in t (wv q)) ∧ (∀ t, t ∈ todo → open_for t (wv q)).

Lemma plugged_stable t : stable t (plugged_in t).
Proof.
  apply stable_and; [|apply stable_bound]. intros n n' Hs H (ns & Hp & Hin). exists ns. split; [done|].
  assert (ns ≠ hm) as Hne by (by eapply pth_away, Hp; destruct Hs). unfold inside_at in *.
  destruct (KubeVirtVMI t); [by eapply (stable_tapped t ns Hp Hne n)|].
  by eapply (stable_veth_in t ns _ (mine_iface t ns Hp Hne) n).
Qed.
Lemma open_stable t : stable t (open_for t).
Proof. apply stable_and; [apply stable_fit|apply stable_const]. Qed.

Lemma so_far_lasting got todo : got ⊆ L → todo ⊆ L → lasting (so_far got todo).
Proof.
  intros Hd Ht q q' Hq Hl [H1 H2]. split; intros t Hin.
  - eapply plugged_stable; [by apply sane_mate; [|apply Hd]|by apply (lt_spares _ _ Hl), Hd|auto].
  - eapply open_stable; [by apply sane_mate; [|apply Ht]|by apply (lt_spares _ _ Hl), Ht|auto].
Qed.

Lemma so_far_beside s got todo :
  s ∈ L → got ⊆ L → todo ⊆ L → s ∉ got → s ∉ todo → beside s (so_far got todo).
Proof.
  intros Hs Hd Ht Hnd Hnt q σ Hq Hdo [H1 H2]. destruct (Hq) as [Hr _ _]. split; intros t Hin.
  - eapply (plugged_stable t (wv q)); [by apply sane_mate; [|apply Hd]| |auto]. eapply mate_spares; [done|exact Hs|by apply Hd| |done].
    by intros <-.
  - eapply (open_stable t (wv q)); [by apply sane_mate; [|apply Ht]| |auto]. eapply mate_spares; [done|exact Hs|by apply Ht| |done].
    by intros <-.
Qed.

(** Attaching one NIC of the sandbox among the others. *)
Lemma csafe_attach s F q :
  s ∈ L → lasting F → beside s F → crew_sane q → F q → open_for s (wv q) →
  csafe (h_attach s) (λ e q', crew_sane q' ∧ F q' ∧ (e = None → plugged_in s (wv q'))) q.
Proof.
  intros Hs HL HB Hq HF Ho. eapply csafe_bind.
  - apply (csafe_node s _ (λ o n, sane s n ∧ yields (λ _, plugged_in s) o n) F); [done..|].
    destruct Ho as [Ho Hv]. by apply triple_Attach; [|apply sane_mate|].
  - intros [[]|e|] q' (Hq' & [_ Hy] & HF'); (split; [done|]); by split.
Qed.

Lemma csafe_detach_all specs q :
  specs ⊆ L → crew_sane q → csafe (t_detach_all specs) (λ _, crew_sane) q.
Proof.
  revert q. induction specs as [|s specs IH]; intros q HL Hq; [done|]. cbn [t_detach_all].
  apply (csafe_bind _ _ (λ _, crew_sane)); [eapply csafe_bind|].
  - apply (csafe_node s (t_Detach s) (λ _ _, True) (λ _, True)); [set_solver|done..|].
    eapply safe_mono; [|apply triple_Detach; [apply sane_mate; [done|set_solver]|done]]. done.
  - intros o q' (Hq' & _). exact Hq'.
  - intros e q' Hq'. eapply csafe_bind; [apply IH; [set_solver|done]|]. by intros errs q2 Hq2.
Qed.

(** *** The tables *)

Lemma csafe_mark s q F :
  lasting F → (∀ store, F q → F (with_node q store (nri_world q))) → s ∈ L → crew_sane q → F q →
  csafe (h_mark u s) (λ _ q', crew_sane q' ∧ F q') q.
Proof.
  intros HL HF Hs Hq H. apply csafe_table; try done.
  - intros v Hv. unfold attached_of, MarkAttached. simpl. by rewrite specs_at_insert, decide_False.
  - cbn [fst snd]. set (q1 := with_node q _ _). assert (crew_sane q1) as Hq1.
    { destruct Hq as [K1 K2 K3]. split; [done..|]. intros t. unfold attached_of, q1, MarkAttached. simpl.
      rewrite specs_at_insert, decide_True by done. intros [->|Ht]%upsert_elem; [done|]. by apply K3. }
    intros q' Hl. split; [by eapply crew_sane_lets|]. eapply HL; [exact Hq1|done|]. by apply HF.
Qed.

Lemma csafe_take q :
  crew_sane q → csafe (h_take u) (λ taken q', crew_sane q' ∧ taken ⊆ L) q.
Proof.
  intros Hq. apply csafe_table; try done.
  - intros v Hv. unfold attached_of. simpl. by rewrite specs_at_delete, decide_False.
  - cbn. intros q' Hl. split; [eapply crew_sane_lets; [exact Hl|]|by intros t Ht; apply (cs_attached _ Hq)].
    destruct Hq as [K1 K2 K3]. split; [done..|]. intros t. unfold attached_of. simpl.
    rewrite specs_at_delete, decide_True by done. by intros ?%elem_of_nil.
Qed.

(** The next NIC of a sandbox is attached, and recorded. *)
Lemma csafe_attach_next s specs got q :
  NoDup (got ++ s :: specs) → got ⊆ L → s :: specs ⊆ L → crew_sane q → so_far got (s :: specs) q →
  csafe (h_attach s) (λ e q', crew_sane q' ∧ so_far got specs q' ∧ (e = None → plugged_in s (wv q'))) q.
Proof.
  intros (_ & H1 & [H2 _]%NoDup_cons)%NoDup_app Hg Hs Hq [Hp1 Hp2].
  apply csafe_attach; [set_solver|apply so_far_lasting; set_solver|apply so_far_beside; set_solver|done| |].
  - split; [done|]. intros t Ht. apply Hp2. by right.
  - apply Hp2. left.
Qed.

Lemma csafe_mark_next s specs got q :
  got ⊆ L → s :: specs ⊆ L → crew_sane q → so_far got specs q → plugged_in s (wv q) →
  csafe (h_mark u s) (λ _ q', crew_sane q' ∧ so_far (got ++ [s]) specs q') q.
Proof.
  intros Hg Hs Hq [H1 H2] Hp. apply csafe_mark; [apply so_far_lasting; set_solver|done|set_solver|done|]. split; [|done].
  intros t [Ht| ->%list_elem_of_singleton]%elem_of_app; auto.
Qed.

(** The hook for the start of a sandbox, from some NICs on. *)
Lemma csafe_run_specs specs got q :
  NoDup (got ++ specs) → got ⊆ L → specs ⊆ L → crew_sane q → so_far got specs q →
  csafe (t_run_specs u specs) (λ e q', crew_sane q' ∧ (e = None → so_far (got ++ specs) [] q')) q.
Proof.
  revert got q. induction specs as [|s specs IH]; intros got q Hnd Hg Hs Hq Hp; cbn [t_run_specs].
  { split; [done|]. intros _. by rewrite app_nil_r. }
  eapply csafe_bind; [by eapply csafe_attach_next|]. intros [e|] q1 (Hq1 & Hp1 & Hy).
  - eapply csafe_bind; [by apply csafe_take|]. intros taken q2 [Hq2 Ht].
    eapply csafe_bind; [by apply csafe_detach_all|]. intros errs q3 Hq3. split; [done|]. intros E.
    by apply errors_join_Some_None in E.
  - eapply csafe_bind; [apply (csafe_mark_next s specs got); auto|]. intros [] q2 [Hq2 Hp2].
    rewrite cons_middle, app_assoc in Hnd |- *. apply IH; [done|set_solver|set_solver|done..].
Qed.

(** The synchronization of a sandbox goes on after an error. *)
Lemma csafe_sync_specs specs got q :
  NoDup (got ++ specs) → got ⊆ L → specs ⊆ L → crew_sane q → so_far got specs q →
  csafe (t_sync_specs u specs) (λ errs q', crew_sane q' ∧ (errs = [] → so_far (got ++ specs) [] q')) q.
Proof.
  revert got q. induction specs as [|s specs IH]; intros got q Hnd Hg Hs Hq Hp; cbn [t_sync_specs].
  { split; [done|]. intros _. by rewrite app_nil_r. }
  eapply csafe_bind; [by eapply csafe_attach_next|]. intros [e|] q1 (Hq1 & Hp1 & Hy).
  - eapply csafe_bind; [apply (IH got); [|set_solver|set_solver|done..]|].
    + apply NoDup_app in Hnd as (H0 & H1 & [H2 H3]%NoDup_cons). apply NoDup_app. set_solver.
    + intros errs q2 [Hq2 _]. by split.
  - eapply csafe_bind; [apply (csafe_mark_next s specs got); auto|]. intros [] q2 [Hq2 Hp2].
    rewrite cons_middle, app_assoc in Hnd |- *. apply IH; [done|set_solver|set_solver|done..].
Qed.

(** *** The hooks *)

(** What the thread finds: its sandbox has a network namespace, and the NICs of its pod, all
    of them its own, may be attached. *)
Definition sandbox_ready (sb : PodSandbox) q : Prop :=
  crew_sane q ∧ networkNamespacePath sb ≠ EmptyString ∧ NoDup (nics q sb) ∧ nics q sb ⊆ L ∧ so_far [] (nics q sb) q.

Lemma nics_lets sb q q' : Sb_Uid sb = u → lets q q' → nics q' sb = nics q sb.
Proof. intros Hu Hl. unfold nics, sandboxSpecs. by rewrite Hu, (lt_specs _ _ Hl). Qed.

(** All NICs of the sandbox are plugged. *)
Definition all_plugged (sb : PodSandbox) q : Prop := ∀ s, s ∈ nics q sb → plugged_in s (wv q).

Lemma csafe_sandboxSpecs sb q :
  Sb_Uid sb = u → sandbox_ready sb q →
  csafe (t_sandboxSpecs (Sb_Uid sb) (Sb_Id sb) (networkNamespacePath sb) (Sb_Labels sb))
    (λ specs q', specs = nics q' sb ∧ sandbox_ready sb q') q.
Proof.
  intros Hu (Hq & Hn & Hnd & Hs & Hp). eapply csafe_bind; [apply (csafe_table _ _ (λ specs q',
    fill_in (Sb_Id sb) (networkNamespacePath sb) (Sb_Labels sb) specs = nics q' sb ∧ sandbox_ready sb q')); [done..|]|].
  - cbn [fst snd]. intros q' Hl. pose proof (nics_lets sb _ _ Hu Hl) as En. unfold sandbox_ready. rewrite En.
    split; [done|]. split_and!; [by eapply crew_sane_lets|done..|]. eapply (so_far_lasting [] (nics q sb)); [apply list_subseteq_nil|done|exact Hq|exact Hl|done].
  - intros specs q' H. exact H.
Qed.

(** Neither the thread nor the others change the NICs of its pod. *)
Lemma csafe_nics {A} sb (p : prog plugin A) (Q : A → plugin → Prop) q l :
  Sb_Uid sb = u → nics q sb = l → csafe p Q q → csafe p (λ a q', Q a q' ∧ nics q' sb = l) q.
Proof.
  intros Hu. revert q. induction p as [a|lb f next IH]; intros q Hn Hp; [done|].
  destruct Hp as [Hw Hs]. split; [done|]. intros q1 H1. apply IH; [|by apply Hs]. rewrite (nics_lets sb _ _ Hu H1).
  rewrite <- Hn. unfold nics, sandboxSpecs. by rewrite (byPod_Specs _ _ _ (wk_byPod _ _ Hw)).
Qed.

Lemma csafe_RunPodSandbox sb q :
  Sb_Uid sb = u → sandbox_ready sb q →
  csafe (t_RunPodSandbox sb) (λ e q', crew_sane q' ∧ (e = None → all_plugged sb q')) q.
Proof.
  intros Hu Hr. unfold t_RunPodSandbox, t_OnRunPodSandbox. rewrite bool_decide_eq_false_2 by apply Hr.
  eapply csafe_bind; [by apply csafe_sandboxSpecs|]. intros specs q1 [-> (Hq & _ & Hnd & Hs & Hp)].
  rewrite Hu. eapply csafe_mono; [|apply (csafe_nics sb); [done|reflexivity|]; apply (csafe_run_specs _ []); [done|apply list_subseteq_nil|done..]].
  intros e q2 [[Hq2 H] Hn]. split; [done|]. intros He s Hin. rewrite Hn in Hin. by apply (H He).
Qed.

Lemma csafe_syncSandbox sb q :
  Sb_Uid sb = u → sandbox_ready sb q →
  csafe (t_syncSandbox sb) (λ _ q', crew_sane q' ∧ (failed q' !! u = None → all_plugged sb q')) q.
Proof.
  intros Hu Hr. unfold t_syncSandbox, t_OnSynchronizeSandbox. rewrite bool_decide_eq_false_2 by apply Hr.
  apply (csafe_bind _ _ (λ e q', crew_sane q' ∧ (e = None → so_far (nics q' sb) [] q' ∧ nics q' sb ⊆ L))).
  - eapply csafe_bind; [by apply csafe_sandboxSpecs|]. intros specs q1 [-> (Hq & _ & Hnd & Hs & Hp)]. rewrite Hu.
    eapply csafe_bind; [apply (csafe_nics sb); [done|reflexivity|]; apply (csafe_sync_specs _ []); [done|apply list_subseteq_nil|done..]|].
    intros errs q2 [[Hq2 H] Hn]. split; [done|]. intros He%errors_join_Some_None. rewrite Hn. auto.
  - intros [e|] q1 [Hq1 H1]; apply csafe_table; try done; cbn [fst snd failed with_failed].
    + intros v Hv. apply lookup_insert_ne. by rewrite Hu.
    + intros q' Hl. split; [eapply crew_sane_lets; [exact Hl|by destruct Hq1]|]. rewrite (lt_failed _ _ Hl). cbn [failed with_failed].
      by rewrite Hu, lookup_insert_eq.
    + intros v Hv. apply lookup_delete_ne. by rewrite Hu.
    + intros q' Hl. split; [eapply crew_sane_lets; [exact Hl|by destruct Hq1]|]. intros _ s Hin. rewrite (nics_lets sb _ _ Hu Hl) in Hin.
      destruct (H1 eq_refl) as [Hsf Hsub]. assert (so_far (nics q1 sb) [] q') as [H _]; [|by apply H].
      eapply so_far_lasting; [done|apply list_subseteq_nil| |exact Hl|exact Hsf]. by destruct Hq1.
Qed.

End crew.

(** ** Side by side *)

(** What a thread is to do for a sandbox: let it start, or make sure of its NICs, as a
    synchronization and a retry do. *)
Inductive duty := RunDuty (sb : PodSandbox) | SyncDuty (sb : PodSandbox).
Definition duty_sb (d : duty) : PodSandbox := match d with RunDuty sb | SyncDuty sb => sb end.
Definition duty_uid (d : duty) : string := Sb_Uid (duty_sb d).

Section duties.
Context {W : Type} `{KE : Kernel W} {KL : KernelLaws W} `{DH : Dhcp4} `{G : GoImpl}.
Abbreviation net := (Net NsId LinkId).
Abbreviation plugin := (nriPlugin (ovsAttacher W)).
Implicit Types (n : net) (q : plugin).

Definition duty_prog (d : duty) : prog plugin (option error) :=
  match d with
  | RunDuty sb => t_RunPodSandbox sb
  | SyncDuty sb => _ ← t_syncSandbox sb; mret None
  end.

(** The NICs a thread may touch: those of the pod, in the sandbox, and those recorded as
    attached for the pod, which a failed start detaches. *)
Definition duty_nics q (d : duty) : list Spec := nics q (duty_sb d) ++ attached_of (nri_store q) (duty_uid d).

(** What it has achieved: when the start is let through, or no retry is left to make, the
    NICs of the sandbox are in their place and known to OVN. *)
Definition duty_done (d : duty) (e : option error) q : Prop :=
  match d with RunDuty _ => e = None | SyncDuty sb => failed q !! Sb_Uid sb = None end →
  ∀ s, s ∈ nics q (duty_sb d) → inside (wv q) s ∧ bound s (wv q).

(** What it finds: NICs that have nothing in common, with devices, if any, of an earlier
    attach, and interface names that are free or their own. *)
Definition duty_ready (d : duty) q : Prop :=
  networkNamespacePath (duty_sb d) ≠ EmptyString ∧
  (∀ s t, s ∈ duty_nics q d → t ∈ duty_nics q d → s = t ∨ unrelated s t) ∧
  (∀ s, s ∈ duty_nics q d → tethered (AN := here (wv q)) s (wv q)) ∧
  (∀ s, s ∈ nics q (duty_sb d) → fits (wv q) s).

Abbreviation crew := (list (duty * list Spec * prog plugin (option error))).

Definition start_duties q (ds : list duty) : crew := (λ d, (d, duty_nics q d, duty_prog d)) <$> ds.

(** One thread acts, or something happens that has nothing to do with these sandboxes. *)
Inductive crew_step : crew * plugin → crew * plugin → Prop :=
  | crew_act c q k d L l f next :
      c !! k = Some (d, L, Act l f next) → crew_step (c, q) (<[k := (d, L, next q)]> c, f q)
  | crew_other c q q' :
      (∀ d L p, (d, L, p) ∈ c → lets (AN := here (wv q)) (duty_uid d) L q q') → crew_step (c, q) (c, q').

Fixpoint run_crew (ks : list nat) (c : crew) q : crew * plugin :=
  match ks with
  | [] => (c, q)
  | k :: ks =>
      match c !! k with
      | Some (d, L, Act l f next) => run_crew ks (<[k := (d, L, next q)]> c) (f q)
      | _ => run_crew ks c q
      end
  end.

Lemma run_crew_steps ks c q : rtc crew_step (c, q) (run_crew ks c q).
Proof.
  revert c q. induction ks as [|k ks IH]; intros c q; [apply rtc_refl|]. simpl.
  destruct (c !! k) as [[[d L] [o|l f next]]|] eqn:E; [apply IH| |apply IH].
  eapply rtc_l; [by eapply crew_act|]. apply IH.
Qed.

(** A run keeps what the threads are for. *)
Lemma run_crew_duties ks c q : (run_crew ks c q).1.*1 = c.*1.
Proof.
  revert c q. induction ks as [|k ks IH]; intros c q; [done|]. simpl.
  destruct (c !! k) as [[[d L] [o|l f next]]|] eqn:E; [apply IH| |apply IH].
  rewrite IH, list_fmap_insert. apply list_insert_id. by rewrite list_lookup_fmap, E.
Qed.

(** Different sandboxes are of different pods, and their NICs have nothing in common. *)
Definition duties_apart (ds : list (duty * list Spec)) : Prop :=
  ∀ k k' d L d' L', ds !! k = Some (d, L) → ds !! k' = Some (d', L') → k ≠ k' →
    duty_uid d ≠ duty_uid d' ∧ ∀ s t, s ∈ L → t ∈ L' → unrelated s t.

Section invariant.
Context (n0 : net).
#[local] Instance the_anchor : Anchor NsId := here n0.

Definition crew_inv (c : crew) q : Prop :=
  duties_apart c.*1 ∧
  ∀ k d L p, c !! k = Some (d, L, p) → AttachLogic.ready (wv q) ∧ ∀ q1, lets (duty_uid d) L q q1 →
    csafe (duty_uid d) L p (λ e q', crew_sane (duty_uid d) L q' ∧ duty_done d e q') q1.

(** The work of one thread is nothing that another has to fear. *)
Lemma works_lets u v L L' q q' :
  AttachLogic.ready (wv q) → u ≠ v → (∀ s t, s ∈ L → t ∈ L' → unrelated s t) → works u L q q' → lets v L' q q'.
Proof.
  intros Hr Hne Hu [H1 H2 H3 H4]. split; [| |by apply byPod_Specs|by apply H3|by apply H4].
  - destruct H1 as [H1|(s & _ & H1 & _)]; [apply still_any; [apply _|done]|]. by eapply frame_mono; [| |exact H1].
  - intros t Ht. destruct H1 as [H1|(s & Hs & H1)]; [apply still_any; [apply _|done]|].
    eapply does_spares; [by eapply ready_single|by apply Hu|done].
Qed.

Lemma works_ready u L q q' : works u L q q' → AttachLogic.ready (wv q) → AttachLogic.ready (wv q').
Proof.
  intros [[H|(s & _ & H)] _ _ _]; [by apply (g_ready (G := still))|by apply (g_ready (G := does s))].
Qed.

Lemma crew_inv_step c q c' q' : crew_step (c, q) (c', q') → crew_inv c q → crew_inv c' q'.
Proof.
  intros Hstep (Ha & Hi). inversion Hstep as [? ? k d L l f next Hk|? ? ? Ho]; subst; clear Hstep.
  - destruct (Hi k d L _ Hk) as [Hr Hs]. destruct (Hs q (lets_refl _ _ _)) as [Hd Hn].
    assert (c.*1 !! k = Some (d, L)) as Hk1 by (by rewrite list_lookup_fmap, Hk). split.
    { rewrite list_fmap_insert. simpl. by rewrite list_insert_id. }
    intros k' d' L' p' Hk'. split; [by eapply works_ready|].
    destruct (decide (k = k')) as [<-|Hne].
    + rewrite list_lookup_insert_eq in Hk' by (by eapply lookup_lt_Some). injection Hk' as <- <- <-. exact Hn.
    + rewrite list_lookup_insert_ne in Hk' by done. intros q1 H1. apply (Hi k' d' L' p' Hk').
      eapply lets_trans; [|exact H1]. destruct (Ha k k' d L d' L') as [Hu Hun]; [done|by rewrite list_lookup_fmap, Hk'|done|].
      by eapply works_lets.
  - split; [done|]. intros k d L p Hk. destruct (Hi k d L p Hk) as [Hr Hs].
    assert (lets (duty_uid d) L q q') as H.
    { specialize (Ho d L p (list_elem_of_lookup_2 _ _ _ Hk)). by rewrite (ready_anchor n0 _ Hr) in Ho. }
    split; [exact (frame_ready _ _ _ _ (lt_kept _ _ _ _ H) Hr)|]. intros q1 H1. apply Hs. by eapply lets_trans.
Qed.

Lemma crew_inv_steps x y : rtc crew_step x y → crew_inv x.1 x.2 → crew_inv y.1 y.2.
Proof. induction 1 as [|[c q] [c1 q1] y Hs _ IH]; [done|]. intros H. by apply IH, (crew_inv_step c q). Qed.

End invariant.
Lemma duty_safe d q q1 :
  let _ := here (wv q) in
  let u := duty_uid d in let L := duty_nics q d in
  tidy_net (wv q) → store_wf (nri_store q) → duty_ready d q → lets u L q q1 →
  csafe u L (duty_prog d) (λ e q', crew_sane u L q' ∧ duty_done d e q') q1.
Proof.
  intros AN u L Ht Hwf (Hns & Hm & Hte & Hf) H1. pose proof (ready_here _ Ht) as Hr.
  assert (crew_sane u L q) as Hq by (split; [done..|]; intros s Hs; unfold L, duty_nics; set_solver).
  assert (crew_sane u L q1) as Hq1 by (by eapply crew_sane_lets).
  assert (sandbox_ready u L (duty_sb d) q1) as Hsr.
  { pose proof (nics_lets u L (duty_sb d) _ _ eq_refl H1) as En. unfold sandbox_ready. rewrite En.
    assert (nics q (duty_sb d) ⊆ L) as Hsub by (unfold L, duty_nics; set_solver). split_and!; [done..| |done|].
    - apply (NoDup_fmap_1 IfaceName). unfold nics. rewrite sandboxSpecs_names. apply Hwf.
    - eapply so_far_lasting; [apply list_subseteq_nil|done|exact Hq|exact H1|]. split; [by intros t ?%elem_of_nil|].
      intros s Hs. destruct (Hf s Hs) as [Hfit Hv]. split; [|done]. intros ns Hp Hn. by apply (Hfit ns Hp). }
  assert (∀ q', crew_sane u L q' → all_plugged (duty_sb d) q' →
    ∀ s, s ∈ nics q' (duty_sb d) → inside (wv q') s ∧ bound s (wv q')) as Hall.
  { intros q' [(_ & Hpt & _) _ _] Hp s Hs. destruct (Hp s Hs) as [(ns & Hpn & Hin) Hb]. split; [|done]. exists ns. by rewrite Hpt. }
  destruct d as [sb|sb]; cbn [duty_prog duty_sb] in *.
  - eapply csafe_mono; [|by apply csafe_RunPodSandbox]. intros e q' [Hs' Hp]. split; [done|]. intros He. by apply Hall, Hp.
  - eapply csafe_bind; [by apply csafe_syncSandbox|]. intros [] q' [Hs' Hp]. split; [done|]. intros He. by apply Hall, Hp.
Qed.

Lemma crew_inv_start ds q :
  tidy_net (wv q) → store_wf (nri_store q) → duties_apart ((λ d, (d, duty_nics q d)) <$> ds) →
  Forall (λ d, duty_ready d q) ds → crew_inv (wv q) (start_duties q ds) q.
Proof.
  intros Ht Hwf Ha Hd. split.
  { unfold start_duties. by rewrite <- list_fmap_compose. }
  intros k d L p Hk. split; [by apply ready_here|]. unfold start_duties in Hk. rewrite list_lookup_fmap in Hk.
  apply fmap_Some in Hk as (d' & Hk & [= -> -> ->]). rewrite Forall_lookup in Hd. intros q1 H1. by eapply duty_safe; [| |eapply Hd|].
Qed.


End duties.
