(* ===== verification/HookExample.v ===== *)
(** * Sandboxes side by side on a concrete node

    A pod's sandbox starts while the sandbox of a VM is retried, call by call in turns; and
    one sandbox is synchronized beside its retry. *)

From S2P Require Import Prelude Netip K8s Store StoreInv Prog Kernel Dhcp Attach NetShape AttachLogic Sandbox AttachProps Platform AttachSteps.
From S2P Require Import AttachRely AttachParallel Node NodeExample ParallelExample Nri Hooks HookSteps HookParallel.

(** ** Two sandboxes *)

(** The node with a second sandbox. *)
Definition node2 : Node := {|
  n_links := {[1%nat := eth0; 2%nat := new_link 0 "ovn0" (Other "openvswitch") 1500 (hw 2);
               3%nat := new_link 2 "eth0" (Other "macvlan") 1400 (hw 3)]};
  n_ports := ∅; n_paths := {["/run/netns/a" := 1%nat; "/run/netns/b" := 2%nat]}; n_cur := 0; n_next := 10; n_faults := [] |}.

Definition claimed (uid iface : string) : Spec := {|
  PodUID := uid; PodName := "web"; PodNamespace := "ns"; ClaimUID := "c1"; NetnsPath := ""; IfaceName := iface;
  IP := "172.23.0.5/20"; ExtraIPs := []; MAC := "02:00:00:00:00:05"; Gateway := "172.23.0.1"; Routes := [];
  MTU := 0; ContainerID := ""; Provider := "net1.ovn"; IfaceID := "web.ns.net1.ovn"; KubeVirtVMI := false;
  OVNDHCP := false |}.

Definition sandbox (uid id path : string) (labels : gmap string string) : PodSandbox := {|
  Sb_Id := id; Sb_Name := "web"; Sb_Uid := uid; Sb_Namespace := "ns"; Sb_Labels := labels;
  Sb_Linux := Some [{| Ns_Type := "network"; Ns_Path := path |}] |}.
Definition pod_a : PodSandbox := sandbox "ua" "sb1" "/run/netns/a" ∅.
Definition vm_b : PodSandbox := sandbox "ub" "sb2" "/run/netns/b" {[kubevirtLabelKey := kubevirtVirtLauncherLabel]}.

#[local] Instance go_impl : GoImpl := go_model.

Definition plugin0 (w : Node) : nriPlugin (ovsAttacher Node) := {|
  nri_store := Add (Add (Add NewNICStore (claimed "ua" "net1")) (claimed "ua" "net2")) (claimed "ub" "net1");
  nri_world := NewOVSAttacher w; ready := false; failed := {["ub" := vm_b]} |}.

Definition two_duties : list duty := [RunDuty pod_a; SyncDuty vm_b].

Definition ended (x : list (duty * list Spec * prog (nriPlugin (ovsAttacher Node)) (option error)) * nriPlugin (ovsAttacher Node))
    (k : nat) : option (option error) :=
  match x.1 !! k with Some (_, _, Prog.Ret e) => Some e | _ => None end.

Definition by_turns : list nat := concat (repeat [0; 1]%nat 100).
Abbreviation in_turns := (run_crew by_turns (start_duties (plugin0 node2) two_duties) (plugin0 node2)).

Lemma node2_quiet : quiet node2.
Proof. apply (bool_decide_unpack _). vm_compute. exact I. Qed.

Lemma plugin0_store w : store_wf (nri_store (plugin0 w)).
Proof.
  repeat (apply Add_wf; [|intros t Ht; simpl; vm_compute in Ht; repeat (apply elem_of_cons in Ht as [->|Ht]; [done|]); by apply elem_of_nil in Ht]).
  apply store_wf_new.
Qed.

Lemma plugin0_tidy : tidy_net (wv (plugin0 node2)).
Proof. apply quiet_tidy, node2_quiet. Qed.

(** Finite checks on the NICs of the example. *)
Definition unrelated_b (s t : Spec) : bool :=
  bool_decide (vh (ContainerID s) (IfaceName s) ≠ vh (ContainerID t) (IfaceName t)) &&
  (negb (bool_decide (NetnsPath s = NetnsPath t)) || bool_decide (Forall (λ nm, nm ∉ own_names t) (own_names s))).

Lemma unrelated_b_true s t : unrelated_b s t = true → unrelated s t.
Proof.
  unfold unrelated_b. rewrite andb_true_iff, orb_true_iff, negb_true_iff, bool_decide_eq_true, bool_decide_eq_false, bool_decide_eq_true.
  intros [H1 H2]. split; [done|]. intros Hp nm. destruct H2 as [?|H2]; [done|]. rewrite Forall_forall in H2. apply H2.
Qed.

Lemma forallb_elem {A} (f : A → bool) l x : forallb f l = true → x ∈ l → f x = true.
Proof. rewrite forallb_forall. intros H Hx. by apply H, list_elem_of_In. Qed.

Lemma duties_apart_check (q : nriPlugin (ovsAttacher Node)) d1 d2 :
  bool_decide (duty_uid d1 ≠ duty_uid d2) = true →
  forallb (λ s, forallb (λ t, unrelated_b s t && unrelated_b t s) (duty_nics q d2)) (duty_nics q d1) = true →
  duties_apart ((λ d, (d, duty_nics q d)) <$> [d1; d2]).
Proof.
  intros Hu%bool_decide_eq_true Hf. assert (∀ s t, s ∈ duty_nics q d1 → t ∈ duty_nics q d2 → unrelated s t ∧ unrelated t s) as H.
  { intros s t Hs Ht. pose proof (forallb_elem _ _ _ (forallb_elem _ _ _ Hf Hs) Ht) as H. cbv beta in H.
    apply andb_true_iff in H as [H1 H2]. split; by apply unrelated_b_true. }
  intros [|[|k]] [|[|k']] d L d' L' Hk Hk' Hne; try done; injection Hk as <- <-; injection Hk' as <- <-.
  - split; [done|]. intros s t Hs Ht. exact (proj1 (H s t Hs Ht)).
  - split; [by intros E; apply Hu|]. intros s t Hs Ht. exact (proj2 (H t s Ht Hs)).
Qed.

Lemma duty_ready_check d :
  bool_decide (networkNamespacePath (duty_sb d) ≠ EmptyString) = true →
  forallb (λ s, forallb (λ t, bool_decide (IfaceName s = IfaceName t ∧ s = t) || unrelated_b s t)
    (duty_nics (plugin0 node2) d)) (duty_nics (plugin0 node2) d) = true →
  forallb (λ s, bool_decide (IfaceName s ≠ vethRenameFor (IfaceName s)) &&
      match n_paths node2 !! NetnsPath s with Some ns => negb (in_use node2 ns (IfaceName s)) | None => true end)
    (nics (plugin0 node2) (duty_sb d)) = true →
  duty_ready d (plugin0 node2).
Proof.
  intros Hns%bool_decide_eq_true Hu Hf. split_and!; [done| | |].
  - intros s t Hs Ht. pose proof (forallb_elem _ _ _ (forallb_elem _ _ _ Hu Hs) Ht) as H.
    apply orb_true_iff in H as [H%bool_decide_eq_true|H]; [left; tauto|right; by apply unrelated_b_true].
  - intros s _. apply quiet_tethered, node2_quiet.
  - intros s Hs. pose proof (forallb_elem _ _ _ Hf Hs) as H. cbv beta in H. apply andb_true_iff in H as [Hi%bool_decide_eq_true H].
    split; [|done]. intros ns Hp Hn. assert ((n_paths node2 !! NetnsPath s : option nat) = Some ns) as Hp' by exact Hp. rewrite Hp' in H. apply negb_true_iff, in_use_false in H. by destruct H.
Qed.

Lemma finished_duty ks ds q k d e :
  ds !! k = Some d → ended (run_crew ks (start_duties q ds) q) k = Some e →
  (run_crew ks (start_duties q ds) q).1 !! k = Some (d, duty_nics q d, Prog.Ret e).
Proof.
  intros Hd. pose proof (run_crew_duties ks (start_duties q ds) q) as Hf.
  assert ((start_duties q ds).*1 !! k = Some (d, duty_nics q d)) as Hs.
  { unfold start_duties. by rewrite <- list_fmap_compose, list_lookup_fmap, Hd. }
  rewrite <- Hf, list_lookup_fmap in Hs. unfold ended.
  by destruct ((run_crew ks (start_duties q ds) q).1 !! k) as [[[d' L'] [o|l f next]]|]; intros [= ->]; injection Hs as -> ->.
Qed.


(** ** One sandbox synchronized beside its retry *)

(** Both threads read the NICs of the sandbox.  The retry looks for the NIC in the sandbox
    before the synchronization has moved it there, and for its other end on the host after
    that: it fails, deletes the pair and records the sandbox.  The synchronization adds the
    port, records the NIC as attached and drops the sandbox from the failed ones. *)
Definition pod_c : PodSandbox := sandbox "ub" "sb1" "/run/netns/a" ∅.
Definition twice : list duty := [SyncDuty pod_c; SyncDuty pod_c].
Definition race : list nat :=
  repeat 0%nat 10 ++ repeat 1%nat 8 ++ repeat 0%nat 17 ++ repeat 1%nat 4 ++ repeat 0%nat 3.

(** A synchronization beside a retry of the same sandbox may end with the sandbox out of
    the failed ones and its NIC recorded as attached, while the veth pair of the NIC is gone
    from the host and from the sandbox, and nothing will attach it again. *)
Example synchronized_beside_retry :
  let q := plugin0 node in
  let x := run_crew race (start_duties q twice) q in
  rtc crew_step (start_duties q twice, q) x ∧
  ended x 0 = Some None ∧ ended x 1 = Some None ∧
  failed x.2 !! "ub" = None ∧ IfaceName <$> attached_of (nri_store x.2) "ub" = ["net1"] ∧
  on_host (nri_world x.2) (vh "sb1" "net1") = false ∧ in_use (kern (nri_world x.2)) 1 "net1" = false.
Proof. split; [apply run_crew_steps|]. split_and!; vm_compute; reflexivity. Qed.
