(* ===== verification/System.v ===== *)
(** * The kubelet plugin as a whole (cmd/kube-ovn-dra-kubeletplugin/driver.go, refresh.go)

    The driver answers kubelet, the NRI plugin answers the runtime, and the refresh loop
    follows the Subnets; they share the device state with its NIC store.  A run of the
    plugin is a sequence of such events, each one step, with failures and restarts in
    between.  [Threads] and [Interleave] split the events into atomic actions. *)

From S2P Require Import Prelude K8s NicConfig Subnet Annotation Store StoreInv NicPrepare Profile Cdi Checkpoint.
From S2P Require Import State StateProps Lifecycle Sandbox Nri.

Record System (P D W : Type) := {
  sys_state : DeviceState P D;
  sys_world : W;
  (** whether the NRI plugin was started: [driver.nri] is nil before *)
  sys_nri : bool;
  sys_ready : bool;
  sys_failed : gmap string PodSandbox;
}.
Arguments sys_state {P D W}. Arguments sys_world {P D W}. Arguments sys_nri {P D W}.
Arguments sys_ready {P D W}. Arguments sys_failed {P D W}.

Section driver.
Context `{K : K8s} `{G : GoImpl} `{PO : Poller} `{CDI0 : CDI} `{CD : ConfigDecoder}.
Context {P D W : Type} `{PF : Profile P} `{M : CheckpointManager D} `{A : Attacher W} `{V : Datapath W}.
Implicit Types sys : System P D W.

(** The NRI plugin shares the store of the device state. *)
Definition plugin_of sys : nriPlugin W := {|
  nri_store := default NewNICStore (nicStore (sys_state sys)); nri_world := sys_world sys;
  ready := sys_ready sys; failed := sys_failed sys |}.

Definition with_plugin sys (p : nriPlugin W) : System P D W := {|
  sys_state := with_store (sys_state sys) (Some (nri_store p)); sys_world := nri_world p;
  sys_nri := sys_nri sys; sys_ready := ready p; sys_failed := failed p |}.

Definition with_state sys (st : DeviceState P D) : System P D W := {|
  sys_state := st; sys_world := sys_world sys; sys_nri := sys_nri sys; sys_ready := sys_ready sys; sys_failed := sys_failed sys |}.

(** ** The driver's calls *)

Definition prepareResourceClaim (env : PrepareEnv) sys (claim : ResourceClaim) :
    result (list KubeletDevice) * System P D W :=
  if sys_nri sys && negb (Ready (plugin_of sys))
  then (Err (Errorf "NRI plugin is not connected to the container runtime, DRA NICs cannot be attached yet" []), sys)
  else
    match Prepare env (sys_state sys) claim with
    | (Err e, st) => (Err (Wrapf "error preparing devices for claim %v: %w" [Claim_UID claim] e), with_state sys st)
    | (Ok devices, st) => (Ok devices, with_state sys st)
    end.

Fixpoint prepare_all (envs : nat → PrepareEnv) (i : nat) sys (claims : list ResourceClaim)
    (results : gmap string (result (list KubeletDevice))) :
    gmap string (result (list KubeletDevice)) * System P D W :=
  match claims with
  | [] => (results, sys)
  | claim :: claims =>
      let '(r, sys) := prepareResourceClaim (envs i) sys claim in
      prepare_all envs (S i) sys claims (<[Claim_UID claim := r]> results)
  end.

(** [envs i] answers during the [i]-th claim. *)
Definition PrepareResourceClaims (envs : nat → PrepareEnv) sys (claims : list ResourceClaim) :
    gmap string (result (list KubeletDevice)) * System P D W :=
  prepare_all envs 0 sys claims ∅.

Definition unprepareResourceClaim sys (uid : string) : option error * System P D W :=
  match Unprepare (sys_state sys) uid with
  | (Some e, st) => (Some (Wrapf "error unpreparing devices for claim %v: %w" [uid] e), with_state sys st)
  | (None, st) => (None, with_state sys st)
  end.

Fixpoint unprepare_all sys (uids : list string) (results : gmap string (option error)) :
    gmap string (option error) * System P D W :=
  match uids with
  | [] => (results, sys)
  | uid :: uids =>
      let '(r, sys) := unprepareResourceClaim sys uid in
      unprepare_all sys uids (<[uid := r]> results)
  end.

Definition UnprepareResourceClaims sys (uids : list string) : gmap string (option error) * System P D W :=
  unprepare_all sys uids ∅.

(** ** The refresh loop

    One round after a trigger: refresh, and publish when the devices changed.
    [publish] is what publishing the resources yields; also the resources published. *)
Definition refresh_round (api : Api) (publish : DriverResources → option error) (st : DeviceState P D) :
    option DriverResources * DeviceState P D :=
  match RefreshDevices api st with
  | (Err _, st) => (None, st)
  | (Ok (resources, changed), st) =>
      if negb changed then (None, st)
      else match publish resources with
           | Some _ => (None, st)
           | None => (Some resources, st)
           end
  end.

(** ** Runs

    [EvNode] is a change of the node's network by others: sandboxes come and go, and the
    NICs of the driver may vanish; it keeps the node tidy.  The runtime is heard from
    when the NRI plugin was started ([EvStartNRI]), which [NewDriver] does last, while
    kubelet's calls are served from its beginning. *)

Inductive event :=
  | EvPrepare (envs : nat → PrepareEnv) (claims : list ResourceClaim)
  | EvUnprepare (uids : list string)
  | EvRefresh (api : Api) (publish : DriverResources → option error)
  | EvSynchronize (pods : list PodSandbox)
  | EvRetry
  | EvRunPodSandbox (sb : PodSandbox)
  | EvStopPodSandbox (sb : PodSandbox)
  | EvStartNRI
  | EvClose
  | EvNode (w : W)
  | EvRestart (config : Config) (api : Api) (p : P) (files : gmap string CDISpec).

(** A new process after the old one ended: everything in memory is gone, the disk and the
    node's network stay. *)
Inductive step : System P D W → event → System P D W → Prop :=
  | step_prepare sys envs claims :
      step sys (EvPrepare envs claims) (PrepareResourceClaims envs sys claims).2
  | step_unprepare sys uids :
      step sys (EvUnprepare uids) (UnprepareResourceClaims sys uids).2
  | step_refresh sys api publish :
      step sys (EvRefresh api publish) (with_state sys (refresh_round api publish (sys_state sys)).2)
  | step_synchronize sys pods :
      sys_nri sys = true →
      step sys (EvSynchronize pods) (with_plugin sys (Synchronize (plugin_of sys) pods))
  | step_retry sys :
      sys_nri sys = true → step sys EvRetry (with_plugin sys (retryFailed (plugin_of sys)))
  | step_run sys sb :
      sys_nri sys = true →
      step sys (EvRunPodSandbox sb) (with_plugin sys (RunPodSandbox (plugin_of sys) sb).2)
  | step_stop sys sb :
      sys_nri sys = true →
      step sys (EvStopPodSandbox sb) (with_plugin sys (StopPodSandbox (plugin_of sys) sb).2)
  | step_node sys w :
      tidy w →
      step sys (EvNode w) {| sys_state := sys_state sys; sys_world := w; sys_nri := sys_nri sys;
                             sys_ready := sys_ready sys; sys_failed := sys_failed sys |}
  | step_close sys : sys_nri sys = true → step sys EvClose (with_plugin sys (onClose (plugin_of sys)))
  | step_restart sys config api p files st :
      NewDeviceState config api p (disk (sys_state sys)) files (Some NewNICStore) = Ok st →
      step sys (EvRestart config api p files)
        {| sys_state := st; sys_world := sys_world sys; sys_nri := false; sys_ready := false; sys_failed := ∅ |}
  | step_nri sys :
      sys_nri sys = false →
      step sys EvStartNRI {| sys_state := sys_state sys; sys_world := sys_world sys; sys_nri := true;
                             sys_ready := false; sys_failed := ∅ |}.

(** The claims that are gone after a call to unprepare: those whose last unprepare failed. *)
Fixpoint forget_all sys (uids : list string) (gone : gset string) : gset string :=
  match uids with
  | [] => gone
  | uid :: uids =>
      let '(r, sys) := unprepareResourceClaim sys uid in
      forget_all sys uids (gone_by gone uid r)
  end.

Definition gone_after sys (ev : event) (gone : gset string) : gset string :=
  match ev with
  | EvUnprepare uids => forget_all sys uids gone
  | EvRestart _ _ _ _ => ∅
  | _ => gone
  end.

(** No prepare was made since a claim is gone. *)
Definition clean_after (ev : event) (gone : gset string) (clean : bool) : bool :=
  match ev with
  | EvPrepare _ _ => bool_decide (gone = ∅)
  | EvUnprepare _ => bool_decide (gone = ∅) || clean
  | EvRestart _ _ _ _ => true
  | _ => clean
  end.

(** A new process is only considered when no prepare was made with a claim gone, for such a
    prepare may give a pod a second NIC with the interface name of a NIC that is gone, and
    the new process would have both. *)
Definition may_run (ev : event) (gone : gset string) (clean : bool) : Prop :=
  match ev with EvRestart _ _ _ _ => gone = ∅ ∨ clean = true | _ => True end.

(** The first process on a node without a checkpoint, and what runs lead to: the claims
    whose last unprepare failed, whether no prepare was made since, and the system. *)
Inductive runs : gset string → bool → System P D W → Prop :=
  | runs_start config api p d files st w checkpoints :
      ListCheckpoints d = Ok checkpoints → DriverPluginCheckpointFile ∉ checkpoints →
      NewDeviceState config api p d files (Some NewNICStore) = Ok st → tidy w →
      runs ∅ true {| sys_state := st; sys_world := w; sys_nri := false; sys_ready := false; sys_failed := ∅ |}
  | runs_step gone clean sys ev sys' :
      runs gone clean sys → may_run ev gone clean → step sys ev sys' →
      runs (gone_after sys ev gone) (clean_after ev gone clean) sys'.

(** The states without a claim whose last unprepare failed. *)
Definition reachable sys : Prop := ∃ clean, runs ∅ clean sys.

End driver.

(** ** The invariant *)

Section invariant.
Context `{K : K8s} `{G : GoImpl} `{PO : Poller} `{CDI0 : CDI} `{CD : ConfigDecoder}.
Context {P D W : Type} `{PF : Profile P} `{ML : CheckpointLaws D} `{AL : AttacherLaws W}.
Implicit Types sys : System P D W.

Lemma prepare_all_inv gone envs i sys claims results :
  inv_but gone (sys_state sys) → inv_but gone (sys_state (prepare_all envs i sys claims results).2).
Proof.
  revert i sys results. induction claims as [|c claims IH]; intros i sys results Hinv; simpl; [done|].
  destruct (prepareResourceClaim (envs i) sys c) as [r sys1] eqn:E. apply IH.
  unfold prepareResourceClaim in E. destruct (_ && _); [by simplify_eq|].
  destruct (Prepare _ _ _) as [[ds|e] st] eqn:Ep; eapply Prepare_inv in Ep; [|done| |done];
    injection E as <- <-; done.
Qed.

Lemma unprepareResourceClaim_inv gone sys uid r sys' :
  unprepareResourceClaim sys uid = (r, sys') → inv_but gone (sys_state sys) →
  inv_but (gone_by gone uid r) (sys_state sys') ∧ (recoverable (disk (sys_state sys)) → recoverable (disk (sys_state sys'))).
Proof.
  unfold unprepareResourceClaim. destruct (Unprepare _ _) as [e st] eqn:E. intros Hr Hinv.
  pose proof (Unprepare_recoverable _ _ _ _ E) as Hrec. eapply Unprepare_inv in E; [|done].
  by destruct e; injection Hr as <- <-.
Qed.

Lemma unprepare_all_inv gone sys uids results :
  inv_but gone (sys_state sys) →
  inv_but (forget_all sys uids gone) (sys_state (unprepare_all sys uids results).2) ∧
  (recoverable (disk (sys_state sys)) → recoverable (disk (sys_state (unprepare_all sys uids results).2))).
Proof.
  revert gone sys results. induction uids as [|u uids IH]; intros gone sys results Hinv; simpl; [done|].
  destruct (unprepareResourceClaim sys u) as [r sys1] eqn:E. eapply unprepareResourceClaim_inv in E as [Hi Hr]; [|done].
  destruct (IH _ sys1 (<[u:=r]> results) Hi) as [H1 H2]. auto.
Qed.

(** The driver's calls do not touch the node's network. *)
Lemma prepare_all_world envs i sys claims results :
  sys_world (prepare_all envs i sys claims results).2 = sys_world sys.
Proof.
  revert i sys results. induction claims as [|c claims IH]; intros i sys results; simpl; [done|].
  destruct (prepareResourceClaim (envs i) sys c) as [r sys1] eqn:E. rewrite IH. clear IH.
  unfold prepareResourceClaim in E. destruct (_ && _); [by simplify_eq|].
  by destruct (Prepare _ _ _) as [[ds|e] st]; injection E as <- <-.
Qed.

Lemma unprepare_all_world sys uids results :
  sys_world (unprepare_all sys uids results).2 = sys_world sys.
Proof.
  revert sys results. induction uids as [|u uids IH]; intros sys results; simpl; [done|].
  destruct (unprepareResourceClaim sys u) as [r sys1] eqn:E. rewrite IH. clear IH.
  unfold unprepareResourceClaim in E. by destruct (Unprepare _ _) as [[e|] st]; injection E as <- <-.
Qed.

(** Sandbox events change neither the specs nor the checkpoint. *)
Lemma with_plugin_inv gone sys p :
  byPod (nri_store p) = byPod (nri_store (plugin_of sys)) →
  inv_but gone (sys_state sys) → inv_but gone (sys_state (with_plugin sys p)).
Proof.
  unfold plugin_of. intros Hb (store & Hs & Hwf & Hcov). simpl in Hb. rewrite Hs in Hb. simpl in Hb.
  exists (nri_store p). split_and!; [done|by eapply byPod_wf|].
  intros claims uid ds pd sp Hg Hu Hn Hpd Hsp. rewrite (byPod_Specs _ _ _ Hb). by eapply Hcov.
Qed.

Lemma refresh_round_inv gone api publish (st : DeviceState P D) :
  inv_but gone st →
  inv_but gone (refresh_round api publish st).2 ∧ disk (refresh_round api publish st).2 = disk st.
Proof.
  intros Hinv. unfold refresh_round. destruct (RefreshDevices api st) as [r st'] eqn:E.
  assert (disk st' = disk st) as Hd.
  { revert E. unfold RefreshDevices. destruct (EnumerateDevices _ _) as [[res|] p]; [destruct (DeepEqual _ _)|]; by intros [= _ <-]. }
  eapply RefreshDevices_inv in E; [|done]. destruct r as [[r ch]|e]; [|done]. destruct ch; simpl; [destruct (publish r)|]; done.
Qed.

(** What every run keeps. *)
Definition sound (gone : gset string) (clean : bool) sys : Prop :=
  inv_but gone (sys_state sys) ∧ (clean = true → recoverable (disk (sys_state sys))).

Lemma sound_locked gone clean sys p :
  byPod (nri_store p) = byPod (nri_store (plugin_of sys)) → sound gone clean sys → sound gone clean (with_plugin sys p).
Proof. intros Hb [Hi Hr]. split; [by apply with_plugin_inv|done]. Qed.

Lemma step_sound sys ev sys' gone clean :
  step sys ev sys' → may_run ev gone clean → sound gone clean sys →
  sound (gone_after sys ev gone) (clean_after ev gone clean) sys'.
Proof.
  intros Hs Hm [Hi Hr]. destruct Hs; cbn [gone_after clean_after may_run] in *; try (by apply sound_locked).
  - split; [by apply prepare_all_inv|]. intros ->%bool_decide_eq_true. apply inv_recoverable. by apply prepare_all_inv.
  - destruct (unprepare_all_inv gone sys uids ∅ Hi) as [H1 H2]. split; [done|].
    intros [->%bool_decide_eq_true|Hc]%orb_true_iff; apply H2; [by apply inv_recoverable|auto].
  - destruct (refresh_round_inv gone api publish _ Hi) as [H1 H2]. split; [done|]. simpl. by rewrite H2.
  - apply sound_locked; [apply syncAll_byPod|done].
  - apply sound_locked; [apply syncAll_byPod|done].
  - apply sound_locked; [|done]. by destruct (RunPodSandbox _ _) eqn:E; eapply RunPodSandbox_byPod.
  - apply sound_locked; [|done]. by destruct (StopPodSandbox _ _) eqn:E; eapply StopPodSandbox_byPod.
  - done.
  - eapply restart_inv in H as [H _].
    + split; [done|]. intros _. by apply inv_recoverable.
    + destruct Hm as [->| ->]; [by apply inv_recoverable|auto].
  - done.
Qed.

Lemma step_tidy sys ev sys' : step sys ev sys' → tidy (sys_world sys) → tidy (sys_world sys').
Proof.
  intros Hs Htd. destruct Hs; simpl; try done.
  - unfold PrepareResourceClaims. by rewrite prepare_all_world.
  - unfold UnprepareResourceClaims. by rewrite unprepare_all_world.
  - by apply syncAll_tidy.
  - by apply syncAll_tidy.
  - destruct (RunPodSandbox _ _) eqn:E. by eapply (RunPodSandbox_tidy (plugin_of sys)).
  - destruct (StopPodSandbox _ _) eqn:E. by eapply (StopPodSandbox_tidy (plugin_of sys)).
Qed.

Lemma runs_tidy gone clean sys : runs gone clean sys → tidy (sys_world sys).
Proof. induction 1; [done|by eapply step_tidy]. Qed.

Lemma runs_sound gone clean sys : runs gone clean sys → sound gone clean sys.
Proof.
  induction 1 as [config api p d files st w cps Hl Hn HN|gone clean sys ev sys' _ IH Hm Hs]; [|by eapply step_sound].
  enough (inv_but ∅ st) by (split; [done|]; intros _; by apply inv_recoverable).
  unfold NewDeviceState in HN. destruct (EnumerateDevices api p) as [res p'].
  apply bind_Ok in HN as (r & _ & HN). destruct (CreateCommonSpecFile _ _) as [[e|] files']; [done|].
  simpl in HN. rewrite Hl in HN. simpl in HN. rewrite bool_decide_false in HN by done.
  destruct (CreateCheckpoint d ∅) as [[e|] d'] eqn:Hc; [done|]. injection HN as <-.
  apply create_get in Hc. exists NewNICStore. split_and!; [done|apply store_wf_new|].
  intros claims uid ds pd sp Hg Hu. simpl in Hg. rewrite Hc in Hg. injection Hg as <-. by rewrite lookup_empty in Hu.
Qed.

Lemma reachable_tidy sys : reachable sys → tidy (sys_world sys).
Proof. intros [clean H]. by eapply runs_tidy. Qed.

Lemma reachable_inv sys : reachable sys → inv_but ∅ (sys_state sys).
Proof. intros [clean H]. by apply runs_sound in H as [? _]. Qed.

(** C8: after any sequence of prepare, unprepare, refresh and sandbox events, failed ones and
    restarts (other than one after a prepare that was made with a claim gone), the NICs of
    every checkpointed claim that is not gone, one whose last unprepare failed, are in the
    store the sandbox hooks read, and the NICs of a pod have distinct interface names,
    across its claims. *)
Theorem reachable_invariant gone clean sys :
  runs gone clean sys →
  ∃ store, nicStore (sys_state sys) = Some store ∧
    (∀ claims uid devices pd sp,
       GetCheckpoint (disk (sys_state sys)) = Ok claims → claims !! uid = Some devices → uid ∉ gone → pd ∈ devices →
       PD_NIC pd = Some sp → ClaimUID sp = uid ∧ sp ∈ Specs store (PodUID sp)) ∧
    (∀ pod, NoDup (IfaceName <$> Specs store pod)).
Proof.
  intros [(store & Hs & Hwf & Hcov) _]%runs_sound. exists store. split_and!; [done|exact Hcov|].
  intros pod. apply Hwf.
Qed.

(** When the start of a sandbox is let through and the names of its NICs were free in it,
    every NIC of the pod in a checkpointed claim that is not gone is in its place.  For the
    attacher of [Attach] that is [EndToEnd.no_pod_without_nics]. *)
Lemma start_places gone clean sys sb p' claims uid devices pd sp :
  runs gone clean sys → RunPodSandbox (plugin_of sys) sb = (None, p') → networkNamespacePath sb ≠ EmptyString →
  sandbox_free (plugin_of sys) sb →
  GetCheckpoint (disk (sys_state sys)) = Ok claims → claims !! uid = Some devices → uid ∉ gone → pd ∈ devices →
  PD_NIC pd = Some sp → PodUID sp = Sb_Uid sb →
  placed (nri_world p') (at_sandbox sb sp).
Proof.
  intros Hr HR Hn Hf Hg Hu Hng Hpd Hsp Hpod. pose proof (runs_tidy _ _ _ Hr) as Htd.
  apply runs_sound in Hr as [(store & Hs & Hwf & Hcov) _].
  assert (nri_store (plugin_of sys) = store) as Hst by (unfold plugin_of; simpl; by rewrite Hs).
  assert (plugged p' sb) as Hp by (eapply (RunPodSandbox_plugs (plugin_of sys)); [by rewrite Hst|done..]).
  apply Hp, nics_at. apply RunPodSandbox_byPod in HR. rewrite (byPod_Specs _ _ _ HR), Hst, <- Hpod.
  by eapply (Hcov _ uid).
Qed.

(** A change of the devices whose publication fails is lost: the next round sees no
    change and publishes nothing, although what is published is out of date. *)
Theorem failed_publish_is_lost `{KL : !K8sLaws} api api' publish publish' (st : DeviceState P D) r p p' :
  EnumerateDevices api (profile st) = (Ok r, p) → r ≠ driverResources st → is_Some (publish r) →
  EnumerateDevices api' p = (Ok r, p') →
  let '(out, st1) := refresh_round api publish st in
  let '(out', st2) := refresh_round api' publish' st1 in
  out = None ∧ out' = None ∧ driverResources st1 = r.
Proof.
  intros He Hne [e Hp] He'. unfold refresh_round, RefreshDevices. rewrite He.
  destruct (DeepEqual r (driverResources st)) eqn:Hd; [by apply deep_equal in Hd|]. simpl. rewrite Hp. simpl.
  rewrite He', (proj2 (deep_equal r r)) by done. done.
Qed.

(** A claim is refused, and nothing changes, while the runtime is not connected, once
    the NRI plugin was started. *)
Theorem prepare_fails_closed envs sys claims uid r :
  sys_nri sys = true → sys_ready sys = false →
  (PrepareResourceClaims envs sys claims).2 = sys ∧
  ((PrepareResourceClaims envs sys claims).1 !! uid = Some r → is_ok r = false).
Proof.
  intros Hs Hr. unfold PrepareResourceClaims. assert (∀ u x, (∅ : gmap string (result (list KubeletDevice))) !! u = Some x →
    is_ok x = false) as H0 by (intros u x; by rewrite lookup_empty).
  revert H0. generalize (∅ : gmap string (result (list KubeletDevice))) 0. clear -Hs Hr.
  induction claims as [|c claims IH]; intros results i Hres; simpl; [eauto|].
  unfold prepareResourceClaim, Ready, plugin_of. simpl. rewrite Hs, Hr. simpl. apply IH.
  intros u x. destruct (decide (u = Claim_UID c)) as [->|Hne]; [rewrite lookup_insert_eq; by intros [= <-]|].
  rewrite lookup_insert_ne by done. apply Hres.
Qed.

(** The driver's calls leave the connection alone. *)
Definition connection sys : bool * bool := (sys_nri sys, sys_ready sys).

Lemma prepare_all_connection envs i sys claims results :
  connection (prepare_all envs i sys claims results).2 = connection sys.
Proof.
  revert i sys results. induction claims as [|c claims IH]; intros i sys results; simpl; [done|].
  destruct (prepareResourceClaim (envs i) sys c) as [r sys1] eqn:E. rewrite IH. clear IH.
  unfold prepareResourceClaim in E. destruct (_ && _); [by simplify_eq|].
  by destruct (Prepare _ _ _) as [[ds|e] st]; injection E as <- <-.
Qed.

Lemma unprepare_all_connection sys uids results :
  connection (unprepare_all sys uids results).2 = connection sys.
Proof.
  revert sys results. induction uids as [|u uids IH]; intros sys results; simpl; [done|].
  destruct (unprepareResourceClaim sys u) as [r sys1] eqn:E. rewrite IH. clear IH.
  unfold unprepareResourceClaim in E. by destruct (Unprepare _ _) as [[e|] st]; injection E as <- <-.
Qed.

Lemma runs_not_ready gone clean sys : runs gone clean sys → sys_nri sys = false → sys_ready sys = false.
Proof.
  induction 1 as [|gone clean sys ev sys' _ IH _ Hs]; [done|]. destruct Hs; simpl; try congruence; try done.
  - pose proof (prepare_all_connection envs 0 sys claims ∅) as [= Hn Hr]. unfold PrepareResourceClaims.
    by rewrite Hn, Hr.
  - pose proof (unprepare_all_connection sys uids ∅) as [= Hn Hr]. unfold UnprepareResourceClaims.
    by rewrite Hn, Hr.
Qed.

(** Until the driver has started its NRI plugin, claims are prepared although the
    plugin is not connected: the check for the connection is skipped while there is no
    plugin, and kubelet is served before there is one. *)
Theorem prepare_before_nri gone clean sys env claim devices st :
  runs gone clean sys → sys_nri sys = false → Prepare env (sys_state sys) claim = (Ok devices, st) →
  Ready (plugin_of sys) = false ∧ prepareResourceClaim env sys claim = (Ok devices, with_state sys st).
Proof.
  intros Hr Hs Hp. split; [exact (runs_not_ready _ _ sys Hr Hs)|].
  unfold prepareResourceClaim. by rewrite Hs, Hp.
Qed.

End invariant.
