(* ===== verification/Threads.v ===== *)
(** * Threads (cmd/kube-ovn-dra-kubeletplugin/nri.go, driver.go, state.go, pkg/plumbing/nri.go, store.go)

    The plugin runs four threads on shared state: the hooks the runtime calls, one at a
    time; the retries of failed attaches; the calls of kubelet, which hold the lock of the
    device state; and the refreshes, which take it for their last action.  The store and
    the table of failed sandboxes have locks of their own, held for one operation.  This
    file gives the hooks of [Hooks] these operations, splits those of [State] into programs
    of atomic actions, and shows that a program run alone does what the operation does;
    [Interleave] runs them side by side.  Attaching or detaching one NIC is one action here;
    [HookSteps] splits it. *)

From S2P Require Import Prelude K8s NicConfig Subnet Annotation Store StoreInv Prog NicPrepare Profile Cdi Checkpoint.
From S2P Require Import State StateProps Lifecycle Sandbox Nri System Hooks.

Section threads.
Context `{K : K8s} `{G : GoImpl} `{PO : Poller} `{CDI0 : CDI} `{CD : ConfigDecoder}.
Context {P D W : Type} `{PF : Profile P} `{M : CheckpointManager D} `{A : Attacher W}.

Abbreviation Sys := (System P D W).
Abbreviation thread := (prog Sys).
Implicit Types sys : Sys.

(** *** The actions of the hooks *)

Definition on_plugin {B} (l : action) (g : nriPlugin W → B * nriPlugin W) : thread B :=
  act l (λ sys, let '(b, p) := g (plugin_of sys) in (b, with_plugin sys p)).

Definition t_attach (s : Spec) : thread (option error) :=
  on_plugin (Attaching s) (λ p, let '(e, w) := Attach (nri_world p) s in (e, with_node p (nri_store p) w)).
Definition t_detach (s : Spec) : thread (option error) :=
  on_plugin Acting (λ p, let '(e, w) := Detach (nri_world p) s in (e, with_node p (nri_store p) w)).
Definition t_ports (podName podNamespace : string) : thread (option error) :=
  on_plugin Acting (λ p, let '(e, w) := DetachPodPorts (nri_world p) podName podNamespace in
                         (e, with_node p (nri_store p) w)).
Definition t_specs (podUID : string) : thread (list Spec) :=
  on_plugin Acting (λ p, (Specs (nri_store p) podUID, p)).
Definition t_mark (podUID : string) (s : Spec) : thread unit :=
  on_plugin Acting (λ p, ((), with_node p (MarkAttached (nri_store p) podUID s) (nri_world p))).
Definition t_take (podUID : string) : thread (list Spec) :=
  on_plugin Acting (λ p, let '(taken, store) := TakeAttached (nri_store p) podUID in
                         (taken, with_node p store (nri_world p))).
Definition t_failed (f : gmap string PodSandbox → gmap string PodSandbox) : thread unit :=
  on_plugin Acting (λ p, ((), with_failed p (f (failed p)))).
Definition t_copy_failed : thread (list PodSandbox) :=
  on_plugin Acting (λ p, (snd <$> map_range 40 (failed p), p)).
Definition t_ready (r : bool) : thread unit := on_plugin Acting (λ p, ((), with_ready p r)).

(** The hooks of [Hooks] on the state of the whole plugin. *)
#[export] Instance sys_primitives : Primitives Sys := {|
  h_attach := t_attach; h_detach := t_detach; h_ports := t_ports; h_specs := t_specs; h_mark := t_mark; h_take := t_take;
  h_failed := t_failed; h_copy_failed := t_copy_failed; h_ready := t_ready |}.

(** *** What works on the device state *)

Definition at_state {B} (l : action) (g : DeviceState P D → B * DeviceState P D) : thread B :=
  act l (λ sys, let '(b, st) := g (sys_state sys) in (b, with_state sys st)).
Definition on_state {B} (g : DeviceState P D → B * DeviceState P D) : thread B := at_state Acting g.

(** Prepare up to the NICs: the claim is prepared already, or its devices are resolved. *)
Definition resolveClaim (env : PrepareEnv) (claim : ResourceClaim) (st : DeviceState P D) :
    (result (list KubeletDevice) + PreparedClaims * list PreparedDevice) * DeviceState P D :=
  match GetCheckpoint (disk st) with
  | Err e => (inl (Err (Wrapf "unable to sync from checkpoint: %w" [] e)), st)
  | Ok preparedClaims =>
      match preparedClaims !! Claim_UID claim with
      | Some devices => (inl (Ok (GetDevices devices)), st)
      | None =>
          match prepareDevices env st claim with
          | (Err e, st) => (inl (Err (Wrapf "prepare failed: %w" [] e)), st)
          | (Ok devices, st') => (inr (preparedClaims, devices), with_store st' (nicStore st))
          end
      end
  end.

Fixpoint t_add_all (specs : list Spec) : thread unit :=
  match specs with
  | [] => mret ()
  | s :: specs => _ ← on_state (λ st, ((), with_store st ((λ store, Add store s) <$> nicStore st))); t_add_all specs
  end.

(** The CDI file and the checkpoint of the claim. *)
Definition commitClaim (claim : ResourceClaim) (preparedClaims : PreparedClaims) (devices : list PreparedDevice)
    (st : DeviceState P D) : result (list KubeletDevice) * DeviceState P D :=
  match CreateClaimSpecFile (cdi st) (cdi_files st) (Claim_UID claim) devices with
  | (Some e, files) => (Err (Wrapf "unable to create CDI spec file for claim: %w" [] e), with_files st files)
  | (None, files) =>
      let st := with_files st files in
      match CreateCheckpoint (disk st) (<[Claim_UID claim := devices]> preparedClaims) with
      | (Some e, d) => (Err (Wrapf "unable to sync to checkpoint: %w" [] e), with_disk st d)
      | (None, d) => (Ok (GetDevices devices), with_disk st d)
      end
  end.

Definition t_Prepare (env : PrepareEnv) (claim : ResourceClaim) : thread (result (list KubeletDevice)) :=
  r ← on_state (resolveClaim env claim);
  match r with
  | inl r => mret r
  | inr (preparedClaims, devices) =>
      _ ← t_add_all (omap PD_NIC devices);
      on_state (commitClaim claim preparedClaims devices)
  end.

(** Unprepare up to the NICs: an error, nothing to do, or the prepared claims. *)
Definition readClaims (claimUID : string) (st : DeviceState P D) :
    (option error + PreparedClaims) * DeviceState P D :=
  let '(checkpoint, st) :=
    match GetCheckpoint (disk st) with
    | Ok claims => (Ok claims, st)
    | Err _ =>
        match CreateCheckpoint (disk st) ∅ with
        | (Some e, d) => (Err (Wrapf "unable to create new checkpoint: %w" [] e), with_disk st d)
        | (None, d) => (Ok ∅, with_disk st d)
        end
    end in
  match checkpoint with
  | Err e => (inl (Some e), st)
  | Ok preparedClaims =>
      match preparedClaims !! claimUID with
      | None => (inl None, st)
      | Some _ => (inr preparedClaims, st)
      end
  end.

Definition dropClaim (claimUID : string) (preparedClaims : PreparedClaims) (st : DeviceState P D) :
    option error * DeviceState P D :=
  match DeleteClaimSpecFile (cdi st) (cdi_files st) claimUID with
  | (Some e, files) => (Some (Wrapf "unable to delete CDI spec file for claim: %w" [] e), with_files st files)
  | (None, files) =>
      let st := with_files st files in
      match CreateCheckpoint (disk st) (delete claimUID preparedClaims) with
      | (Some e, d) => (Some (Wrapf "unable to sync to checkpoint: %w" [] e), with_disk st d)
      | (None, d) => (None, with_disk st d)
      end
  end.

Definition t_Unprepare (claimUID : string) : thread (option error) :=
  r ← on_state (readClaims claimUID);
  match r with
  | inl e => mret e
  | inr preparedClaims =>
      _ ← on_state (λ st, ((), unprepareDevices st claimUID));
      on_state (dropClaim claimUID preparedClaims)
  end.

(** A refresh enumerates the devices before it takes the lock; what it remembers of them
    is in a map of the profile that is safe for that. *)
Definition enumerateDevices (api : Api) (st : DeviceState P D) : result DriverResources * DeviceState P D :=
  let '(resources, p) := EnumerateDevices api (profile st) in
  (resources, with_devices st (driverResources st) (allocatable st) p).

Definition storeDevices (r : DriverResources) (st : DeviceState P D) : DriverResources * bool * DeviceState P D :=
  if DeepEqual r (driverResources st) then (r, false, st)
  else (r, true, with_devices st r (allocatableDevices r (ds_nodeName st)) (profile st)).

Definition t_RefreshDevices (api : Api) : thread (result (DriverResources * bool)) :=
  r ← on_state (enumerateDevices api);
  match r with
  | Err e => mret (Err (Wrapf "enumerate devices: %w" [] e))
  | Ok r => out ← at_state Locking (storeDevices r); mret (Ok out)
  end.

(** ** A program run alone is the operation *)

Lemma with_store_twice (st : DeviceState P D) a b : with_store (with_store st a) b = with_store st b.
Proof. done. Qed.
Lemma with_store_id (st : DeviceState P D) : with_store st (nicStore st) = st.
Proof. by destruct st. Qed.
Lemma plugin_of_with sys p : plugin_of (with_plugin sys p) = p.
Proof. by destruct p. Qed.
Lemma with_plugin_of sys : is_Some (nicStore (sys_state sys)) → with_plugin sys (plugin_of sys) = sys.
Proof. intros [s Hs]. destruct sys as [[] ? ? ? ?]. simpl in *. unfold with_plugin, with_store. simpl. by rewrite Hs. Qed.

Lemma alone_plugin {B} l (g : nriPlugin W → B * nriPlugin W) sys p :
  alone (on_plugin l g) (with_plugin sys p) = ((g p).1, with_plugin sys (g p).2).
Proof. unfold on_plugin. rewrite alone_act, plugin_of_with. by destruct (g p). Qed.

Lemma alone_at_state {B} l (g : DeviceState P D → B * DeviceState P D) sys :
  alone (at_state l g) sys = ((g (sys_state sys)).1, with_state sys (g (sys_state sys)).2).
Proof. unfold at_state. rewrite alone_act. by destruct (g _). Qed.

Lemma alone_state {B} (g : DeviceState P D → B * DeviceState P D) sys :
  alone (on_state g) sys = ((g (sys_state sys)).1, with_state sys (g (sys_state sys)).2).
Proof. apply alone_at_state. Qed.

Abbreviation computes := (Hooks.computes with_plugin).

#[export] Instance sys_laws : PrimitiveLaws with_plugin.
Proof. split; intros; intros sys q; exact (alone_plugin _ _ sys q). Qed.

Lemma t_add_all_alone specs sys :
  alone (t_add_all specs) sys =
  ((), with_state sys (with_store (sys_state sys) ((λ store, foldl Add store specs) <$> nicStore (sys_state sys)))).
Proof.
  revert sys. induction specs as [|s specs IH]; intros sys; cbn [t_add_all].
  - simpl. destruct sys as [st ? ? ? ?]. simpl. unfold with_state. simpl. f_equal. f_equal.
    rewrite <- (with_store_id st) at 1. f_equal. by destruct (nicStore st).
  - rewrite alone_bind, alone_state. simpl. rewrite IH. simpl. unfold with_state. simpl. do 2 f_equal.
    by destruct (nicStore (sys_state sys)).
Qed.

Lemma prepareDevices_store env (st : DeviceState P D) claim devices st' :
  prepareDevices env st claim = (Ok devices, st') →
  with_store (with_store st' (nicStore st)) ((λ store, add_nics store devices) <$> nicStore st) = st'.
Proof.
  intros H. apply prepareDevices_spec in H as [_ H]. destruct (H devices eq_refl) as [[= _ _ Hs _ _ _ _] _].
  rewrite <- Hs, with_store_twice. apply with_store_id.
Qed.

Lemma t_Prepare_alone env claim sys :
  alone (t_Prepare env claim) sys =
  ((Prepare env (sys_state sys) claim).1, with_state sys (Prepare env (sys_state sys) claim).2).
Proof.
  unfold t_Prepare, Prepare, resolveClaim. rewrite alone_bind, alone_state.
  destruct (GetCheckpoint _) as [pc|e]; [|done]. destruct (pc !! _); [done|].
  destruct (prepareDevices env _ claim) as [[devices|e] st] eqn:E; [|done]. simpl.
  rewrite alone_bind, t_add_all_alone, alone_state. simpl.
  change (λ store, foldl Add store (omap PD_NIC devices)) with (λ store, add_nics store devices).
  rewrite (prepareDevices_store _ _ _ _ _ E). unfold commitClaim.
  destruct (CreateClaimSpecFile _ _ _ _) as [[e|] files]; [done|]. simpl.
  by destruct (CreateCheckpoint _ _) as [[e|] d].
Qed.

Lemma t_Unprepare_alone uid sys :
  alone (t_Unprepare uid) sys =
  ((Unprepare (sys_state sys) uid).1, with_state sys (Unprepare (sys_state sys) uid).2).
Proof.
  unfold t_Unprepare, Unprepare, readClaims. rewrite alone_bind, alone_state.
  destruct (match GetCheckpoint _ with Ok _ => _ | Err _ => _ end) as [[pc|e] st]; [|done].
  destruct (pc !! uid); [|done]. simpl. unfold dropClaim.
  destruct (DeleteClaimSpecFile _ _ _) as [[e|] files]; [done|]. simpl.
  by destruct (CreateCheckpoint _ _) as [[e|] d'].
Qed.

Lemma t_RefreshDevices_alone api sys :
  alone (t_RefreshDevices api) sys =
  ((RefreshDevices api (sys_state sys)).1, with_state sys (RefreshDevices api (sys_state sys)).2).
Proof.
  unfold t_RefreshDevices, RefreshDevices, enumerateDevices. rewrite alone_bind, alone_state.
  destruct (EnumerateDevices _ _) as [[r|e] p]; [|done]. cbn [fst snd]. rewrite alone_bind, alone_at_state.
  unfold storeDevices. simpl. by destruct (DeepEqual r _).
Qed.

(** Split into their atomic actions and run without interruption, the hooks, the retry of
    failed sandboxes, the prepare and the unprepare of a claim and the refresh of the
    devices do what they do as one step: the same result and the same state. *)
Theorem threads_alone :
  (∀ pods, computes (t_Synchronize pods) (λ q, (None, Synchronize q pods))) ∧
  computes t_retryFailed (λ q, ((), retryFailed q)) ∧
  (∀ sb, computes (t_RunPodSandbox sb) (λ q, RunPodSandbox q sb)) ∧
  (∀ sb, computes (t_StopPodSandbox sb) (λ q, StopPodSandbox q sb)) ∧
  (∀ env claim sys, alone (t_Prepare env claim) sys =
     let '(r, st) := Prepare env (sys_state sys) claim in (r, with_state sys st)) ∧
  (∀ uid sys, alone (t_Unprepare uid) sys =
     let '(e, st) := Unprepare (sys_state sys) uid in (e, with_state sys st)) ∧
  (∀ api sys, alone (t_RefreshDevices api) sys =
     let '(r, st) := RefreshDevices api (sys_state sys) in (r, with_state sys st)).
Proof.
  split_and!; [exact (t_Synchronize_alone with_plugin)|exact (t_retryFailed_alone with_plugin)
    |exact (t_RunPodSandbox_alone with_plugin)|exact (t_StopPodSandbox_alone with_plugin)|..].
  - intros env claim sys. rewrite t_Prepare_alone. by destruct (Prepare _ _ _).
  - intros uid sys. rewrite t_Unprepare_alone. by destruct (Unprepare _ _).
  - intros api sys. rewrite t_RefreshDevices_alone. by destruct (RefreshDevices _ _).
Qed.

End threads.
