(* ===== verification/Interleave.v ===== *)
(** * Interleavings of the plugin's threads (cmd/kube-ovn-dra-kubeletplugin/driver.go, nri.go)

    The programs of [Threads] run side by side on the shared state, one action at a time:
    the hooks of the runtime, which calls them one after the other; the retries of failed
    attaches; the calls of kubelet, of which the lock of the device state lets one run at a
    time; and the refreshes of the devices.  The process may die between any two actions
    and start again from its checkpoint.  The guarantees of the
    sequential model are shown for every interleaving: a thread's program carries a
    predicate that its own actions keep and the actions of the others cannot break. *)

From S2P Require Import Prelude K8s NicConfig Subnet Annotation Store StoreInv NicPrepare Profile Cdi Checkpoint.
From S2P Require Import State StateProps Lifecycle Sandbox Nri System Prog Hooks Threads.

Inductive hook :=
  | HSynchronize (pods : list PodSandbox)
  | HRunPodSandbox (sb : PodSandbox)
  | HStopPodSandbox (sb : PodSandbox).

(** What holds the lock of the device state to its end. *)
Inductive call :=
  | CPrepare (env : PrepareEnv) (claim : ResourceClaim)
  | CUnprepare (claimUID : string).

(** The claims a call works to forget. *)
Definition forgets (c : call) : gset string := match c with CUnprepare uid => {[uid]} | CPrepare _ _ => ∅ end.

Section interleave.
Context `{K : K8s} `{G : GoImpl} `{PO : Poller} `{CDI0 : CDI} `{CD : ConfigDecoder}.
Context {P D W : Type} `{PF : Profile P} `{M : CheckpointManager D} `{A : Attacher W} `{V : Datapath W}.

Abbreviation Sys := (System P D W).
Abbreviation thread := (prog Sys).
Implicit Types sys : Sys.

Definition hook_thread (h : hook) : thread (option error) :=
  match h with
  | HSynchronize pods => t_Synchronize pods
  | HRunPodSandbox sb => t_RunPodSandbox sb
  | HStopPodSandbox sb => t_StopPodSandbox sb
  end.

(** A call ends with the claims it has forgotten for good. *)
Definition call_thread (c : call) : thread (gset string) :=
  match c with
  | CPrepare env claim => _ ← t_Prepare env claim; mret ∅
  | CUnprepare uid =>
      e ← t_Unprepare uid;
      mret match e with None => {[uid]} | Some _ => ∅ end
  end.

Definition refresh_thread (api : Api) : thread unit := _ ← t_RefreshDevices api; mret ().

(** The lock can be taken when no call holds it. *)
Definition lock_free (l : action) (p : thread (gset string)) : bool :=
  match l, p with Locking, Act _ _ _ => false | _, _ => true end.

(** [c_gone] are the claims whose unprepare was begun and has not succeeded; [c_clean] says
    that no prepare was begun with such a claim about. *)
Record Conf := {
  c_sys : Sys;
  c_hook : thread (option error);
  c_retry : thread unit;
  c_refresh : thread unit;
  c_call : thread (gset string);
  c_gone : gset string;
  c_clean : bool;
}.

Definition idle sys : Conf := {|
  c_sys := sys; c_hook := Ret None; c_retry := Ret (); c_refresh := Ret (); c_call := Ret ∅; c_gone := ∅;
  c_clean := true |}.

(** What the steps of a run are told apart by. *)
Inductive label :=
  | HookStarts
  | HookActs
  | Acts (l : action)
  | NodeChanges (w w' : W)
  | Crashes
  | Silent.

Definition with_world sys (w : W) : Sys := {|
  sys_state := sys_state sys; sys_world := w; sys_nri := sys_nri sys; sys_ready := sys_ready sys;
  sys_failed := sys_failed sys |}.

Definition start_nri sys : Sys := {|
  sys_state := sys_state sys; sys_world := sys_world sys; sys_nri := true; sys_ready := false; sys_failed := ∅ |}.

(** A new process on the node: everything in memory is gone. *)
Definition restarted sys (st : DeviceState P D) : Sys := {|
  sys_state := st; sys_world := sys_world sys; sys_nri := false; sys_ready := false; sys_failed := ∅ |}.

Definition still_clean (gone : gset string) (clean : bool) (c : call) : bool :=
  bool_decide (gone = ∅) || match c with CUnprepare _ => clean | CPrepare _ _ => false end.

(** The runtime is heard from, and retries are made, once the NRI plugin was started; its
    connection may end at any time. *)
Inductive conf_step : Conf → label → Conf → Prop :=
  | hook_start sys e retry refresh call gone clean h :
      sys_nri sys = true →
      conf_step (Build_Conf sys (Ret e) retry refresh call gone clean) HookStarts
                (Build_Conf sys (hook_thread h) retry refresh call gone clean)
  | hook_act sys l f next retry refresh call gone clean :
      conf_step (Build_Conf sys (Act l f next) retry refresh call gone clean) HookActs
                (Build_Conf (f sys) (next sys) retry refresh call gone clean)
  | retry_start sys h u refresh call gone clean :
      sys_nri sys = true →
      conf_step (Build_Conf sys h (Ret u) refresh call gone clean) Silent
                (Build_Conf sys h t_retryFailed refresh call gone clean)
  | retry_act sys h l f next refresh call gone clean :
      conf_step (Build_Conf sys h (Act l f next) refresh call gone clean) (Acts l)
                (Build_Conf (f sys) h (next sys) refresh call gone clean)
  | refresh_start sys h retry u call gone clean api :
      conf_step (Build_Conf sys h retry (Ret u) call gone clean) Silent
                (Build_Conf sys h retry (refresh_thread api) call gone clean)
  | refresh_act sys h retry l f next call gone clean :
      lock_free l call = true →
      conf_step (Build_Conf sys h retry (Act l f next) call gone clean) (Acts l)
                (Build_Conf (f sys) h retry (next sys) call gone clean)
  | call_start sys h retry refresh forgotten gone clean c :
      conf_step (Build_Conf sys h retry refresh (Ret forgotten) gone clean) Silent
                (Build_Conf sys h retry refresh (call_thread c) (gone ∖ forgotten ∪ forgets c)
                   (still_clean (gone ∖ forgotten) clean c))
  | call_act sys h retry refresh l f next gone clean :
      conf_step (Build_Conf sys h retry refresh (Act l f next) gone clean) Silent
                (Build_Conf (f sys) h retry refresh (next sys) gone clean)
  | nri_start sys h retry refresh call gone clean :
      sys_nri sys = false →
      conf_step (Build_Conf sys h retry refresh call gone clean) Silent (Build_Conf (start_nri sys) h retry refresh call gone clean)
  | nri_close sys h retry refresh call gone clean :
      sys_nri sys = true →
      conf_step (Build_Conf sys h retry refresh call gone clean) Silent
                (Build_Conf (with_plugin sys (onClose (plugin_of sys))) h retry refresh call gone clean)
  | node_changes sys w h retry refresh call gone clean :
      tidy w →
      conf_step (Build_Conf sys h retry refresh call gone clean) (NodeChanges (sys_world sys) w)
                (Build_Conf (with_world sys w) h retry refresh call gone clean)
  (** the process dies, at any point, and a new one starts from the checkpoint *)
  | crash sys h retry refresh call gone config api p files st :
      NewDeviceState config api p (disk (sys_state sys)) files (Some NewNICStore) = Ok st →
      conf_step (Build_Conf sys h retry refresh call gone true) Crashes (idle (restarted sys st)).

Inductive conf_steps : Conf → list label → Conf → Prop :=
  | steps_nil c : conf_steps c [] c
  | steps_cons c l c1 ls c2 : conf_step c l c1 → conf_steps c1 ls c2 → conf_steps c (l :: ls) c2.

(** Runs by a schedule: which thread starts something or acts next. *)
Inductive choice :=
  | StartHook (h : hook) | ActHook | StartRetry | ActRetry | StartRefresh (api : Api) | ActRefresh
  | StartCall (c : call) | ActCall | StartNRI | CloseNRI.

Definition schedule (x : choice) (c : Conf) : option (label * Conf) :=
  let '(Build_Conf sys h retry refresh call gone clean) := c in
  match x with
  | StartHook k =>
      match h with
      | Ret _ => if sys_nri sys then Some (HookStarts, Build_Conf sys (hook_thread k) retry refresh call gone clean) else None
      | _ => None
      end
  | ActHook =>
      match h with
      | Act _ f next => Some (HookActs, Build_Conf (f sys) (next sys) retry refresh call gone clean)
      | _ => None
      end
  | StartRetry =>
      match retry with
      | Ret _ => if sys_nri sys then Some (Silent, Build_Conf sys h t_retryFailed refresh call gone clean) else None
      | _ => None
      end
  | ActRetry =>
      match retry with
      | Act l f next => Some (Acts l, Build_Conf (f sys) h (next sys) refresh call gone clean)
      | _ => None
      end
  | StartRefresh api =>
      match refresh with
      | Ret _ => Some (Silent, Build_Conf sys h retry (refresh_thread api) call gone clean)
      | _ => None
      end
  | ActRefresh =>
      match refresh with
      | Act l f next =>
          if lock_free l call then Some (Acts l, Build_Conf (f sys) h retry (next sys) call gone clean) else None
      | _ => None
      end
  | StartCall k =>
      match call with
      | Ret forgotten =>
          Some (Silent, Build_Conf sys h retry refresh (call_thread k) (gone ∖ forgotten ∪ forgets k)
                             (still_clean (gone ∖ forgotten) clean k))
      | _ => None
      end
  | ActCall =>
      match call with
      | Act _ f next => Some (Silent, Build_Conf (f sys) h retry refresh (next sys) gone clean)
      | _ => None
      end
  | StartNRI =>
      if sys_nri sys then None else Some (Silent, Build_Conf (start_nri sys) h retry refresh call gone clean)
  | CloseNRI =>
      if sys_nri sys
      then Some (Silent, Build_Conf (with_plugin sys (onClose (plugin_of sys))) h retry refresh call gone clean) else None
  end.

Fixpoint execute (xs : list choice) (c : Conf) : option (list label * Conf) :=
  match xs with
  | [] => Some ([], c)
  | x :: xs => '(l, c) ← schedule x c; '(ls, c) ← execute xs c; Some (l :: ls, c)
  end.

Lemma schedule_step x c l c' : schedule x c = Some (l, c') → conf_step c l c'.
Proof.
  destruct c as [sys h retry refresh call gone clean]. unfold schedule.
  destruct x; repeat case_match; intros ?; simplify_eq; by constructor.
Qed.

Lemma execute_steps xs c ls c' : execute xs c = Some (ls, c') → conf_steps c ls c'.
Proof.
  revert c ls. induction xs as [|x xs IH]; intros c ls; [intros [= <- <-]; constructor|]. cbn [execute].
  destruct (schedule x c) as [[l c1]|] eqn:E; [|done]. simpl. destruct (execute xs c1) as [[ls' c2]|] eqn:E'; [|done].
  simpl. intros [= <- <-]. econstructor; [by eapply schedule_step|by apply IH].
Qed.

(** Where a schedule leads, if it can be followed. *)
Definition run_to (xs : list choice) (c : Conf) : list label * Conf := default ([], c) (execute xs c).

Lemma run_to_steps xs c :
  match execute xs c with Some _ => true | None => false end = true → conf_steps c (run_to xs c).1 (run_to xs c).2.
Proof. unfold run_to. destruct (execute xs c) as [[ls c']|] eqn:E; [|done]. intros _. by eapply execute_steps. Qed.

(** The hook's next action. *)
Definition act_hook (c : Conf) : Conf :=
  match c_hook c with
  | Act _ f next => Build_Conf (f (c_sys c)) (next (c_sys c)) (c_retry c) (c_refresh c) (c_call c) (c_gone c) (c_clean c)
  | Ret _ => c
  end.

Lemma act_hook_step c :
  match c_hook c with Act _ _ _ => true | Ret _ => false end = true → conf_step c HookActs (act_hook c).
Proof. destruct c as [sys h retry refresh call gone clean]. unfold act_hook. simpl. destruct h; [done|]. constructor. Qed.

End interleave.

(** ** What every interleaving keeps *)

Section invariant.
Context `{K : K8s} `{G : GoImpl} `{PO : Poller} `{CDI0 : CDI} `{CD : ConfigDecoder}.
Context {P D W : Type} `{PF : Profile P} `{ML : CheckpointLaws D} `{AL : AttacherLaws W}.

Abbreviation Sys := (System P D W).
Abbreviation thread := (prog Sys).
Implicit Types (sys : Sys) (st : DeviceState P D) (c : Conf (P := P) (D := D) (W := W)).

(** What only a holder of the lock changes, of what the invariant is about: the checkpoint
    and the NICs of the pods. *)
Definition same_locked st st' : Prop :=
  disk st' = disk st ∧ byPod <$> nicStore st' = byPod <$> nicStore st.

Lemma same_locked_refl st : same_locked st st.
Proof. done. Qed.

Lemma same_locked_trans st st1 st2 : same_locked st st1 → same_locked st1 st2 → same_locked st st2.
Proof. intros [H1 H1'] [H2 H2']. split; congruence. Qed.

Lemma same_locked_store st st' store :
  same_locked st st' → nicStore st = Some store → ∃ store', nicStore st' = Some store' ∧ byPod store' = byPod store.
Proof.
  intros [_ Hb] Hs. rewrite Hs in Hb. destruct (nicStore st') as [store'|]; [|done]. injection Hb as Hb. by exists store'.
Qed.

Lemma covered_but_byPod gone d store store' :
  byPod store' = byPod store → covered_but gone d store → covered_but gone d store'.
Proof.
  intros Hb Hc claims uid ds pd sp Hg Hu Hn Hpd Hsp. rewrite (byPod_Specs _ _ _ Hb). by eapply Hc.
Qed.

Lemma inv_but_locked gone st st' : same_locked st st' → inv_but gone st → inv_but gone st'.
Proof.
  intros HL (store & Hs & Hwf & Hcov). destruct (same_locked_store _ _ _ HL Hs) as (store' & Hs' & Hb).
  exists store'. split_and!; [done|by eapply byPod_wf|]. destruct HL as [-> _]. by eapply covered_but_byPod.
Qed.

(** *** The hooks and the retries *)

(** What the action [l] may do to the node's network: attach one NIC, or nothing. *)
Definition effect (l : action) (w w' : W) : Prop :=
  match l with Attaching s => w' = (Attach w s).2 | _ => w' = w end.

(** The actions of the program leave what the lock protects alone and keep the node tidy;
    those of a program that only attaches ([attaching]) do nothing else to the node. *)
Fixpoint unlocked (attaching : bool) {B} (p : thread B) : Prop :=
  match p with
  | Ret _ => True
  | Act l f next =>
      ∀ sys, is_Some (nicStore (sys_state sys)) → tidy (sys_world sys) →
        same_locked (sys_state sys) (sys_state (f sys)) ∧ tidy (sys_world (f sys)) ∧
        (attaching = true → effect l (sys_world sys) (sys_world (f sys))) ∧
        unlocked attaching (next sys)
  end.

Lemma unlocked_bind a {B C} (p : thread B) (k : B → thread C) :
  unlocked a p → (∀ b, unlocked a (k b)) → unlocked a (p ≫= k).
Proof.
  intros Hp Hk. induction p as [b|l f next IH]; [apply Hk|]. intros sys Hs Ht.
  destruct (Hp sys Hs Ht) as (H1 & H2 & H3 & H4). split_and!; [done..|]. by apply IH.
Qed.

Lemma unlocked_weaken {B} (p : thread B) : unlocked true p → unlocked false p.
Proof.
  induction p as [b|l f next IH]; [done|]. intros Hp sys Hs Ht.
  destruct (Hp sys Hs Ht) as (H1 & H2 & _ & H4). split_and!; [done..|]. by apply IH.
Qed.

Lemma with_plugin_locked sys (p : nriPlugin W) :
  is_Some (nicStore (sys_state sys)) → byPod (nri_store p) = byPod (nri_store (plugin_of sys)) →
  same_locked (sys_state sys) (sys_state (with_plugin sys p)).
Proof. intros [s Hs] Hb. split; [done|]. unfold plugin_of in Hb. simpl in *. rewrite Hs in *. simpl in *. by rewrite Hb. Qed.

Lemma unlocked_plugin a {B} l (g : nriPlugin W → B * nriPlugin W) :
  (∀ q, tidy (nri_world q) → byPod (nri_store (g q).2) = byPod (nri_store q) ∧ tidy (nri_world (g q).2) ∧
        (a = true → effect l (nri_world q) (nri_world (g q).2))) →
  unlocked a (on_plugin l g).
Proof.
  intros Hg sys Hs Ht. destruct (Hg (plugin_of sys) Ht) as (H1 & H2 & H3). cbv beta.
  destruct (g (plugin_of sys)) as [b q]. cbn [fst snd] in *. split_and!; [by apply with_plugin_locked|done..].
Qed.

Lemma unlocked_ret a {B} (b : B) : unlocked a (mret b : thread B).
Proof. done. Qed.

Lemma unlocked_attach a s : unlocked a (t_attach s).
Proof.
  apply unlocked_plugin. intros q Ht. destruct (Attach (nri_world q) s) as [e w] eqn:E. simpl.
  split_and!; [done|by eapply attach_tidy|]. by rewrite E.
Qed.

Lemma unlocked_detach s : unlocked false (t_detach s).
Proof.
  apply unlocked_plugin. intros q Ht. destruct (Detach (nri_world q) s) as [e w] eqn:E. simpl.
  split_and!; [done|by eapply detach_tidy|done].
Qed.

Lemma unlocked_ports n ns : unlocked false (t_ports n ns).
Proof.
  apply unlocked_plugin. intros q Ht. destruct (DetachPodPorts (nri_world q) n ns) as [e w] eqn:E. simpl.
  split_and!; [done|by eapply ports_tidy|done].
Qed.

#[local] Ltac unlocked_step :=
  first [ done | apply unlocked_bind; [|intros ?] | apply unlocked_ret | apply unlocked_attach
        | apply unlocked_detach | apply unlocked_ports | by apply unlocked_plugin ].

Lemma unlocked_detach_all specs : unlocked false (t_detach_all specs).
Proof. induction specs as [|s specs IH]; cbn [t_detach_all]; repeat unlocked_step. Qed.

Lemma unlocked_run_specs uid specs : unlocked false (t_run_specs uid specs).
Proof.
  induction specs as [|s specs IH]; cbn [t_run_specs]; [done|]. unlocked_step; [unlocked_step|].
  destruct b; repeat first [apply unlocked_detach_all | unlocked_step].
Qed.

Lemma unlocked_sync_specs uid specs : unlocked true (t_sync_specs uid specs).
Proof.
  induction specs as [|s specs IH]; cbn [t_sync_specs]; [done|]. unlocked_step; [unlocked_step|].
  destruct b; repeat unlocked_step.
Qed.

Lemma unlocked_syncSandbox sb : unlocked true (t_syncSandbox sb).
Proof.
  unfold t_syncSandbox, t_OnSynchronizeSandbox, t_sandboxSpecs. case_bool_decide; [done|].
  unlocked_step; [repeat first [apply unlocked_sync_specs | unlocked_step]|]. destruct b; by apply unlocked_plugin.
Qed.

Lemma unlocked_sync_all pods : unlocked true (t_sync_all pods).
Proof. induction pods as [|sb pods IH]; cbn [t_sync_all]; [done|]. apply unlocked_bind; [apply unlocked_syncSandbox|done]. Qed.

Lemma unlocked_retryFailed : unlocked true t_retryFailed.
Proof. apply unlocked_bind; [by apply unlocked_plugin|apply unlocked_sync_all]. Qed.

Lemma unlocked_hook h : unlocked false (hook_thread h).
Proof.
  destruct h as [pods|sb|sb]; cbn [hook_thread].
  - apply unlocked_bind; [apply unlocked_weaken, unlocked_sync_all|]. intros []. repeat unlocked_step.
  - unfold t_RunPodSandbox, t_OnRunPodSandbox, t_sandboxSpecs. case_bool_decide; [done|].
    repeat first [apply unlocked_run_specs | unlocked_step].
  - unfold t_StopPodSandbox, t_OnStopPodSandbox. repeat first [apply unlocked_detach_all | unlocked_step].
Qed.

Lemma unlocked_at_state {B} l (g : DeviceState P D → B * DeviceState P D) :
  match l with Attaching _ => False | _ => True end → (∀ st, io (g st).2 = io st) → unlocked true (at_state l g).
Proof.
  intros Hl Hg sys Hs Ht. specialize (Hg (sys_state sys)). cbv beta. destruct (g (sys_state sys)) as [b st'].
  injection Hg as Hd _ Hn _ _ _ _. cbn in *. split_and!; [|done| |done]; [split; congruence|]. intros _. by destruct l.
Qed.

Lemma unlocked_refresh api : unlocked true (refresh_thread api).
Proof.
  apply unlocked_bind; [|done]. apply unlocked_bind.
  - apply unlocked_at_state; [done|]. intros st. unfold enumerateDevices. by destruct (EnumerateDevices _ _).
  - intros [r|e]; [|done]. apply unlocked_bind; [|done]. apply unlocked_at_state; [done|]. intros st.
    unfold storeDevices. by destruct (DeepEqual _ _).
Qed.

(** *** What holds the lock *)

(** The program changes the device state only, keeps [Inv] and ends in [Q], when the device
    state is [st] now but for changes the other threads may make before each action. *)
Fixpoint locked {B} (Inv : DeviceState P D → Prop) (p : thread B) (Q : B → DeviceState P D → Prop) st : Prop :=
  Inv st ∧
  match p with
  | Ret b => Q b st
  | Act l f next =>
      ∀ sys, same_locked st (sys_state sys) →
        f sys = with_state sys (sys_state (f sys)) ∧ locked Inv (next sys) Q (sys_state (f sys))
  end.

Definition stable (R : DeviceState P D → Prop) : Prop := ∀ st st', same_locked st st' → R st → R st'.

Lemma locked_stable {B} Inv (p : thread B) Q : stable Inv → (∀ b, stable (Q b)) → stable (locked Inv p Q).
Proof.
  intros HI HQ st st' HL. destruct p as [b|l f next]; intros [H1 H2]; (split; [by eapply HI|]).
  - by eapply HQ.
  - intros sys HL'. apply H2. by eapply same_locked_trans.
Qed.

Lemma locked_Inv {B} Inv (p : thread B) Q st : locked Inv p Q st → Inv st.
Proof. by destruct p; intros [H _]. Qed.

Lemma locked_bind {B C} Inv (p : thread B) (k : B → thread C) R Q st :
  locked Inv p R st → (∀ b st', Inv st' → R b st' → locked Inv (k b) Q st') → locked Inv (p ≫= k) Q st.
Proof.
  intros Hp Hk. revert st Hp. induction p as [b|l f next IH]; intros st [H1 H2]; [by apply Hk|].
  split; [done|]. intros sys HL. destruct (H2 sys HL) as [H3 H4]. split; [done|]. by apply IH.
Qed.

Lemma locked_ret {B} Inv (b : B) (Q : B → DeviceState P D → Prop) st : Inv st → Q b st → locked Inv (mret b) Q st.
Proof. done. Qed.

Lemma locked_state {B} (Inv : DeviceState P D → Prop) (g : DeviceState P D → B * DeviceState P D)
    (Q : B → DeviceState P D → Prop) st :
  Inv st → (∀ st', same_locked st st' → Inv (g st').2 ∧ Q (g st').1 (g st').2) → locked Inv (on_state g) Q st.
Proof.
  intros HI Hg. split; [done|]. intros sys HL. destruct (Hg _ HL) as [H1 H2]. cbv beta.
  destruct (g (sys_state sys)) as [b st']. done.
Qed.

Lemma inv_but_stable gone : stable (inv_but gone).
Proof. intros st st'. apply inv_but_locked. Qed.

(** The device state in the middle of a prepare: the claim is not checkpointed, some of
    its NICs are in the store and the [rest] can be added. *)
Definition pending (gone : gset string) (claims : PreparedClaims) (uid : string) (specs rest : list Spec) st : Prop :=
  GetCheckpoint (disk st) = Ok claims ∧ claims !! uid = None ∧ NoDup (IfaceName <$> specs) ∧
  ∃ store done, nicStore st = Some store ∧ store_wf store ∧ covered_but gone (disk st) store ∧
    specs = done ++ rest ∧ addable uid rest store ∧
    ∀ sp, sp ∈ done → ClaimUID sp = uid ∧ sp ∈ Specs store (PodUID sp).

Lemma pending_inv gone claims uid specs rest st : pending gone claims uid specs rest st → inv_but gone st.
Proof. intros (_ & _ & _ & store & done & Hs & Hwf & Hcov & _). by exists store. Qed.

Lemma addable_byPod uid specs store store' : byPod store' = byPod store → addable uid specs store → addable uid specs store'.
Proof. unfold addable. intros Hb (? & ? & Ha). split_and!; [done..|]. intros sp t. rewrite (byPod_Specs _ _ _ Hb). apply Ha. Qed.

Lemma pending_stable gone claims uid specs rest : stable (pending gone claims uid specs rest).
Proof.
  intros st st' HL (Hg & Hu & Hnd & store & done & Hs & Hwf & Hcov & He & Ha & Hd).
  destruct (same_locked_store _ _ _ HL Hs) as (store' & Hs' & Hb). pose proof HL as [Hdk _].
  unfold pending. rewrite Hdk. split_and!; [done..|]. exists store', done.
  split_and!; [done|by eapply byPod_wf|by eapply covered_but_byPod|done|by eapply addable_byPod|].
  intros sp Hsp. rewrite (byPod_Specs _ _ _ Hb). auto.
Qed.

Lemma pending_add gone claims uid specs s rest st :
  pending gone claims uid specs (s :: rest) st →
  pending gone claims uid specs rest (with_store st ((λ store, Add store s) <$> nicStore st)).
Proof.
  intros (Hg & Hu & Hnd & store & done & Hs & Hwf & Hcov & -> & (Hc & Hnr & Ha) & Hd). rewrite Hs. simpl.
  assert (ClaimUID s = uid) as Hcs by (apply Hc; left).
  destruct (Add_wf store s) as [Hwf' Hel]; [done|intros t Ht E; rewrite Hcs; apply (Ha s); [left|done..]|].
  assert (∀ pod t, t ∈ Specs store pod → ClaimUID t ≠ uid → t ∈ Specs (Add store s) pod) as Hkeep.
  { intros pod t Ht Hne. apply Hel. right. split; [done|]. intros [-> E]. apply Hne. apply (Ha s); [left|done..]. }
  split_and!; [done..|]. exists (Add store s), (done ++ [s]). split_and!; [done|done| |by rewrite <- app_assoc| |].
  - intros claims' u ds pd sp Hg' Hu' Hn Hpd Hsp. destruct (Hcov _ _ _ _ _ Hg' Hu' Hn Hpd Hsp) as [Hcu Hin].
    split; [done|]. apply Hkeep; [done|]. simpl in Hg'. congruence.
  - rewrite fmap_cons, NoDup_cons in Hnr. destruct Hnr as [_ Hnr]. split_and!; [set_solver|done|].
    intros sp t Hsp [[_ ->]|[Ht _]]%Hel E; [done|]. apply (Ha sp); [by right|done..].
  - intros sp [Hsp|Hsp%list_elem_of_singleton]%elem_of_app; [|subst sp; split; [done|apply Hel; by left]].
    destruct (Hd _ Hsp) as [Hsc Hin]. split; [done|]. apply Hel. right. split; [done|]. intros [_ E].
    rewrite fmap_app, fmap_cons in Hnd. apply NoDup_app in Hnd as (_ & Hnd & _). apply (Hnd (IfaceName sp)).
    + by apply list_elem_of_fmap_2.
    + rewrite E. left.
Qed.

Lemma locked_add_all gone claims uid specs rest st :
  pending gone claims uid specs rest st →
  locked (inv_but gone) (t_add_all rest) (λ _, pending gone claims uid specs []) st.
Proof.
  revert st. induction rest as [|s rest IH]; intros st Hp; cbn [t_add_all].
  { apply locked_ret; [by eapply pending_inv|done]. }
  eapply (locked_bind _ _ _ (λ _, pending gone claims uid specs rest)); [|intros _ st' _ H; by apply IH].
  apply locked_state; [by eapply pending_inv|]. intros st' HL. cbn [fst snd].
  apply (pending_stable _ _ _ _ _ _ _ HL), pending_add in Hp. split; [by eapply pending_inv|done].
Qed.

Lemma commitClaim_inv gone claim claims devices st :
  pending gone claims (Claim_UID claim) (omap PD_NIC devices) [] st →
  inv_but gone (commitClaim claim claims devices st).2.
Proof.
  intros (Hg & Hu & _ & store & done & Hs & Hwf & Hcov & He & _ & Hd). rewrite app_nil_r in He. subst done.
  unfold commitClaim. destruct (CreateClaimSpecFile _ _ _ _) as [[e|] files]; [by exists store|]. simpl.
  destruct (CreateCheckpoint _ _) as [[e|] d] eqn:Hc; exists store; (split_and!; [done..|]); simpl.
  - by eapply covered_but_same; [eapply create_fail|].
  - by eapply covered_create.
Qed.

Lemma resolveClaim_pending gone env claim st :
  inv_but gone st →
  inv_but gone (resolveClaim env claim st).2 ∧
  ∀ claims devices, (resolveClaim env claim st).1 = inr (claims, devices) →
    pending gone claims (Claim_UID claim) (omap PD_NIC devices) (omap PD_NIC devices) (resolveClaim env claim st).2.
Proof.
  intros Hinv. unfold resolveClaim. destruct (GetCheckpoint (disk st)) as [cl|] eqn:Hg; [|done].
  destruct (cl !! Claim_UID claim) as [ds|] eqn:Hu; [done|].
  destruct (prepareDevices env st claim) as [[ds|e] st'] eqn:E; pose proof (prepareDevices_spec _ _ _ _ _ E) as [Herr Hok];
    simpl; [|split; [|done]; apply (inv_but_io _ st); [by eapply Herr|done]].
  destruct (Hok ds eq_refl) as [[= Hdk _ _ _ _ _ _] _]. clear Herr Hok. destruct Hinv as (store & Hs & Hwf & Hcov).
  pose proof (prepareDevices_addable _ _ _ _ _ _ E Hs) as Ha.
  split; [exists store; simpl; by rewrite Hdk|]. intros claims devices [= <- <-].
  unfold pending. simpl. rewrite Hdk. split_and!; [done|done|apply Ha|]. exists store, []. by split_and!; try set_solver.
Qed.

Lemma locked_Prepare gone env claim st :
  inv_but gone st → locked (inv_but gone) (t_Prepare env claim) (λ _, inv_but gone) st.
Proof.
  intros Hinv. unfold t_Prepare.
  eapply (locked_bind _ _ _ (λ r st, ∀ claims devices, r = inr (claims, devices) →
    pending gone claims (Claim_UID claim) (omap PD_NIC devices) (omap PD_NIC devices) st)).
  { apply locked_state; [done|]. intros st' HL. apply resolveClaim_pending. by eapply inv_but_locked. }
  intros [r|[claims devices]] st' Hinv' Hp; [by apply locked_ret|]. specialize (Hp _ _ eq_refl).
  eapply locked_bind; [by eapply locked_add_all|]. intros ? st2 Hinv2 Hp2. apply locked_state; [done|].
  intros st3 HL. assert (inv_but gone (commitClaim claim claims devices st3).2); [|done].
  apply commitClaim_inv. by eapply pending_stable.
Qed.

(** What an unprepare ends with. *)
Definition after_unprepare (gone : gset string) (uid : string) (e : option error) st : Prop :=
  inv_but (gone ∖ match e with None => {[uid]} | Some _ => ∅ end) st.

Lemma readClaims_inv gone uid st :
  inv_but gone st →
  inv_but gone (readClaims uid st).2 ∧
  match (readClaims uid st).1 with
  | inl e => after_unprepare gone uid e (readClaims uid st).2
  | inr claims => GetCheckpoint (disk (readClaims uid st).2) = Ok claims
  end.
Proof.
  intros Hinv. unfold readClaims, after_unprepare. destruct (GetCheckpoint (disk st)) as [cl|e] eqn:Hg.
  - destruct (cl !! uid) eqn:Hu; simpl; [done|]. split; [done|]. by eapply inv_but_none.
  - destruct (CreateCheckpoint (disk st) ∅) as [[er|] d] eqn:Hc; simpl.
    + assert (inv_but gone (with_disk st d)) as Hi by (by apply inv_but_same; [eapply create_fail|]).
      split; [done|]. eapply inv_but_mono; [|done]. set_solver.
    + rewrite lookup_empty. simpl. apply create_get in Hc. split; by eapply inv_but_empty.
Qed.

Lemma dropClaim_inv gone uid claims st :
  GetCheckpoint (disk st) = Ok claims → inv_but gone st →
  inv_but gone (dropClaim uid claims st).2 ∧
  after_unprepare gone uid (dropClaim uid claims st).1 (dropClaim uid claims st).2.
Proof.
  intros Hg Hinv. unfold dropClaim, after_unprepare. destruct (DeleteClaimSpecFile _ _ _) as [[e|] files]; simpl.
  { split; [done|]. eapply inv_but_mono; [|exact Hinv]. set_solver. }
  assert (inv_but gone (with_files st files)) as Hf by done.
  destruct (CreateCheckpoint (disk st) _) as [[e|] d] eqn:Hc; simpl.
  - apply create_fail in Hc. assert (inv_but gone (with_disk (with_files st files) d)) as Hd
      by (eapply inv_but_disk; [done|by rewrite Hc|done|done]).
    split; [done|]. eapply inv_but_mono; [|done]. set_solver.
  - apply create_get in Hc. assert (inv_but gone (with_disk (with_files st files) d)) as Hd
      by (eapply inv_but_disk; [done|done|apply delete_subseteq|done]).
    split; [done|]. eapply inv_but_none; [done|apply lookup_delete_eq|done].
Qed.

Lemma locked_Unprepare gone uid st :
  uid ∈ gone → inv_but gone st → locked (inv_but gone) (t_Unprepare uid) (after_unprepare gone uid) st.
Proof.
  intros Hin Hinv. unfold t_Unprepare.
  eapply (locked_bind _ _ _ (λ r st, match r with inl e => after_unprepare gone uid e st
                                              | inr claims => GetCheckpoint (disk st) = Ok claims end)).
  { apply locked_state; [done|]. intros st' HL. apply readClaims_inv. by eapply inv_but_locked. }
  intros [e|claims] st1 Hinv1 Hr; [by apply locked_ret|].
  eapply (locked_bind _ _ _ (λ _ st, GetCheckpoint (disk st) = Ok claims)).
  { apply locked_state; [done|]. intros st' HL. cbn [fst snd]. split.
    - apply unprepareDevices_inv; [done|by eapply inv_but_locked].
    - destruct HL as [Hdk _]. unfold unprepareDevices. destruct (nicStore st'); simpl; by rewrite Hdk. }
  intros [] st2 Hinv2 Hg. apply locked_state; [done|]. intros st' HL. apply dropClaim_inv; [|by eapply inv_but_locked].
  by destruct HL as [-> _].
Qed.

Lemma locked_call gone (c : call) st :
  inv_but gone st →
  locked (inv_but (gone ∪ forgets c)) (call_thread c) (λ forgotten, inv_but ((gone ∪ forgets c) ∖ forgotten)) st.
Proof.
  intros Hinv. apply (inv_but_mono _ (gone ∪ forgets c)) in Hinv; [|set_solver]. destruct c as [env claim|uid]; cbn [call_thread].
  - eapply locked_bind; [by apply locked_Prepare|]. intros r st' _ Hi. apply locked_ret; [done|]. by rewrite difference_empty_L.
  - eapply locked_bind; [apply (locked_Unprepare _ uid); [set_solver|done]|]. intros e st' Hi He. by apply locked_ret.
Qed.

(** *** The checkpoint on its own *)

Lemma recoverable_stable : stable (λ st, recoverable (disk st)).
Proof. by intros st st' [-> _]. Qed.

Lemma readClaims_recoverable uid st :
  recoverable (disk st) →
  recoverable (disk (readClaims uid st).2) ∧
  ∀ claims, (readClaims uid st).1 = inr claims → GetCheckpoint (disk (readClaims uid st).2) = Ok claims.
Proof.
  intros Hr. unfold readClaims. destruct (GetCheckpoint (disk st)) as [cl|e] eqn:Hg.
  - destruct (cl !! uid) eqn:Hu; simpl; [|done]. split; [done|]. by intros claims [= <-].
  - destruct (CreateCheckpoint (disk st) ∅) as [[er|] d] eqn:Hc; simpl.
    + split; [|done]. by eapply recoverable_same; [eapply create_fail|].
    + rewrite lookup_empty. simpl. split; [|done]. by eapply recoverable_empty, create_get.
Qed.

Lemma dropClaim_recoverable uid claims st :
  GetCheckpoint (disk st) = Ok claims → recoverable (disk st) → recoverable (disk (dropClaim uid claims st).2).
Proof.
  intros Hg Hr. unfold dropClaim. destruct (DeleteClaimSpecFile _ _ _) as [[e|] files]; simpl; [done|].
  destruct (CreateCheckpoint (disk st) _) as [[e|] d] eqn:Hc; simpl.
  - by eapply recoverable_same; [eapply create_fail|].
  - apply create_get in Hc. by apply (recoverable_sub (disk st) d claims (delete uid claims)); [..|apply delete_subseteq|].
Qed.

(** An unprepare only ever takes a claim out of the checkpoint. *)
Lemma recoverable_Unprepare uid st :
  recoverable (disk st) → locked (λ st, recoverable (disk st)) (t_Unprepare uid) (λ _ _, True) st.
Proof.
  intros Hr. unfold t_Unprepare.
  eapply (locked_bind _ _ _ (λ r st, ∀ claims, r = inr claims → GetCheckpoint (disk st) = Ok claims)).
  { apply locked_state; [done|]. intros st' HL. apply readClaims_recoverable. by eapply recoverable_stable. }
  intros [e|claims] st1 Hr1 Hg; [by apply locked_ret|]. specialize (Hg _ eq_refl).
  eapply (locked_bind _ _ _ (λ _ st, GetCheckpoint (disk st) = Ok claims)).
  { apply locked_state; [done|]. intros st' [Hdk _]. cbn [fst snd]. unfold unprepareDevices.
    destruct (nicStore st'); simpl; rewrite Hdk; done. }
  intros u st2 Hr2 Hg2. apply locked_state; [done|]. intros st' HL. split; [|done].
  apply dropClaim_recoverable; [by destruct HL as [-> _]|by eapply recoverable_stable].
Qed.

Lemma locked_and {B} I J (p : thread B) (Q : B → DeviceState P D → Prop) st :
  locked I p Q st → locked J p (λ _ _, True) st → locked (λ st, I st ∧ J st) p Q st.
Proof.
  revert st. induction p as [b|l f next IH]; intros st [H1 H2] [H3 H4]; [done|]. split; [done|]. intros sys HL.
  destruct (H2 sys HL) as [He Hn]. destruct (H4 sys HL) as [_ Hn']. split; [done|]. by apply IH.
Qed.

Lemma locked_weaken {B} (I J : DeviceState P D → Prop) (p : thread B) Q (Q' : B → DeviceState P D → Prop) st :
  (∀ st, I st → J st) → (∀ b st, Q b st → Q' b st) → locked I p Q st → locked J p Q' st.
Proof.
  intros HI HQ. revert st. induction p as [b|l f next IH]; intros st [H1 H2]; (split; [by apply HI|]); [by apply HQ|].
  intros sys HL. destruct (H2 sys HL) as [He Hn]. split; [done|]. by apply IH.
Qed.

(** A call in progress, and what it leaves. *)
Definition call_ok (gone : gset string) (clean : bool) (p : thread (gset string)) st : Prop :=
  locked (λ st, inv_but gone st ∧ (clean = true → recoverable (disk st))) p (λ forgotten, inv_but (gone ∖ forgotten)) st.

Lemma call_started gone clean (c : call) st :
  inv_but gone st → (clean = true → recoverable (disk st)) →
  call_ok (gone ∪ forgets c) (still_clean gone clean c) (call_thread c) st.
Proof.
  intros Hinv Hr. pose proof (locked_call gone c st Hinv) as Hl. apply locked_and; [done|].
  assert (still_clean gone clean c = true → recoverable (disk st)) as Hr'.
  { unfold still_clean. intros [->%bool_decide_eq_true|Hc]%orb_true_iff; [by apply inv_recoverable|].
    destruct c; [done|]. auto. }
  destruct (still_clean gone clean c) eqn:Hc; [|by eapply locked_weaken; [| |exact Hl]].
  destruct c as [env claim|uid]; cbn [call_thread forgets] in *.
  - unfold still_clean in Hc. rewrite orb_false_r in Hc. apply bool_decide_eq_true in Hc as ->.
    eapply locked_weaken; [| |exact Hl]; [|done]. intros st' Hi _. apply inv_recoverable. eapply inv_but_mono; [|exact Hi]. set_solver.
  - eapply (locked_bind _ _ _ (λ _ _, True)).
    + eapply locked_weaken; [| |by apply recoverable_Unprepare, Hr']; auto.
    + intros e st' H _. by apply locked_ret.
Qed.

(** *** Runs *)

Record conf_ok c : Prop := {
  ok_tidy : tidy (sys_world (c_sys c));
  ok_hook : unlocked false (c_hook c);
  ok_retry : unlocked true (c_retry c);
  ok_refresh : unlocked true (c_refresh c);
  ok_call : call_ok (c_gone c) (c_clean c) (c_call c) (sys_state (c_sys c));
}.

Lemma ok_inv c : conf_ok c → inv_but (c_gone c) (sys_state (c_sys c)).
Proof. intros [_ _ _ _ Hc]. by apply locked_Inv in Hc as [? _]. Qed.

Lemma ok_store c : conf_ok c → is_Some (nicStore (sys_state (c_sys c))).
Proof. intros (store & Hs & _)%ok_inv. by exists store. Qed.

Lemma ok_idle sys : inv_but ∅ (sys_state sys) → tidy (sys_world sys) → conf_ok (idle sys).
Proof.
  intros Hi Ht. split; [done..|]. apply locked_ret; [|by rewrite difference_empty_L].
  split; [done|]. intros _. by apply inv_recoverable.
Qed.

Lemma call_stable gone clean (p : thread (gset string)) : stable (call_ok gone clean p).
Proof.
  apply locked_stable; [|intros ?; apply inv_but_stable]. intros st st' HL [Hi Hr].
  split; [by eapply inv_but_stable|]. intros Hc. by eapply recoverable_stable, Hr.
Qed.

Lemma conf_step_ok c l c' : conf_step c l c' → conf_ok c → conf_ok c'.
Proof.
  intros Hs Hok. pose proof (ok_store _ Hok) as Hst. destruct Hok as [Ht Hh Hr Hf Hc].
  destruct Hs; simpl in *; try (by split).
  - split; [done|apply unlocked_hook|done..].
  - destruct (Hh _ Hst Ht) as (HL & Ht' & _ & Hn). split; [done..|]. by eapply call_stable.
  - split; [done|done|apply unlocked_retryFailed|done..].
  - destruct (Hr _ Hst Ht) as (HL & Ht' & _ & Hn). split; [done..|]. by eapply call_stable.
  - split; [done..|apply unlocked_refresh|done].
  - destruct (Hf _ Hst Ht) as (HL & Ht' & _ & Hn). split; [done..|]. by eapply call_stable.
  - split; [done..|]. destruct Hc as [[_ Hre] Hc]. by apply call_started.
  - destruct Hc as [_ Hc]. destruct (Hc sys (same_locked_refl _)) as [He Hn]. split; [|done..].
    simpl. rewrite He. done.
  - split; [done..|]. eapply call_stable; [|done]. by apply with_plugin_locked.
  - apply locked_Inv in Hc as [_ Hre]. apply ok_idle; [|done]. by eapply restart_inv; [|apply Hre].
Qed.

Lemma conf_steps_ok c ls c' : conf_steps c ls c' → conf_ok c → conf_ok c'.
Proof. induction 1 as [|c l c1 ls c2 Hs _ IH]; [done|]. intros Hok. by eapply IH, conf_step_ok. Qed.

Lemma reachable_conf_ok sys ls c : reachable sys → conf_steps (idle sys) ls c → conf_ok c.
Proof.
  intros Hr Hs. eapply conf_steps_ok; [done|]. apply ok_idle; [by apply reachable_inv|by apply reachable_tidy].
Qed.

(** C9: no interleaving loses a NIC: whatever the hooks, the retries, the calls of kubelet
    and the refreshes do in between each other's actions, in the middle of a call, after
    failed ones, and after the process died at any point and started again (unless a prepare
    was begun after an unprepare had failed), the NICs of every checkpointed claim whose
    unprepare was not begun are in the store the hooks read, and the NICs of a pod have
    distinct interface names. *)
Theorem interleaving_invariant sys ls c :
  reachable sys → conf_steps (idle sys) ls c →
  ∃ store, nicStore (sys_state (c_sys c)) = Some store ∧
    (∀ claims uid devices pd sp,
       GetCheckpoint (disk (sys_state (c_sys c))) = Ok claims → claims !! uid = Some devices → uid ∉ c_gone c →
       pd ∈ devices → PD_NIC pd = Some sp → ClaimUID sp = uid ∧ sp ∈ Specs store (PodUID sp)) ∧
    (∀ pod, NoDup (IfaceName <$> Specs store pod)).
Proof.
  intros Hr Hs. destruct (ok_inv _ (reachable_conf_ok _ _ _ Hr Hs)) as (store & Hst & Hwf & Hcov).
  exists store. split_and!; [done|exact Hcov|]. intros pod. apply Hwf.
Qed.

(** ** Starting a sandbox *)

(** From [w] to [w'] the NICs stay in their place and their names free. *)
Definition kept (specs : list Spec) (w w' : W) : Prop :=
  ∀ t, t ∈ specs → (placed w t → placed w' t) ∧ (free_for w t → free_for w' t).

Lemma kept_refl specs w : kept specs w w.
Proof. done. Qed.

Lemma kept_trans specs w w1 w2 : kept specs w w1 → kept specs w1 w2 → kept specs w w2.
Proof. intros H1 H2 t Ht. specialize (H1 t Ht). specialize (H2 t Ht). naive_solver. Qed.

(** A program that ends without an error has put the NICs in their place, whatever the others do that
    keeps them. *)
Fixpoint plugs (specs : list Spec) (p : thread (option error)) (w : W) : Prop :=
  match p with
  | Ret None => ∀ t, t ∈ specs → placed w t
  | Ret (Some _) => True
  | Act _ f next =>
      ∀ sys, tidy (sys_world sys) → kept specs w (sys_world sys) → plugs specs (next sys) (sys_world (f sys))
  end.

Lemma plugs_kept specs p w w' : plugs specs p w → kept specs w w' → plugs specs p w'.
Proof.
  destruct p as [[e|]|l f next]; simpl; [done| |].
  - intros Hp Hk t Ht. by apply Hk, Hp.
  - intros Hp Hk sys Ht Hk'. apply Hp; [done|]. by eapply kept_trans.
Qed.

Lemma plugs_error {B} specs (p : thread B) (k : B → option error) w :
  (∀ b, k b ≠ None) → plugs specs (p ≫= λ b, mret (k b)) w.
Proof.
  intros Hk. revert w. induction p as [b|l f next IH]; intros w; simpl.
  - specialize (Hk b). by destruct (k b).
  - intros sys _ _. apply IH.
Qed.

(** What the hook has still to attach; the rest is in its place. *)
Definition progress (specs rest : list Spec) (w : W) : Prop :=
  (∀ t, t ∈ specs → t ∈ rest ∨ placed w t) ∧ (∀ t, t ∈ rest → t ∈ specs ∧ free_for w t) ∧
  (∀ t, t ∈ specs → t ∉ rest → IfaceName t ∉ IfaceName <$> rest) ∧
  NoDup (IfaceName <$> rest) ∧ ∀ s t, s ∈ specs → t ∈ specs → IfaceName s ≠ IfaceName t → ¬ clash s t.

Lemma progress_kept specs rest w w' : kept specs w w' → progress specs rest w → progress specs rest w'.
Proof.
  intros Hk (H1 & H2 & H3 & H4 & H5). split_and!; [| |done..].
  - intros t Ht. destruct (H1 t Ht); [by left|]. right. by apply Hk.
  - intros t Ht. destruct (H2 t Ht) as [Hin Hf]. split; [done|]. by apply (Hk t Hin).
Qed.

Lemma progress_attach specs s rest w w' :
  tidy w → Attach w s = (None, w') → progress specs (s :: rest) w → progress specs rest w'.
Proof.
  intros Htd Ea (H1 & H2 & H3 & H4 & H5). rewrite fmap_cons, NoDup_cons in H4. destruct H4 as [Hn H4].
  destruct (H2 s) as [Hs Hfs]; [left|].
  assert (∀ t, t ∈ specs → t ∈ rest → ¬ clash s t) as Hcl.
  { intros t Ht Hr. apply H5; [done..|]. intros E. apply Hn. rewrite E. by apply list_elem_of_fmap_2. }
  split_and!; [| | |done|done].
  - intros t Ht. destruct (decide (t = s)) as [->|Hne]; [right; by eapply attach_placed|].
    destruct (decide (t ∈ rest)) as [Hr|Hr]; [by left|]. right.
    destruct (H1 t Ht) as [[->|?]%elem_of_cons|Hp]; [done..|]. apply (attach_keeps _ _ _ _ t Htd Ea); [|done].
    apply H5; [done..|]. intros E. apply (H3 t Ht); [by rewrite not_elem_of_cons|]. rewrite <- E. left.
  - intros t Ht. destruct (H2 t) as [Hin Hf]; [by right|]. split; [done|]. apply (attach_free _ _ _ _ t Htd Ea); auto.
  - intros t Ht Hr Hin. destruct (decide (t = s)) as [->|Hne]; [done|].
    apply (H3 t Ht); [by rewrite not_elem_of_cons|]. by right.
Qed.

Lemma plugs_run_specs uid specs rest w : progress specs rest w → plugs specs (t_run_specs uid rest) w.
Proof.
  revert w. induction rest as [|s rest IH]; intros w Hp.
  { intros t Ht. destruct Hp as [Hp _]. destruct (Hp t Ht) as [?%not_elem_of_nil|]; done. }
  cbn [t_run_specs]. intros sys Htd Hk. apply (progress_kept _ _ _ _ Hk) in Hp. cbv beta.
  change (sys_world sys) with (nri_world (plugin_of sys)) in Hp, Htd.
  destruct (Attach (nri_world (plugin_of sys)) s) as [[e|] w'] eqn:Ea; cbn [fst snd].
  - simpl. intros sys' _ _. by apply plugs_error.
  - apply (progress_attach _ _ _ _ _ Htd Ea) in Hp. intros sys' Htd' Hk'. apply IH. cbn.
    by eapply progress_kept.
Qed.

(** What may happen while the hook runs: retries attach NICs that are apart from these, and
    other changes of the node keep them. *)
Definition undisturbed (specs : list Spec) (l : label (W := W)) : Prop :=
  match l with
  | HookStarts | Crashes => False
  | Acts (Attaching s) => ∀ t, t ∈ specs → ¬ clash s t
  | NodeChanges w w' => kept specs w w'
  | _ => True
  end.

Lemma attach_kept specs w s :
  tidy w → (∀ t, t ∈ specs → ¬ clash s t) → kept specs w (Attach w s).2.
Proof.
  intros Htd Hap t Ht. specialize (Hap t Ht). destruct (Attach w s) as [e w'] eqn:Ea. simpl. split.
  - by apply (attach_keeps _ _ _ _ t Htd Ea).
  - by apply (attach_free _ _ _ _ t Htd Ea).
Qed.

Lemma effect_kept specs l w w' : tidy w → undisturbed specs (Acts l) → effect l w w' → kept specs w w'.
Proof. intros Ht Hu He. destruct l as [s| |]; cbn in He; rewrite He; [by apply attach_kept|apply kept_refl..]. Qed.

Lemma plugs_step specs c l c' :
  conf_step c l c' → conf_ok c → undisturbed specs l → plugs specs (c_hook c) (sys_world (c_sys c)) →
  plugs specs (c_hook c') (sys_world (c_sys c')).
Proof.
  intros Hs Hok Hu Hp. pose proof (ok_store _ Hok) as Hst. destruct Hok as [Ht _ Hr Hf Hc].
  destruct Hs; cbn [c_sys c_hook c_retry c_call c_gone] in *; try done.
  - by apply Hp.
  - destruct (Hr _ Hst Ht) as (_ & _ & He & _). eapply plugs_kept; [done|]. eapply effect_kept; eauto.
  - destruct (Hf _ Hst Ht) as (_ & _ & He & _). eapply plugs_kept; [done|]. eapply effect_kept; eauto.
  - destruct Hc as [_ Hc]. destruct (Hc sys (same_locked_refl _)) as [-> _]. done.
  - by eapply plugs_kept.
Qed.

Lemma plugs_steps specs c ls c' :
  conf_steps c ls c' → conf_ok c → Forall (undisturbed specs) ls → plugs specs (c_hook c) (sys_world (c_sys c)) →
  plugs specs (c_hook c') (sys_world (c_sys c')).
Proof.
  induction 1 as [|c l c1 ls c2 Hs _ IH]; [done|]. intros Hok [Hl Hls]%Forall_cons Hp.
  apply IH; [by eapply conf_step_ok|done|by eapply plugs_step].
Qed.

(** The hook reads the NICs of the pod in its first action. *)
Lemma run_reads sb c c' :
  c_hook c = t_RunPodSandbox sb → networkNamespacePath sb ≠ EmptyString → conf_step c HookActs c' →
  c_hook c' = t_run_specs (Sb_Uid sb) (nics (plugin_of (c_sys c)) sb) ∧ sys_world (c_sys c') = sys_world (c_sys c).
Proof.
  intros Hh Hn Hs. inversion Hs; subst; simpl in *.
  unfold t_RunPodSandbox, t_OnRunPodSandbox, t_sandboxSpecs in Hh. rewrite bool_decide_false in Hh by done.
  injection Hh as -> -> ->. done.
Qed.

(** No pod starts without its NICs in any interleaving: the hook for the start of a
    sandbox has begun (at [c]), retries, calls of kubelet and refreshes act in between its
    actions, and it ends without an error.  For the attacher of [Attach] that is
    [EndToEnd.no_pod_without_nics_interleaved]. *)
Lemma start_places_interleaved sys ls c c1 ls' c2 sb claims uid devices pd sp :
  reachable sys → conf_steps (idle sys) ls c → c_hook c = t_RunPodSandbox sb → conf_step c HookActs c1 →
  conf_steps c1 ls' c2 → Forall (undisturbed (nics (plugin_of (c_sys c)) sb)) ls' → c_hook c2 = Ret None →
  networkNamespacePath sb ≠ EmptyString → sandbox_free (plugin_of (c_sys c)) sb →
  GetCheckpoint (disk (sys_state (c_sys c))) = Ok claims → claims !! uid = Some devices → uid ∉ c_gone c →
  pd ∈ devices → PD_NIC pd = Some sp → PodUID sp = Sb_Uid sb →
  placed (sys_world (c_sys c2)) (at_sandbox sb sp).
Proof.
  intros Hr Hs Hh H1 H2 Hu He Hn Hf Hg Hc Hng Hpd Hsp Hpod. pose proof (reachable_conf_ok _ _ _ Hr Hs) as Hok.
  pose proof (conf_step_ok _ _ _ H1 Hok) as Hok1. destruct (run_reads _ _ _ Hh Hn H1) as [Hh1 Hw].
  destruct (ok_inv _ Hok) as (store & Hst & Hwf & Hcov).
  assert (nri_store (plugin_of (c_sys c)) = store) as Hstore by (unfold plugin_of; simpl; by rewrite Hst).
  assert (plugs (nics (plugin_of (c_sys c)) sb) (c_hook c2) (sys_world (c_sys c2))) as Hp.
  { eapply plugs_steps; [done..|]. rewrite Hh1, Hw. apply plugs_run_specs. destruct Hf as [Hf1 Hf2].
    split_and!; [by left|by split; [|apply Hf1]|done| |done]. unfold nics. rewrite sandboxSpecs_names, Hstore. apply Hwf. }
  rewrite He in Hp. destruct (Hcov _ _ _ _ _ Hg Hc Hng Hpd Hsp) as [_ Hin].
  apply (Hp (at_sandbox sb sp)), nics_at. by rewrite Hstore, <- Hpod.
Qed.

(** ** A stop while a retry runs *)

Lemma hook_alone sys (p : thread (option error)) retry refresh call gone clean :
  ∃ ls, conf_steps (Build_Conf sys p retry refresh call gone clean) ls
          (Build_Conf (alone p sys).2 (Ret (alone p sys).1) retry refresh call gone clean).
Proof.
  revert sys. induction p as [e|l f next IH]; intros sys; simpl; [eexists; constructor|].
  destruct (IH sys (f sys)) as [ls Hls]. eexists. econstructor; [constructor|done].
Qed.

Lemma retry_alone sys h (p : thread unit) refresh call gone clean :
  ∃ ls, conf_steps (Build_Conf sys h p refresh call gone clean) ls
          (Build_Conf (alone p sys).2 h (Ret (alone p sys).1) refresh call gone clean).
Proof.
  revert sys. induction p as [e|l f next IH]; intros sys; simpl; [eexists; constructor|].
  destruct (IH sys (f sys)) as [ls Hls]. eexists. econstructor; [constructor|done].
Qed.

Lemma conf_steps_app c ls c1 ls' c2 : conf_steps c ls c1 → conf_steps c1 ls' c2 → conf_steps c (ls ++ ls') c2.
Proof. induction 1; [done|]. intros H'. econstructor; [done|auto]. Qed.

Lemma StopPodSandbox_drops p sb e p' : StopPodSandbox p sb = (e, p') → failed p' !! Sb_Uid sb = None.
Proof.
  unfold StopPodSandbox. destruct (OnStopPodSandbox _ _ _ _ _) as [[er store] w]. intros [= _ <-]. simpl. apply lookup_delete_eq.
Qed.

(** The stop comes between the copy of the failed sandboxes and the retry of them. *)
Lemma stop_in_retry sys sb p' :
  reachable sys → sys_nri sys = true → StopPodSandbox (plugin_of sys) sb = (None, p') →
  ∃ ls, conf_steps (idle sys) ls
          (Build_Conf (with_plugin sys (foldl syncSandbox p' (snd <$> map_range 40 (sys_failed sys))))
             (Ret None) (Ret ()) (Ret ()) (Ret ∅) ∅ true).
Proof.
  intros Hr Hn HS. pose proof (reachable_inv _ Hr) as (store & Hst & _).
  assert (is_Some (nicStore (sys_state sys))) as Hsome by (by exists store).
  pose proof (t_StopPodSandbox_alone with_plugin sb sys (plugin_of sys)) as Ha. rewrite (with_plugin_of _ Hsome), HS in Ha. cbn [fst snd] in Ha.
  set (copy := snd <$> map_range 40 (sys_failed sys)).
  destruct (hook_alone sys (t_StopPodSandbox sb) (t_sync_all copy) (Ret ()) (Ret ∅) ∅ true) as [ls1 H1]. rewrite Ha in H1. cbn [fst snd] in H1.
  destruct (retry_alone (with_plugin sys p') (Ret None) (t_sync_all copy) (Ret ()) (Ret ∅) ∅ true) as [ls2 H2].
  rewrite (t_sync_all_alone with_plugin copy sys p') in H2. cbn [fst snd] in H2.
  eexists. eapply steps_cons; [by apply retry_start|]. eapply steps_cons; [apply retry_act|]. cbn [fst snd].
  rewrite (with_plugin_of _ Hsome). eapply steps_cons; [by apply (hook_start _ _ _ _ _ _ _ (HStopPodSandbox sb))|].
  eapply conf_steps_app; [exact H1|exact H2].
Qed.


End invariant.
