(* ===== verification/Driver.v ===== *)
(** * Starting the kubelet plugin (cmd/kube-ovn-dra-kubeletplugin/main.go, driver.go, refresh.go, health.go)

    The flags, the start of the driver in its two publish modes, what it publishes in a
    round of the refresh loop, fatal errors, and the health service. *)

From S2P Require Import Prelude K8s NicConfig Subnet Pools Annotation Store NicPrepare Profile Cdi Checkpoint.
From S2P Require Import State StateProps Lifecycle Sandbox Nri System.

(** ** Flags *)

Record Flags := {
  flag_nodeName : string;
  flag_cdiRoot : string;
  flag_kubeletRegistrarDirectoryPath : string;
  flag_kubeletPluginsDirectoryPath : string;
  flag_podUID : string;
  flag_profile : string;
  flag_driverName : string;
  flag_publishMode : string;
  flag_allocationTimeout : Z;
  flag_healthcheckPort : Z;
  flag_annotateVMIMAC : bool;
}.

Definition publishModeNode : string := "node".
Definition publishModeCentral : string := "central".

(** The checks before the command runs, and the timeout the waits take over. *)
Definition app_Before (args : list string) (f : Flags) (logging : option error) : result Z :=
  if negb (bool_decide (args = [])) then Err (Errorf "arguments not supported: %v" args)
  else if negb (bool_decide (flag_publishMode f = publishModeNode))
          && negb (bool_decide (flag_publishMode f = publishModeCentral))
  then Err (Errorf "invalid publish mode %q, valid modes are %q and %q"
              [flag_publishMode f; publishModeNode; publishModeCentral])
  else if (flag_allocationTimeout f <=? 0)%Z
  then Err (Errorf "allocation timeout must be positive, got %s" [pretty (flag_allocationTimeout f)])
  else check logging (Ok (flag_allocationTimeout f)).

(** The only profile is the NIC profile. *)
Definition validProfileNames : list string := [ProfileName].

(** The configuration the command runs the plugin with. *)
Definition app_Action (f : Flags) (client : option error) : result Config :=
  check (Wrapf "create client: %w" [] <$> client) (
    let driverName := if bool_decide (flag_driverName f = EmptyString) then flag_profile f +:+ ".kubeovn.io"
                      else flag_driverName f in
    if negb (bool_decide (flag_profile f ∈ validProfileNames))
    then Err (Errorf "invalid device profile %q, valid profiles are %q" (flag_profile f :: validProfileNames))
    else Ok {| cfg_driverName := driverName; cfg_profile := flag_profile f; cfg_nodeName := flag_nodeName f;
               cfg_annotateVMI := flag_annotateVMIMAC f |}).

(** ** The driver *)

Definition no_resources : DriverResources := {| Pools_of := ∅ |}.

(** What the cluster has of this node: the resources that were published last.  [lost]
    records that a publication failed. *)
Record Driver (P D W : Type) := {
  d_sys : System P D W;
  d_mode : string;
  d_published : DriverResources;
  d_lost : bool;
  d_health : bool;
}.
Arguments d_sys {P D W}. Arguments d_mode {P D W}. Arguments d_published {P D W}.
Arguments d_lost {P D W}. Arguments d_health {P D W}.

(** What the steps of the start answer: serving kubelet, the listener and the two clients
    of the health service, [helper.PublishResources] and the watch. *)
Record StartEnv := {
  start_helper : option error;
  start_listen : option error;
  start_regClient : option error;
  start_draClient : option error;
  start_publish : DriverResources → option error;
  start_watch : option error;
}.

(** The addresses of the two sockets are in [Command]; serving goes on in the background. *)
Definition startHealthcheck (port : Z) (env : StartEnv) : result bool :=
  if (port <? 0)%Z then Ok false
  else
    check (Wrapf "failed to listen for healthcheck service at %s: %w" [":" +:+ pretty port] <$> start_listen env)
   (check (Wrapf "connect to registration socket: %w" [] <$> start_regClient env)
   (check (Wrapf "connect to DRA socket: %w" [] <$> start_draClient env)
   (Ok true))).

(** [errors.Is(err, kubeletplugin.ErrRecoverable)] is the first argument. *)
Definition HandleError (recoverable : error → bool) (cancelCtx : bool) (err : error) : option error :=
  if negb (recoverable err) && cancelCtx then Some (Wrapf "fatal background error: %w" [] err) else None.

Section driver.
Context `{K : K8s} `{G : GoImpl} `{PO : Poller} `{CDI0 : CDI} `{CD : ConfigDecoder}.
Context {P D W : Type} `{PF : Profile P} `{M : CheckpointManager D} `{A : Attacher W} `{V : Datapath W}.
Implicit Types (d : Driver P D W) (sys : System P D W).

(** The start up to the refresh loop.  The NRI plugin is started after that, by the event
    [EvStartNRI] of a run; kubelet may call before. *)
Definition NewDriver (env : StartEnv) (mode : string) (port : Z) (config : Config) (api : Api) (p : P) (disk0 : D)
    (files : gmap string CDISpec) (w : W) : result (Driver P D W) :=
  st ← NewDeviceState config api p disk0 files (Some NewNICStore);
  check (start_helper env) (
    health ← wrap_err "start healthcheck: %w" [] (startHealthcheck port env);
    let published := if bool_decide (mode = publishModeCentral) then no_resources else driverResources st in
    check (start_publish env published)
   (check (Wrapf "watch devices: %w" [] <$> start_watch env)
   (Ok {| d_sys := {| sys_state := st; sys_world := w; sys_nri := false; sys_ready := false; sys_failed := ∅ |};
          d_mode := mode; d_published := published; d_lost := false; d_health := health |}))).

(** What is stopped, in this order; the state lives on for the calls that are running. *)
Inductive Service := NRIPlugin | HealthService | KubeletHelper.
Definition Shutdown d : list Service :=
  (if sys_nri (d_sys d) then [NRIPlugin] else []) ++ (if d_health d then [HealthService] else []) ++ [KubeletHelper].

(** The [publish] function of the refresh loop. *)
Definition driver_publish d (answer : DriverResources → option error) : DriverResources → option error :=
  if bool_decide (d_mode d = publishModeCentral) then λ _, None else answer.

(** A round of the loop: refresh, and publish when the devices changed. *)
Definition driver_round (api : Api) (answer : DriverResources → option error) d : Driver P D W :=
  let '(out, st) := refresh_round api (driver_publish d answer) (sys_state (d_sys d)) in
  {| d_sys := with_state (d_sys d) st; d_mode := d_mode d;
     d_published := match out with
                    | Some r => if bool_decide (d_mode d = publishModeCentral) then d_published d else r
                    | None => d_published d
                    end;
     d_lost := d_lost d || match RefreshDevices api (sys_state (d_sys d)), out with
                           | (Ok (_, true), _), None => true
                           | _, _ => false
                           end;
     d_health := d_health d |}.

(** In the node mode the cluster has the devices of the state, until a publication fails;
    in the central mode it has none of this node. *)
Definition in_step d : Prop :=
  if bool_decide (d_mode d = publishModeCentral) then d_published d = no_resources
  else d_lost d = false → d_published d = driverResources (sys_state (d_sys d)).

Lemma NewDriver_in_step env mode port config api p disk0 files w d :
  NewDriver env mode port config api p disk0 files w = Ok d →
  in_step d ∧ sys_nri (d_sys d) = false ∧ d_mode d = mode ∧
  NewDeviceState config api p disk0 files (Some NewNICStore) = Ok (sys_state (d_sys d)).
Proof.
  unfold NewDriver. intros (st & Hst & H)%bind_Ok. destruct (start_helper env); [done|].
  simpl in H. apply bind_Ok in H as (h & _ & H).
  destruct (start_publish env _); [done|]. simpl in H. destruct (start_watch env); [done|]. simpl in H.
  injection H as <-. unfold in_step. simpl. split; [by case_bool_decide|done].
Qed.

Lemma driver_round_in_step api answer d : in_step d → in_step (driver_round api answer d).
Proof.
  unfold in_step, driver_round, refresh_round, driver_publish, RefreshDevices.
  destruct (EnumerateDevices api _) as [[r|e] p]; simpl; [|by rewrite orb_false_r].
  destruct (DeepEqual r _) eqn:Ed; simpl; [by rewrite orb_false_r|].
  destruct (bool_decide (d_mode d = publishModeCentral)) eqn:Em; simpl; rewrite ?Em; [done|].
  destruct (answer r); simpl; rewrite Em; [by rewrite orb_true_r|done].
Qed.

(** ** The health service *)

Inductive HealthStatus := SERVING | NOT_SERVING.

Definition healthServiceLiveness : string := "liveness".
Definition healthServiceReadiness : string := "readiness".

(** [ready] of the health service: nil until the NRI plugin was started. *)
Definition health_ready sys : option bool :=
  if sys_nri sys then Some (Ready (plugin_of sys)) else None.

(** [getInfo] and [prepareNone] are what the calls to the two sockets yield; the second is
    a prepare call without claims. *)
Definition Check (service : string) (getInfo prepareNone : option error) sys : result HealthStatus :=
  if negb (bool_decide (service ∈ [EmptyString; healthServiceLiveness; healthServiceReadiness]))
  then Err (NotFound "unknown service")
  else match getInfo with
       | Some _ => Ok NOT_SERVING
       | None =>
           match prepareNone with
           | Some _ => Ok NOT_SERVING
           | None =>
               if bool_decide (service = healthServiceReadiness)
                  && match health_ready sys with Some r => negb r | None => false end
               then Ok NOT_SERVING
               else Ok SERVING
           end
       end.

(** A claim is refused for want of a connection, or handed to the device state. *)
Definition refused sys : bool := sys_nri sys && negb (Ready (plugin_of sys)).
Definition handed (env : PrepareEnv) sys (claim : ResourceClaim) : result (list KubeletDevice) * System P D W :=
  match Prepare env (sys_state sys) claim with
  | (Err e, st) => (Err (Wrapf "error preparing devices for claim %v: %w" [Claim_UID claim] e), with_state sys st)
  | (Ok devices, st) => (Ok devices, with_state sys st)
  end.

Lemma refused_iff sys env claim : prepareResourceClaim env sys claim = handed env sys claim ↔ refused sys = false.
Proof.
  unfold prepareResourceClaim, refused, handed. destruct (sys_nri sys && _); [|done]. split; [|done].
  by destruct (Prepare _ _ _) as [[ds|e] st].
Qed.

(** C30: the readiness service reports SERVING exactly when both sockets answer and a claim
    would not be refused for want of a connection to the runtime; liveness only asks the
    sockets, so a runtime that is gone does not restart the plugin. *)
Theorem Check_readiness getInfo prepareNone sys env claim :
  (Check healthServiceReadiness getInfo prepareNone sys = Ok SERVING ↔
     getInfo = None ∧ prepareNone = None ∧ prepareResourceClaim env sys claim = handed env sys claim) ∧
  (Check healthServiceLiveness getInfo prepareNone sys = Ok SERVING ↔ getInfo = None ∧ prepareNone = None).
Proof.
  rewrite refused_iff. unfold Check, refused, health_ready. simpl.
  destruct getInfo, prepareNone; [split; split; [done|intros H; by destruct_and?|done|intros H; by destruct_and?]..|].
  destruct (sys_nri sys), (sys_ready sys); split; split; try done; intros H; by destruct_and?.
Qed.

End driver.
