(* ===== verification/Serve.v ===== *)
(** * The webhook's server (cmd/kube-ovn-dra-webhook/main.go)

    The command line of the webhook, its routes, and the HTTP part of a request around the
    admission of [Webhook].  Decoding the body is apimachinery's: the class [BodyDecoder];
    TLS and the connection are net/http's. *)

From S2P Require Import Prelude K8s NicConfig Subnet Profile Cdi Checkpoint Store Sandbox Nri State System Driver Webhook.

Record GroupVersionKind := { GVK_Group : string; GVK_Version : string; GVK_Kind : string }.
#[export] Instance GroupVersionKind_eq_dec : EqDecision GroupVersionKind.
Proof. solve_decision. Defined.

Definition AdmissionReviewV1 : GroupVersionKind :=
  {| GVK_Group := "admission.k8s.io"; GVK_Version := "v1"; GVK_Kind := "AdmissionReview" |}.

(** The request of a review, which may be missing. *)
Record AdmissionRequest := { Request_UID : string; Request_Review : AdmissionReview }.
Inductive DecodedObject :=
  | ObjReview (request : option AdmissionRequest)
  | ObjOfType (type : string).

(** [codecs.UniversalDeserializer().Decode] *)
Class BodyDecoder := { DecodeBody : string → result (DecodedObject * GroupVersionKind) }.

(** A request: the body is nil or what reading it yields. *)
Record Request := {
  Req_Path : string;
  Req_Body : option (result string);
  Req_ContentType : string;
}.

Definition StatusInternalServerError : Z := 500.
Definition StatusUnsupportedMediaType : Z := 415.
Definition StatusBadRequest : Z := 400.

(** What the client gets.  A handler that panics is cut off by net/http, without a reply. *)
Inductive Reply :=
  | HTTPError (code : Z) (err : error)
  | Review (gvk : GroupVersionKind) (uid : string) (response : AdmissionResponse)
  | Text (s : string)
  | Unrouted
  | Panicked.

Section serve.
Context `{RC : ReviewCodec} `{CD : ConfigDecoder} `{BD : BodyDecoder}.

Definition readAdmissionReview (data : string) : result (GroupVersionKind * option AdmissionRequest) :=
  '(obj, gvk) ← wrap_err "request could not be decoded: %w" [] (DecodeBody data);
  if negb (bool_decide (gvk = AdmissionReviewV1)) then
    Err (Errorf "unsupported group version kind: %v" [GVK_Group gvk; GVK_Version gvk; GVK_Kind gvk])
  else match obj with
       | ObjReview request => Ok (gvk, request)
       | ObjOfType t => Err (Errorf "expected v1.AdmissionReview but got: %T" [t])
       end.

(** [marshal] is what encoding the response yields. *)
Definition serve (review_fn : AdmissionReview → AdmissionResponse) (marshal : option error) (r : Request) : Reply :=
  match Req_Body r with
  | Some (Err e) => HTTPError StatusInternalServerError e
  | body =>
      let data := match body with Some (Ok s) => s | _ => EmptyString end in
      if negb (bool_decide (Req_ContentType r = "application/json"))
      then HTTPError StatusUnsupportedMediaType
             (Errorf "contentType=%s, expected application/json" [Req_ContentType r])
      else match readAdmissionReview data with
           | Err e => HTTPError StatusBadRequest (Wrapf "failed to read AdmissionReview from request body: %v" [] e)
           | Ok (gvk, None) => Panicked
           | Ok (gvk, Some request) =>
               let response := review_fn (Request_Review request) in
               match marshal with
               | Some e => HTTPError StatusInternalServerError e
               | None => Review gvk (Request_UID request) response
               end
           end
  end.

(** [write] is what writing the text yields. *)
Definition readyHandler (write : option error) : Reply :=
  match write with Some e => HTTPError StatusInternalServerError e | None => Text "ok" end.

(** The routes, for the driver the webhook guards. *)
Definition newMux (validate : RuntimeObject → option error) (driver : string) (marshal write : option error)
    (r : Request) : Reply :=
  if bool_decide (Req_Path r = "/validate-resource-claim-parameters")
  then serve (admitResourceClaimParameters validate driver) marshal r
  else if bool_decide (Req_Path r = "/readyz")
  then readyHandler write
  else Unrouted.

(** The command: the driver it guards, from the flags. *)
Definition webhook_Action (profile driverName : string) : result string :=
  if negb (bool_decide (profile ∈ [ProfileName]))
  then Err (Errorf "invalid device profile %q, valid profiles are %q" [profile; ProfileName])
  else Ok (if bool_decide (driverName = EmptyString) then profile +:+ ".kubeovn.io" else driverName).

(** The review of a request that is one. *)
Definition review_of (r : Request) (uid : string) (ar : AdmissionReview) : Prop :=
  Req_ContentType r = "application/json" ∧
  DecodeBody (match Req_Body r with Some (Ok s) => s | _ => EmptyString end) =
    Ok (ObjReview (Some {| Request_UID := uid; Request_Review := ar |}), AdmissionReviewV1).

Lemma serve_Review review_fn marshal r gvk uid response :
  serve review_fn marshal r = Review gvk uid response →
  gvk = AdmissionReviewV1 ∧ ∃ ar, review_of r uid ar ∧ response = review_fn ar.
Proof.
  unfold serve, review_of. set (data := match Req_Body r with Some (Ok s) => s | _ => EmptyString end).
  intros H. assert (match readAdmissionReview data with
    | Ok (gvk', Some request) => gvk = gvk' ∧ uid = Request_UID request ∧ response = review_fn (Request_Review request)
    | _ => False end ∧ Req_ContentType r = "application/json") as [Hd Hct].
  { destruct (Req_Body r) as [[s|e]|]; simpl in *; [|done|]; (case_bool_decide; [|done]); simpl in H;
      (destruct (readAdmissionReview _) as [[g [q|]]|]; [|done..]); (destruct marshal; [done|]); by injection H as <- <- <-. }
  unfold readAdmissionReview in Hd. destruct (DecodeBody data) as [[obj g]|]; [|done]. simpl in Hd.
  case_bool_decide as Hg; [|done]. simpl in Hd. destruct obj as [[[u ar]|]|]; [|done..]. simpl in Hd.
  destruct Hd as (-> & -> & ->). split; [done|]. exists ar. by rewrite Hg.
Qed.

End serve.

(** C31: end to end, the webhook and the plugin run with the same profile and driver name:
    when the webhook replies that a claim or template is allowed, the reply is for the
    request that was sent, a v1 review in JSON, and every configuration in it that the
    plugin takes for its own decodes to a NicConfig, the plugin applies it, and the
    interface name the NIC gets has one to fifteen bytes, is no directory name and has no
    slash, colon, blank, tab or newline. *)
Theorem served_allowed `{RC : ReviewCodec} `{CD : ConfigDecoder} `{BD : BodyDecoder} f driver config marshal write r gvk uid
    response :
  webhook_Action (flag_profile f) (flag_driverName f) = Ok driver → app_Action f None = Ok config →
  newMux nic_Validate driver marshal write r = Review gvk uid response → Allowed response = true →
  Req_Path r = "/validate-resource-claim-parameters" ∧ gvk = AdmissionReviewV1 ∧
  ∃ ar configs, review_of r uid ar ∧ reviewed ar = Ok configs ∧
    ∀ o, Some o ∈ configs → Opaque_Driver o = cfg_driverName config →
      ∃ c, Decode (Opaque_Raw o) = Ok (ObjNicConfig c) ∧
        ∀ p results, ∃ edits c', nic_ApplyConfig p (Some (ObjNicConfig c)) results = (Ok edits, Some (ObjNicConfig c')) ∧
          iface_name true (Some (ObjNicConfig c')) = InterfaceName c' ∧
          plain_ifname (InterfaceName c') = true.
Proof.
  intros Hw Hc Hm Ha. unfold newMux in Hm. case_bool_decide as Hp; [|case_bool_decide; [unfold readyHandler in Hm; by destruct write|done]].
  apply serve_Review in Hm as (-> & ar & Hr & ->). apply webhook_guards_driver in Ha as (configs & Hrev & Hcfg).
  split_and!; [done..|]. exists ar, configs. split_and!; [done..|]. intros o Ho Hd. apply Hcfg; [done|].
  rewrite Hd. unfold webhook_Action, app_Action in *. simpl in Hc. unfold validProfileNames in Hc.
  destruct (negb _); [done|]. injection Hw as <-. by injection Hc as <-.
Qed.

(** A review without a request makes the handler panic: it reads the resource of a request
    that is not there. *)
Theorem review_without_request_panics `{RC : ReviewCodec} `{CD : ConfigDecoder} `{BD : BodyDecoder} review_fn marshal r s :
  Req_Body r = Some (Ok s) → Req_ContentType r = "application/json" →
  DecodeBody s = Ok (ObjReview None, AdmissionReviewV1) →
  serve review_fn marshal r = Panicked.
Proof.
  intros Hb Hc Hd. unfold serve, readAdmissionReview. rewrite Hb, Hc, Hd. done.
Qed.

(** ** An example *)

#[local] Instance body_decoder : BodyDecoder := {|
  DecodeBody s := if bool_decide (s = "{}") then Ok (ObjReview None, AdmissionReviewV1)
                  else Ok (ObjReview (Some {| Request_UID := "u1"; Request_Review := example.review s |}), AdmissionReviewV1) |}.

Definition post (body : string) : Request := {|
  Req_Path := "/validate-resource-claim-parameters"; Req_Body := Some (Ok body); Req_ContentType := "application/json" |}.
Definition flags : Flags := {|
  flag_nodeName := "node1"; flag_cdiRoot := "/etc/cdi"; flag_kubeletRegistrarDirectoryPath := "/var/lib/kubelet/plugins_registry";
  flag_kubeletPluginsDirectoryPath := "/var/lib/kubelet/plugins"; flag_podUID := ""; flag_profile := "nic"; flag_driverName := "nic.resource.kube-ovn.io";
  flag_publishMode := "node"; flag_allocationTimeout := 1; flag_healthcheckPort := -1; flag_annotateVMIMAC := false |}.

Lemma served_allowed_witness :
  ∃ ar configs, review_of (post "net7") "u1" ar ∧ reviewed ar = Ok configs.
Proof.
  destruct (served_allowed flags "nic.resource.kube-ovn.io"
    {| cfg_driverName := "nic.resource.kube-ovn.io"; cfg_profile := "nic"; cfg_nodeName := "node1";
       cfg_annotateVMI := false |} None None (post "net7") AdmissionReviewV1 "u1" {| Allowed := true; Result := None |})
    as (_ & _ & ar & configs & Hr & Hc & _); [reflexivity..|]. exists ar, configs. exact (conj Hr Hc).
Defined.
