(* ===== verification/Command.v ===== *)
(** * The commands (cmd/kube-ovn-dra-kubeletplugin/main.go, publisher.go, health.go,
    cmd/kube-ovn-dra-webhook/main.go, pkg/flags)

    The flags of the three commands and the clients they build, the directories and sockets
    of the kubelet plugin, the start and the end of the plugin, and the publisher under
    leader election. *)

From S2P Require Import Prelude Paths K8s NicConfig Subnet Pools Annotation Store NicPrepare Profile Cdi Checkpoint.
From S2P Require Import State Sandbox Nri System Driver Snapshot Serve.

(** ** Flags *)

Inductive FlagValue :=
  | VString (s : string)
  | VInt (n : Z)
  | VBool (b : bool)
  | VDuration (ns : Z)
  | VFloat (f : f64)
  | VGeneric.

(** A flag of a command: its name, its default, whether it has to be given, and the
    environment variables that give it. *)
Record FlagDecl := { fl_name : string; fl_value : FlagValue; fl_required : bool; fl_env : list string }.

Definition second : Z := 1000000000.

(** The default of --allocation-timeout, which is [annotation.WaitTimeout]. *)
Definition WaitTimeout : Z := 30 * second.

(** The two directories are constants of kubelet's plugin package. *)
Definition pluginFlags (KubeletRegistryDir KubeletPluginsDir : string) : list FlagDecl := [
  {| fl_name := "node-name"; fl_value := VString EmptyString; fl_required := true; fl_env := ["NODE_NAME"] |};
  {| fl_name := "cdi-root"; fl_value := VString "/etc/cdi"; fl_required := false; fl_env := ["CDI_ROOT"] |};
  {| fl_name := "kubelet-registrar-directory-path"; fl_value := VString KubeletRegistryDir; fl_required := false;
     fl_env := ["KUBELET_REGISTRAR_DIRECTORY_PATH"] |};
  {| fl_name := "kubelet-plugins-directory-path"; fl_value := VString KubeletPluginsDir; fl_required := false;
     fl_env := ["KUBELET_PLUGINS_DIRECTORY_PATH"] |};
  {| fl_name := "healthcheck-port"; fl_value := VInt (-1); fl_required := false; fl_env := ["HEALTHCHECK_PORT"] |};
  {| fl_name := "device-profile"; fl_value := VString ProfileName; fl_required := false; fl_env := ["DEVICE_PROFILE"] |};
  {| fl_name := "driver-name"; fl_value := VString EmptyString; fl_required := false; fl_env := ["DRIVER_NAME"] |};
  {| fl_name := "publish-mode"; fl_value := VString publishModeNode; fl_required := false; fl_env := ["PUBLISH_MODE"] |};
  {| fl_name := "allocation-timeout"; fl_value := VDuration WaitTimeout; fl_required := false;
     fl_env := ["ALLOCATION_TIMEOUT"] |};
  {| fl_name := "annotate-vmi-mac"; fl_value := VBool false; fl_required := false; fl_env := ["ANNOTATE_VMI_MAC"] |};
  {| fl_name := "pod-uid"; fl_value := VString EmptyString; fl_required := false; fl_env := ["POD_UID"] |}].

Definition publisherFlags : list FlagDecl := [
  {| fl_name := "driver-name"; fl_value := VString "nic.kubeovn.io"; fl_required := false; fl_env := ["DRIVER_NAME"] |};
  {| fl_name := "namespace"; fl_value := VString EmptyString; fl_required := true; fl_env := ["NAMESPACE"] |};
  {| fl_name := "lease-name"; fl_value := VString "kube-ovn-dra-publisher"; fl_required := false; fl_env := ["LEASE_NAME"] |};
  {| fl_name := "identity"; fl_value := VString EmptyString; fl_required := true; fl_env := ["POD_NAME"] |};
  {| fl_name := "owner-cluster-role"; fl_value := VString EmptyString; fl_required := true;
     fl_env := ["OWNER_CLUSTER_ROLE"] |};
  {| fl_name := "capacity"; fl_value := VBool true; fl_required := false; fl_env := ["PUBLISH_CAPACITY"] |}].

Definition webhookFlags : list FlagDecl := [
  {| fl_name := "tls-cert-file"; fl_value := VString EmptyString; fl_required := true; fl_env := [] |};
  {| fl_name := "tls-private-key-file"; fl_value := VString EmptyString; fl_required := true; fl_env := [] |};
  {| fl_name := "port"; fl_value := VInt 443; fl_required := false; fl_env := [] |};
  {| fl_name := "device-profile"; fl_value := VString ProfileName; fl_required := false; fl_env := ["DEVICE_PROFILE"] |};
  {| fl_name := "driver-name"; fl_value := VString EmptyString; fl_required := false; fl_env := ["DRIVER_NAME"] |}].

Definition KubeClientConfig_Flags : list FlagDecl := [
  {| fl_name := "kubeconfig"; fl_value := VString EmptyString; fl_required := false; fl_env := ["KUBECONFIG"] |};
  {| fl_name := "kube-api-qps"; fl_value := VFloat (FFin 5 0); fl_required := false; fl_env := ["KUBE_API_QPS"] |};
  {| fl_name := "kube-api-burst"; fl_value := VInt 10; fl_required := false; fl_env := ["KUBE_API_BURST"] |}].

Definition pflagToCLI (name : string) : FlagDecl := {|
  fl_name := name; fl_value := VGeneric; fl_required := false;
  fl_env := [to_upper (str_map (λ c, if bool_decide (c = "-"%char) then "_"%char else c) name)] |}.

(** ** The command line package

    What urfave/cli makes of the flags, the environment and the arguments: the values and the
    arguments that are left; and the order in which pflag visits a set of flags. *)
Class Cli := {
  cli_parse : list FlagDecl → (string → option string) → list string → result (gmap string FlagValue * list string);
  VisitAll : list string → list string;
}.

(** The logging flags of component-base, and the flag for its feature gates. *)
Definition LoggingConfig_Flags `{Cli} (component : list string) : list FlagDecl :=
  pflagToCLI <$> VisitAll (component ++ ["feature-gates"]).

Definition given (args : list string) (name : string) : bool :=
  existsb (λ a, bool_decide (a = "--" +:+ name) || bool_decide (is_Some (trim_prefix_opt ("--" +:+ name +:+ "=") a)) ||
                bool_decide (a = "-" +:+ name) || bool_decide (is_Some (trim_prefix_opt ("-" +:+ name +:+ "=") a))) args.

(** A flag that is not given has the value of its environment variable, or its default;
    without one it must not be required. *)
Class CliLaws `{C : Cli} : Prop := {
  cli_default decls env args vals rest d :
    NoDup (fl_name <$> decls) → cli_parse decls env args = Ok (vals, rest) → d ∈ decls → fl_required d = false →
    given args (fl_name d) = false → (∀ e, e ∈ fl_env d → env e = None) → vals !! fl_name d = Some (fl_value d);
  cli_env decls env args vals rest d e s v :
    NoDup (fl_name <$> decls) → cli_parse decls env args = Ok (vals, rest) → d ∈ decls → fl_value d = VString v →
    given args (fl_name d) = false → fl_env d = [e] → env e = Some s → s ≠ EmptyString →
    vals !! fl_name d = Some (VString s);
}.

(** The destinations of the flags. *)
Definition get_string (vals : gmap string FlagValue) (name : string) : string :=
  match vals !! name with Some (VString s) => s | _ => EmptyString end.
Definition get_int (vals : gmap string FlagValue) (name : string) : Z :=
  match vals !! name with Some (VInt n) => n | Some (VDuration n) => n | _ => 0 end.
Definition get_bool (vals : gmap string FlagValue) (name : string) : bool :=
  match vals !! name with Some (VBool b) => b | _ => false end.

Definition Flags_of (vals : gmap string FlagValue) : Flags := {|
  flag_nodeName := get_string vals "node-name"; flag_cdiRoot := get_string vals "cdi-root";
  flag_kubeletRegistrarDirectoryPath := get_string vals "kubelet-registrar-directory-path";
  flag_kubeletPluginsDirectoryPath := get_string vals "kubelet-plugins-directory-path";
  flag_podUID := get_string vals "pod-uid"; flag_profile := get_string vals "device-profile";
  flag_driverName := get_string vals "driver-name"; flag_publishMode := get_string vals "publish-mode";
  flag_allocationTimeout := get_int vals "allocation-timeout"; flag_healthcheckPort := get_int vals "healthcheck-port";
  flag_annotateVMIMAC := get_bool vals "annotate-vmi-mac" |}.

Record PublisherFlags := {
  pf_driverName : string; pf_namespace : string; pf_leaseName : string; pf_identity : string;
  pf_ownerClusterRole : string; pf_capacity : bool;
}.
Definition PublisherFlags_of (vals : gmap string FlagValue) : PublisherFlags := {|
  pf_driverName := get_string vals "driver-name"; pf_namespace := get_string vals "namespace";
  pf_leaseName := get_string vals "lease-name"; pf_identity := get_string vals "identity";
  pf_ownerClusterRole := get_string vals "owner-cluster-role"; pf_capacity := get_bool vals "capacity" |}.

(** ** Clients *)

Record KubeClientConfig := { KubeConfig : string; KubeAPIQPS : f64; KubeAPIBurst : Z }.

(** A client configuration: where it is from, and the limits set on it. *)
Record RestConfig := { Rest_Host : string; Rest_QPS : f64; Rest_Burst : Z }.

(** What client-go answers: the two ways to a configuration, rounding to 32 bits, and the two
    clients. *)
Record ClientEnv := {
  inClusterConfig : result string;
  buildConfigFromFlags : string → result string;
  float32 : f64 → f64;
  newCore : RestConfig → option error;
  newDynamic : RestConfig → option error;
}.

Definition NewClientSetConfig (env : ClientEnv) (k : KubeClientConfig) : result RestConfig :=
  host ← if bool_decide (KubeConfig k = EmptyString)
         then wrap_err "create in-cluster client configuration: %w" [] (inClusterConfig env)
         else wrap_err "create out-of-cluster client configuration: %w" [] (buildConfigFromFlags env (KubeConfig k));
  Ok {| Rest_Host := host; Rest_QPS := float32 env (KubeAPIQPS k); Rest_Burst := KubeAPIBurst k |}.

(** Both clients use the configuration. *)
Definition NewClientSets (env : ClientEnv) (k : KubeClientConfig) : result RestConfig :=
  csconfig ← wrap_err "create client configuration: %w" [] (NewClientSetConfig env k);
  check (Wrapf "create core client: %w" [] <$> newCore env csconfig)
 (check (Wrapf "create dynamic client: %w" [] <$> newDynamic env csconfig)
 (Ok csconfig)).

Definition KubeClientConfig_of (vals : gmap string FlagValue) : KubeClientConfig := {|
  KubeConfig := get_string vals "kubeconfig";
  KubeAPIQPS := match vals !! "kube-api-qps" with Some (VFloat f) => f | _ => FFin 0 0 end;
  KubeAPIBurst := get_int vals "kube-api-burst" |}.

(** ** Directories and sockets *)

Definition DriverPluginPath (f : Flags) : string := Join [flag_kubeletPluginsDirectoryPath f; flag_driverName f].

(** The paths the health service dials.  The sockets are made by kubelet's plugin helper,
    which is not modelled. *)
Definition regSockPath (f : Flags) : string :=
  Join [flag_kubeletRegistrarDirectoryPath f;
        if bool_decide (flag_podUID f = EmptyString) then flag_driverName f +:+ "-reg.sock"
        else flag_driverName f +:+ "-" +:+ flag_podUID f +:+ "-reg.sock"].

Definition draSockPath (f : Flags) : string :=
  Join [DriverPluginPath f;
        if bool_decide (flag_podUID f = EmptyString) then "dra.sock" else "dra-" +:+ flag_podUID f +:+ ".sock"].

(** ** The plugin command *)

(** Making a directory, and whether a path is one. *)
Record RunEnv := { MkdirAll : string → option error; StatDir : string → result bool }.

Definition prepareDirectories (env : RunEnv) (f : Flags) : option error :=
  match MkdirAll env (DriverPluginPath f) with
  | Some e => Some e
  | None =>
      match StatDir env (flag_cdiRoot f) with
      | Err (NotFound _) => MkdirAll env (flag_cdiRoot f)
      | Err e => Some e
      | Ok false => Some (Errorf "path for cdi file generation is not a directory: '%w'" ["<nil>"])
      | Ok true => None
      end
  end.

(** The flags with the driver name the action settles on. *)
Definition with_driverName (f : Flags) (name : string) : Flags := {|
  flag_nodeName := flag_nodeName f; flag_cdiRoot := flag_cdiRoot f;
  flag_kubeletRegistrarDirectoryPath := flag_kubeletRegistrarDirectoryPath f;
  flag_kubeletPluginsDirectoryPath := flag_kubeletPluginsDirectoryPath f; flag_podUID := flag_podUID f;
  flag_profile := flag_profile f; flag_driverName := name; flag_publishMode := flag_publishMode f;
  flag_allocationTimeout := flag_allocationTimeout f; flag_healthcheckPort := flag_healthcheckPort f;
  flag_annotateVMIMAC := flag_annotateVMIMAC f |}.

Section plugin.
Context {P D W : Type}.

(** [start] is [NewDriver]; once the driver runs, the command waits for a signal or a fatal
    error, stops the services and succeeds, whatever ended it. *)
Definition RunPlugin (env : RunEnv) (f : Flags) (start : Config → result (Driver P D W)) (config : Config) :
    result (list Service) :=
  check (prepareDirectories env f) (driver ← start config; Ok (Shutdown driver)).

Context `{C : Cli}.

(** Parse, check, act; the error of the command. *)
Definition App_Run {A} (decls : list FlagDecl) (before : gmap string FlagValue → list string → option error)
    (action : gmap string FlagValue → result A) (env : string → option string) (args : list string) : result A :=
  '(vals, rest) ← cli_parse decls env args;
  check (before vals rest) (action vals).

Definition newApp (dirs : string * string) (component : list string) (logging : option error) (clients : ClientEnv)
    (run : RunEnv) (start : Config → result (Driver P D W)) (env : string → option string) (args : list string) :
    result (list Service) :=
  App_Run (pluginFlags dirs.1 dirs.2 ++ KubeClientConfig_Flags ++ LoggingConfig_Flags component)
    (λ vals rest, err_of (app_Before rest (Flags_of vals) logging))
    (λ vals,
       let f := Flags_of vals in
       config ← app_Action f (err_of (NewClientSets clients (KubeClientConfig_of vals)));
       RunPlugin run (with_driverName f (cfg_driverName config)) start config)
    env args.

Definition publisher_Before (args : list string) (logging : option error) : option error :=
  if negb (bool_decide (args = [])) then Some (Errorf "arguments not supported: %v" args) else logging.

(** [run] is [runPublisher]. *)
Definition newPublisherApp (component : list string) (logging : option error) (clients : ClientEnv)
    (run : PublisherFlags → RestConfig → option error) (env : string → option string) (args : list string) : result () :=
  App_Run (publisherFlags ++ KubeClientConfig_Flags ++ LoggingConfig_Flags component)
    (λ vals rest, publisher_Before rest logging)
    (λ vals,
       csconfig ← wrap_err "create client: %w" [] (NewClientSets clients (KubeClientConfig_of vals));
       check (run (PublisherFlags_of vals) csconfig) (Ok ()))
    env args.

(** [mux] is what making the routes yields, [serve] what serving on the port does. *)
Definition newWebhookApp (component : list string) (logging mux : option error) (serve : Z → string → option error)
    (env : string → option string) (args : list string) : result () :=
  App_Run (webhookFlags ++ LoggingConfig_Flags component)
    (λ vals rest, publisher_Before rest logging)
    (λ vals,
       driver ← webhook_Action (get_string vals "device-profile") (get_string vals "driver-name");
       check (Wrapf "create HTTP mux: %w" [] <$> mux) (check (serve (get_int vals "port") driver) (Ok ())))
    env args.

Definition publisherCommand : string := "publisher".

(** [errors.Is(err, context.Canceled)] *)
Definition Canceled : string := "context canceled".
Fixpoint is_canceled (e : error) : bool :=
  match e with
  | External m => bool_decide (m = Canceled)
  | Wrapf _ _ e => is_canceled e
  | Joined errs => existsb is_canceled errs
  | _ => false
  end.

(** [app] runs the publisher on arguments. *)
Definition runPublisherIfRequested (app : list string → result ()) (args : list string) : bool * option error :=
  match args with
  | _ :: command :: rest =>
      if bool_decide (command = publisherCommand)
      then (true, match err_of (app rest) with
                  | Some e => if is_canceled e then None else Some e
                  | None => None
                  end)
      else (false, None)
  | _ => (false, None)
  end.

(** The exit code. *)
Definition main {A} (plugin : list string → result A) (publisher : list string → result ()) (args : list string) : Z :=
  match runPublisherIfRequested publisher args with
  | (true, Some _) => 1
  | (true, None) => 0
  | (false, _) => match plugin (tail args) with Err _ => 1 | Ok _ => 0 end
  end.

End plugin.

(** ** The publisher under leader election

    [leaderelection] takes the lease, calls the callback in a goroutine of its own, with a
    context that ends with the lease, and returns from [Run] when its context is done or the
    lease was lost, without waiting for the callback. *)

Inductive Callback :=
  | NotLeading
  | Publishing
  | Failing (e : error)       (** [publish] failed with the context alive; the error is to be sent *)
  | Cancelling                (** the error was sent; [cancel] is next *)
  | CallbackDone.

Inductive ElectorRun := Electing | RunReturned | Finished (r : option error).

Record Election := {
  el_callback : Callback;
  el_ctx : bool;                  (** the context of [runPublisher] is done *)
  el_lost : bool;                 (** the lease was lost *)
  el_failed : option error;       (** the channel [failed], with room for one error *)
  el_run : ElectorRun;
}.

(** The context of the callback ends with the one of [Run] and with the lease. *)
Definition leading_ctx_done (s : Election) : bool :=
  el_ctx s || el_lost s || match el_run s with Electing => false | _ => true end.

Definition with_callback (s : Election) (c : Callback) : Election := {|
  el_callback := c; el_ctx := el_ctx s; el_lost := el_lost s; el_failed := el_failed s; el_run := el_run s |}.

(** What the callback does with the result of [publish]. *)
Definition publish_returned (s : Election) (r : option error) : Election :=
  match r with
  | Some e => if leading_ctx_done s then with_callback s CallbackDone else with_callback s (Failing e)
  | None => with_callback s CallbackDone
  end.

Definition send (s : Election) (e : error) : Election := {|
  el_callback := Cancelling; el_ctx := el_ctx s; el_lost := el_lost s; el_failed := Some e; el_run := el_run s |}.

Definition cancel (s : Election) (c : Callback) : Election := {|
  el_callback := c; el_ctx := true; el_lost := el_lost s; el_failed := el_failed s; el_run := el_run s |}.

Definition lose (s : Election) : Election := {|
  el_callback := el_callback s; el_ctx := el_ctx s; el_lost := true; el_failed := el_failed s; el_run := el_run s |}.

Definition with_run (s : Election) (r : ElectorRun) : Election := {|
  el_callback := el_callback s; el_ctx := el_ctx s; el_lost := el_lost s; el_failed := el_failed s; el_run := r |}.

Definition election_start : Election := {|
  el_callback := NotLeading; el_ctx := false; el_lost := false; el_failed := None; el_run := Electing |}.

Inductive ElectionEvent :=
  | Leads | Published (r : option error) | Sent | Cancels | Signalled | LeaseLost | RunReturns | ResultRead.

Inductive election_step : Election → ElectionEvent → Election → Prop :=
  | lead s : el_callback s = NotLeading → leading_ctx_done s = false → election_step s Leads (with_callback s Publishing)
  (** [publish] fails at any time, and returns without an error when its context is done *)
  | publish_ends s r :
      el_callback s = Publishing → (r = None → leading_ctx_done s = true) →
      election_step s (Published r) (publish_returned s r)
  | failed_sent s e : el_callback s = Failing e → el_failed s = None → election_step s Sent (send s e)
  | failed_cancels s : el_callback s = Cancelling → election_step s Cancels (cancel s CallbackDone)
  | signalled s : election_step s Signalled (cancel s (el_callback s))
  | lease_lost s : el_callback s ≠ NotLeading → el_run s = Electing → election_step s LeaseLost (lose s)
  | run_returns s :
      el_run s = Electing → el_ctx s || el_lost s = true → election_step s RunReturns (with_run s RunReturned)
  (** the select at the end of [runPublisher] *)
  | result_read s : el_run s = RunReturned → election_step s ResultRead (with_run s (Finished (el_failed s))).

(** A run from the start, with every event and the state it happened in. *)
Inductive election_run : list (Election * ElectionEvent) → Election → Prop :=
  | run_start : election_run [] election_start
  | run_step tr s ev s' : election_run tr s → election_step s ev s' → election_run (tr ++ [(s, ev)]) s'.

Definition election_next (s s' : Election) : Prop := ∃ ev, election_step s ev s'.

(** The configuration of the election. *)
Record LeaderElectionConfig := {
  LeaseMeta_Name : string; LeaseMeta_Namespace : string; Lock_Identity : string; ReleaseOnCancel : bool;
  LeaseDuration : Z; RenewDeadline : Z; RetryPeriod : Z;
}.
Definition electionConfig (f : PublisherFlags) : LeaderElectionConfig := {|
  LeaseMeta_Name := pf_leaseName f; LeaseMeta_Namespace := pf_namespace f; Lock_Identity := pf_identity f;
  ReleaseOnCancel := true; LeaseDuration := 15 * second; RenewDeadline := 10 * second; RetryPeriod := 2 * second |}.

(** What the publisher may return; [newElector] is what making the elector yields. *)
Inductive runPublisher (newElector : LeaderElectionConfig → option error) (f : PublisherFlags) : option error → Prop :=
  | no_elector e :
      newElector (electionConfig f) = Some e →
      runPublisher newElector f (Some (Wrapf "create leader elector: %w" [] e))
  | elected tr s r :
      newElector (electionConfig f) = None → election_run tr s → el_run s = Finished r →
      runPublisher newElector f r.

(** [publish] failed with [e] in a run while the context it had was alive. *)
Definition failed_leading (tr : list (Election * ElectionEvent)) (e : error) : Prop :=
  ∃ t, (t, Published (Some e)) ∈ tr ∧ leading_ctx_done t = false.

Definition happened (tr : list (Election * ElectionEvent)) (ev : ElectionEvent) : Prop := ev ∈ tr.*2.

Lemma failed_leading_app tr x e : failed_leading tr e → failed_leading (tr ++ [x]) e.
Proof. intros (t & Ht & Hd). exists t. split; [set_solver|done]. Qed.

Lemma happened_app tr x ev : happened tr ev → happened (tr ++ [x]) ev.
Proof. unfold happened. rewrite fmap_app. set_solver. Qed.

Lemma happened_last tr s ev : happened (tr ++ [(s, ev)]) ev.
Proof. unfold happened. rewrite fmap_app. set_solver. Qed.

Lemma failed_leading_last tr s e : leading_ctx_done s = false → failed_leading (tr ++ [(s, Published (Some e))]) e.
Proof. exists s. split; [set_solver|done]. Qed.

(** What a run keeps. *)
Record election_inv (tr : list (Election * ElectionEvent)) (s : Election) : Prop := {
  ei_error : ∀ e, el_failed s = Some e → failed_leading tr e;
  ei_failing : ∀ e, el_callback s = Failing e → el_failed s = None ∧ failed_leading tr e;
  ei_cancelling : el_callback s = Cancelling → is_Some (el_failed s);
  ei_before : el_callback s = NotLeading ∨ el_callback s = Publishing → el_failed s = None;
  ei_cause : el_ctx s = true → happened tr Signalled ∨ is_Some (el_failed s);
  ei_lost : el_lost s = true → happened tr LeaseLost;
  ei_done : el_run s ≠ Electing → el_ctx s = true ∨ el_lost s = true;
  ei_result : el_run s = Finished None → happened tr Signalled ∨ happened tr LeaseLost;
  ei_finished : ∀ e, el_run s = Finished (Some e) → el_failed s = Some e;
}.

Lemma election_inv_app tr x s : election_inv tr s → election_inv (tr ++ [x]) s.
Proof.
  intros [H1 H2 Hc' H3 H4 Hl H5 H6 H7]. split; try done.
  - intros e He. by apply failed_leading_app, H1.
  - intros e He. destruct (H2 _ He). split; [done|by apply failed_leading_app].
  - intros [?|?]%H4; [left; by apply happened_app|by right].
  - intros ?%Hl. by apply happened_app.
  - intros [?|?]%H6; [left|right]; by apply happened_app.
Qed.

Lemma election_step_inv tr s ev s' : election_step s ev s' → election_inv tr s → election_inv (tr ++ [(s, ev)]) s'.
Proof.
  intros Hs Hi. apply (election_inv_app _ (s, ev)) in Hi. pose proof (happened_last tr s ev) as Hev.
  assert (∀ e, ev = Published (Some e) → leading_ctx_done s = false → failed_leading (tr ++ [(s, ev)]) e) as Hfail
    by (intros e -> ?; by apply failed_leading_last).
  revert Hi Hev Hfail. generalize (tr ++ [(s, ev)]) as tr'. intros tr' [H1 H2 Hc' H3 H4 Hl H5 H6 H7] Hev Hfail.
  destruct Hs as [s Hc Hd|s r Hc Hr|s e Hc Hf|s Hc|s|s Hc Hr|s Hr Hd|s Hr].
  2: assert (el_failed s = None) as Hf by auto; unfold publish_returned; destruct r as [e|]; [destruct (leading_ctx_done s) eqn:Hld|].
  all: split; simpl; intros; destruct_or?; simplify_eq; try done; try congruence; try (by eauto).
  - by apply H2.
  - match goal with H : el_run s = Finished _ |- _ => apply H7 in H end. congruence.
  - by apply orb_true_iff.
  - apply H5. congruence.
  - destruct H5 as [[?|[? ?]]%H4|?]; [congruence|by left|congruence|right; by apply Hl].
Qed.

Lemma election_inv_start : election_inv [] election_start.
Proof. by split; simpl; try done; intros [? | ?]. Qed.

Lemma election_run_inv tr s : election_run tr s → election_inv tr s.
Proof. induction 1 as [|tr s ev s' _ IH Hs]; [apply election_inv_start|by apply election_step_inv]. Qed.

(** An error that is in the channel before [Run] returned is the result. *)
Lemma election_sent e s s' :
  rtc election_next s s' → el_failed s = Some e → el_run s = Electing ∨ el_run s = RunReturned →
  el_failed s' = Some e ∧ ∀ r, el_run s' = Finished r → r = Some e.
Proof.
  intros Hr Hf Hn. assert (el_failed s = Some e ∧ ∀ r, el_run s = Finished r → r = Some e) as H0.
  { split; [done|]. intros r. destruct Hn as [-> | ->]; done. }
  clear Hf Hn. revert H0. induction Hr as [|x y z [ev Hs] _ IH]; [done|]. intros [Hf Hn]. apply IH. clear IH.
  destruct Hs as [s Hc Hd|s r Hc Hd|s e' Hc Hd|s Hc|s|s Hc Hd|s Hc Hd|s Hc]; simpl; try (split; [done|]); try done.
  - unfold publish_returned. by destruct r; [destruct (leading_ctx_done s)|].
  - congruence.
  - by intros r [= <-].
Qed.

(** C32: the publisher fails with the error of publishing, and only then: it ends with [e] only
    if in this run [publish] returned [e] at a time when its context was alive, that is
    before any cancellation, the loss of the lease and the end of the elector; it ends
    without an error only after a signal or the loss of the lease; a failure that is to be
    reported can always be, nothing blocks on the way, and one that is reported before the
    elector is done is the result. *)
Theorem runPublisher_result tr s :
  election_run tr s →
  (∀ e, el_run s = Finished (Some e) →
     ∃ t, (t, Published (Some e)) ∈ tr ∧ el_ctx t = false ∧ el_lost t = false ∧ el_run t = Electing) ∧
  (el_run s = Finished None → Signalled ∈ tr.*2 ∨ LeaseLost ∈ tr.*2) ∧
  (∀ e, el_callback s = Failing e → el_run s = Electing →
     ∃ s', rtc election_next s s' ∧ el_run s' = Finished (Some e)) ∧
  (∀ e s' r, el_failed s = Some e → el_run s = Electing → rtc election_next s s' → el_run s' = Finished r → r = Some e).
Proof.
  intros [H1 H2 Hc' H3 H4 Hl H5 H6 H7]%election_run_inv. split_and!.
  - intros e (t & Ht & Hd)%H7%H1. exists t. unfold leading_ctx_done in Hd.
    rewrite !orb_false_iff in Hd. destruct Hd as [[Hc Hlo] Hr]. split_and!; [done..|]. by destruct (el_run t).
  - exact H6.
  - intros e Hc Hr. destruct (H2 _ Hc) as [Hf _]. eexists. split.
    + eapply rtc_l; [eexists; by apply (failed_sent s e)|]. eapply rtc_l; [eexists; by apply failed_cancels|].
      eapply rtc_l; [eexists; by apply run_returns|]. eapply rtc_once. eexists. by apply result_read.
    + done.
  - intros e s' r Hf Hr Hs. eapply election_sent; [done..|by left].
Qed.

(** Publishing fails and is reported, and the publisher ends with the error. *)
Definition broken : error := External "no ClusterRole".
Definition leading : Election := publish_returned (with_callback election_start Publishing) (Some broken).

Lemma runPublisher_result_witness : ∃ s', rtc election_next leading s' ∧ el_run s' = Finished (Some broken).
Proof.
  apply (runPublisher_result [(election_start, Leads); (with_callback election_start Publishing, Published (Some broken))] leading);
    [|reflexivity..].
  apply (run_step [(election_start, Leads)]); [apply (run_step []); [apply run_start|by apply lead]|by apply publish_ends].
Defined.

(** ** Sockets *)

Lemma no_slash_app s t : contains_byte slash (s +:+ t) = false ↔ contains_byte slash s = false ∧ contains_byte slash t = false.
Proof. rewrite contains_byte_app. apply orb_false_iff. Qed.

Lemma long_plain n : contains_byte slash n = false → 2 < str_len n → plain n.
Proof. intros Hn Hl. split_and!; [done|intros ->; simpl in Hl; lia..]. Qed.

(** The name of a registration socket, and of a DRA socket. *)
Definition reg_name (f : Flags) : string :=
  if bool_decide (flag_podUID f = EmptyString) then flag_driverName f +:+ "-reg.sock"
  else flag_driverName f +:+ "-" +:+ flag_podUID f +:+ "-reg.sock".
Definition dra_name (f : Flags) : string :=
  if bool_decide (flag_podUID f = EmptyString) then "dra.sock" else "dra-" +:+ flag_podUID f +:+ ".sock".

(** What the flags of a plugin are like: the driver name and the UID of the pod are names. *)
Record sane (f : Flags) : Prop := {
  sane_registrar : flag_kubeletRegistrarDirectoryPath f ≠ EmptyString;
  sane_plugins : flag_kubeletPluginsDirectoryPath f ≠ EmptyString;
  sane_driver : plain (flag_driverName f);
  sane_uid : contains_byte slash (flag_podUID f) = false;
}.

Lemma reg_name_plain f : sane f → plain (reg_name f).
Proof.
  intros [_ _ (Hd & _) Hu]. unfold reg_name. case_bool_decide; apply long_plain; rewrite ?no_slash_app, ?str_len_app;
    try (by split_and!); simpl; lia.
Qed.

Lemma dra_name_plain f : sane f → plain (dra_name f).
Proof.
  intros [_ _ _ Hu]. unfold dra_name. case_bool_decide; apply long_plain; rewrite ?no_slash_app, ?str_len_app;
    try (by split_and!); simpl; lia.
Qed.

Lemma str_app_inj_tail s s' t t' : str_len t = str_len t' → s +:+ t = s' +:+ t' → s = s' ∧ t = t'.
Proof.
  intros Hl E. pose proof (str_app_inj_suffix _ _ _ _ Hl E) as ->. split; [|done].
  apply (str_app_inj_len s s' t' t'); [|done]. apply (f_equal str_len) in E. rewrite !str_len_app in E. lia.
Qed.

Lemma reg_name_inj f g :
  str_len (flag_podUID f) = str_len (flag_podUID g) → reg_name f = reg_name g →
  flag_driverName f = flag_driverName g ∧ flag_podUID f = flag_podUID g.
Proof.
  unfold reg_name. intros Hl. case_bool_decide as Hf; case_bool_decide as Hg.
  - intros [E _]%str_app_inj_tail; [|done]. split; [done|congruence].
  - rewrite Hf in Hl. symmetry in Hl. by apply str_len_0 in Hl.
  - rewrite Hg in Hl. by apply str_len_0 in Hl.
  - intros [E H]%str_app_inj_tail; [|rewrite !str_len_app; lia]. split; [done|].
    apply str_app_inj_l in H. by apply str_app_inj_tail in H as [? _].
Qed.

Lemma dra_name_inj f g :
  str_len (flag_podUID f) = str_len (flag_podUID g) → dra_name f = dra_name g → flag_podUID f = flag_podUID g.
Proof.
  unfold dra_name. intros Hl. case_bool_decide as Hf; case_bool_decide as Hg; [congruence|..].
  - rewrite Hf in Hl. symmetry in Hl. by apply str_len_0 in Hl.
  - rewrite Hg in Hl. by apply str_len_0 in Hl.
  - intros H. apply str_app_inj_l in H. by apply str_app_inj_tail in H as [? _].
Qed.

(** C33: the health service of a plugin never dials another plugin on the node: for two
    plugins of different drivers or different pods whose directories are given, whose driver
    names are plain file names and whose pod UIDs have no slash and one length (as the UIDs
    of Kubernetes have, when both are set or neither is), the paths it dials for the
    registration differ, those for DRA differ, and the plugin directories differ if the
    drivers do. *)
Theorem sockets_distinct f g :
  sane f → sane g → str_len (flag_podUID f) = str_len (flag_podUID g) →
  (flag_driverName f, flag_podUID f) ≠ (flag_driverName g, flag_podUID g) →
  regSockPath f ≠ regSockPath g ∧ draSockPath f ≠ draSockPath g ∧
  (flag_driverName f ≠ flag_driverName g → DriverPluginPath f ≠ DriverPluginPath g).
Proof.
  intros Hf Hg Hl Hne. split_and!.
  - intros E. apply Hne. apply Join_inj in E as (_ & _ & E);
      [|apply Hf|apply Hg|by apply (reg_name_plain f)|by apply (reg_name_plain g)].
    by apply reg_name_inj in E as [-> ->].
  - intros E. apply Hne. apply Join_inj in E as (_ & He & E);
      [|by apply Join_nonempty; apply Hf|by apply Join_nonempty; apply Hg|by apply (dra_name_plain f)|by apply (dra_name_plain g)].
    apply dra_name_inj in E as ->; [|done]. f_equal. unfold DriverPluginPath in He.
    destruct (Join_name _ _ (sane_plugins f Hf) (sane_driver f Hf)) as (_ & _ & Ef).
    destruct (Join_name _ _ (sane_plugins g Hg) (sane_driver g Hg)) as (_ & _ & Eg).
    rewrite Ef, Eg in He. by apply app_inj_2 in He as [_ [= ->]].
  - intros Hn E. apply Hn. by apply Join_inj in E as (_ & _ & E); [|apply Hf|apply Hg|apply Hf|apply Hg].
Qed.

(** Without the condition on the lengths they may be one. *)
Example sockets_shared :
  let f name uid := {|
    flag_nodeName := "node1"; flag_cdiRoot := "/etc/cdi"; flag_kubeletRegistrarDirectoryPath := "/reg";
    flag_kubeletPluginsDirectoryPath := "/plugins"; flag_podUID := uid; flag_profile := "nic";
    flag_driverName := name; flag_publishMode := "node"; flag_allocationTimeout := WaitTimeout;
    flag_healthcheckPort := -1; flag_annotateVMIMAC := false |} in
  regSockPath (f "a-x" "") = "/reg/a-x-reg.sock" ∧ regSockPath (f "a" "x") = "/reg/a-x-reg.sock".
Proof. vm_compute. split; reflexivity. Qed.

(** An upgrade: the pod of the new version runs beside the one of the old. *)
Definition flags_of_pod (uid : string) : Flags := {|
  flag_nodeName := "node1"; flag_cdiRoot := "/etc/cdi"; flag_kubeletRegistrarDirectoryPath := "/var/lib/kubelet/plugins_registry";
  flag_kubeletPluginsDirectoryPath := "/var/lib/kubelet/plugins/"; flag_podUID := uid; flag_profile := "nic";
  flag_driverName := "nic.kubeovn.io"; flag_publishMode := "node"; flag_allocationTimeout := WaitTimeout;
  flag_healthcheckPort := -1; flag_annotateVMIMAC := false |}.

Lemma sockets_distinct_witness :
  draSockPath (flags_of_pod "u1") = "/var/lib/kubelet/plugins/nic.kubeovn.io/dra-u1.sock" ∧
  regSockPath (flags_of_pod "u1") ≠ regSockPath (flags_of_pod "u2").
Proof.
  split; [vm_compute; reflexivity|].
  refine (proj1 (sockets_distinct (flags_of_pod "u1") (flags_of_pod "u2") _ _ eq_refl _)); [| |discriminate];
    (split; [discriminate..|split_and!; [reflexivity|discriminate..]|reflexivity]).
Defined.

(** ** The driver name *)

(** An environment variable is not set, or not empty. *)
Definition env_ok (env : string → option string) (e : string) : Prop := env e ≠ Some EmptyString.

Section names.
Context `{CL : CliLaws}.

Lemma string_flag decls env args vals rest name e v :
  NoDup (fl_name <$> decls) → cli_parse decls env args = Ok (vals, rest) →
  {| fl_name := name; fl_value := VString v; fl_required := false; fl_env := [e] |} ∈ decls →
  given args name = false → env_ok env e → get_string vals name = default v (env e).
Proof.
  intros Hnd Hp Hd Hg He. unfold get_string. destruct (env e) as [s|] eqn:E; simpl.
  - assert (vals !! name = Some (VString s)) as ->; [|done].
    apply (cli_env _ _ _ _ _ _ e s v Hnd Hp Hd); [done..|]. intros ->. by apply He.
  - assert (vals !! name = Some (VString v)) as ->; [|done].
    apply (cli_default _ _ _ _ _ _ Hnd Hp Hd); [done..|]. by intros e' ->%list_elem_of_singleton.
Qed.

#[local] Ltac find_flag N P Hg := eapply string_flag; [exact N|exact P|set_solver|apply Hg; set_solver|done].

(** The three commands agree on the driver: run in one environment, without flags for the
    driver name and the profile, the plugin prepares claims for the driver that the webhook
    checks configurations for and that the publisher publishes devices for. *)
Theorem driver_names_agree dirs logs logs' logs'' env args args' args'' vals vals' vals'' rest rest' rest''
    config driver :
  let plugin := pluginFlags dirs.1 dirs.2 ++ KubeClientConfig_Flags ++ LoggingConfig_Flags logs in
  let publisher := publisherFlags ++ KubeClientConfig_Flags ++ LoggingConfig_Flags logs' in
  let webhook := webhookFlags ++ LoggingConfig_Flags logs'' in
  NoDup (fl_name <$> plugin) → NoDup (fl_name <$> publisher) → NoDup (fl_name <$> webhook) →
  cli_parse plugin env args = Ok (vals, rest) → cli_parse publisher env args' = Ok (vals', rest') →
  cli_parse webhook env args'' = Ok (vals'', rest'') →
  (∀ l name, l ∈ [args; args'; args''] → name ∈ ["driver-name"; "device-profile"] → given l name = false) →
  env_ok env "DRIVER_NAME" → env_ok env "DEVICE_PROFILE" →
  app_Action (Flags_of vals) None = Ok config →
  webhook_Action (get_string vals'' "device-profile") (get_string vals'' "driver-name") = Ok driver →
  cfg_driverName config = driver ∧ pf_driverName (PublisherFlags_of vals') = driver.
Proof.
  intros plugin publisher webhook N1 N2 N3 P1 P2 P3 Hg Hd Hp Ha Hw.
  assert (get_string vals "driver-name" = default EmptyString (env "DRIVER_NAME")) as D1
    by find_flag N1 P1 Hg.
  assert (get_string vals "device-profile" = default ProfileName (env "DEVICE_PROFILE")) as D1'
    by find_flag N1 P1 Hg.
  assert (get_string vals' "driver-name" = default "nic.kubeovn.io" (env "DRIVER_NAME")) as D2
    by find_flag N2 P2 Hg.
  assert (get_string vals'' "driver-name" = default EmptyString (env "DRIVER_NAME")) as D3
    by find_flag N3 P3 Hg.
  assert (get_string vals'' "device-profile" = default ProfileName (env "DEVICE_PROFILE")) as D3'
    by find_flag N3 P3 Hg.
  clear N1 N2 N3 P1 P2 P3. unfold app_Action, webhook_Action, validProfileNames, PublisherFlags_of in *. simpl in *.
  rewrite D1, D1' in Ha. rewrite D3, D3' in Hw. rewrite D2.
  case_bool_decide as Hpr; [|done]. simpl in Ha, Hw. injection Ha as <-. injection Hw as <-. simpl.
  split; [done|]. apply list_elem_of_singleton in Hpr as ->. destruct (env "DRIVER_NAME") as [n|] eqn:E; simpl; [|done].
  by rewrite bool_decide_false by (intros ->; by apply Hd).
Qed.

End names.

(** ** A command line package that keeps the laws *)

Module cli.

(** The first [--name=value]. *)
Definition arg_value (args : list string) (name : string) : option string :=
  head (omap (trim_prefix_opt ("--" +:+ name +:+ "=")) args).

Definition parse_value (v : FlagValue) (s : string) : result FlagValue :=
  match v with
  | VString _ => Ok (VString s)
  | VBool _ => Ok (VBool (bool_decide (s = "true")))
  | VInt _ => match Atoi s with Some n => Ok (VInt n) | None => Err (Errorf "invalid value %q" [s]) end
  | VDuration _ => match Atoi s with Some n => Ok (VDuration (n * second)) | None => Err (Errorf "invalid value %q" [s]) end
  | VFloat _ => match Atoi s with Some n => Ok (VFloat (FFin n 0)) | None => Err (Errorf "invalid value %q" [s]) end
  | VGeneric => Ok VGeneric
  end.

Definition flag_value (env : string → option string) (args : list string) (d : FlagDecl) : result FlagValue :=
  match arg_value args (fl_name d) with
  | Some s => parse_value (fl_value d) s
  | None =>
      match head (omap env (fl_env d)) with
      | Some s => parse_value (fl_value d) s
      | None => if fl_required d then Err (Errorf "Required flag %q not set" [fl_name d]) else Ok (fl_value d)
      end
  end.

Fixpoint parse_all (env : string → option string) (args : list string) (decls : list FlagDecl) :
    result (gmap string FlagValue) :=
  match decls with
  | [] => Ok ∅
  | d :: decls => v ← flag_value env args d; m ← parse_all env args decls; Ok (<[fl_name d := v]> m)
  end.

Definition positional (a : string) : bool := match a with String "-" _ => false | _ => true end.

#[export] Instance cli_model : Cli := {|
  cli_parse decls env args := m ← parse_all env args decls; Ok (m, filter (λ a, positional a = true) args);
  VisitAll l := l |}.

Lemma parse_all_lookup env args decls m d :
  NoDup (fl_name <$> decls) → parse_all env args decls = Ok m → d ∈ decls →
  ∃ v, flag_value env args d = Ok v ∧ m !! fl_name d = Some v.
Proof.
  revert m. induction decls as [|x decls IH]; intros m; [set_solver|]. rewrite fmap_cons, NoDup_cons. intros [Hx Hnd].
  simpl. intros (v & Hv & (m' & Hm & [= <-])%bind_Ok)%bind_Ok [->|Hd]%elem_of_cons.
  - exists v. by rewrite lookup_insert_eq.
  - destruct (IH _ Hnd Hm Hd) as (u & Hu & Hl). exists u. split; [done|]. rewrite lookup_insert_ne; [done|].
    intros E. apply Hx. rewrite E. by apply list_elem_of_fmap_2.
Qed.

Lemma not_given args name : given args name = false → arg_value args name = None.
Proof.
  unfold given, arg_value. induction args as [|a args IH]; [done|]. cbn [existsb omap list_omap].
  intros [[[[_ Hp]%orb_false_iff _]%orb_false_iff _]%orb_false_iff Ha]%orb_false_iff.
  apply bool_decide_eq_false in Hp. destruct (trim_prefix_opt _ a) eqn:E; [by destruct Hp|]. by apply IH.
Qed.

Lemma cli_model_laws : CliLaws (C := cli_model).
Proof.
  split.
  - intros decls env args vals rest d Hnd (m & Hm & [= <- _])%bind_Ok Hd Hr Hg He.
    destruct (parse_all_lookup _ _ _ _ _ Hnd Hm Hd) as (v & Hv & ->). unfold flag_value in Hv.
    rewrite (not_given _ _ Hg), Hr in Hv. assert (omap env (fl_env d) = []) as Ho; [|rewrite Ho in Hv; simpl in Hv; congruence].
    revert He. clear. induction (fl_env d) as [|e l IH]; [done|]. intros He. simpl. rewrite (He e) by left. apply IH.
    intros e' ?. apply He. by right.
  - intros decls env args vals rest d e s v Hnd (m & Hm & [= <- _])%bind_Ok Hd Hv Hg He Hs _.
    destruct (parse_all_lookup _ _ _ _ _ Hnd Hm Hd) as (u & Hu & ->). unfold flag_value in Hu.
    rewrite (not_given _ _ Hg), He, Hv in Hu. simpl in Hu. rewrite Hs in Hu. simpl in Hu. congruence.
Qed.

(** The environment of the chart, with the driver name set or left out. *)
Definition chart_env (name : option string) (e : string) : option string :=
  if bool_decide (e = "DRIVER_NAME") then name
  else if bool_decide (e ∈ ["NODE_NAME"; "NAMESPACE"; "POD_NAME"; "OWNER_CLUSTER_ROLE"]) then Some "x" else None.
Definition logging_flags : list string := ["log-flush-frequency"; "logging-format"; "v"; "vmodule"].
Definition kubelet_dirs : string * string := ("/var/lib/kubelet/plugins_registry", "/var/lib/kubelet/plugins").
Definition values (decls : list FlagDecl) (env : string → option string) (args : list string) : gmap string FlagValue :=
  match cli_parse decls env args with Ok (vals, _) => vals | Err _ => ∅ end.

Definition plugin_decls : list FlagDecl :=
  pluginFlags kubelet_dirs.1 kubelet_dirs.2 ++ KubeClientConfig_Flags ++ LoggingConfig_Flags logging_flags.
Definition publisher_decls : list FlagDecl := publisherFlags ++ KubeClientConfig_Flags ++ LoggingConfig_Flags logging_flags.
Definition webhook_decls : list FlagDecl := webhookFlags ++ LoggingConfig_Flags logging_flags.
Definition webhook_args : list string := ["--tls-cert-file=tls.crt"; "--tls-private-key-file=tls.key"].
Definition plugin_config : Config := {|
  cfg_driverName := "nic.kubeovn.io"; cfg_profile := "nic"; cfg_nodeName := "x"; cfg_annotateVMI := false |}.

Lemma names_distinct (decls : list FlagDecl) : bool_decide (NoDup (fl_name <$> decls)) = true → NoDup (fl_name <$> decls).
Proof. apply bool_decide_eq_true_1. Qed.

Lemma values_ok decls env args :
  match cli_parse decls env args with Ok (_, []) => true | _ => false end = true →
  cli_parse decls env args = Ok (values decls env args, []).
Proof. unfold values. by destruct (cli_parse decls env args) as [[vals []]|]. Qed.

Lemma driver_names_agree_witness :
  cfg_driverName plugin_config = "nic.kubeovn.io" ∧
  pf_driverName (PublisherFlags_of (values publisher_decls (chart_env None) [])) = "nic.kubeovn.io".
Proof.
  apply (driver_names_agree (CL := cli_model_laws) kubelet_dirs logging_flags logging_flags logging_flags (chart_env None)
    [] [] webhook_args (values plugin_decls (chart_env None) []) (values publisher_decls (chart_env None) [])
    (values webhook_decls (chart_env None) webhook_args) [] [] [] plugin_config "nic.kubeovn.io").
  - apply names_distinct. vm_compute. reflexivity.
  - apply names_distinct. vm_compute. reflexivity.
  - apply names_distinct. vm_compute. reflexivity.
  - apply values_ok. vm_compute. reflexivity.
  - apply values_ok. vm_compute. reflexivity.
  - apply values_ok. vm_compute. reflexivity.
  - intros l name Hl Hn. repeat (apply elem_of_cons in Hl as [->|Hl]); [..|by apply not_elem_of_nil in Hl];
      (repeat (apply elem_of_cons in Hn as [->|Hn]); [..|by apply not_elem_of_nil in Hn]); vm_compute; reflexivity.
  - discriminate.
  - discriminate.
  - vm_compute. reflexivity.
  - vm_compute. reflexivity.
Defined.

(** What the chart's driver name comes to, and the exit codes of the command. *)
Example run_examples :
  let start (c : Config) : result (Driver () () ()) := Err (External "no API server") in
  let clients := {| inClusterConfig := Ok "https://10.0.0.1"; buildConfigFromFlags _ := Err (NotFound "file");
                    float32 f := f; newCore _ := None; newDynamic _ := None |} in
  let plugin := newApp kubelet_dirs logging_flags None clients {| MkdirAll _ := None; StatDir _ := Ok true |} start (chart_env None) in
  let publisher := newPublisherApp logging_flags None clients (λ _ _, Some (Wrapf "sync informers: %w" [] (External Canceled)))
                     (chart_env None) in
  main plugin publisher ["plugin"; "publisher"] = 0%Z ∧ main plugin publisher ["plugin"; "publisher"; "x"] = 1%Z ∧
  main plugin publisher ["plugin"] = 1%Z ∧
  plugin ["publisher"] = Err (Errorf "arguments not supported: %v" ["publisher"]).
Proof. vm_compute. split_and!; reflexivity. Qed.

End cli.
