(* ===== verification/Watch.v ===== *)
(** * Following the cluster (internal/profiles/nic/nic.go, cmd/kube-ovn-dra-kubeletplugin/refresh.go, publisher.go)

    The plugin and the publisher watch the API server and run a loop that refreshes the
    devices after a change.  A handler puts a token into a channel of capacity one; the
    loop takes it, waits for the other changes of a burst, drops the token that came
    meanwhile and refreshes.  The plugin's watch passes on additions, deletions and
    changes of a spec; the publisher's passes on everything.

    The loop is a step relation, parametrised by the cluster, the events and the round
    of refresh and publish.  A change of the cluster and the delivery of its event are
    separate steps, so events may arrive in any phase of the loop; the reads of one round
    see the cluster at one moment. *)

From S2P Require Import Prelude K8s NicConfig Subnet Pools Profile.

(** ** The loop (refreshDevicesLoop) *)

Inductive Phase :=
  | Waiting     (** for a token *)
  | Delaying    (** for [delay] to pass *)
  | Refreshing  (** the token that came meanwhile is dropped *)
  | Stopped.    (** the context is done *)

#[export] Instance Phase_eq_dec : EqDecision Phase.
Proof. solve_decision. Defined.

Record Loop (C E S : Type) := {
  l_cluster : C;
  (** events the informers have yet to deliver *)
  l_queue : list E;
  (** whether the channel holds a token *)
  l_trigger : bool;
  l_phase : Phase;
  l_state : S;
  (** whether the last round failed to refresh *)
  l_failed : bool;
}.
Arguments l_cluster {C E S}. Arguments l_queue {C E S}. Arguments l_trigger {C E S}.
Arguments l_phase {C E S}. Arguments l_state {C E S}. Arguments l_failed {C E S}.

Section loop.
Context {C E S : Type}.
(** How the cluster changes, with the event of the change; which events the handlers pass
    on; a round, with whether its refresh succeeded; and what else changes the state. *)
Context (cstep : C → E → C → Prop) (fires : E → bool).
Context (round : C → S → S → bool → Prop) (other : C → S → S → Prop).

Implicit Types l : Loop C E S.

(** What the handlers and the loop do by themselves. *)
Inductive own_step : Loop C E S → Loop C E S → Prop :=
  | loop_deliver l e q :
      l_queue l = e :: q →
      own_step l {| l_cluster := l_cluster l; l_queue := q; l_trigger := l_trigger l || fires e;
                    l_phase := l_phase l; l_state := l_state l; l_failed := l_failed l |}
  | loop_take l :
      l_phase l = Waiting → l_trigger l = true →
      own_step l {| l_cluster := l_cluster l; l_queue := l_queue l; l_trigger := false;
                    l_phase := Delaying; l_state := l_state l; l_failed := l_failed l |}
  | loop_drain l :
      l_phase l = Delaying →
      own_step l {| l_cluster := l_cluster l; l_queue := l_queue l; l_trigger := false;
                    l_phase := Refreshing; l_state := l_state l; l_failed := l_failed l |}
  | loop_round l s ok :
      l_phase l = Refreshing → round (l_cluster l) (l_state l) s ok →
      own_step l {| l_cluster := l_cluster l; l_queue := l_queue l; l_trigger := l_trigger l;
                    l_phase := Waiting; l_state := s; l_failed := negb ok |}.

Inductive loop_step : Loop C E S → Loop C E S → Prop :=
  | step_own l l' : own_step l l' → loop_step l l'
  | step_change l e c :
      cstep (l_cluster l) e c →
      loop_step l {| l_cluster := c; l_queue := l_queue l ++ [e]; l_trigger := l_trigger l;
                     l_phase := l_phase l; l_state := l_state l; l_failed := l_failed l |}
  | step_other l s :
      other (l_cluster l) (l_state l) s →
      loop_step l {| l_cluster := l_cluster l; l_queue := l_queue l; l_trigger := l_trigger l;
                     l_phase := l_phase l; l_state := s; l_failed := l_failed l |}
  | step_done l :
      l_phase l ≠ Refreshing →
      loop_step l {| l_cluster := l_cluster l; l_queue := l_queue l; l_trigger := l_trigger l;
                     l_phase := Stopped; l_state := l_state l; l_failed := l_failed l |}.

(** Nothing is left to do: the loop waits, and no event on its way gives it a token. *)
Definition settled l : Prop :=
  l_phase l = Waiting ∧ l_trigger l = false ∧ Forall (λ e, fires e = false) (l_queue l).

(** *** A bound on the steps of the loop *)

Definition phase_cost (p : Phase) : nat :=
  match p with Delaying => 2 | Refreshing => 1 | _ => 0 end.
Definition loop_cost l : nat :=
  4 * length (l_queue l) + 3 * Nat.b2n (l_trigger l) + phase_cost (l_phase l).

Lemma own_step_cost l l' : own_step l l' → (loop_cost l' < loop_cost l)%nat.
Proof.
  unfold loop_cost. intros [k e q Hq|k Hp Ht|k Hp|k s ok Hp Hr]; simpl; rewrite ?Hp, ?Ht, ?Hq; simpl;
    destruct (l_trigger k); simpl; try destruct (fires e); simpl; lia.
Qed.

Lemma own_steps_bound n l l' : nsteps own_step n l l' → (n + loop_cost l' ≤ loop_cost l)%nat.
Proof. induction 1 as [|n x y z Hs%own_step_cost _ IH]; lia. Qed.

Lemma own_step_stuck l :
  (∀ c s, ∃ s' ok, round c s s' ok) → (∀ l', ¬ own_step l l') → l_phase l ≠ Stopped →
  settled l ∧ l_queue l = [].
Proof.
  intros Htot Hstuck Hp. assert (l_queue l = []) as Hq.
  { destruct (l_queue l) eqn:Eq; [done|]. edestruct Hstuck. by eapply loop_deliver. }
  unfold settled. rewrite Hq. split; [|done]. destruct (l_phase l) eqn:Ep; [|exfalso..|done].
  - destruct (l_trigger l) eqn:Et; [edestruct Hstuck; by apply loop_take|]. by repeat split.
  - edestruct Hstuck. by apply loop_drain.
  - destruct (Htot (l_cluster l) (l_state l)) as (s' & ok & Hr). edestruct Hstuck. by eapply loop_round.
Qed.

(** *** No change is lost *)

(** [current c s]: the state reflects the cluster. *)
Context (current : C → S → Prop).

Class Follows : Prop := {
  quiet c e c' s : cstep c e c' → fires e = false → current c s → current c' s;
  round_current c s s' : round c s s' true → current c s';
  other_current c s s' : other c s s' → current c s → current c s';
}.
Context `{!Follows}.

Definition loop_inv l : Prop := settled l → l_failed l = false → current (l_cluster l) (l_state l).

Lemma loop_step_inv l l' : loop_step l l' → loop_inv l → loop_inv l'.
Proof.
  intros [k k' [j e q Hq|j|j|j s ok Hp Hr]|k e c Hc|k s Ho|k] Hi (Hph & Ht & Hf); simpl in *; intros Hok; try done.
  - apply orb_false_iff in Ht as [Ht He]. apply Hi; [|done]. split_and!; [done..|]. rewrite Hq. by constructor.
  - destruct ok; [|done]. by eapply round_current.
  - apply Forall_app in Hf as [Hf He]. rewrite Forall_singleton in He. eapply quiet; [exact Hc|exact He|]. by apply Hi.
  - eapply other_current; [exact Ho|]. by apply Hi.
Qed.

Lemma loop_reachable_inv l l' : rtc loop_step l l' → loop_inv l → loop_inv l'.
Proof. induction 1; eauto using loop_step_inv. Qed.

End loop.

(** ** The watch of the NIC profile *)

(** apimachinery's [equality.Semantic.DeepEqual], on a decoded JSON value and on labels. *)
Class Semantic := {
  spec_DeepEqual : option value → option value → bool;
  labels_DeepEqual : gmap string string → gmap string string → bool;
}.

(** The scalar that a map holds under a key. *)
Definition scalar_at (v : option value) (key : string) : option value :=
  m ← as_map v;
  match obj_get m key with
  | Some (VMap _) | Some (VList _) | None => None
  | Some x => Some x
  end.

(** Both are maps with the same scalars, or neither is a map. *)
Definition like (a b : option value) : Prop :=
  (is_Some (as_map a) ↔ is_Some (as_map b)) ∧ ∀ key, scalar_at a key = scalar_at b key.

Class SemanticLaws `{SE : Semantic} : Prop := {
  spec_equal_like a b : spec_DeepEqual a b = true → like a b;
  labels_equal a b : labels_DeepEqual a b = true → a = b;
}.

(** What an informer tells its handlers; an object of another type is [None]. *)
Inductive WatchEvent :=
  | Added
  | Updated (oldObj newObj : option Unstructured)
  | Deleted
  | NodeUpdated (oldObj newObj : option Unstructured).

(** The Subnets in the order the API server lists them, the Vlans, and the node of the
    plugin, which is there as long as the plugin runs. *)
Record Cluster := {
  c_subnets : list Unstructured;
  c_vlans : gmap string Unstructured;
  c_node : Unstructured;
}.

Inductive cluster_step : Cluster → WatchEvent → Cluster → Prop :=
  | subnet_added c i u :
      cluster_step c Added
        {| c_subnets := take i (c_subnets c) ++ u :: drop i (c_subnets c); c_vlans := c_vlans c; c_node := c_node c |}
  | subnet_updated c i u u' :
      c_subnets c !! i = Some u → GetName u' = GetName u →
      cluster_step c (Updated (Some u) (Some u'))
        {| c_subnets := <[i := u']> (c_subnets c); c_vlans := c_vlans c; c_node := c_node c |}
  | subnet_deleted c i :
      cluster_step c Deleted
        {| c_subnets := delete i (c_subnets c); c_vlans := c_vlans c; c_node := c_node c |}
  | vlan_added c name v :
      cluster_step c Added
        {| c_subnets := c_subnets c; c_vlans := <[name := v]> (c_vlans c); c_node := c_node c |}
  | vlan_updated c name v v' :
      c_vlans c !! name = Some v →
      cluster_step c (Updated (Some v) (Some v'))
        {| c_subnets := c_subnets c; c_vlans := <[name := v']> (c_vlans c); c_node := c_node c |}
  | vlan_deleted c name :
      cluster_step c Deleted
        {| c_subnets := c_subnets c; c_vlans := delete name (c_vlans c); c_node := c_node c |}
  | node_updated c n :
      cluster_step c (NodeUpdated (Some (c_node c)) (Some n))
        {| c_subnets := c_subnets c; c_vlans := c_vlans c; c_node := n |}.

(** What the API server answers. *)
Definition from_option (name : string) (o : option Unstructured) : result Unstructured :=
  match o with Some u => Ok u | None => Err (NotFound name) end.

Definition api_of (c : Cluster) : Api := {|
  list_subnets := Ok (c_subnets c);
  get_subnet name := from_option name (List.find (λ u, bool_decide (GetName u = name)) (c_subnets c));
  get_vlan name := from_option name (c_vlans c !! name);
  get_node _ := Ok (c_node c) |}.

(** The API server answers from the cluster, or with an error. *)
Definition or_fails {A} (got want : result A) : Prop := got = want ∨ is_ok got = false.
Definition answers (c : Cluster) (api : Api) : Prop :=
  or_fails (list_subnets api) (list_subnets (api_of c)) ∧
  (∀ name, or_fails (get_subnet api name) (get_subnet (api_of c) name)) ∧
  (∀ name, or_fails (get_vlan api name) (get_vlan (api_of c) name)) ∧
  (∀ name, or_fails (get_node api name) (get_node (api_of c) name)).

Section watch.
Context `{K : K8s} `{G : GoImpl} `{SE : Semantic}.

Definition specEqual (oldObj newObj : option Unstructured) : bool :=
  match oldObj, newObj with
  | Some oldU, Some newU => spec_DeepEqual (obj_get (Object oldU) "spec") (obj_get (Object newU) "spec")
  | _, _ => false
  end.

(** Whether the handlers of [WatchDevices] call [onChange]. *)
Definition WatchDevices (e : WatchEvent) : bool :=
  match e with
  | Added | Deleted => true
  | Updated oldObj newObj => negb (specEqual oldObj newObj)
  | NodeUpdated oldObj newObj =>
      match oldObj, newObj with
      | Some oldU, Some newU => negb (labels_DeepEqual (GetLabels oldU) (GetLabels newU))
      | _, _ => true
      end
  end.

(** *** Clusters with the same devices *)

(** Objects that differ in their status and metadata only. *)
Definition same_spec (u u' : Unstructured) : Prop :=
  GetName u = GetName u' ∧ like (obj_get (Object u) "spec") (obj_get (Object u') "spec").

(** Subnets that differ in what is read from the status and metadata only. *)
Definition same_device (s t : Subnet) : Prop :=
  Subnet_Name s = Subnet_Name t ∧ Subnet_Provider s = Subnet_Provider t ∧ Subnet_VPC s = Subnet_VPC t ∧
  Subnet_VlanID s = Subnet_VlanID t ∧ Subnet_ProviderNetwork s = Subnet_ProviderNetwork t ∧
  Enabled (Subnet_V4 s) = Enabled (Subnet_V4 t) ∧ Enabled (Subnet_V6 s) = Enabled (Subnet_V6 t).

Lemma same_device_Device s t : same_device s t → Device_of s false = Device_of t false.
Proof.
  intros (Hn & Hp & Hv & Hi & Hw & _). unfold Device_of, Device_attrs, Subnet_Type. by rewrite Hn, Hp, Hv, Hi, Hw.
Qed.
Lemma same_device_Publishable s t : same_device s t → Publishable s = Publishable t.
Proof. intros (Hn & Hp & _ & _ & _ & H4 & H6). unfold Publishable. by rewrite Hn, Hp, H4, H6. Qed.
Lemma same_device_ready_on labels s t : same_device s t → ready_on labels s = ready_on labels t.
Proof. intros (_ & _ & _ & _ & Hw & _). unfold ready_on. by rewrite Hw. Qed.

Context `{KL : !K8sLaws} `{SL : !SemanticLaws}.

Lemma get_string_scalar v key :
  get_string (as_map v) key = match scalar_at v key with Some (VString s) => s | _ => EmptyString end.
Proof.
  unfold get_string, scalar_at. destruct (as_map v) as [m|]; [|done]. simpl. by destruct (obj_get m key) as [[]|].
Qed.

Lemma like_string a b key : like a b → get_string (as_map a) key = get_string (as_map b) key.
Proof. intros [_ He]. by rewrite !get_string_scalar, (He key). Qed.

Lemma like_ParseVlan v v' :
  like (obj_get (Object v) "spec") (obj_get (Object v') "spec") → ParseVlan v = ParseVlan v'.
Proof.
  intros He. unfold ParseVlan. f_equal; [|by apply like_string].
  destruct He as [_ Hs]. specialize (Hs "id"). unfold scalar_at in Hs.
  destruct (as_map (obj_get (Object v) "spec")) as [m|], (as_map (obj_get (Object v') "spec")) as [m'|];
    simpl in *; try done.
  - by destruct (obj_get m "id") as [[]|], (obj_get m' "id") as [[]|]; simplify_eq.
  - by destruct (obj_get m "id") as [[]|]; simplify_eq.
  - by destruct (obj_get m' "id") as [[]|]; simplify_eq.
Qed.

Lemma same_spec_has_spec u u' : same_spec u u' → has_spec u = has_spec u'.
Proof.
  intros [_ [Hm _]]. unfold has_spec.
  destruct (as_map (obj_get (Object u) "spec")), (as_map (obj_get (Object u') "spec")); [done|..|done];
    exfalso; destruct Hm as [H1 H2]; [destruct H1|destruct H2]; eauto; done.
Qed.

(** Parsing yields Subnets with the same device, or the same error. *)
Definition same_result (a b : result Subnet) : Prop :=
  match a, b with
  | Ok s, Ok t => same_device s t
  | Err e, Err e' => e = e'
  | _, _ => False
  end.

Lemma same_spec_ParseSubnet u u' vlans vlans' :
  same_spec u u' → (∀ name, vlans name = vlans' name) →
  same_result (ParseSubnet u vlans) (ParseSubnet u' vlans').
Proof.
  intros [Hn He] Hv.
  pose proof (like_string _ _ "vlan" He) as Hvl. pose proof (like_string _ _ "cidrBlock" He) as Hci.
  pose proof (like_string _ _ "provider" He) as Hpr. pose proof (like_string _ _ "vpc" He) as Hvp.
  pose proof He as [[H1 H2] _]. unfold ParseSubnet. rewrite !nested_map.
  destruct (obj_get (Object u) "spec") as [[]|], (obj_get (Object u') "spec") as [[]|]; simpl in *;
    try (by rewrite Hn); try (by destruct H1; eauto); try (by destruct H2; eauto).
  rewrite <- Hvl, <- Hci, <- Hpr, <- Hvp, <- Hn, <- Hv.
  case_decide; simpl; [by destruct (cidr_families _ _ _)|].
  destruct (vlans _) as [x|]; [|done]. simpl. case_decide; simpl; by destruct (cidr_families _ _ _).
Qed.

(** What a round reads is the same: the specs, and the labels of the node. *)
Definition alike (c c' : Cluster) : Prop :=
  Forall2 same_spec (c_subnets c) (c_subnets c') ∧
  (∀ name, ParseVlan <$> (c_vlans c !! name) = ParseVlan <$> (c_vlans c' !! name)) ∧
  GetLabels (c_node c) = GetLabels (c_node c').

Lemma vlans_of_alike c c' name : alike c c' → vlans_of (api_of c) name = vlans_of (api_of c') name.
Proof.
  intros (_ & Hv & _). specialize (Hv name). unfold vlans_of. simpl.
  destruct (c_vlans c !! name), (c_vlans c' !! name); simpl in *; try done. by apply (inj Some) in Hv as ->.
Qed.

Lemma enumerate_alike c c' labels objs objs' p devs :
  alike c c' → Forall2 same_spec objs objs' →
  enumerate (api_of c) labels objs p devs = enumerate (api_of c') labels objs' p devs.
Proof.
  intros Ha Hf. revert p devs. induction Hf as [|u u' objs objs' Hu Hf IH]; intros p devs; [done|]. simpl.
  rewrite <- (same_spec_has_spec u u' Hu). destruct (has_spec u); simpl; [|apply IH].
  pose proof (same_spec_ParseSubnet u u' (vlans_of (api_of c)) (vlans_of (api_of c')) Hu
    (λ name, vlans_of_alike c c' name Ha)) as Hr.
  destruct (ParseSubnet u _) as [s|e], (ParseSubnet u' _) as [t|e']; simpl in Hr; [|done|done|by subst].
  rewrite <- (same_device_Publishable s t Hr), <- (same_device_ready_on labels s t Hr).
  destruct (Publishable s); [apply IH|]. destruct (ready_on labels s); simpl; [|apply IH].
  rewrite <- (same_device_Device s t Hr). destruct Hr as (Hn & _). rewrite <- Hn. apply IH.
Qed.

Lemma nic_EnumerateDevices_alike c c' p :
  alike c c' → nic_EnumerateDevices (api_of c) p = nic_EnumerateDevices (api_of c') p.
Proof.
  intros Ha. unfold nic_EnumerateDevices. simpl. pose proof Ha as (Hs & _ & Hl). rewrite <- Hl.
  by rewrite (enumerate_alike c c' _ _ (c_subnets c')).
Qed.

#[global] Instance like_refl : Reflexive like.
Proof. by intros a. Qed.
#[global] Instance same_spec_refl : Reflexive same_spec.
Proof. intros u. split; reflexivity. Qed.

(** A change that the handlers keep to themselves does not matter to a round. *)
Lemma quiet_alike c e c' : cluster_step c e c' → WatchDevices e = false → alike c c'.
Proof.
  intros [k i u|k i u u' Hu Hn|k i|k n v|k n v v' Hv|k n|k n] He; simpl in He; try done.
  - split_and!; [|done..]. simpl. apply negb_false_iff, spec_equal_like in He.
    rewrite <- (list_insert_id (c_subnets k) i u Hu) at 1. apply Forall2_insert; [reflexivity|by split].
  - split_and!; [reflexivity| |done].
    apply negb_false_iff, spec_equal_like in He. intros name. simpl.
    destruct (decide (name = n)) as [->|Hne]; [|by rewrite lookup_insert_ne].
    rewrite lookup_insert_eq, Hv. simpl. f_equal. by apply like_ParseVlan.
  - apply negb_false_iff, labels_equal in He. split_and!; [reflexivity|done..].
Qed.

End watch.

(** ** A concrete instance

    The laws can hold: equality of decoded values, whatever the order of a map's keys. *)
#[local] Instance f64_eq_dec : EqDecision f64.
Proof. solve_decision. Defined.

Fixpoint value_equal (a b : value) : bool :=
  match a, b with
  | VNull, VNull => true
  | VBool x, VBool y => bool_decide (x = y)
  | VInt64 x, VInt64 y => bool_decide (x = y)
  | VInt x, VInt y => bool_decide (x = y)
  | VFloat64 x, VFloat64 y => bool_decide (x = y)
  | VString x, VString y => bool_decide (x = y)
  | VList l, VList l' =>
      (fix go l l' := match l, l' with
                      | [], [] => true
                      | x :: l, y :: l' => value_equal x y && go l l'
                      | _, _ => false
                      end) l l'
  | VMap m, VMap m' =>
      (fix go m := match m with
                   | [] => true
                   | (k, v) :: m => match obj_get m' k with Some v' => value_equal v v' | None => false end && go m
                   end) m
      && forallb (λ kv, match obj_get m kv.1 with Some _ => true | None => false end) m'
  | _, _ => false
  end.

Lemma value_equal_map m m' key :
  value_equal (VMap m) (VMap m') = true →
  match obj_get m key, obj_get m' key with
  | Some v, Some v' => value_equal v v' = true
  | None, None => True
  | _, _ => False
  end.
Proof.
  cbn [value_equal]. intros [Hm Hk]%andb_true_iff. destruct (obj_get m key) as [v|] eqn:E.
  - clear Hk. induction m as [|[k w] m IH]; [done|]. apply andb_true_iff in Hm as [Hw Hm]. simpl in E.
    case_decide as Hd; [|by apply IH]. injection E as ->. subst k. by destruct (obj_get m' key).
  - clear Hm. induction m' as [|[k w] m' IH]; [done|]. apply andb_true_iff in Hk as [Hw Hk]. simpl in *.
    case_decide as Hd; [subst; by rewrite E in Hw|]. by apply IH.
Qed.

Definition semantic_model : Semantic := {|
  spec_DeepEqual a b := match a, b with
                        | Some a, Some b => value_equal a b
                        | None, None => true
                        | _, _ => false
                        end;
  labels_DeepEqual a b := bool_decide (a = b);
|}.

Lemma semantic_model_laws : SemanticLaws (SE := semantic_model).
Proof.
  split; [|intros a b; apply bool_decide_eq_true].
  intros [a|] [b|]; simpl; try done. intros He. split.
  - destruct a, b; done.
  - intros key. unfold scalar_at. destruct a as [| | | | | | |m], b as [| | | | | | |m']; try done. simpl.
    pose proof (value_equal_map m m' key He) as Hk.
    destruct (obj_get m key) as [[]|], (obj_get m' key) as [[]|]; try done;
      cbn [value_equal] in Hk; apply bool_decide_eq_true in Hk; by subst.
Qed.
