(* ===== verification/Follow.v ===== *)
(** * The plugin and the publisher follow the cluster (refresh.go, driver.go, publisher.go)

    The refresh loop of [Watch] at work in the two programs: in the kubelet plugin, beside
    everything else the plugin does, and in the publisher, on the informers' stores. *)

From S2P Require Import Prelude K8s NicConfig Subnet Held Pools Annotation Store NicPrepare Profile Snapshot Cdi Checkpoint.
From S2P Require Import State StateProps Lifecycle Sandbox Nri System Driver Watch.

(** ** An enumeration that succeeds has read the cluster right *)

Section answers.
Context `{K : K8s} `{G : GoImpl} `{SE : Semantic}.

Lemma or_fails_Ok {A} (got want : result A) x : or_fails got want → got = Ok x → want = Ok x.
Proof. intros [->|Hf] Hx; [done|]. by rewrite Hx in Hf. Qed.

Lemma ParseSubnet_vlans obj vlans vlans' s :
  (∀ name x, vlans name = Ok x → vlans' name = Ok x) → ParseSubnet obj vlans = Ok s → ParseSubnet obj vlans' = Ok s.
Proof.
  intros Hv. unfold ParseSubnet. destruct (NestedMap _ _) as [[spec|]|]; [|done..]. case_decide; [done|].
  destruct (vlans _) as [x|] eqn:E; [|done]. by rewrite (Hv _ _ E).
Qed.

Lemma enumerate_answers c api labels objs p devs devs' p' :
  answers c api → enumerate api labels objs p devs = (Ok devs', p') →
  enumerate (api_of c) labels objs p devs = (Ok devs', p').
Proof.
  intros (_ & _ & Hv & _). revert p devs. induction objs as [|u objs IH]; intros p devs; [done|]. simpl.
  destruct (has_spec u); simpl; [|apply IH]. destruct (ParseSubnet u (vlans_of api)) as [s|] eqn:E; [|done].
  rewrite (ParseSubnet_vlans u (vlans_of api) (vlans_of (api_of c)) s); [|clear E|done].
  - destruct (Publishable s); [apply IH|]. destruct (ready_on labels s); simpl; apply IH.
  - intros name x. unfold vlans_of. destruct (get_vlan api name) as [v|] eqn:E; [|done].
    by rewrite (or_fails_Ok _ _ v (Hv name) E).
Qed.

Lemma nic_EnumerateDevices_answers c api p r p' :
  answers c api → nic_EnumerateDevices api p = (Ok r, p') → nic_EnumerateDevices (api_of c) p = (Ok r, p').
Proof.
  intros Ha. pose proof Ha as (Hl & _ & _ & Hn). unfold nic_EnumerateDevices.
  destruct (list_subnets api) as [objs|] eqn:El; [|done]. rewrite (or_fails_Ok _ _ objs Hl eq_refl).
  destruct (get_node api _) as [node|] eqn:En; [|done]. rewrite (or_fails_Ok _ _ node (Hn _) En).
  destruct (enumerate api _ _ _ _) as [[devs|] q] eqn:E; [|done]. by rewrite (enumerate_answers c api _ _ _ _ devs q Ha E).
Qed.

(** The devices do not depend on what the profile remembers. *)
Definition same_node (p q : NicProfile) : Prop := nodeName p = nodeName q.

Lemma enumerate_node api labels objs p q devs :
  same_node p q →
  (enumerate api labels objs p devs).1 = (enumerate api labels objs q devs).1 ∧
  same_node (enumerate api labels objs p devs).2 (enumerate api labels objs q devs).2 ∧
  same_node (enumerate api labels objs p devs).2 p.
Proof.
  revert p q devs. induction objs as [|u objs IH]; intros p q devs Hn; [done|]. simpl.
  destruct (negb _); [by apply IH|]. destruct (ParseSubnet u _) as [s|]; [|done].
  destruct (Publishable s); [by apply IH|]. destruct (negb _); [by apply IH|].
  destruct (IH (store_subnet p (Device_Name (Device_of s false)) (Subnet_Name s))
    (store_subnet q (Device_Name (Device_of s false)) (Subnet_Name s)) (devs ++ [Device_of s false])) as (H1 & H2 & H3); done.
Qed.

Lemma nic_EnumerateDevices_node api p q :
  same_node p q →
  (nic_EnumerateDevices api p).1 = (nic_EnumerateDevices api q).1 ∧ same_node (nic_EnumerateDevices api p).2 p.
Proof.
  intros Hn. unfold nic_EnumerateDevices. rewrite <- Hn. destruct (list_subnets api) as [objs|]; [|done].
  destruct (get_node api _) as [node|]; [|done].
  destruct (enumerate_node api (GetLabels node) objs p q [] Hn) as (H1 & H2 & H3).
  destruct (enumerate api _ _ p _) as [r p'], (enumerate api _ _ q _) as [r' q']. simpl in *. subst r'.
  destruct r; simpl; [|done]. by rewrite H2.
Qed.

End answers.

(** ** The kubelet plugin *)

Section plugin.
Context `{K : K8s} `{G : GoImpl} `{PO : Poller} `{CDI0 : CDI} `{CD : ConfigDecoder} `{SE : Semantic}.
Context {D W : Type} `{M : CheckpointManager D} `{A : Attacher W} `{V : Datapath W}.
Context `{KL : !K8sLaws} `{SL : !SemanticLaws}.

Implicit Types (d : Driver NicProfile D W) (sys : System NicProfile D W) (st : DeviceState NicProfile D).

(** A round of the loop, with the API server and [PublishResources] answering somehow. *)
Definition plugin_round (c : Cluster) d d' (ok : bool) : Prop :=
  ∃ api answer, answers c api ∧ ok = is_ok (RefreshDevices api (sys_state (d_sys d))).1 ∧
    d' = driver_round api answer d.

(** What else happens in the same process. *)
Definition not_loop (ev : event (P := NicProfile) (W := W)) : Prop :=
  match ev with EvRefresh _ _ | EvRestart _ _ _ _ => False | _ => True end.
Definition with_sys d sys : Driver NicProfile D W := {|
  d_sys := sys; d_mode := d_mode d; d_published := d_published d; d_lost := d_lost d; d_health := d_health d |}.
Definition plugin_other (c : Cluster) d d' : Prop :=
  ∃ ev sys', not_loop ev ∧ step (d_sys d) ev sys' ∧ d' = with_sys d sys'.

(** The devices of the state are those of the cluster. *)
Definition sys_current (c : Cluster) sys : Prop :=
  (nic_EnumerateDevices (api_of c) (profile (sys_state sys))).1 = Ok (driverResources (sys_state sys)).
Definition plugin_current (c : Cluster) d : Prop := sys_current c (d_sys d).

(** *** Only the loop changes the devices to publish *)

Definition same_devices st st' : Prop :=
  driverResources st = driverResources st' ∧ same_node (profile st) (profile st').
#[local] Instance same_devices_equiv : Equivalence same_devices.
Proof. unfold same_devices, same_node. split; [done|intros ?? []; by split|intros ??? [] []; split; congruence]. Qed.

Lemma checkAllocatable_devices env st k device : same_devices (checkAllocatable env st k device).1.2 st.
Proof.
  unfold checkAllocatable. destruct (allocatable st !! device); [reflexivity|].
  pose proof (nic_EnumerateDevices_node (env_enumerate env k) (profile st) (profile st) eq_refl) as [_ Hn].
  simpl. destruct (nic_EnumerateDevices _ _) as [[r|] p]; simpl; [destruct (allocatableDevices _ _ !! device)|]; done.
Qed.

Lemma group_results_devices env st k configs results m :
  same_devices (group_results env st k configs results m).2 st.
Proof.
  revert st k m. induction results as [|x results IH]; intros st k m; simpl; [reflexivity|].
  destruct (negb _); [apply IH|]. pose proof (checkAllocatable_devices env st k (Res_Device x)) as Hc.
  destruct (checkAllocatable _ _ _ _) as [[[e|] st1] k1]; [done|]. simpl in Hc. by rewrite IH.
Qed.

Lemma prepareDevices_devices env st claim : same_devices (prepareDevices env st claim).2 st.
Proof.
  unfold prepareDevices, resultsByConfig. destruct (Claim_Allocation claim) as [a|]; [|reflexivity].
  destruct (GetOpaqueDeviceConfigs _ _) as [configs|]; [|reflexivity].
  pose proof (group_results_devices env st 0 (default_config :: configs) (Alloc_Results a) ∅) as Hg.
  destruct (group_results _ _ _ _ _ _) as [[m|] st1]; simpl in *; [|done].
  destruct (apply_configs _ _ _ _) as [[edits cs]|]; [|done].
  destruct (if isNIC st1 then _ else _); [done|]. rewrite <- Hg. unfold nic_configs, resolveNICs.
  destruct (isNIC st1); [|done]. by destruct (errors_join _).
Qed.

Lemma Prepare_devices_kept env st claim : same_devices (Prepare env st claim).2 st.
Proof.
  unfold Prepare. destruct (GetCheckpoint _) as [cs|]; [|reflexivity]. destruct (cs !! _); [reflexivity|].
  pose proof (prepareDevices_devices env st claim) as Hp. destruct (prepareDevices _ _ _) as [[ds|] st1]; [|done].
  simpl in Hp. rewrite <- Hp. destruct (CreateClaimSpecFile _ _ _ _) as [[e|] files]; [done|].
  by destruct (CreateCheckpoint _ _) as [[e|] d].
Qed.

Lemma Unprepare_devices_kept st uid : same_devices (Unprepare st uid).2 st.
Proof. unfold Unprepare, unprepareDevices. repeat (case_match; simplify_eq/=); done. Qed.

Lemma step_devices sys ev sys' :
  not_loop ev → step sys ev sys' → same_devices (sys_state sys') (sys_state sys).
Proof.
  intros Hev Hs. destruct Hs; simpl; try done; try reflexivity.
  - unfold PrepareResourceClaims. generalize (∅ : gmap string (result (list KubeletDevice))) 0.
    induction claims as [|cl claims IH] in sys |- *; intros results i; simpl; [reflexivity|].
    pose proof (Prepare_devices_kept (envs i) (sys_state sys) cl) as Hp. unfold prepareResourceClaim.
    destruct (_ && _); [apply IH|]. destruct (Prepare _ _ _) as [[ds|] st1]; simpl in Hp; by rewrite IH.
  - clear. unfold UnprepareResourceClaims. generalize (∅ : gmap string (option error)).
    induction uids as [|u uids IH] in sys |- *; intros results; simpl; [reflexivity|].
    pose proof (Unprepare_devices_kept (sys_state sys) u) as Hp. unfold unprepareResourceClaim.
    destruct (Unprepare _ _) as [[e|] st1]; simpl in Hp; by rewrite IH.
Qed.

(** *** A round makes them those of the cluster *)

Lemma RefreshDevices_Ok c api st r ch st' :
  answers c api → RefreshDevices api st = (Ok (r, ch), st') →
  (nic_EnumerateDevices (api_of c) (profile st')).1 = Ok (driverResources st').
Proof.
  intros Ha. unfold RefreshDevices. simpl.
  pose proof (nic_EnumerateDevices_node api (profile st) (profile st) eq_refl) as [_ Hn].
  destruct (nic_EnumerateDevices api (profile st)) as [[r'|] p'] eqn:E; [|done]. simpl in Hn.
  apply (nic_EnumerateDevices_answers c) in E; [|done].
  destruct (nic_EnumerateDevices_node (api_of c) p' (profile st) Hn) as [Hr _]. rewrite E in Hr. simpl in Hr.
  destruct (DeepEqual r' (driverResources st)) eqn:Ed; intros [= <- <- <-]; simpl; [|done].
  apply deep_equal in Ed. by rewrite <- Ed.
Qed.

Lemma driver_round_state api answer d :
  sys_state (d_sys (driver_round api answer d)) = (RefreshDevices api (sys_state (d_sys d))).2.
Proof.
  unfold driver_round, refresh_round. destruct (RefreshDevices api _) as [[[r ch]|e] st']; [|done].
  destruct ch; simpl; [destruct (driver_publish d answer r)|]; done.
Qed.

#[export] Instance plugin_Follows :
  Follows cluster_step WatchDevices plugin_round plugin_other plugin_current.
Proof.
  split.
  - intros c e c' d Hs He. unfold plugin_current, sys_current.
    by rewrite (nic_EnumerateDevices_alike c c') by (by eapply quiet_alike).
  - intros c d d' (api & answer & Ha & Hok & ->). unfold plugin_current, sys_current. rewrite !driver_round_state.
    destruct (RefreshDevices api (sys_state (d_sys d))) as [[[r ch]|e] st'] eqn:E; [|done].
    by apply (RefreshDevices_Ok c) in E.
  - intros c d d' (ev & sys' & Hev & Hs & ->). apply (step_devices _ _ _ Hev) in Hs as [Hr Hn].
    unfold plugin_current, sys_current. intros Hc. simpl. rewrite Hr, <- Hc. by apply nic_EnumerateDevices_node.
Qed.

Abbreviation plugin_loop := (Loop Cluster WatchEvent (Driver NicProfile D W)).
Abbreviation plugin_step := (loop_step cluster_step WatchDevices plugin_round plugin_other).
Abbreviation plugin_own := (own_step WatchDevices plugin_round).

(** The loop when the driver starts it: the informers announce every object they list. *)
Definition driver_loop (c : Cluster) d : plugin_loop := {|
  l_cluster := c; l_queue := replicate (length (c_subnets c) + size (c_vlans c)) Added;
  l_trigger := false; l_phase := Waiting; l_state := d; l_failed := false |}.

(** The devices were enumerated on [seen]. *)
Lemma driver_loop_inv seen c d :
  plugin_current seen d → c_subnets c ≠ [] ∨ c_vlans c ≠ ∅ ∨ alike seen c →
  loop_inv WatchDevices plugin_current (driver_loop c d).
Proof.
  intros Hc Hs (_ & _ & Hq) _. simpl in *. destruct Hs as [Hs|[Hs|Ha]].
  - destruct (c_subnets c); [done|]. simpl in Hq. by apply Forall_cons in Hq as [? _].
  - rewrite Nat.add_comm in Hq. destruct (size (c_vlans c)) eqn:E; [by apply map_size_empty_inv in E|].
    simpl in Hq. by apply Forall_cons in Hq as [? _].
  - unfold plugin_current, sys_current in *. by rewrite <- (nic_EnumerateDevices_alike seen c).
Qed.

Lemma NewDeviceState_current c config api p disk0 files store st :
  answers c api → NewDeviceState config api p disk0 files store = Ok st →
  (nic_EnumerateDevices (api_of c) (profile st)).1 = Ok (driverResources st).
Proof.
  intros Ha. unfold NewDeviceState. simpl.
  pose proof (nic_EnumerateDevices_node api p p eq_refl) as [_ Hn].
  destruct (nic_EnumerateDevices api p) as [[r|] p'] eqn:E; [|done]. simpl in Hn.
  apply (nic_EnumerateDevices_answers c) in E; [|done].
  destruct (nic_EnumerateDevices_node (api_of c) p' p Hn) as [Hr _]. rewrite E in Hr. simpl in *.
  destruct (CreateCommonSpecFile _ _) as [[e|] files']; [done|]. simpl.
  intros (cps & _ & H)%bind_Ok. case_bool_decide.
  - unfold restoreNICs in H. simpl in H. destruct store; [|by injection H as <-].
    apply bind_Ok in H as (cs & _ & H). by injection H as <-.
  - destruct (CreateCheckpoint _ _) as [[e|] d]; [done|]. by injection H as <-.
Qed.

Lemma plugin_step_in_step l l' : plugin_step l l' → in_step (l_state l) → in_step (l_state l').
Proof.
  intros [k k' [| | |? d' ok _ (api & answer & _ & _ & ->)]| |k d' (ev & sys' & Hev & Hs & ->)|] Hi; simpl in *; try done.
  - by apply driver_round_in_step.
  - apply (step_devices _ _ _ Hev) in Hs as [Hr _]. unfold in_step in *. simpl. by rewrite Hr.
Qed.

(** C10: no change of the cluster is lost once the informers have something to announce: the
    driver enumerates the devices when it starts, and the informers then list the Subnets
    and Vlans.  If they find one, or the cluster is still as it was enumerated, then when the
    loop has nothing left to do, whatever the order in which Subnets, Vlans and the node
    changed, events arrived and claims and sandboxes were handled meanwhile, the devices of
    the plugin are those of the cluster, unless the last refresh failed; ignoring updates of
    a status loses nothing. In the node mode they are published, unless a publication
    failed; in the central mode the plugin publishes nothing.  What the condition leaves out
    is [last_deletion_lost]. *)
Theorem plugin_follows seen c env mode port config api p disk0 files w d l :
  answers seen api → NewDriver env mode port config api p disk0 files w = Ok d →
  c_subnets c ≠ [] ∨ c_vlans c ≠ ∅ ∨ alike seen c →
  rtc plugin_step (driver_loop c d) l → settled WatchDevices l → l_failed l = false →
  plugin_current (l_cluster l) (l_state l) ∧ in_step (l_state l).
Proof.
  intros Ha (Hi & _ & _ & Hn)%NewDriver_in_step Hs Hr Hset Hf. split.
  - eapply (loop_reachable_inv _ _ _ _ plugin_current); [exact Hr| |done..].
    eapply driver_loop_inv; [by eapply NewDeviceState_current|done].
  - clear Hset Hf. revert Hr. apply (rtc_ind_r (λ l, in_step (l_state l))); [done|].
    intros y z _ Hy. by apply plugin_step_in_step.
Qed.

(** When the last Subnet and the last Vlan are deleted between the enumeration and the
    informers' list, there is no event: the loop has nothing to do from the start, and the
    plugin keeps the devices that are gone. *)
Theorem last_deletion_lost seen c env mode port config api p disk0 files w d :
  answers seen api → NewDriver env mode port config api p disk0 files w = Ok d →
  c_subnets c = [] → c_vlans c = ∅ →
  (nic_EnumerateDevices (api_of c) (profile (sys_state (d_sys d)))).1 ≠
    (nic_EnumerateDevices (api_of seen) (profile (sys_state (d_sys d)))).1 →
  settled WatchDevices (driver_loop c d) ∧ ¬ plugin_current c d.
Proof.
  intros Ha (_ & _ & _ & Hn)%NewDriver_in_step Hs Hv Hne. split.
  - unfold settled, driver_loop. simpl. rewrite Hs, Hv, map_size_empty. by split_and!.
  - unfold plugin_current, sys_current. intros Hc. apply Hne. rewrite Hc. symmetry. by eapply NewDeviceState_current.
Qed.

(** A round is always possible: the API server answers, if only with errors. *)
Lemma plugin_round_total c d : ∃ d' ok, plugin_round c d d' ok.
Proof. eexists _, _, (api_of c), (λ _, None). split; [|done]. unfold answers, or_fails. auto 10. Qed.

(** C11: the loop settles: left to itself it makes at most four steps for every event on
    its way and five more, in any order, and where it stops it has nothing left to do. *)
Theorem refresh_settles n (l l' : plugin_loop) :
  nsteps plugin_own n l l' →
  (n ≤ 4 * length (l_queue l) + 5)%nat ∧
  ((∀ l'', ¬ plugin_own l' l'') → l_phase l' ≠ Stopped → settled WatchDevices l' ∧ l_queue l' = []).
Proof.
  intros Hn. split; [|apply own_step_stuck, plugin_round_total].
  apply own_steps_bound in Hn. unfold loop_cost in Hn. destruct (l_trigger l), (l_phase l); simpl in Hn; lia.
Qed.

(** A refresh that fails is not tried again: with no event on its way the loop then
    waits, and the devices stay as they were until the cluster changes again. *)
Theorem failed_refresh_waits d' (l : plugin_loop) :
  l_phase l = Refreshing → l_queue l = [] → l_trigger l = false → plugin_round (l_cluster l) (l_state l) d' false →
  ∃ l', plugin_own l l' ∧ settled WatchDevices l' ∧ l_failed l' = true ∧
    driverResources (sys_state (d_sys (l_state l'))) = driverResources (sys_state (d_sys (l_state l))) ∧
    ∀ l'', ¬ plugin_own l' l''.
Proof.
  intros Hp Hq Ht Hr. eexists. split; [by eapply loop_round|]. split_and!; simpl.
  - unfold settled. simpl. by rewrite Hq.
  - done.
  - destruct Hr as (api & answer & _ & Hok & ->). rewrite driver_round_state. unfold RefreshDevices in *. simpl in *.
    destruct (nic_EnumerateDevices api _) as [[r|e] p]; [by destruct (DeepEqual _ _)|done].
  - intros l'' Hs. inversion Hs; simplify_eq/=; congruence.
Qed.

(** A device that prepare learned of itself stays allocatable after it vanished: the
    refresh compares with the devices it knew before, sees no change, and keeps the list
    with the device, so a new claim for it is not refused. *)
Theorem vanished_device_accepted env env' k k' api st device (x : Device) r p p' :
  allocatable st = allocatableDevices (driverResources st) (ds_nodeName st) → allocatable st !! device = None →
  nic_EnumerateDevices (env_enumerate env k) (profile st) = (Ok r, p) →
  allocatableDevices r (ds_nodeName st) !! device = Some x →
  nic_EnumerateDevices api p = (Ok (driverResources st), p') →
  let st1 := (checkAllocatable env st k device).1.2 in
  let st2 := (RefreshDevices api st1).2 in
  allocatableDevices (driverResources st2) (ds_nodeName st2) !! device = None ∧
  checkAllocatable env' st2 k' device = (None, st2, k').
Proof.
  intros Ha Hn He Hd Hr. unfold checkAllocatable at 1. rewrite Hn. simpl. rewrite He, Hd. simpl.
  unfold RefreshDevices. simpl. rewrite Hr, (proj2 (deep_equal _ _) eq_refl). simpl. split; [by rewrite <- Ha|].
  unfold checkAllocatable. simpl. by rewrite Hd.
Qed.

End plugin.

(** ** The publisher *)

Section publisher.
Context `{K : K8s} `{G : GoImpl} `{KL : !K8sLaws}.
(** The flags, and the answers the lookups of a pod's names may give. *)
Context (driver : string) (capacity : bool) (may_own : OwnersOf → Prop).

(** The stores of the informers; a store changes before its handlers are told. *)
Record Stores := {
  subnets_store : list (option Unstructured);
  vlans_store : string → result (option (option Unstructured));
  ips_store : list (option Unstructured);
  claims_store : list (option ResourceClaim);
}.

Definition snapshot (c : Stores) (owners : OwnersOf) : snapshotter := {|
  snap_driverName := driver; snap_capacity := capacity; snap_subnets := subnets_store c;
  snap_vlans := vlans_store c; snap_ips := ips_store c; snap_claims := claims_store c; snap_owners := owners |}.

(** [last] is what the controller of the ResourceSlices was given last, at the start and
    with every publication; [full] belongs to the snapshotter. *)
Record Publisher := {
  pub_last : DriverResources;
  pub_full : option (gset string);
}.

(** The object that owns the ResourceSlices; [get] answers with its name and UID. *)
Record Owner := { Owner_APIVersion : string; Owner_Kind : string; Owner_Name : string; Owner_UID : string }.
Definition ownerOf (get : string → result (string * string)) (name : string) : result Owner :=
  '(role, uid) ← wrap_err "get owner ClusterRole %s: %w" [name] (get name);
  Ok {| Owner_APIVersion := "rbac.authorization.k8s.io/v1"; Owner_Kind := "ClusterRole";
        Owner_Name := role; Owner_UID := uid |}.

(** The start of [publish]: [watch] is what adding the handlers yields, [sync] what waiting
    for the informers does, [controller] what starting the controller for the owner and the
    first pools does.  The snapshot is taken when the informers are synced. *)
Definition publish_start (get : string → result (string * string)) (role : string) (watch sync : option error)
    (controller : Owner → DriverResources → option error) (s : snapshotter) : result Publisher :=
  owner ← ownerOf get role;
  check (Wrapf "watch: %w" [] <$> watch) (
    check (Wrapf "sync informers: %w" [] <$> sync) (
      let '(initial, full, _) := resources s (Some ∅) in
      check (Wrapf "start resource slice controller: %w" [] <$> controller owner initial)
        (Ok {| pub_last := initial; pub_full := full |}))).

(** One round: the two functions given to the loop. *)
Definition publish_round (s : snapshotter) (pub : Publisher) : Publisher :=
  let '(r, full, _) := resources s (pub_full pub) in
  if negb (DeepEqual r (pub_last pub))
  then {| pub_last := r; pub_full := full |}
  else {| pub_last := pub_last pub; pub_full := full |}.

(** Every event of the four informers is passed on. *)
Definition stores_step (c : Stores) (e : unit) (c' : Stores) : Prop := True.
Definition publish_onChange (e : unit) : bool := true.
Definition publisher_round (c : Stores) (pub pub' : Publisher) (ok : bool) : Prop :=
  ∃ owners, may_own owners ∧ ok = true ∧ pub' = publish_round (snapshot c owners) pub.

Lemma resources_pure s full full' : (resources s full).1.1 = (resources s full').1.1.
Proof.
  unfold resources. destruct (snap_capacity s), full, full'; repeat destruct (fullSubnets_update _ _); done.
Qed.

(** The pools published are those of the stores. *)
Definition publisher_current (c : Stores) (pub : Publisher) : Prop :=
  ∃ owners, may_own owners ∧ pub_last pub = (resources (snapshot c owners) None).1.1.

Lemma publish_round_last s pub : pub_last (publish_round s pub) = (resources s None).1.1.
Proof.
  unfold publish_round. rewrite (resources_pure s None (pub_full pub)).
  destruct (resources s (pub_full pub)) as [[r full] ev]. simpl.
  destruct (DeepEqual r (pub_last pub)) eqn:E; simpl; [|done]. by apply deep_equal in E.
Qed.

#[export] Instance publisher_Follows :
  Follows stores_step publish_onChange publisher_round (λ _ _ _, False) publisher_current.
Proof.
  split; [done| |done]. intros c pub pub' (owners & Ho & _ & ->). exists owners. split; [done|].
  apply publish_round_last.
Qed.

Lemma publish_start_last get role watch sync controller s pub :
  publish_start get role watch sync controller s = Ok pub → pub_last pub = (resources s None).1.1.
Proof.
  unfold publish_start. intros (owner & _ & H)%bind_Ok. destruct watch, sync; [done..|]. simpl in H.
  rewrite (resources_pure s None (Some ∅)). destruct (resources s (Some ∅)) as [[r full] ev]. simpl in *.
  destruct (controller owner r); [done|]. by injection H as <-.
Qed.

(** The loop when [publish] starts it: the informers are synced, their handlers may still
    be on their way through the first objects. *)
Definition publish_loop (c : Stores) (pub : Publisher) (pending : list unit) : Loop Stores unit Publisher := {|
  l_cluster := c; l_queue := pending; l_trigger := false; l_phase := Waiting; l_state := pub; l_failed := false |}.

(** C12: the publisher follows its stores: from the start on, whenever the loop has nothing
    left to do, the pools it published last are those of the current Subnets, Vlans,
    addresses and claims, and a round never fails. *)
Theorem publisher_follows get role watch sync controller c owners pub pending l :
  may_own owners → publish_start get role watch sync controller (snapshot c owners) = Ok pub →
  rtc (loop_step stores_step publish_onChange publisher_round (λ _ _ _, False)) (publish_loop c pub pending) l →
  l_failed l = false ∧ (settled publish_onChange l → publisher_current (l_cluster l) (l_state l)).
Proof.
  intros Ho Hp%publish_start_last Hr. assert (l_failed l = false) as Hf.
  { revert Hr. apply (rtc_ind_r (λ l, l_failed l = false)); [done|].
    intros y z _ [? ? [| | |? s ok _ (? & _ & -> & _)]| | |] Hy; done. }
  split; [done|]. intros Hs. eapply (loop_reachable_inv _ _ _ _ publisher_current); [exact Hr| |done|done].
  intros _ _. by exists owners.
Qed.

End publisher.
