(* ===== verification/Example.v ===== *)
(** * A node, a pod and a claim

    A concrete node on which the theorems on the kubelet plugin apply: two Subnets, a pod
    on the node and a claim with a NIC on each of them, the second one with an interface
    name from the claim's configuration. *)

From S2P Require Import Prelude K8s NicConfig Subnet Pools Json Annotation Store StoreInv NicPrepare Profile Cdi Checkpoint.
From S2P Require Import State StateProps Lifecycle Sandbox Nri System.

Module node.

Definition driver : string := "nic.resource.kube-ovn.io".

(** Two CDI directories: one that works and one that does not. *)
Definition cdi_model (broken : bool) : CDI := {|
  QualifiedName v c n := v +:+ "/" +:+ c +:+ "=" +:+ n;
  GenerateTransientSpecName v c i := v +:+ "-" +:+ c +:+ "_" +:+ i;
  GenerateNameForTransientSpec s i := Ok (CDI_Kind s +:+ "_" +:+ i);
  MinimumRequiredVersion _ := Ok "0.6.0";
  WriteSpec _ _ _ := if broken then Some (External "no space left on device") else None;
  RemoveSpec _ _ := if broken then Some (External "read-only file system") else None;
  NODE_NAME := "node1" |}.

(** The parameters of a configuration are taken as the interface name. *)
Definition decoder_model : ConfigDecoder := {|
  Decode raw := Ok (ObjNicConfig {| APIVersion := "nic.resource.kube-ovn.io/v1alpha1"; Kind := "NicConfig";
                                    InterfaceName := raw |}) |}.

#[global] Instance k8s : K8s := k8s_model.
#[global] Instance go : GoImpl := go_model.
#[global] Instance poller : Poller := poller_model 3.
#[global] Instance decoder : ConfigDecoder := decoder_model.

Definition annotations (provider ip mac : string) : list (string * string) :=
  [(tmplAllocated provider, "true"); (tmplIPAddress provider, ip); (tmplMACAddress provider, mac);
   (tmplCIDR provider, "10.0.0.0/24"); (tmplGateway provider, "10.0.0.1")].

Definition pod : Pod := {|
  Pod_Name := "web"; Pod_UID := "u1"; Pod_Labels := ∅;
  Pod_Annotations := Some (list_to_map (annotations "a.default.ovn" "10.0.0.5" "00:00:00:00:00:05"
                                        ++ annotations "b.default.ovn" "10.0.0.6" "00:00:00:00:00:06"));
  Pod_NodeName := "node1"; Pod_Phase := PodPending |}.

Definition env : PrepareEnv := {|
  env_enumerate _ := Profile.example.api;
  env_pods _ _ _ name := if bool_decide (name = "web") then Ok pod else Err (NotFound name);
  env_api _ := Profile.example.api;
  env_annotate _ := None |}.

Definition res (request subnet : string) : AllocationResult := {|
  Res_Request := request; Res_Driver := driver; Res_Pool := subnet; Res_Device := "subnet-" +:+ subnet;
  Res_AdminAccess := None; Res_ConsumedCapacity := ∅ |}.

Definition claim : ResourceClaim := {|
  Claim_Namespace := "ns"; Claim_Name := "c"; Claim_UID := "claim-1"; Claim_Annotations := ∅;
  Claim_Allocation := Some {|
    Alloc_Results := [res "r1" "a"; res "r2" "b"];
    Alloc_Config := [{| Config_Source := FromClaim; Config_Requests := ["r2"];
                        Config_Opaque := Some {| Opaque_Driver := driver; Opaque_Raw := "net2" |} |};
                     {| Config_Source := FromClass; Config_Requests := [];
                        Config_Opaque := Some {| Opaque_Driver := driver; Opaque_Raw := "eth7" |} |}] |};
  Claim_ReservedFor := [{| Ref_APIGroup := ""; Ref_Resource := "pods"; Ref_Name := "web"; Ref_UID := "u1" |}] |}.

Definition config : Config := {|
  cfg_driverName := driver; cfg_profile := "nic"; cfg_nodeName := "node1"; cfg_annotateVMI := true |}.

Definition disk0 : MemDisk := {| mem_claims := None; mem_writes := 0 |}.

Abbreviation DS := (DeviceState NicProfile MemDisk).

(** The state after the first start, with a CDI directory that works. *)
Definition started (fails : nat → bool) : result DS :=
  NewDeviceState (CDI0 := cdi_model false) (M := mem_manager fails) config Profile.example.api
    (NewProfile "node1") disk0 ∅ (Some NewNICStore).

Definition ok_or {A} (d : A) (r : result A) : A := match r with Ok a => a | Err _ => d end.

Definition empty_state : DS := {|
  driverName := ""; cdi := {| cdi_driverName := ""; cdi_class := "" |};
  driverResources := {| Pools_of := ∅ |}; allocatable := ∅; disk := disk0; profile := NewProfile "";
  ds_nodeName := ""; isNIC := true; nicStore := Some NewNICStore; annotateVMI := false; cdi_files := ∅ |}.

Definition never (_ : nat) : bool := false.
Definition st0 : DS := ok_or empty_state (started never).

(** The claim prepared on it. *)
Definition prepared : result (list KubeletDevice) * DS :=
  Prepare (CDI0 := cdi_model false) (M := mem_manager never) env st0 claim.
Definition st1 : DS := prepared.2.

End node.

Import node.

Example prepare_example :
  prepared.1 = Ok [
    {| RequestNames := ["r2"]; PoolName := "b"; DeviceName_of := "subnet-b";
       CdiDeviceIds := ["k8s.nic.resource.kube-ovn.io/nic=common";
                        "k8s.nic.resource.kube-ovn.io/nic=claim-1-r2-subnet-b"] |};
    {| RequestNames := ["r1"]; PoolName := "a"; DeviceName_of := "subnet-a";
       CdiDeviceIds := ["k8s.nic.resource.kube-ovn.io/nic=common";
                        "k8s.nic.resource.kube-ovn.io/nic=claim-1-r1-subnet-a"] |}].
Proof. vm_compute. reflexivity. Qed.

Example prepared_nics :
  (λ s, (λ n, (IfaceName n, IP n, IfaceID n)) <$> Specs s "u1") <$> nicStore st1 =
  Some [("net2", "10.0.0.6/24", "web.ns.b.default.ovn"); ("eth7", "10.0.0.5/24", "web.ns.a.default.ovn")].
Proof. vm_compute. reflexivity. Qed.

(** ** Configurations *)

Definition claim_config : AllocationConfig := {|
  Config_Source := FromClaim; Config_Requests := ["r2"];
  Config_Opaque := Some {| Opaque_Driver := driver; Opaque_Raw := "net2" |} |}.
Definition possible : list AllocationConfig := default [] (Alloc_Config <$> Claim_Allocation claim).

(** The claim's configuration wins over the one of the device class. *)
Lemma config_precedence_witness :
  ∃ j c, 2 = S (length (relevant driver FromClass possible) + j) ∧
    relevant driver FromClaim possible !! j = Some c.
Proof.
  destruct (config_precedence driver possible (ok_or [] (GetOpaqueDeviceConfigs driver possible)) "r2" 2)
    as [(j & c & Hj & Hc & _)|[H _]]; [vm_compute; reflexivity..|exists j, c; split; assumption|].
  exfalso. apply (H claim_config); [vm_compute; left|vm_compute; reflexivity].
Defined.

(** ** Prepare and unprepare *)

Abbreviation prepare broken fails e st :=
  (Prepare (CDI0 := cdi_model broken) (M := mem_manager fails) e st claim).
Abbreviation unprepare broken fails st :=
  (Unprepare (CDI0 := cdi_model broken) (M := mem_manager fails) st "claim-1").

(** An environment in which nothing works any more. *)
Definition dead : PrepareEnv := {|
  env_enumerate _ := {| list_subnets := Err (External "down"); get_subnet _ := Err (External "down");
                        get_vlan _ := Err (External "down"); get_node _ := Err (External "down") |};
  env_pods _ _ _ name := Err (External "down");
  env_api _ := Profile.example.api;
  env_annotate _ := Some (External "down") |}.

Definition devices1 : list KubeletDevice := ok_or [] prepared.1.
Definition pds1 : list PreparedDevice :=
  default [] (default ∅ (mem_claims (disk st1)) !! "claim-1").
Definition store1 : NICStore := default NewNICStore (nicStore st1).

Definition first_nic : Spec := default (nicSpecFromConfig (Build_NicDeviceConfig "" "" "" "" "" "" "" "" [] ""
  "" "" "" "" [] 0 false)) (head (omap PD_NIC pds1)).

Lemma Prepare_idempotent_witness : prepare false never dead st1 = (Ok devices1, st1).
Proof.
  apply (Prepare_idempotent (CDI0 := cdi_model false) (ML := mem_manager_laws never) env dead st0).
  vm_compute. reflexivity.
Defined.

Lemma Prepare_devices_witness :
  ∃ a pds store', Claim_Allocation claim = Some a ∧ devices1 = GetDevices pds ∧ nicStore st1 = Some store' ∧
    length (own_results st0 a) = 2.
Proof.
  destruct (Prepare_devices (CDI0 := cdi_model false) (ML := mem_manager_laws never) env st0 claim devices1 st1 ∅
    NewNICStore) as (a & pds & store' & Ha & Hd & Hs & _);
    [vm_compute; reflexivity..|apply store_wf_new|vm_compute; reflexivity|].
  exists a, pds, store'. split; [exact Ha|]. split; [exact Hd|]. split; [exact Hs|].
  injection Ha as <-. reflexivity.
Defined.

Lemma Unprepare_frees_witness :
  ∃ store', nicStore (unprepare false never st1).2 = Some store' ∧
    ∀ pod, Specs store' pod = filter (λ s, ClaimUID s ≠ "claim-1") (Specs store1 pod).
Proof.
  refine (proj2 (proj2 (Unprepare_frees (CDI0 := cdi_model false) (ML := mem_manager_laws never) st1 "claim-1" _
    {["claim-1" := pds1]} pds1 _ _ _)) store1 _); vm_compute; reflexivity.
Defined.

Lemma Prepare_Unprepare_roundtrip_witness :
  GetCheckpoint (CheckpointManager := mem_manager never) (disk (unprepare false never st1).2) = Ok ∅.
Proof.
  refine (proj1 (Prepare_Unprepare_roundtrip (CDI0 := cdi_model false) (ML := mem_manager_laws never)
    env st0 claim devices1 st1 _ ∅ NewNICStore _ _ _ store_wf_new _ _)); vm_compute; reflexivity.
Defined.

(** ** Reachable states and restarts *)

Definition sandbox : PodSandbox := {|
  Sb_Id := "sb1"; Sb_Name := "web"; Sb_Uid := "u1"; Sb_Namespace := "ns"; Sb_Labels := ∅;
  Sb_Linux := Some [{| Ns_Type := "pid"; Ns_Path := "/proc/7/ns/pid" |};
                    {| Ns_Type := "network"; Ns_Path := "/run/netns/a" |}] |}.

Abbreviation W := (gset string).
Abbreviation attacher := (attacher_model (λ _, false)).

(** The plugin before and after its NRI plugin was started. *)
Definition started_sys (nri : bool) : System NicProfile MemDisk W :=
  {| sys_state := st0; sys_world := ∅; sys_nri := nri; sys_ready := false; sys_failed := ∅ |}.
Definition sys0 : System NicProfile MemDisk W := started_sys true.
Definition sys1 : System NicProfile MemDisk W :=
  with_plugin sys0 (Synchronize (A := attacher) (plugin_of sys0) []).
Definition sys2 : System NicProfile MemDisk W :=
  (PrepareResourceClaims (CDI0 := cdi_model false) (M := mem_manager never) (λ _, env) sys1 [claim]).2.

Lemma started_runs :
  runs (CDI0 := cdi_model false) (M := mem_manager never) (A := attacher) ∅ true (started_sys false).
Proof.
  apply (runs_start config Profile.example.api (NewProfile "node1") disk0 ∅ st0 ∅ []);
    [vm_compute; reflexivity|apply not_elem_of_nil|vm_compute; reflexivity|exact I].
Qed.

Lemma sys0_runs : runs (CDI0 := cdi_model false) (M := mem_manager never) (A := attacher) ∅ true sys0.
Proof. exact (runs_step ∅ true (started_sys false) EvStartNRI sys0 started_runs I (step_nri (started_sys false) eq_refl)). Qed.

Lemma sys2_runs : runs (CDI0 := cdi_model false) (M := mem_manager never) (A := attacher) ∅ true sys2.
Proof.
  refine (runs_step ∅ true sys1 (EvPrepare (λ _, env) [claim]) sys2 _ I (step_prepare sys1 (λ _, env) [claim])).
  exact (runs_step ∅ true sys0 (EvSynchronize []) sys1 sys0_runs I (step_synchronize sys0 [] eq_refl)).
Qed.

Lemma sys2_reachable : reachable (CDI0 := cdi_model false) (M := mem_manager never) (A := attacher) sys2.
Proof. exists true. exact sys2_runs. Qed.

Lemma st1_inv : inv_but (M := mem_manager never) ∅ st1.
Proof.
  assert (sys_state sys2 = st1) as <- by (vm_compute; reflexivity).
  exact (reachable_inv (CDI0 := cdi_model false) (ML := mem_manager_laws never) (A := attacher) sys2 sys2_reachable).
Qed.

Lemma reachable_invariant_witness :
  ∃ store, nicStore (sys_state sys2) = Some store ∧ NoDup (IfaceName <$> Specs store "u1").
Proof.
  destruct (reachable_invariant (CDI0 := cdi_model false) (ML := mem_manager_laws never)
    (A := attacher) ∅ true sys2 sys2_runs) as (store & Hs & _ & Hn).
  exists store. split; [exact Hs|apply Hn].
Defined.

Lemma restart_restores_witness :
  ∃ store, nicStore (ok_or empty_state (NewDeviceState (CDI0 := cdi_model false) (M := mem_manager never) config
      Profile.example.api (NewProfile "node1") (disk st1) ∅ (Some NewNICStore))) = Some store ∧
    ∀ pod sp, sp ∈ Specs store pod ↔ PodUID sp = pod ∧
      ∃ uid pds pd, ({["claim-1" := pds1]} : PreparedClaims) !! uid = Some pds ∧ pd ∈ pds ∧ PD_NIC pd = Some sp.
Proof.
  refine (restart_restores (CDI0 := cdi_model false) (ML := mem_manager_laws never) config Profile.example.api
    (NewProfile "node1") (disk st1) ∅ _ {["claim-1" := pds1]} _ _ _).
  - apply inv_recoverable, st1_inv.
  - vm_compute. reflexivity.
  - vm_compute. reflexivity.
Defined.

(** ** Errors *)

Definition prepared_only : result (list PreparedDevice) * DS :=
  prepareDevices (CDI0 := cdi_model true) env st0 claim.

Lemma failed_prepare_keeps_nics_witness :
  ∃ err st' store', prepare true never env st0 = (Err err, st') ∧ unprepare true never st' = (None, st') ∧
    nicStore st' = Some store' ∧ first_nic ∈ Specs store' "u1".
Proof.
  refine (failed_prepare_keeps_nics (CDI0 := cdi_model true) (M := mem_manager never) env st0 claim
    (ok_or [] prepared_only.1) prepared_only.2 ∅ NewNICStore _ _ first_nic _ _ _ store_wf_new _ _ _);
    [vm_compute; reflexivity..|vm_compute; left|vm_compute; reflexivity].
Defined.

Lemma failed_unprepare_loses_nics_witness :
  ∃ store', prepare true never dead (unprepare true never st1).2
      = (Ok (GetDevices pds1), (unprepare true never st1).2) ∧
    nicStore (unprepare true never st1).2 = Some store' ∧
    ∀ pod t, t ∈ Specs store' pod → ClaimUID t ≠ "claim-1".
Proof.
  refine (failed_unprepare_loses_nics (CDI0 := cdi_model true) (ML := mem_manager_laws never) dead st1 claim pds1
    {["claim-1" := pds1]} store1 _ _ _ _ _ _); vm_compute; reflexivity.
Defined.

(** The checkpoint file was damaged. *)
Definition damaged : DS := with_disk st1 {| mem_claims := None; mem_writes := 5 |}.

Lemma Unprepare_resets_checkpoint_witness :
  ∃ st', Unprepare (CDI0 := cdi_model false) (M := mem_manager never) damaged "claim-2" = (None, st') ∧
    GetCheckpoint (CheckpointManager := mem_manager never) (disk st') = Ok ∅ ∧ nicStore st' = nicStore damaged.
Proof.
  apply (Unprepare_resets_checkpoint (CDI0 := cdi_model false) (ML := mem_manager_laws never) damaged "claim-2"
    (External "checkpoint is corrupted") {| mem_claims := Some ∅; mem_writes := 6 |}); vm_compute; reflexivity.
Defined.

Lemma failed_publish_is_lost_witness :
  driverResources (refresh_round Profile.example.api (λ _, Some (External "conflict")) empty_state).2 =
  {| Pools_of := {["" := {| Pool_Slices := Pool_Slices (default {| Pool_Slices := []; Pool_NodeSelector := None |}
       (Pools_of Profile.example.enumerated !! "node1")); Pool_NodeSelector := None |}]} |}.
Proof.
  pose proof (failed_publish_is_lost (KL := k8s_model_laws) (D := MemDisk)
    Profile.example.api Profile.example.api (λ _, Some (External "conflict")) (λ _, None) empty_state
    {| Pools_of := {["" := {| Pool_Slices := Pool_Slices (default {| Pool_Slices := []; Pool_NodeSelector := None |}
       (Pools_of Profile.example.enumerated !! "node1")); Pool_NodeSelector := None |}]} |}
    {| nodeName := ""; subnets := list_to_map [("subnet-b", "b"); ("subnet-a", "a")] |}
    {| nodeName := ""; subnets := list_to_map [("subnet-b", "b"); ("subnet-a", "a")] |}) as H.
  destruct (refresh_round _ _ empty_state) as [out st] eqn:E. destruct (refresh_round _ _ st) as [out' st'].
  apply H; [vm_compute; reflexivity|vm_compute; discriminate|vm_compute; eexists; reflexivity|
            vm_compute; reflexivity].
Defined.

Lemma prepare_fails_closed_witness :
  (PrepareResourceClaims (CDI0 := cdi_model false) (M := mem_manager never) (λ _, env) sys0 [claim]).2 = sys0.
Proof.
  refine (proj1 (prepare_fails_closed (CDI0 := cdi_model false) (M := mem_manager never)
    (λ _, env) sys0 [claim] "" (Ok []) _ _)); reflexivity.
Defined.

(** A claim is prepared before the NRI plugin was started. *)
Lemma prepare_before_nri_witness :
  (prepareResourceClaim (CDI0 := cdi_model false) (M := mem_manager never) env (started_sys false) claim).1
  = prepared.1 ∧ is_ok prepared.1 = true.
Proof.
  destruct (prepare_before_nri (CDI0 := cdi_model false) (M := mem_manager never) (A := attacher)
    ∅ true (started_sys false) env claim (ok_or [] prepared.1) st1) as [_ ->];
    [exact started_runs|reflexivity|vm_compute; reflexivity|vm_compute; split; reflexivity].
Defined.

(** ** Sandbox events *)

Lemma store_ok : store_wf store1.
Proof.
  destruct st1_inv as (s & Hs & Hwf & _). unfold store1. rewrite Hs. exact Hwf.
Qed.

(** Attaching fails for one of the NICs. *)
Abbreviation flaky := (attacher_model (λ i, bool_decide (i = "eth7"))).
Definition plugin1 : nriPlugin W := {| nri_store := store1; nri_world := ∅; ready := false; failed := ∅ |}.
Definition plugin2 : nriPlugin W := Synchronize (A := flaky) plugin1 [sandbox].


Lemma failed2 : failed plugin2 = {["u1" := sandbox]}.
Proof. vm_compute. reflexivity. Qed.

Lemma retryFailed_complete_witness :
  failed plugin2 !! "u1" = Some sandbox ∧ handled (retryFailed (A := attacher) plugin2) sandbox.
Proof.
  split; [vm_compute; reflexivity|].
  refine (retryFailed_complete (AL := attacher_model_laws (λ _, false)) plugin2 "u1" sandbox _ I _ _ _).
  - apply (byPod_wf store1); [vm_compute; reflexivity|exact store_ok].
  - vm_compute. split; [intros sb' H; inversion H|exact I].
  - intros u sb _. split; [done|]. intros; intros [].
  - vm_compute. reflexivity.
Defined.

(** The NICs of the running sandbox sb1 go with the event of an earlier sandbox. *)
Definition stale : PodSandbox := {|
  Sb_Id := "sb0"; Sb_Name := "web"; Sb_Uid := "u1"; Sb_Namespace := "ns"; Sb_Labels := ∅; Sb_Linux := None |}.
Definition plugin3 : nriPlugin W := (RunPodSandbox (A := attacher) plugin1 sandbox).2.
Definition running_nic : Spec := in_sandbox "sb1" "/run/netns/a" false first_nic.

Lemma StopPodSandbox_takes_all_witness :
  nic_live (nri_world plugin3) running_nic ∧
  ¬ nic_live (nri_world (StopPodSandbox (A := attacher) plugin3 stale).2) running_nic.
Proof.
  split; [vm_compute; reflexivity|].
  apply (StopPodSandbox_takes_all (AL := attacher_model_laws (λ _, false)) plugin3 stale).
  - exact I.
  - vm_compute. reflexivity.
  - vm_compute. left.
Defined.
