(* ===== verification/RunExample.v ===== *)
(** * Interleaved runs on the example node

    The process dies in the middle of an unprepare, and a sandbox is stopped in the middle
    of a retry. *)

From S2P Require Import Prelude K8s NicConfig Subnet Pools Json Annotation Store StoreInv NicPrepare Profile Cdi Checkpoint.
From S2P Require Import State StateProps Lifecycle Sandbox Nri System Prog Hooks Threads Interleave Example.

Module runs.
Import node.

Abbreviation conf := (Conf (P := NicProfile) (D := MemDisk) (W := W)).
Abbreviation run := (run_to (CDI0 := cdi_model false) (M := mem_manager never) (A := attacher)).

#[local] Ltac run_it := apply run_to_steps; vm_compute; reflexivity.

Definition claims1 : PreparedClaims := default ∅ (mem_claims (disk st1)).
Definition device1 : PreparedDevice := nth 0 pds1 (Build_PreparedDevice (Build_KubeletDevice [] "" "" []) None false None).

(** The process dies in the middle of the unprepare: the NICs are out of the store and the
    claim is in the checkpoint.  The next process has them again. *)
Definition dying : conf := (run [StartCall (CUnprepare "claim-1"); ActCall; ActCall] (idle sys2)).2.
Definition restart (c : conf) : result DS :=
  NewDeviceState (CDI0 := cdi_model false) (M := mem_manager never) config Profile.example.api (NewProfile "node1")
    (disk (sys_state (c_sys c))) ∅ (Some NewNICStore).
Definition next_process : conf := idle (restarted (c_sys dying) (ok_or empty_state (restart dying))).

Lemma crash_step c :
  c_clean c = true → is_ok (restart c) = true →
  conf_step (CDI0 := cdi_model false) (M := mem_manager never) (A := attacher) c Crashes
    (idle (restarted (c_sys c) (ok_or empty_state (restart c)))).
Proof.
  destruct c as [sys h retry refresh call gone clean]. simpl. intros -> Hok.
  destruct (restart _) as [st|e] eqn:E; [|done]. simpl. by eapply crash.
Qed.

Lemma interleaving_invariant_witness :
  Specs (default NewNICStore (nicStore (sys_state (c_sys dying)))) "u1" = [] ∧
  ∃ store, nicStore (sys_state (c_sys next_process)) = Some store ∧ first_nic ∈ Specs store (PodUID first_nic).
Proof.
  split; [vm_compute; reflexivity|].
  destruct (interleaving_invariant (CDI0 := cdi_model false) (ML := mem_manager_laws never)
    (AL := attacher_model_laws (λ _, false)) sys2
    ((run [StartCall (CUnprepare "claim-1"); ActCall; ActCall] (idle sys2)).1 ++ [Crashes]) next_process sys2_reachable)
    as (store & Hs & Hc & _).
  - eapply conf_steps_app; [run_it|]. eapply steps_cons; [|apply steps_nil].
    apply crash_step; [reflexivity|vm_compute; reflexivity].
  - exists store. split; [exact Hs|]. apply (Hc claims1 "claim-1" pds1 device1).
    + vm_compute. reflexivity.
    + vm_compute. reflexivity.
    + apply not_elem_of_empty.
    + vm_compute. left.
    + vm_compute. reflexivity.
Defined.

(** The attach of one NIC failed at the synchronization; the sandbox is stopped while it is
    retried. *)
Definition sys3 : System NicProfile MemDisk W :=
  with_plugin sys2 (Synchronize (A := flaky) (plugin_of sys2) [sandbox]).

Lemma sys3_reachable : reachable (CDI0 := cdi_model false) (M := mem_manager never) (A := flaky) sys3.
Proof.
  exists true. refine (runs_step ∅ true sys2 (EvSynchronize [sandbox]) sys3 _ I (step_synchronize sys2 [sandbox] eq_refl)).
  refine (runs_step ∅ true sys1 (EvPrepare (λ _, env) [claim]) sys2 _ I (step_prepare sys1 (λ _, env) [claim])).
  assert (with_plugin sys0 (Synchronize (A := flaky) (plugin_of sys0) []) = sys1) as <- by (vm_compute; reflexivity).
  refine (runs_step ∅ true sys0 (EvSynchronize []) _ _ I (step_synchronize sys0 [] eq_refl)).
  refine (runs_step ∅ true (started_sys false) EvStartNRI sys0 _ I (step_nri (started_sys false) eq_refl)).
  apply (runs_start config Profile.example.api (NewProfile "node1") disk0 ∅ st0 ∅ []);
    [vm_compute; reflexivity|apply not_elem_of_nil|vm_compute; reflexivity|exact I].
Qed.

Definition stopped : nriPlugin W := (StopPodSandbox (A := flaky) (plugin_of sys3) sandbox).2.


(** Here it is remembered again, with every NIC of the claim but the failing one plugged
    into a sandbox that is gone. *)
Definition race : option (gmap string PodSandbox * list string) :=
  match execute (CDI0 := cdi_model false) (M := mem_manager never) (A := flaky)
          ([StartRetry; ActRetry; StartHook (HStopPodSandbox sandbox)] ++ replicate 4 ActHook ++ replicate 5 ActRetry) (idle sys3) with
  | Some (_, c) => Some (sys_failed (c_sys c), elements (sys_world (c_sys c)))
  | None => None
  end.

Example race_example : race = Some ({["u1" := sandbox]}, ["sb1/net2"]).
Proof. vm_compute. reflexivity. Qed.

End runs.
