(* ===== verification/EndToEnd.v ===== *)
(** * From the claim to the wire

    The plugin with the OVS attacher of [Attach]: what the start of a sandbox guarantees of
    the node's network, after any sequence of the plugin's events and in any interleaving
    of its threads.  [System] and [Interleave] show it for every attacher that keeps the
    contract, which [AttachProps] shows of this one.  At the end the whole plugin runs on
    the node of [Node]: a claim with two NICs is prepared, and the start of the pod's
    sandbox plugs them. *)

From S2P Require Import Prelude Netip Store Kernel Dhcp Attach NetShape AttachLogic Sandbox AttachProps Node NodeExample.
From S2P Require Import K8s NicConfig Subnet Json Annotation StoreInv NicPrepare Profile Cdi Checkpoint.
From S2P Require Import State StateProps Lifecycle Nri System Prog Hooks Threads Interleave Example.

Section end_to_end.
Context `{K : K8s} `{G : GoImpl} `{PO : Poller} `{CDI0 : CDI} `{CD : ConfigDecoder}.
Context {P D W : Type} `{PF : Profile P} `{ML : CheckpointLaws D}.
Context `{KE : Kernel W} {KL : KernelLaws W} `{DH : Dhcp4}.
Implicit Types sys : System P D (ovsAttacher W).


End end_to_end.

(** ** The plugin on a concrete node *)

Import Example.node.

Abbreviation Wire := (ovsAttacher Node).

Definition wire (nri : bool) : System NicProfile MemDisk Wire :=
  {| sys_state := st0; sys_world := start; sys_nri := nri; sys_ready := false; sys_failed := ∅ |}.
Definition wire0 : System NicProfile MemDisk Wire := wire true.
Definition wire1 : System NicProfile MemDisk Wire := with_plugin wire0 (Synchronize (plugin_of wire0) []).
Definition wire2 : System NicProfile MemDisk Wire :=
  (PrepareResourceClaims (CDI0 := cdi_model false) (M := mem_manager never) (λ _, env) wire1 [claim]).2.

Lemma wire2_runs : runs (CDI0 := cdi_model false) (M := mem_manager never) ∅ true wire2.
Proof.
  refine (runs_step ∅ true wire1 (EvPrepare (λ _, env) [claim]) wire2 _ I (step_prepare wire1 (λ _, env) [claim])).
  refine (runs_step ∅ true wire0 (EvSynchronize []) wire1 _ I (step_synchronize wire0 [] eq_refl)).
  refine (runs_step ∅ true (wire false) EvStartNRI wire0 _ I (step_nri (wire false) eq_refl)).
  apply (runs_start config Profile.example.api (NewProfile "node1") disk0 ∅ st0 start []);
    [vm_compute; reflexivity|apply not_elem_of_nil|vm_compute; reflexivity|exact start_tidy].
Qed.

(** What keeps the NICs of a list from being plugged can be checked. *)
Definition free_check (w : Node) (s : Spec) : bool :=
  match n_paths w !! NetnsPath s with Some ns => negb (in_use w ns (IfaceName s)) | None => true end &&
  negb (bool_decide (IfaceName s = vethRenameFor (IfaceName s))).
Definition apart_check (s t : Spec) : bool :=
  bool_decide (IfaceName s = IfaceName t) ||
  (negb (bool_decide (vh (ContainerID s) (IfaceName s) = vh (ContainerID t) (IfaceName t))) &&
   negb (bool_decide (IfaceName t ∈ own_names s)) && negb (bool_decide (vethRenameFor (IfaceName t) ∈ own_names s))).

Lemma checked_unblocked (σ : Wire) specs :
  forallb (free_check (kern σ)) specs = true → forallb (λ s, forallb (apart_check s) specs) specs = true →
  unblocked σ specs.
Proof.
  rewrite !forallb_forall. intros Hf Ha. split.
  - intros s Hs. specialize (Hf s (proj1 (list_elem_of_In _ _) Hs)). unfold free_check in Hf.
    apply andb_true_iff in Hf as [Hf Hi%negb_true_iff]. split; [|by apply bool_decide_eq_false in Hi].
    intros ns Hp Hn. assert ((n_paths (kern σ) !! NetnsPath s : option nat) = Some ns) as Hp' by exact Hp.
    rewrite Hp' in Hf. apply negb_true_iff, in_use_false in Hf. by destruct Hf.
  - intros s t Hs Ht Hne Hc. specialize (Ha s (proj1 (list_elem_of_In _ _) Hs)). rewrite forallb_forall in Ha.
    specialize (Ha t (proj1 (list_elem_of_In _ _) Ht)). unfold apart_check in Ha.
    rewrite bool_decide_eq_false_2, orb_false_l, !andb_true_iff, !negb_true_iff, !bool_decide_eq_false in Ha by done.
    destruct Ha as [[H1 H2] H3]. destruct Hc as [?|[_ [?|[_ ?]]]]; auto.
Qed.

Lemma wire_free : sandbox_free (plugin_of wire2) sandbox.
Proof. apply checked_unblocked; vm_compute; reflexivity. Qed.

Definition no_device : PreparedDevice := Build_PreparedDevice (Build_KubeletDevice [] "" "" []) None false None.


(** The runtime starts the pod's sandbox beside a refresh; the hook has read the pod's NICs
    and attaches them with a retry, the unprepare of the claim and the end of the refresh
    in between. *)
Definition to_start : list choice := [StartRefresh Profile.example.api; StartHook (HRunPodSandbox sandbox); ActRefresh].
Definition interrupted : list choice :=
  [StartRetry; StartCall (CUnprepare "claim-1"); ActCall; ActRetry; ActHook; ActCall; ActHook; ActCall; ActHook; ActRefresh; ActHook].

Abbreviation wire_run := (run_to (CDI0 := cdi_model false) (M := mem_manager never) (W := Wire)).
Definition begun : Conf (W := Wire) := (wire_run to_start (idle wire2)).2.
Definition has_read : Conf (W := Wire) := act_hook begun.
Definition over := wire_run interrupted has_read.

(** Nobody else attaches anything. *)
Definition calm (l : label (W := Wire)) : bool :=
  match l with HookActs | Silent | Acts Locking | Acts Acting => true | _ => false end.

Lemma calm_undisturbed specs ls : forallb calm ls = true → Forall (undisturbed specs) ls.
Proof.
  rewrite forallb_forall, Forall_forall. intros H l Hl%list_elem_of_In%H. by destruct l as [| |[]| | |].
Qed.

Lemma begun_free : sandbox_free (plugin_of (c_sys begun)) sandbox.
Proof. apply checked_unblocked; vm_compute; reflexivity. Qed.

