(* ===== verification/FollowExample.v ===== *)
(** * A cluster that changes under the plugin and the publisher

    The node of [Example] follows a cluster in which a Subnet's status changes and another
    Subnet is added; the publisher follows the same stores. *)

From S2P Require Import Prelude K8s NicConfig Subnet Held Pools Annotation Store NicPrepare Profile Snapshot Cdi Checkpoint.
From S2P Require Import State StateProps Lifecycle Sandbox Nri System Driver Example Watch Follow.

Import Example.node.

#[local] Existing Instance semantic_model.
#[local] Instance cdi_ok : CDI := cdi_model false.
#[local] Instance disk_ok : CheckpointManager MemDisk := mem_manager never.
#[local] Instance attacher_ok : Attacher W := attacher_model (λ _, false).
#[local] Instance laws1 : K8sLaws (K := k8s) := k8s_model_laws.
#[local] Instance laws2 : SemanticLaws (SE := semantic_model) := semantic_model_laws.

(** The driver starts in the node mode, without a health service. *)
Definition start_env : StartEnv := {|
  start_helper := None; start_listen := None; start_regClient := None; start_draClient := None;
  start_publish _ := None; start_watch := None |}.
Abbreviation Drv := (Driver NicProfile MemDisk W).
Definition drv0 : Drv := {|
  d_sys := started_sys false; d_mode := publishModeNode; d_published := driverResources st0;
  d_lost := false; d_health := false |}.

Example start_example :
  NewDriver start_env publishModeNode (-1) config Profile.example.api (NewProfile "node1") disk0 ∅ ∅ = Ok drv0.
Proof. vm_compute. reflexivity. Qed.

(** Subnet a has used an address since; its spec is the same. *)
Definition subnet_a' : Unstructured := {|
  GetName := "a"; GetUID := "a"; GetLabels := ∅;
  Object := ("status", VMap [("v4availableIPs", VInt64 252)]) :: Object (Profile.example.subnet "a" "") |}.

Definition cluster0 : Cluster := {|
  c_subnets := [Profile.example.subnet "a" ""; Profile.example.subnet "b" "v1"; Profile.example.subnet "c" "v2"];
  c_vlans := list_to_map [("v1", Profile.example.vlan "v1"); ("v2", Profile.example.vlan "v2")];
  c_node := Profile.example.node |}.
Definition cluster1 : Cluster := {|
  c_subnets := <[0 := subnet_a']> (c_subnets cluster0); c_vlans := c_vlans cluster0; c_node := c_node cluster0 |}.
Definition cluster2 : Cluster := {|
  c_subnets := take 3 (c_subnets cluster1) ++ Profile.example.subnet "d" "" :: drop 3 (c_subnets cluster1);
  c_vlans := c_vlans cluster1; c_node := c_node cluster1 |}.

(** The handlers keep the first change to themselves. *)
Example status_update_quiet :
  WatchDevices (Updated (Some (Profile.example.subnet "a" "")) (Some subnet_a')) = false.
Proof. reflexivity. Qed.

Abbreviation L := (Loop Cluster WatchEvent Drv).

Definition changed (l : L) (c : Cluster) (e : WatchEvent) : L := {|
  l_cluster := c; l_queue := l_queue l ++ [e]; l_trigger := l_trigger l;
  l_phase := l_phase l; l_state := l_state l; l_failed := l_failed l |}.
Definition delivered (l : L) : L := {|
  l_cluster := l_cluster l; l_queue := tail (l_queue l);
  l_trigger := l_trigger l || match l_queue l with e :: _ => WatchDevices e | [] => false end;
  l_phase := l_phase l; l_state := l_state l; l_failed := l_failed l |}.
Definition in_phase (p : Phase) (l : L) : L := {|
  l_cluster := l_cluster l; l_queue := l_queue l; l_trigger := false;
  l_phase := p; l_state := l_state l; l_failed := l_failed l |}.
Definition refreshed (l : L) : L := {|
  l_cluster := l_cluster l; l_queue := l_queue l; l_trigger := l_trigger l; l_phase := Waiting;
  l_state := driver_round (api_of (l_cluster l)) (λ _, None) (l_state l);
  l_failed := false |}.

Definition run0 : L := driver_loop cluster0 drv0.
Definition run1 : L :=
  changed (changed run0 cluster1 (Updated (Some (Profile.example.subnet "a" "")) (Some subnet_a'))) cluster2 Added.
Definition run2 : L := Nat.iter 7 delivered run1.
Definition run3 : L := refreshed (in_phase Refreshing (in_phase Delaying run2)).

Lemma own_delivered (l : L) : l_queue l ≠ [] → own_step WatchDevices plugin_round l (delivered l).
Proof. destruct l as [c [|e q] t p s f]; [done|]. intros _. by apply (loop_deliver _ _ _ e q). Qed.

Lemma answers_api c : answers c (api_of c).
Proof. unfold answers, or_fails. auto 10. Qed.

(** The steps of the loop that refreshes after the seven events were delivered. *)
Lemma own_run : nsteps (own_step WatchDevices plugin_round) 10 run1 run3.
Proof.
  do 7 (eapply nsteps_l; [apply own_delivered; vm_compute; discriminate|]).
  eapply nsteps_l; [apply (loop_take _ _ run2); vm_compute; reflexivity|].
  eapply nsteps_l; [apply (loop_drain _ _ (in_phase Delaying run2)); reflexivity|].
  eapply nsteps_l; [|apply nsteps_O].
  apply (loop_round _ _ (in_phase Refreshing (in_phase Delaying run2)) _ true); [reflexivity|].
  exists (api_of cluster2), (λ _, None). split; [apply answers_api|]. split; [vm_compute; reflexivity|reflexivity].
Qed.

Lemma run_reaches : rtc (loop_step cluster_step WatchDevices plugin_round plugin_other) run0 run3.
Proof.
  eapply rtc_l; [eapply (step_change _ _ _ _ run0 _ cluster1)|
    eapply rtc_l; [eapply (step_change _ _ _ _ (changed run0 cluster1
      (Updated (Some (Profile.example.subnet "a" "")) (Some subnet_a'))) _ cluster2)|]].
  - apply (subnet_updated cluster0 0); reflexivity.
  - apply (subnet_added cluster1 3).
  - eapply rtc_subrel; [|apply rtc_nsteps; exists 10; exact own_run]. intros x y. apply step_own.
Qed.

Lemma plugin_follows_witness :
  plugin_current cluster2 (l_state run3) ∧ d_published (l_state run3) = driverResources (sys_state (d_sys (l_state run3))) ∧
  is_Some (allocatable (sys_state (d_sys (l_state run3))) !! "subnet-d").
Proof.
  destruct (plugin_follows cluster0 cluster0 start_env publishModeNode (-1) config (api_of cluster0)
    (NewProfile "node1") disk0 ∅ ∅ drv0 run3) as [Hc Hp];
    [apply answers_api|vm_compute; reflexivity|left; discriminate|exact run_reaches|
     repeat split; [vm_compute; reflexivity..|constructor]|reflexivity|].
  split; [exact Hc|]. split; [|vm_compute; eexists; reflexivity].
  unfold in_step in Hp. rewrite bool_decide_false in Hp by (vm_compute; discriminate). apply Hp. vm_compute. reflexivity.
Defined.

(** Everything is gone when the informers list. *)
Definition emptied : Cluster := {| c_subnets := []; c_vlans := ∅; c_node := c_node cluster0 |}.

Lemma last_deletion_lost_witness :
  settled WatchDevices (driver_loop emptied drv0) ∧ ¬ plugin_current emptied drv0.
Proof.
  apply (last_deletion_lost cluster0 emptied start_env publishModeNode (-1) config (api_of cluster0)
    (NewProfile "node1") disk0 ∅ ∅ drv0);
    [apply answers_api|vm_compute; reflexivity|reflexivity|reflexivity|vm_compute; discriminate].
Defined.

Lemma refresh_settles_witness : settled WatchDevices run3 ∧ l_queue run3 = [].
Proof.
  refine (proj2 (refresh_settles 10 run1 run3 own_run) _ _); [|discriminate].
  intros l'' Hs. apply own_step_cost in Hs. vm_compute in Hs. lia.
Defined.

(** The API server is down during the refresh. *)
Definition down : Api := {|
  list_subnets := Err (External "down"); get_subnet _ := Err (External "down");
  get_vlan _ := Err (External "down"); get_node _ := Err (External "down") |}.

Lemma failed_refresh_waits_witness :
  ∃ l', settled WatchDevices (l' : L) ∧ l_failed l' = true ∧
    driverResources (sys_state (d_sys (l_state l'))) = driverResources st0.
Proof.
  destruct (failed_refresh_waits (driver_round down (λ _, None) (l_state run2)) (in_phase Refreshing (in_phase Delaying run2))) as (l' & _ & Hs & Hf & Hd & _); try reflexivity.
  - exists down, (λ _, None). split; [|split; [vm_compute; reflexivity|reflexivity]].
    unfold answers, or_fails. simpl. auto 10.
  - exists l'. exact (conj Hs (conj Hf Hd)).
Defined.

(** Subnet d is there when a claim for it is prepared and gone at the next refresh. *)
Definition env_d : PrepareEnv := {|
  env_enumerate _ := api_of cluster2; env_pods := env_pods env; env_api := env_api env; env_annotate := env_annotate env |}.

Lemma vanished_device_accepted_witness :
  let st1 := (checkAllocatable env_d st0 0 "subnet-d").1.2 in
  let st2 := (RefreshDevices (api_of cluster0) st1).2 in
  allocatableDevices (driverResources st2) (ds_nodeName st2) !! "subnet-d" = None ∧
  checkAllocatable env st2 0 "subnet-d" = (None, st2, 0).
Proof.
  eapply (vanished_device_accepted env_d env 0 0 (api_of cluster0) st0 "subnet-d"); vm_compute; reflexivity.
Defined.

(** The publisher, on the stores of the same cluster. *)
Definition stores_of (c : Cluster) : Stores := {|
  subnets_store := Some <$> c_subnets c; vlans_store name := Ok (Some <$> (c_vlans c !! name));
  ips_store := []; claims_store := [] |}.
Definition by_pod (owners : OwnersOf) : Prop := ∀ ns pod, owners ns pod = [pod].
Definition pod_owner : OwnersOf := λ _ pod, [pod].

Definition publishing (p : Phase) (c : Cluster) (q : list unit) (t : bool) (s : Publisher) : Loop Stores unit Publisher := {|
  l_cluster := stores_of c; l_queue := q; l_trigger := t; l_phase := p; l_state := s; l_failed := false |}.
Definition get_role (name : string) : result (string * string) := Ok (name, "r1").
Definition pub0 : Publisher :=
  ok_or {| pub_last := no_resources; pub_full := None |}
    (publish_start get_role "publisher" None None (λ _ _, None) (snapshot driver true (stores_of cluster1) pod_owner)).
Definition pub1 : Publisher := publish_round (snapshot driver true (stores_of cluster2) pod_owner) pub0.

Lemma publisher_follows_witness :
  publisher_current driver true by_pod (stores_of cluster2) pub1 ∧ is_Some (Pools_of (pub_last pub1) !! "d").
Proof.
  split; [|vm_compute; eexists; reflexivity].
  refine (proj2 (publisher_follows driver true by_pod get_role "publisher" None None (λ _ _, None) (stores_of cluster1)
    pod_owner pub0 [] (publishing Waiting cluster2 [] false pub1) (λ _ _, eq_refl) _ _) _);
    [vm_compute; reflexivity| |by repeat split].
  eapply rtc_l; [apply (step_change _ _ _ _ (publishing Waiting cluster1 [] false pub0) tt (stores_of cluster2) I)|].
  eapply rtc_l; [apply step_own, (loop_deliver _ _ (publishing Waiting cluster2 [tt] false pub0) tt []); reflexivity|].
  eapply rtc_l; [apply step_own, (loop_take _ _ (publishing Waiting cluster2 [] true pub0)); reflexivity|].
  eapply rtc_l; [apply step_own, (loop_drain _ _ (publishing Delaying cluster2 [] false pub0)); reflexivity|].
  eapply rtc_l; [apply step_own, (loop_round _ _ (publishing Refreshing cluster2 [] false pub0) pub1 true);
    [reflexivity|exists pod_owner; split; [exact (λ _ _, eq_refl)|done]]|].
  apply rtc_refl.
Defined.
