(* ===== verification/VmiExample.v ===== *)
(** * Two NICs of a VM, recorded on its VMI

    A cluster as a map of JSON objects, in which a pod of a virtual machine has a claim
    with two NICs, and the requests that record their MACs arrive in the other order. *)

From S2P Require Import Prelude K8s NicConfig Subnet Json Annotation Store NicPrepare Profile Cdi Checkpoint State Vmi Example.
Import node.

Module vmi.

Abbreviation cluster := (gmap (string * string) json).

#[global] Instance server : ApiServer cluster := {|
  get_vmi c ns name := c !! (ns, name);
  Patch c ns name patch :=
    match c !! (ns, name) with
    | None => (Some (NotFound name), c)
    | Some v => (None, <[(ns, name) := merge_patch v patch]> c)
    end |}.

#[global] Instance server_laws : ApiServerLaws cluster.
Proof.
  split; simpl.
  - intros c c' ns name patch. destruct (c !! _) as [v|] eqn:Hv; intros [= <-]. exists v, (merge_patch v patch).
    by rewrite lookup_insert_eq.
  - intros c c' ns name patch e ns' name'. destruct (c !! _) as [v|]; intros [= <- <-] Hne; [|done].
    by rewrite lookup_insert_ne by congruence.
  - intros c c' ns name patch e. by destruct (c !! _) as [v|] eqn:Hv; intros [= <- <-].
Qed.

(** The pod of [Example] as the launcher of a virtual machine. *)
Definition launcher : Pod := {|
  Pod_Name := "web"; Pod_UID := "u1"; Pod_Labels := ∅;
  Pod_Annotations := Some (list_to_map ((tmplVM "a.default.ovn", "vm1") :: (tmplVM "b.default.ovn", "vm1")
                                        :: annotations "a.default.ovn" "10.0.0.5" "00:00:00:00:00:05"
                                        ++ annotations "b.default.ovn" "10.0.0.6" "00:00:00:00:00:06"));
  Pod_NodeName := "node1"; Pod_Phase := PodPending |}.
Definition vm_env : PrepareEnv := {|
  env_enumerate _ := Profile.example.api;
  env_pods _ _ _ name := if bool_decide (name = "web") then Ok launcher else Err (NotFound name);
  env_api _ := Profile.example.api;
  env_annotate _ := None |}.
Definition items : list prepItem :=
  [{| item_result := res "r1" "a"; item_iface := "net1" |}; {| item_result := res "r2" "b"; item_iface := "net2" |}].

(** The VMI has an annotation of its own. *)
Definition c0 : cluster :=
  {[("ns", "vm1") := JObj [("metadata", JObj [("annotations", JObj [("kept", JStr "yes")])]); ("spec", JObj [])]]}.
Definition writes := rev (resolved_macs vm_env st0 claim items).
Definition c2 : cluster := (annotate_all c0 writes).2.

End vmi.
Import vmi.

Example resolved_vm_macs :
  writes = [("ns", "vm1", "nic.kubeovn.io/mac.net2", "00:00:00:00:00:06");
            ("ns", "vm1", "nic.kubeovn.io/mac.net1", "00:00:00:00:00:05")].
Proof. vm_compute. reflexivity. Qed.

Example annotations_kept :
  (λ v, annotation v <$> ["kept"; "nic.kubeovn.io/mac.net1"; "nic.kubeovn.io/mac.net2"]) <$> c2 !! ("ns", "vm1") =
  Some [Some "yes"; Some "00:00:00:00:00:05"; Some "00:00:00:00:00:06"].
Proof. vm_compute. reflexivity. Qed.

Lemma resolveNICs_recorded_witness :
  (∃ v, get_vmi c2 "ns" "vm1" = Some v ∧ annotation v "nic.kubeovn.io/mac.net1" = Some "00:00:00:00:00:05") ∧
  annotated c2 "ns" "vm1" "kept" = annotated c0 "ns" "vm1" "kept".
Proof.
  destruct (resolveNICs_recorded vm_env st0 claim items writes c0 c2) as [H1 H2].
  - vm_compute. reflexivity.
  - vm_compute. reflexivity.
  - symmetry. apply Permutation_rev.
  - vm_compute. reflexivity.
  - split.
    + destruct (resolveNIC vm_env st0 claim 0 {| item_result := res "r1" "a"; item_iface := "net1" |}).1 as [cfg|] eqn:E;
        [|vm_compute in E; discriminate E].
      pose proof (H1 0 {| item_result := res "r1" "a"; item_iface := "net1" |} cfg eq_refl E) as H.
      vm_compute in E. injection E as <-. apply H. done.
    + apply H2. intros it [->|[->|Hit%elem_of_nil]%elem_of_cons]%elem_of_cons; done.
Defined.
